(* ===== verification/_CoqProject ===== *)
-Q . S2P
Prelude.v
Bytes.v
Text.v
Primitives.v
Instances.v
World.v
Crypto.v
KeyFile.v
PeerStore.v
ChatDb.v
Wire.v
Handshake.v
Session.v
SharedSocket.v
ServerProto.v
ServerClient.v
Tasks.v
ClientFiles.v
ClientCore.v
Connect.v
Conversation.v
Orchestrate.v
System.v
EventChannel.v
Layout.v
Handle.v
Cli.v
Process.v
Gui.v
GuiView.v
Conformance.v
