(* ===== verification/Prelude.v ===== *)
(** * sechat-client: a verification development

    sechat is a peer-to-peer chat client in Rust.  This library models the
    crates that carry its logic, with both front-ends, and proves what makes
    them correct.

    ** The program

    - [crypto] (src/crates/crypto/src/lib.rs): the identity files, the key
      schedule, message and blob encryption, the directory of known peers and
      one [sled] database per conversation.
    - [p2p] (src/crates/p2p/src/lib.rs): hole punching, STUN discovery, the
      signed ephemeral handshake over UDP or over the relay, and the reader
      and writer tasks of a chat session.
    - [serverclient] (src/crates/serverclient/src): the websocket connection
      to the server: its messages, the online table, offline blobs, the
      connect-time handshake and the tasks that serve the connection.
    - [client] (src/crates/client/src): aliases, contacts, the command loop
      that both front-ends drive, the connect-retry ladder, and
      [connect_session], which turns a server hint into a live session.
    - sechat-cli (src/crates/client/src/bin/sechat-cli.rs) and gui
      (src/crates/gui/src/main.rs): the front-ends over the [Client] handle.

    The client asks the server to broker a connection; the server answers with
    [PunchHole] events, which start [connect_session] tasks; these punch,
    shake hands and put the session into a shared map; commands send through
    that map, or, when there is no session, seal an offline blob for the
    server.  Every message, sent or received, ends in the conversation log.

    ** The files

    - [Prelude]: results, the state-passing notation [let!] and [let?] (Rust's
      [?]), the development's tactics and the lemmas every file shares.
    - [Bytes], [Text]: bytes, fixed-size arrays, 64-bit integers with their
      wrap-around, UTF-8 and the string operations of Rust's library.
    - [Primitives]: third-party code as operations of classes ([Primitives],
      [Rmp], [Sled], [Env]), with the facts the program relies on as law
      classes ([KeyLaws], [DhLaws], [SigLaws], [KdfLaws], [ArgonLaws],
      [AeadLaws], [HexLaws], [RmpLaws], [SledLaws], [EnvLaws]).  A theorem's
      context lists the laws it uses.  [Instances] has one executable instance
      of all of them, on which the witnesses run.
    - [World]: the file system as a map from paths to nodes, with the faults
      and the partial writes the environment chooses, the clock and the random
      generator.
    - [Crypto], [KeyFile], [PeerStore], [ChatDb]: the [crypto] crate, with the
      client functions directly over them ([create_identity], [unlock],
      [persist_message], [Client::history]).
    - [Wire], [Handshake], [Session]: the [p2p] crate.  [SharedSocket]: the
      session readers of one client competing for the datagrams of its one
      UDP socket, with their idle timers.
    - [ServerProto], [ServerClient]: structs.rs with generators.rs, and lib.rs
      with handlers.rs, of [serverclient].  [Tasks] interleaves the tasks that
      [run_client] spawns over their bounded channels.
    - [ClientFiles], [ClientCore], [Connect], [Conversation], [Orchestrate],
      [Handle]: the [client] crate's lib.rs: its files and names; commands,
      server events and retries; [connect_session], as interleaved tasks and
      as one task in sequence with the pump that stores what a session
      delivers; the reconnect loop; the [Client] handle.
    - [System]: the whole client as one machine: the reconnect loop, the
      [connect_session] tasks and the pumps of the sessions over one state.
    - [EventChannel]: [run_client] under [orchestrate] with the bounded event
      channel between them.
    - [Layout]: what every operation leaves at every path of the store.
    - [Cli], [Process]: sechat-cli, its start-up, event lines and command
      lines, and the process made of its three tasks, [shutdown_signal] and
      the machine of [System].
    - [Gui], [GuiView]: the state and updates of the gui, and its views.
    - [Conformance]: the unit tests of the crates as definitions, with the
      theorems that they pass.

    ** How code becomes definitions

    A function that touches the world is a state-passing function over
    [World], [Net], [Srv], [Core], [Orch], [Front], [Term] or [Gui] (each holds
    the one before that it builds on, and what the code sends or prints, in
    order); an error is a
    [result] with the source's error type; where a source function can panic,
    the model returns [None] or [Panicked].  An async task is a function of
    the list of events that its [select!] loop sees, in the order in which the
    branches fire; [None] or [Waiting] means that the loop still waits.  So a
    theorem over all event lists covers all schedules of that task.  Where
    tasks share state ([connect_session]), [Connect] has a labelled transition
    system whose labels are the atomic pieces of a task, and the theorems are
    about its reachable states; [Tasks] does so for the connection, one step
    per await.  [System.sys_step] puts [orchestrate], the connect tasks and
    the pumps together: a branch of the loop, an atomic piece of a connect
    task, the insertion of a session with its [SessionUp] event and the start
    of its pump, and one event of a pump are the steps, in any order; the
    server's events are arbitrary, so that every behaviour of the connection's
    tasks is covered.  (A branch is one step although it awaits locks and
    sends between.)  [Process.pstep] adds the tasks of the terminal program
    and the command channel between them, and [SharedSocket.so_step]
    interleaves socket readers under a clock that passes no timer by.
    [Gui.gui_step] does the same for the messages of the gui and
    the moves of the core, and [GuiView.view_step] for the messages its
    windows offer.  A view is a tree of texts, fields and buttons ([element]);
    the palettes and themes of the toolkit are parameters ([Iced]).

    Integers: [i64] and [u64] are [Z] with wrap-around written out ([i64_sub],
    [as_u64]), as in a release build.  A file, a datagram and a log entry are
    byte lists; a receive buffer cuts a datagram ([recv_buf]).

    Waiting: the websocket is the list of items that arrive on it, and after
    the last of them it is open and silent, unless that item ends it ([WsClose],
    [WsEnd], [WsError]).  Code that awaits a message there returns [Silent], for
    none of it has a timeout; [Blocked] is the wait for room in the full event
    channel, which nobody reads at that moment.

    Clocks: [Env.clock] gives the readings in order, and [w_clock] says which
    one comes next.  They need not be related to each other in any way; where a
    theorem needs two clocks to agree it says so reading by reading
    ([clocks_in_step], [meets]).

    Fuel: only [drain_blobs] needs it, since it runs until the server says
    [PendingBlobsEnd].  [server_initial_handshake] calls it with one more unit
    than there are items left on the stream; each round consumes an item, and
    [handshake_ends_with_server] shows that it is enough.

    ** What the theorems show

    - Sessions and conversations (C1-C4, C32): whatever the network does, the
      texts delivered are a subsequence of the texts sent; over a working
      network, with each frame read within 120 seconds of its timestamp, all
      of them are delivered, however long it takes; from the hole punch to the other
      user's history, what one user types is what the other reads; counters
      strictly increase and nonces never repeat, and the byte loop that makes
      a nonce is the XOR with the shifted counter.
    - The shared socket (C16, C21, C37): competing readers never make a
      session report something false, and a session that has the socket to
      itself gets everything ([sole_reader_delivers]); but two sessions can
      lose every datagram to each other, and the idle timer watches the socket
      instead of the peer.
    - Handshakes (C5, C6): both ends agree on the key, and the key comes from
      a fresh [Init] the peer signed.  Unclaimed: the same for the relay, and
      what the signed bytes leave open.
    - Offline blobs (C7, C8, C23, C28): a sealed message arrives in the
      recipient's log; only a known and authentic sender can change the store,
      and only with a payload dated within 30 days of the clock (or exactly
      2^63 seconds before it); every blob is acknowledged; purge.
    - The server connection (C11, C20, C24, C35, C36): in every interleaving
      of its tasks what arrives is handled in order and what is queued reaches
      the wire in order, within the channels' capacities; left alone, the
      tasks come to rest with everything handled and sent; the connect-time
      handshake ends when the server ends it and else waits for ever; and how
      a backlog blocks the handshake and an abandoned connection goes on.
    - Storage (C9, C10, C25, C29): the conversation log is refined by a list
      of messages to which [persist_message] appends; the key files round
      trip; every path of the store holds the kind of node the code expects
      there, under every fault, and nothing else on the disk changes; the peer
      directory invariant.  Unclaimed
      theorems give the round trips of peers and aliases.
    - The client (C12-C15, C19, C22, C26, C27, C30, C31, C40): the whole client
      refines the connect machine, so that its invariants hold there; the
      interface is told of every session's begin and end exactly once; a text
      goes to a session of the peer it is for; one connect attempt per peer at
      a time in every interleaving; the relay path never comes up; retries and
      reconnects are bounded; a text is sent live or as a blob and always
      stored; removing a peer removes all of it.
    - The front-ends (C17, C18, C33, C34, C38, C39): the terminal program's
      client stops only when it is asked to, and asked in time it queues its
      farewell to every peer, which the connection's writer puts on the wire
      when it gets to run before the exit; the
      gui's screen only offers what can be done, and the invariant of its
      state.

    Several of these state a defect as a fact about the code: C19 (relay inbox
    registered too late), C20 (a hundred pending messages block the client for
    good), C35 (no timeout on the server), C8 (an expiry check that wraps), C21
    and C37 (the shared socket), C22 (a second session replaces a
    live one, whose end then takes the second out of the map), C27 (no command
    is read during an outage), C28 (a purge names no recipient), C36 (the old
    connection goes on announcing), C38 (the end of the input skips the
    shutdown), C39 (a second submit overwrites a new identity), C40 (a text for
    a dead session is stored and not sent).  Unclaimed theorems state others:
    [long_frame_lost] (2048-byte buffer), [chat_signature_accepted_as_init] (no
    domain separation in the signed bytes), [late_message_hides_contacts],
    [removed_peer_stays_listed], [no_presence_events], and [select_peer_shows]
    covers the case in which the lines of another peer stay on the screen.

    ** Assumptions and what is not modelled

    - The law classes state documented facts: Diffie-Hellman commutes,
      signatures verify, encryption inverts, codecs round-trip, [sled] is an
      ordered map.  No theorem assumes that forging or guessing is impossible,
      and no secrecy is claimed: C6 and C8 say which signature was checked.
    - Faults: a system call fails with any error at any moment, and a failing
      write leaves any part of its data; a failing [remove_dir_all] or
      [create_dir_all] leaves the tree unchanged, where the real call may have
      removed or created a part of it.  Lock poisoning and the panic of a
      missing home directory are left out.
    - Timers are the events they cause.  The channels of a server connection
      and its event channel have their capacity of 100 ([Tasks],
      [EventChannel]); the command, session and relay channels only delay a
      task whose reader is alive, and are lists.  [Session] gives a reader its
      own socket; [SharedSocket] relates this to the one socket of a client.
      A punch, a handshake or STUN that takes a datagram there is followed
      only as far as the datagram is gone; for them, what a reader took is
      loss.
    - [Core.c_out] is what the client has put into the channel of the
      connection ([server_send]), not what has reached the server: in [System]
      and [Process] that channel is a list, and the way from it to the wire is
      [Tasks]; C18 joins the two.
    - [GuiView.shown]: a message is handled in a state whose view offers it.  A
      message that was queued against an older view (the second half of a
      double click on a button that is gone) is covered by [Gui.gui_step],
      which allows every message in every state (C34), and not by C33.
    - The dial (websocket and TLS) is an argument of [connect_to_server].  The
      300 ms a front-end sleeps after [Client::shutdown] are a label of
      [Process], which need not leave the loop time; what the system does with
      a signal that has no handler is left out.
    - Without definitions: the sizes, paddings and fonts of the gui's widgets
      and its call of the toolkit's main loop, the debug output of
      [serverclient], [ensure_crypto_provider], and the unused [P2PMessage] of
      structs.rs.

    Every component of the program is modelled; what could be added is the
    punch, the handshake and STUN as readers of [SharedSocket], and the gui
    over the machine of [System] as [Process] has the terminal program. *)

From stdpp Require Export base tactics option list numbers gmap strings.
From Stdlib Require Export ZArith Lia StrictProp.

Set Default Proof Using "Type".
#[export] Set Warnings "-clear-no-such-hyp".

(** ** Results: Rust's [Result<A, E>] *)

Inductive result (A E : Type) : Type :=
| Ok (a : A)
| Err (e : E).
Arguments Ok {A E} a.
Arguments Err {A E} e.

Definition map_err {A E F} (f : E → F) (r : result A E) : result A F :=
  match r with Ok a => Ok a | Err e => Err (f e) end.

Definition map_ok {A B E} (f : A → B) (r : result A E) : result B E :=
  match r with Ok a => Ok (f a) | Err e => Err e end.

Definition is_ok {A E} (r : result A E) : bool :=
  match r with Ok _ => true | Err _ => false end.

(** [Result::ok] *)
Definition to_option {A E} (r : result A E) : option A :=
  match r with Ok a => Some a | Err _ => None end.

Definition unwrap_or {A E} (d : A) (r : result A E) : A :=
  match r with Ok a => a | Err _ => d end.

(** [Option::ok_or] *)
Definition ok_or {A E} (e : E) (o : option A) : result A E :=
  match o with Some a => Ok a | None => Err e end.

Definition rbind {A B E} (r : result A E) (k : A → result B E) : result B E :=
  match r with Ok a => k a | Err e => Err e end.

(** ** Stateful code: explicit state passing

    [St S A] is a computation that threads a state [S]; a fallible one
    returns a [result].  [let!] sequences, [let?] is Rust's [?] operator:
    it stops with the error and keeps the state reached so far. *)

Definition St (S A : Type) : Type := S → A * S.

Definition sret {S A} (a : A) : St S A := λ s, (a, s).
Definition sbind {S A B} (m : St S A) (k : A → St S B) : St S B :=
  λ s, let '(a, s') := m s in k a s'.
Definition ebind {S A B E} (m : St S (result A E)) (k : A → St S (result B E)) :
    St S (result B E) :=
  λ s, match m s with
       | (Ok a, s') => k a s'
       | (Err e, s') => (Err e, s')
       end.
Definition smap_err {S A E F} (f : E → F) (m : St S (result A E)) : St S (result A F) :=
  λ s, let '(r, s') := m s in (map_err f r, s').
Definition sget {S} : St S S := λ s, (s, s).
Definition smodify {S} (f : S → S) : St S unit := λ s, (tt, f s).

Declare Scope sechat_scope.
Delimit Scope sechat_scope with sechat.
Open Scope sechat_scope.

Notation "'let!' x ':=' m 'in' k" := (sbind m (λ x, k))
  (at level 10, x pattern, m at level 100, k at level 200) : sechat_scope.
Notation "'let?' x ':=' m 'in' k" := (ebind m (λ x, k))
  (at level 10, x pattern, m at level 100, k at level 200) : sechat_scope.
Notation "'let*' x ':=' r 'in' k" := (rbind r (λ x, k))
  (at level 10, x pattern, r at level 100, k at level 200) : sechat_scope.

(** [for x in l { body }] *)
Fixpoint sfor {S A} (l : list A) (body : A → St S unit) : St S unit :=
  match l with
  | [] => sret tt
  | x :: l' => let! _ := body x in sfor l' body
  end.

(** [for x in l { body?; }] *)
Fixpoint efor {S A E} (l : list A) (body : A → St S (result unit E)) :
    St S (result unit E) :=
  match l with
  | [] => sret (Ok tt)
  | x :: l' => let? _ := body x in efor l' body
  end.

(** [iter.map(f).collect::<Result<Vec<_>, _>>()] *)
Fixpoint ecollect {S A B E} (l : list A) (f : A → St S (result B E)) :
    St S (result (list B) E) :=
  match l with
  | [] => sret (Ok [])
  | x :: l' => let? y := f x in let? ys := ecollect l' f in sret (Ok (y :: ys))
  end.

(** Stepping through a computation whose next part is known. *)
Lemma sbind_step {S A B} (m : St S A) (k : A → St S B) s a s' :
  m s = (a, s') → sbind m k s = k a s'.
Proof. unfold sbind. by intros ->. Qed.
Lemma ebind_step {S A B E} (m : St S (result A E)) (k : A → St S (result B E)) s a s' :
  m s = (Ok a, s') → ebind m k s = k a s'.
Proof. unfold ebind. by intros ->. Qed.
Lemma ebind_stop {S A B E} (m : St S (result A E)) (k : A → St S (result B E)) s e s' :
  m s = (Err e, s') → ebind m k s = (Err e, s').
Proof. unfold ebind. by intros ->. Qed.
Lemma smap_err_step {S A E F} (f : E → F) (m : St S (result A E)) s a s' :
  m s = (Ok a, s') → smap_err f m s = (Ok a, s').
Proof. unfold smap_err. by intros ->. Qed.

(** A preorder that every part of a computation respects, it respects. *)
Section Respects.
Context {S : Type} (R : relation S) `{!PreOrder R}.
Definition respects {A} (m : St S A) : Prop := ∀ s, R s (m s).2.

Lemma sret_respects {A} (a : A) : respects (sret a).
Proof using PreOrder0. intros s. done. Qed.
Lemma sget_respects : respects sget.
Proof using PreOrder0. intros s. done. Qed.
Lemma sbind_respects {A B} (m : St S A) (k : A → St S B) :
  respects m → (∀ a, respects (k a)) → respects (sbind m k).
Proof using PreOrder0.
  intros Hm Hk s. unfold sbind. specialize (Hm s). destruct (m s) as [a s1].
  etrans; [exact Hm|apply Hk].
Qed.
Lemma ebind_respects {A B E} (m : St S (result A E)) (k : A → St S (result B E)) :
  respects m → (∀ a, respects (k a)) → respects (ebind m k).
Proof using PreOrder0.
  intros Hm Hk s. unfold ebind. specialize (Hm s). destruct (m s) as [[a|e] s1]; [|done].
  etrans; [exact Hm|apply Hk].
Qed.
Lemma smap_err_respects {A E F} (f : E → F) (m : St S (result A E)) :
  respects m → respects (smap_err f m).
Proof. intros Hm s. unfold smap_err. specialize (Hm s). by destruct (m s). Qed.
Lemma efor_respects {A E} (l : list A) (body : A → St S (result unit E)) :
  (∀ x, respects (body x)) → respects (efor l body).
Proof using PreOrder0.
  intros Hb. induction l as [|x l IH]; simpl; [apply sret_respects|by apply ebind_respects].
Qed.
Lemma sfor_respects {A} (l : list A) (body : A → St S unit) :
  (∀ x, respects (body x)) → respects (sfor l body).
Proof using PreOrder0.
  intros Hb. induction l as [|x l IH]; simpl; [apply sret_respects|by apply sbind_respects].
Qed.
Lemma ecollect_respects {A B E} (l : list A) (f : A → St S (result B E)) :
  (∀ x, respects (f x)) → respects (ecollect l f).
Proof using PreOrder0.
  intros Hb. induction l as [|x l IH]; simpl; [apply sret_respects|].
  apply ebind_respects; [done|]. intros y. apply ebind_respects; [done|]. intros ys. apply sret_respects.
Qed.
End Respects.

(** ** Strict-proposition side conditions

    Fixed-size arrays and Unicode scalar values carry a boolean side
    condition as a proof in [SProp], so that equality of the carried data is
    equality of the values, definitionally. *)

Definition SIsTrue (b : bool) : SProp := if b then sUnit else sEmpty.

Lemma SIsTrue_true (b : bool) : SIsTrue b → b = true.
Proof. destruct b; simpl; [done|]. intros H. destruct H. Qed.

Definition SIsTrue_of (b : bool) (H : b = true) : SIsTrue b :=
  match eq_sym H in _ = b' return SIsTrue b' with eq_refl => stt end.

(** ** Automation *)

Create HintDb sechat.

(** Case analysis on every [match] of the goal, discarding absurd cases. *)
Ltac split_match :=
  repeat (case_match; simplify_eq/=; try done).

(** Case analysis on every [match] of a hypothesis. *)
Ltac split_match_in H :=
  repeat (match type of H with context [ match ?x with _ => _ end ] =>
            destruct x eqn:?; simplify_eq/=; try done end).

(** Unfold the state combinators in the goal. *)
Ltac run := unfold sbind, ebind, sret, smap_err, sget, smodify; simpl.
Ltac run_in H := unfold sbind, ebind, sret, smap_err, sget, smodify in H; simpl in H.

(** Break a [respects] goal down to its parts. *)
Ltac respects_step :=
  match goal with
  | |- respects _ (sret _) => refine (sret_respects _ _)
  | |- respects _ sget => refine (sget_respects _)
  | |- respects _ (smap_err _ _) => refine (smap_err_respects _ _ _ _)
  | |- respects _ (sbind _ _) => refine (sbind_respects _ _ _ _ _); [|intros ?]
  | |- respects _ (ebind _ _) => refine (ebind_respects _ _ _ _ _); [|intros ?]
  | |- respects _ (efor _ _) => refine (efor_respects _ _ _ _); intros ?
  | |- respects _ (sfor _ _) => refine (sfor_respects _ _ _ _); intros ?
  | |- respects _ (ecollect _ _) => refine (ecollect_respects _ _ _ _); intros ?
  | |- respects _ (match ?x with _ => _ end) => destruct x
  end.

(** ** Lists, options *)

Lemma take_app_exact {A} (l k : list A) n : n = length l → take n (l ++ k) = l.
Proof. intros ->. apply take_app_length. Qed.

Lemma drop_app_exact {A} (l k : list A) n : n = length l → drop n (l ++ k) = k.
Proof. intros ->. apply drop_app_length. Qed.

Lemma app_inj_length {A} (l1 l2 k1 k2 : list A) :
  length l1 = length l2 → l1 ++ k1 = l2 ++ k2 → l1 = l2 ∧ k1 = k2.
Proof. apply app_inj_1. Qed.

Lemma snoc_ne {A} (p : list A) x y : x ≠ y → p ++ [x] ≠ p ++ [y].
Proof. intros Hne Heq. apply app_inv_head in Heq. congruence. Qed.

Lemma last_rev {A} (l : list A) : last (rev l) = head l.
Proof. destruct l as [|x l]; [done|]. simpl. by rewrite last_snoc. Qed.

Lemma find_app {A} (f : A → bool) (l k : list A) :
  List.find f (l ++ k) = match List.find f l with Some x => Some x | None => List.find f k end.
Proof. induction l as [|x l IH]; simpl; [done|]. by destruct (f x). Qed.

Lemma omap_cons {A B} (f : A → option B) x (l : list A) :
  omap f (x :: l) = match f x with Some y => y :: omap f l | None => omap f l end.
Proof. done. Qed.

Lemma filter_Forall {A} (P : A → Prop) `{∀ x, Decision (P x)} (l : list A) :
  Forall P l → filter P l = l.
Proof. induction 1; [done|]. rewrite filter_cons_True; [by f_equal|done]. Qed.

Lemma list_filter_iff' {A} (P Q : A → Prop) `{∀ x, Decision (P x), ∀ x, Decision (Q x)} (l : list A) :
  (∀ x, x ∈ l → P x ↔ Q x) → filter P l = filter Q l.
Proof.
  induction l as [|x l IH]; intros HPQ; [done|].
  assert (IH' : filter P l = filter Q l) by (apply IH; set_solver).
  assert (Hx : P x ↔ Q x) by (apply HPQ; set_solver).
  rewrite !filter_cons, IH'. destruct (decide (P x)), (decide (Q x)); tauto.
Qed.

#[export] Hint Resolve SIsTrue_true : sechat.
