(* ===== verification/Bytes.v ===== *)
(** * Bytes, fixed-size arrays and machine integers

    The byte-level vocabulary of the crates: [Vec<u8>] is a list of
    [Byte.byte], [[u8; n]] an [array n], [i64]/[u64] are integers with their
    wrap-around written out, [to_le_bytes]/[to_be_bytes]/[from_be_bytes] and
    Rust's lexicographic order on byte slices. *)

From Stdlib Require Import Strings.Byte.
From S2P Require Import Prelude.

Abbreviation byte := Byte.byte.
Abbreviation bytes := (list Byte.byte).

Local Open Scope Z_scope.

(** ** Single bytes *)

Definition byte_val (b : byte) : Z := Z.of_N (Byte.to_N b).
Definition byte_of (z : Z) : byte := default x00 (Byte.of_N (Z.to_N (z mod 256))).
Definition byte_xor (a b : byte) : byte := byte_of (Z.lxor (byte_val a) (byte_val b)).

#[export] Instance byte_eq_dec : EqDecision byte := Byte.byte_eq_dec.
#[export] Program Instance byte_countable : Countable byte :=
  inj_countable Byte.to_N Byte.of_N _.
Next Obligation. intros b. apply Byte.of_to_N. Qed.

Lemma byte_val_range b : 0 ≤ byte_val b < 256.
Proof. unfold byte_val. pose proof (Byte.to_N_bounded b). lia. Qed.

Lemma byte_of_val b : byte_of (byte_val b) = b.
Proof.
  unfold byte_of. rewrite Z.mod_small by apply byte_val_range.
  unfold byte_val. by rewrite N2Z.id, Byte.of_to_N.
Qed.

Lemma byte_val_of z : byte_val (byte_of z) = z mod 256.
Proof.
  unfold byte_of, byte_val. pose proof (Z.mod_pos_bound z 256 ltac:(lia)).
  destruct (Byte.of_N (Z.to_N (z mod 256))) as [b|] eqn:E; simpl.
  - apply Byte.to_of_N in E. rewrite E. lia.
  - apply Byte.of_N_None_iff in E. lia.
Qed.

Lemma byte_val_inj a b : byte_val a = byte_val b → a = b.
Proof. intros H. by rewrite <- (byte_of_val a), H, byte_of_val. Qed.

(** ** Numbers in base [2 ^ m] *)

Lemma testbit_digit m a x n : 0 ≤ m → 0 ≤ a < 2 ^ m → 0 ≤ n →
  Z.testbit (a + 2 ^ m * x) n = if n <? m then Z.testbit a n else Z.testbit x (n - m).
Proof.
  intros Hm Ha Hn. destruct (Z.ltb_spec n m).
  - rewrite <- (Z.mod_pow2_bits_low _ m) by lia. rewrite (Z.mul_comm (2 ^ m)), Z.mod_add by lia. by rewrite Z.mod_small.
  - replace n with ((n - m) + m) at 1 by lia. rewrite <- Z.div_pow2_bits by lia.
    rewrite (Z.mul_comm (2 ^ m)), Z.div_add by lia. by rewrite Z.div_small.
Qed.

Lemma lxor_range m a b : 0 ≤ m → 0 ≤ a < 2 ^ m → 0 ≤ b < 2 ^ m → 0 ≤ Z.lxor a b < 2 ^ m.
Proof.
  intros Hm Ha Hb. replace (Z.lxor a b) with (Z.lxor a b mod 2 ^ m); [apply Z.mod_pos_bound; lia|].
  apply Z.bits_inj'. intros n Hn. destruct (decide (n < m)).
  - by apply Z.mod_pow2_bits_low.
  - rewrite Z.mod_pow2_bits_high, Z.lxor_spec by lia.
    rewrite <- (Z.mod_small a (2 ^ m)), <- (Z.mod_small b (2 ^ m)) by done.
    by rewrite !Z.mod_pow2_bits_high by lia.
Qed.

(** XOR works digit by digit. *)
Lemma lxor_digit m a b x y : 0 ≤ m → 0 ≤ a < 2 ^ m → 0 ≤ b < 2 ^ m →
  Z.lxor (a + 2 ^ m * x) (b + 2 ^ m * y) = Z.lxor a b + 2 ^ m * Z.lxor x y.
Proof.
  intros Hm Ha Hb. apply Z.bits_inj'. intros n Hn.
  rewrite Z.lxor_spec, !testbit_digit by (done || by apply lxor_range).
  destruct (n <? m); by rewrite Z.lxor_spec.
Qed.

Lemma lxor_byte_range a b : 0 ≤ a < 256 → 0 ≤ b < 256 → 0 ≤ Z.lxor a b < 256.
Proof. apply (lxor_range 8). lia. Qed.

Lemma byte_val_xor a b : byte_val (byte_xor a b) = Z.lxor (byte_val a) (byte_val b).
Proof.
  unfold byte_xor. rewrite byte_val_of. apply Z.mod_small.
  apply lxor_byte_range; apply byte_val_range.
Qed.

Lemma byte_xor_comm a b : byte_xor a b = byte_xor b a.
Proof. unfold byte_xor. by rewrite Z.lxor_comm. Qed.

Lemma byte_xor_inj_r a b c : byte_xor a b = byte_xor a c → b = c.
Proof.
  intros H. apply byte_val_inj. apply (f_equal byte_val) in H. rewrite !byte_val_xor in H.
  apply (f_equal (Z.lxor (byte_val a))) in H.
  by rewrite <- !Z.lxor_assoc, !Z.lxor_nilpotent, !Z.lxor_0_l in H.
Qed.

(** ** Fixed-size arrays *)

Record array (n : nat) := Array {
  arr_data : bytes;
  arr_wf : SIsTrue (Nat.eqb (length arr_data) n)
}.
Arguments Array {n} arr_data arr_wf.
Arguments arr_data {n} _.
Arguments arr_wf {n} _.

Lemma arr_length {n} (a : array n) : length (arr_data a) = n.
Proof. apply Nat.eqb_eq, SIsTrue_true, (arr_wf a). Qed.

Lemma arr_ext {n} (a b : array n) : arr_data a = arr_data b → a = b.
Proof. destruct a as [la ?], b as [lb ?]; simpl. intros ->. done. Qed.

#[export] Instance arr_data_inj {n} : Inj (=) (=) (@arr_data n).
Proof. intros a b. apply arr_ext. Qed.

(** [<[u8; n]>::try_from(slice)] *)
Definition try_into (n : nat) (l : bytes) : option (array n) :=
  match Bool.bool_dec (Nat.eqb (length l) n) true with
  | left H => Some (Array l (SIsTrue_of _ H))
  | right _ => None
  end.

Lemma try_into_spec n l :
  match try_into n l with
  | Some a => arr_data a = l ∧ length l = n
  | None => length l ≠ n
  end.
Proof.
  unfold try_into. destruct (Bool.bool_dec _ _) as [H|H].
  - split; [done|]. by apply Nat.eqb_eq.
  - by rewrite Nat.eqb_eq in H.
Qed.

Lemma try_into_data {n} (a : array n) : try_into n (arr_data a) = Some a.
Proof.
  pose proof (try_into_spec n (arr_data a)) as H. destruct (try_into _ _) as [b|].
  - destruct H as [H _]. f_equal. by apply arr_ext.
  - destruct H. apply arr_length.
Qed.

Lemma try_into_Some n l a : try_into n l = Some a ↔ arr_data a = l.
Proof.
  split.
  - intros H. pose proof (try_into_spec n l) as Hs. rewrite H in Hs. by destruct Hs.
  - intros <-. apply try_into_data.
Qed.

Lemma try_into_None n l : try_into n l = None ↔ length l ≠ n.
Proof.
  pose proof (try_into_spec n l) as H. destruct (try_into n l) as [a|]; split; try done.
  destruct H as [_ H]. intros []. done.
Qed.

Lemma try_into_is_Some n l : length l = n → ∃ a, try_into n l = Some a ∧ arr_data a = l.
Proof.
  intros H. pose proof (try_into_spec n l) as Hs. destruct (try_into n l) as [a|]; [|done].
  exists a. by destruct Hs.
Qed.

#[export] Instance array_eq_dec n : EqDecision (array n).
Proof.
  intros a b. destruct (decide (arr_data a = arr_data b)) as [H|H].
  - left. by apply arr_ext.
  - right. intros ->. by apply H.
Defined.

#[export] Instance array_countable n : Countable (array n) :=
  inj_countable arr_data (try_into n) try_into_data.

(** An array from a list, padded with zeros or truncated: used only to write
    concrete arrays. *)
Definition pad (n : nat) (l : bytes) : bytes := take n (l ++ replicate n x00).

Lemma pad_length n l : length (pad n l) = n.
Proof. unfold pad. rewrite length_take, length_app, length_replicate. lia. Qed.

Definition pad_array (n : nat) (l : bytes) : array n :=
  Array (pad n l) (SIsTrue_of _ (proj2 (Nat.eqb_eq _ _) (pad_length n l))).

(** ** Machine integers *)

Definition two63 : Z := 2 ^ 63.
Definition two64 : Z := 2 ^ 64.
Definition i64_ok (z : Z) : Prop := - two63 ≤ z < two63.
Definition u64_ok (z : Z) : Prop := 0 ≤ z < two64.

(** Two's-complement wrap-around of an [i64] operation (release profile). *)
Definition wrap_i64 (z : Z) : Z := (z + two63) mod two64 - two63.
Definition i64_sub (a b : Z) : Z := wrap_i64 (a - b).
Definition i64_abs (a : Z) : Z := wrap_i64 (Z.abs a).
(** [x as u64] of an [i64], and unsigned wrap-around. *)
Definition as_u64 (z : Z) : Z := z mod two64.

Lemma wrap_i64_range z : i64_ok (wrap_i64 z).
Proof.
  unfold i64_ok, wrap_i64. pose proof (Z.mod_pos_bound (z + two63) two64 ltac:(done)).
  change two64 with (two63 + two63) in *. lia.
Qed.

Lemma wrap_i64_id z : i64_ok z → wrap_i64 z = z.
Proof.
  unfold i64_ok, wrap_i64. intros H.
  rewrite Z.mod_small; [lia|]. change two64 with (two63 + two63). lia.
Qed.

(** [(now - ts).abs() <= bound] on wrapping [i64]: the distance, and the one
    value 2^63 below the clock, where the subtraction wraps to [i64::MIN] and so
    does its absolute value. *)
Lemma i64_distance now ts bound :
  0 ≤ now < 2 ^ 62 → i64_ok ts → 0 ≤ bound < 2 ^ 62 →
  i64_abs (i64_sub now ts) ≤ bound ↔ Z.abs (now - ts) ≤ bound ∨ now - ts = two63.
Proof.
  intros Hn Ht Hb. assert (H63 : two63 = 2 * 2 ^ 62) by done. assert (H64 : two64 = 2 * two63) by done.
  set (T := 2 ^ 62) in *. unfold i64_ok in Ht.
  destruct (Z.lt_ge_cases (now - ts) two63) as [Hd|Hd].
  - unfold i64_sub. rewrite (wrap_i64_id (now - ts)) by (unfold i64_ok; lia).
    unfold i64_abs. rewrite wrap_i64_id by (unfold i64_ok; lia). lia.
  - assert (Hs : i64_sub now ts = now - ts - two64).
    { unfold i64_sub, wrap_i64. rewrite H64 at 2.
      replace (now - ts + two63) with ((now - ts - two63) + 1 * two64) by lia.
      rewrite Z.mod_add by lia. rewrite Z.mod_small by lia. lia. }
    rewrite Hs. destruct (decide (now - ts = two63)) as [He|He].
    + split; [by right|]. intros _. rewrite He. replace (two63 - two64) with (- two63) by lia.
      assert (Hw : i64_abs (- two63) = - two63) by done. rewrite Hw. lia.
    + unfold i64_abs. rewrite wrap_i64_id by (unfold i64_ok; lia). lia.
Qed.

Lemma as_u64_inj a b : 0 ≤ a → 0 ≤ b → i64_ok a → i64_ok b → as_u64 a = as_u64 b → a = b.
Proof.
  unfold as_u64, i64_ok. intros ????.
  rewrite !Z.mod_small by (change two64 with (two63 + two63); lia). done.
Qed.

(** ** Little- and big-endian encodings *)

Fixpoint le_bytes (n : nat) (z : Z) : bytes :=
  match n with
  | O => []
  | S n' => byte_of z :: le_bytes n' (z / 256)
  end.

Fixpoint le_val (l : bytes) : Z :=
  match l with
  | [] => 0
  | b :: l' => byte_val b + 256 * le_val l'
  end.

Definition to_le_bytes (z : Z) : bytes := le_bytes 8 z.
Definition to_be_bytes (z : Z) : bytes := rev (le_bytes 8 z).
Definition from_be_bytes (a : array 8) : Z := le_val (rev (arr_data a)).

Lemma le_bytes_length n z : length (le_bytes n z) = n.
Proof. revert z. induction n; intros; simpl; auto. Qed.

Lemma le_val_range l : 0 ≤ le_val l < 256 ^ Z.of_nat (length l).
Proof.
  induction l as [|b l IH]; simpl; [lia|].
  pose proof (byte_val_range b). rewrite Nat2Z.inj_succ, Z.pow_succ_r by lia. lia.
Qed.

Lemma le_val_bytes n z : le_val (le_bytes n z) = z mod 256 ^ Z.of_nat n.
Proof.
  revert z. induction n as [|n IH]; intros z.
  { simpl. by rewrite Z.mod_1_r. }
  cbn [le_bytes le_val]. rewrite IH, byte_val_of, Nat2Z.inj_succ, Z.pow_succ_r by lia.
  rewrite Z.rem_mul_r by lia. done.
Qed.

Lemma le_bytes_val l : le_bytes (length l) (le_val l) = l.
Proof.
  induction l as [|b l IH]; [done|]. cbn [length le_bytes le_val].
  pose proof (byte_val_range b) as Hb. f_equal.
  - apply byte_val_inj. rewrite byte_val_of, Z.mul_comm, Z.mod_add by lia.
    by apply Z.mod_small.
  - rewrite Z.mul_comm, Z.div_add by lia. rewrite Z.div_small, Z.add_0_l by lia. done.
Qed.

Lemma le_val_inj l k : length l = length k → le_val l = le_val k → l = k.
Proof. intros Hl Hv. rewrite <- (le_bytes_val l), <- (le_bytes_val k). by rewrite Hl, Hv. Qed.

Lemma le_val_app l k : le_val (l ++ k) = le_val l + 256 ^ Z.of_nat (length l) * le_val k.
Proof.
  induction l as [|b l IH]; cbn [app le_val length]; [lia|]. rewrite IH, Nat2Z.inj_succ, Z.pow_succ_r by lia. lia.
Qed.

Lemma le_val_xor l k : length l = length k → le_val (zip_with byte_xor l k) = Z.lxor (le_val l) (le_val k).
Proof.
  revert k. induction l as [|a l IH]; intros [|b k] [=]; [done|]. cbn [zip_with le_val].
  rewrite IH, byte_val_xor by done. change 256 with (2 ^ 8).
  rewrite lxor_digit by (lia || apply byte_val_range). done.
Qed.

Lemma to_le_bytes_length z : length (to_le_bytes z) = 8%nat.
Proof. apply le_bytes_length. Qed.

Lemma to_be_bytes_length z : length (to_be_bytes z) = 8%nat.
Proof. unfold to_be_bytes. by rewrite length_rev, le_bytes_length. Qed.

Lemma to_le_bytes_inj_u64 a b : u64_ok a → u64_ok b → to_le_bytes a = to_le_bytes b → a = b.
Proof.
  unfold u64_ok, to_le_bytes. intros Ha Hb H. apply (f_equal le_val) in H.
  rewrite !le_val_bytes in H. change (256 ^ Z.of_nat 8) with two64 in H.
  by rewrite !Z.mod_small in H.
Qed.

Lemma to_le_bytes_inj_i64 a b : i64_ok a → i64_ok b → to_le_bytes a = to_le_bytes b → a = b.
Proof.
  intros Ha Hb H. apply (f_equal le_val) in H. unfold to_le_bytes in H.
  rewrite !le_val_bytes in H. change (256 ^ Z.of_nat 8) with two64 in H.
  rewrite <- (wrap_i64_id a Ha), <- (wrap_i64_id b Hb). unfold wrap_i64.
  by rewrite <- Zplus_mod_idemp_l, H, Zplus_mod_idemp_l.
Qed.

Lemma from_to_be_bytes z a : u64_ok z → arr_data a = to_be_bytes z → from_be_bytes a = z.
Proof.
  unfold from_be_bytes, u64_ok. intros Hz ->. unfold to_be_bytes.
  rewrite rev_involutive, le_val_bytes. by apply Z.mod_small.
Qed.

Lemma from_be_bytes_u64 a : u64_ok (from_be_bytes a).
Proof.
  unfold from_be_bytes, u64_ok. pose proof (le_val_range (rev (arr_data a))) as H.
  rewrite length_rev, arr_length in H. done.
Qed.

Lemma to_from_be_bytes a : to_be_bytes (from_be_bytes a) = arr_data a.
Proof.
  unfold to_be_bytes, from_be_bytes.
  replace 8%nat with (length (rev (arr_data a))) at 1 by (by rewrite length_rev, arr_length).
  by rewrite le_bytes_val, rev_involutive.
Qed.

(** ** Lexicographic order on byte strings (Rust's [Ord] on slices, and the
    key order of the chat database) *)

Fixpoint lex_lt (a b : bytes) : bool :=
  match a, b with
  | _, [] => false
  | [], _ :: _ => true
  | x :: a', y :: b' =>
      if byte_val x <? byte_val y then true
      else if byte_val y <? byte_val x then false
      else lex_lt a' b'
  end.

Lemma lex_lt_irrefl a : lex_lt a a = false.
Proof. induction a as [|x a IH]; [done|]. simpl. rewrite Z.ltb_irrefl. done. Qed.

Lemma lex_lt_trans a b c : lex_lt a b = true → lex_lt b c = true → lex_lt a c = true.
Proof.
  revert b c. induction a as [|x a IH]; intros [|y b] [|z c]; simpl; try done.
  repeat case_match; try done; try lia. apply IH.
Qed.

Lemma lex_lt_total a b : lex_lt a b = true ∨ a = b ∨ lex_lt b a = true.
Proof.
  revert b. induction a as [|x a IH]; intros [|y b]; simpl; auto.
  destruct (Z.ltb_spec (byte_val x) (byte_val y)); auto.
  destruct (Z.ltb_spec (byte_val y) (byte_val x)); auto.
  assert (x = y) as -> by (apply byte_val_inj; lia).
  destruct (IH b) as [?|[->|?]]; auto.
Qed.

Lemma lex_lt_asym a b : lex_lt a b = true → lex_lt b a = false.
Proof.
  intros H. destruct (lex_lt b a) eqn:E; [|done].
  pose proof (lex_lt_trans _ _ _ H E) as Hc. by rewrite lex_lt_irrefl in Hc.
Qed.

Lemma lex_lt_app_l p a b : lex_lt (p ++ a) (p ++ b) = lex_lt a b.
Proof. induction p as [|x p IH]; [done|]. simpl. by rewrite Z.ltb_irrefl. Qed.

(** For keys of equal length, big-endian order is numeric order. *)
Lemma lex_lt_app_r s t u v :
  length s = length t → lex_lt s t = true → lex_lt (s ++ u) (t ++ v) = true.
Proof.
  revert t. induction s as [|c s IH]; intros [|d t] Hst; simplify_eq/=; try done.
  repeat case_match; try done. by apply IH.
Qed.

Lemma lex_lt_be l k : length l = length k → le_val l < le_val k → lex_lt (rev l) (rev k) = true.
Proof.
  revert k. induction l as [|x l IH]; intros [|y k] Hl Hlt; simplify_eq/=; try lia.
  pose proof (byte_val_range x). pose proof (byte_val_range y).
  destruct (decide (le_val l = le_val k)) as [Heq|Hne].
  - apply le_val_inj in Heq as ->; [|done]. rewrite lex_lt_app_l. simpl.
    destruct (Z.ltb_spec (byte_val x) (byte_val y)); [done|lia].
  - apply lex_lt_app_r; [by rewrite !length_rev|]. apply IH; [done|lia].
Qed.

Lemma to_be_bytes_lt a b : u64_ok a → u64_ok b → a < b → lex_lt (to_be_bytes a) (to_be_bytes b) = true.
Proof.
  intros Ha Hb Hab. apply lex_lt_be; [by rewrite !le_bytes_length|].
  rewrite !le_val_bytes. change (256 ^ Z.of_nat 8) with two64.
  rewrite !Z.mod_small; done.
Qed.

Lemma to_be_bytes_lt_iff a b :
  u64_ok a → u64_ok b → lex_lt (to_be_bytes a) (to_be_bytes b) = true ↔ a < b.
Proof.
  intros Ha Hb. split; [|by apply to_be_bytes_lt]. intros H.
  destruct (Z.lt_trichotomy a b) as [?|[->|Hba]]; [done|by rewrite lex_lt_irrefl in H|].
  apply to_be_bytes_lt in Hba; [|done..]. apply lex_lt_asym in Hba. congruence.
Qed.

Lemma to_be_bytes_inj a b : u64_ok a → u64_ok b → to_be_bytes a = to_be_bytes b → a = b.
Proof.
  intros Ha Hb Heq. destruct (Z.lt_trichotomy a b) as [Hlt|[?|Hlt]]; [|done|];
    apply to_be_bytes_lt in Hlt; try done; by rewrite Heq, lex_lt_irrefl in Hlt.
Qed.

#[export] Hint Resolve arr_length le_bytes_length to_le_bytes_length to_be_bytes_length : sechat.

Arguments try_into : simpl never.
Arguments to_le_bytes : simpl never.
Arguments to_be_bytes : simpl never.
Arguments from_be_bytes : simpl never.
Arguments pad_array : simpl never.
Arguments two63 : simpl never.
Arguments two64 : simpl never.
