(* ===== verification/Text.v ===== *)
(** * Rust strings

    A [String] is a list of Unicode scalar values.  This file models the
    string operations of Rust's standard library that the crates use:
    [as_bytes]/[from_utf8] (UTF-8), [trim], [lines], [split_once],
    [rsplit_once], [strip_prefix], [starts_with], [splitn], [chars().count()]
    and the decimal [Display] of integers. *)

From S2P Require Import Prelude Bytes.
From stdpp Require Import pretty.

Local Open Scope Z_scope.

(** ** Characters *)

Definition is_scalar (c : Z) : bool :=
  ((0 <=? c) && (c <? 0xD800)) || ((0xE000 <=? c) && (c <=? 0x10FFFF)).

Record char := Char { code : Z; code_ok : SIsTrue (is_scalar code) }.

Definition to_char (c : Z) : option char :=
  match Bool.bool_dec (is_scalar c) true with
  | left H => Some (Char c (SIsTrue_of _ H))
  | right _ => None
  end.

Lemma char_ext a b : code a = code b → a = b.
Proof. destruct a as [ca ?], b as [cb ?]; simpl. intros ->. done. Qed.

Lemma to_char_code a : to_char (code a) = Some a.
Proof.
  unfold to_char. destruct (Bool.bool_dec _ _) as [H|H].
  - f_equal. by apply char_ext.
  - destruct H. apply SIsTrue_true, (code_ok a).
Qed.

Lemma code_range a : 0 ≤ code a < 0xD800 ∨ 0xE000 ≤ code a ≤ 0x10FFFF.
Proof. pose proof (SIsTrue_true _ (code_ok a)) as H. unfold is_scalar in H. lia. Qed.

#[export] Instance char_eq_dec : EqDecision char.
Proof.
  intros a b. destruct (decide (code a = code b)) as [H|H].
  - left. by apply char_ext.
  - right. by intros ->.
Defined.
#[export] Instance char_countable : Countable char := inj_countable code to_char to_char_code.

Abbreviation rstring := (list char).

(** ASCII literals. *)
Definition ascii_char (a : Ascii.ascii) : char :=
  default (Char 0 stt) (to_char (Z.of_N (Ascii.N_of_ascii a))).
Fixpoint str (s : String.string) : rstring :=
  match s with
  | String.EmptyString => []
  | String.String a s' => ascii_char a :: str s'
  end.

Arguments str : simpl never.

Lemma ascii_char_code a : code (ascii_char a) = Z.of_N (Ascii.N_of_ascii a).
Proof. destruct a as [[] [] [] [] [] [] [] []]; reflexivity. Qed.

#[export] Instance str_inj : Inj (=) (=) str.
Proof.
  intros s. induction s as [|a s IH]; intros [|b t]; cbn [str]; try done.
  intros [= Hc Hr]. f_equal; [|by apply IH].
  apply (f_equal code) in Hc. rewrite !ascii_char_code in Hc. apply N2Z.inj in Hc.
  by rewrite <- (Ascii.ascii_N_embedding a), Hc, Ascii.ascii_N_embedding.
Qed.

(** Different literals are different strings. *)
Ltac str_ne := let H := fresh in intros H; apply str_inj in H; discriminate H.

Definition tab_char : char := Char 9 stt.
Definition newline : char := Char 10 stt.
Definition carriage : char := Char 13 stt.
Definition colon : char := Char 58 stt.
Definition space_char : char := Char 32 stt.

(** ** UTF-8 *)

Definition utf8_char (c : char) : bytes :=
  let n := code c in
  if n <? 0x80 then [byte_of n]
  else if n <? 0x800 then [byte_of (0xC0 + n / 64); byte_of (0x80 + n mod 64)]
  else if n <? 0x10000 then
    [byte_of (0xE0 + n / 4096); byte_of (0x80 + n / 64 mod 64); byte_of (0x80 + n mod 64)]
  else
    [byte_of (0xF0 + n / 262144); byte_of (0x80 + n / 4096 mod 64);
     byte_of (0x80 + n / 64 mod 64); byte_of (0x80 + n mod 64)].

(** [str::as_bytes] *)
Definition as_bytes (s : rstring) : bytes := mjoin (utf8_char <$> s).

Definition cont (b : byte) : option Z :=
  let v := byte_val b in if (0x80 <=? v) && (v <? 0xC0) then Some (v - 0x80) else None.

(** A decoded code point must be a scalar value and not be overlong. *)
Definition checked (min n : Z) : option char := if n <? min then None else to_char n.

(** [String::from_utf8] *)
Fixpoint from_utf8 (l : bytes) : option rstring :=
  match l with
  | [] => Some []
  | b0 :: l0 =>
      let v := byte_val b0 in
      if v <? 0x80 then
        c ← to_char v; s ← from_utf8 l0; Some (c :: s)
      else if v <? 0xC0 then None
      else if v <? 0xE0 then
        match l0 with
        | b1 :: l1 =>
            x ← cont b1; c ← checked 0x80 ((v - 0xC0) * 64 + x);
            s ← from_utf8 l1; Some (c :: s)
        | _ => None
        end
      else if v <? 0xF0 then
        match l0 with
        | b1 :: b2 :: l2 =>
            x ← cont b1; y ← cont b2; c ← checked 0x800 ((v - 0xE0) * 4096 + x * 64 + y);
            s ← from_utf8 l2; Some (c :: s)
        | _ => None
        end
      else if v <? 0xF8 then
        match l0 with
        | b1 :: b2 :: b3 :: l3 =>
            x ← cont b1; y ← cont b2; z ← cont b3;
            c ← checked 0x10000 ((v - 0xF0) * 262144 + x * 4096 + y * 64 + z);
            s ← from_utf8 l3; Some (c :: s)
        | _ => None
        end
      else None
  end.

Lemma cont_of k : 0 ≤ k < 64 → cont (byte_of (0x80 + k)) = Some k.
Proof.
  intros H. unfold cont. rewrite byte_val_of, Z.mod_small by lia.
  destruct (Z.leb_spec 0x80 (0x80 + k)); [|lia].
  destruct (Z.ltb_spec (0x80 + k) 0xC0); [|lia]. simpl. f_equal. lia.
Qed.

Lemma checked_code min c n : n = code c → min ≤ n → checked min n = Some c.
Proof.
  intros -> H. unfold checked. destruct (Z.ltb_spec (code c) min); [lia|]. apply to_char_code.
Qed.

Lemma from_utf8_char c l s :
  from_utf8 l = Some s → from_utf8 (utf8_char c ++ l) = Some (c :: s).
Proof.
  intros Hl. unfold utf8_char. pose proof (code_range c) as Hc.
  pose proof (Z.mod_pos_bound (code c) 64 ltac:(lia)).
  pose proof (Z.mod_pos_bound (code c / 64) 64 ltac:(lia)).
  pose proof (Z.mod_pos_bound (code c / 4096) 64 ltac:(lia)).
  pose proof (Z.div_mod (code c) 64 ltac:(lia)) as D1.
  pose proof (Z.div_mod (code c / 64) 64 ltac:(lia)) as D2.
  pose proof (Z.div_mod (code c / 4096) 64 ltac:(lia)) as D3.
  rewrite Z.div_div in D2 by lia. change (64 * 64) with 4096 in D2.
  rewrite Z.div_div in D3 by lia. change (4096 * 64) with 262144 in D3.
  repeat case_match; cbn [app from_utf8];
    rewrite ?byte_val_of, !cont_of || rewrite ?byte_val_of; try lia;
    rewrite (Z.mod_small _ 256) by lia.
  all: repeat (match goal with |- context [?a <? ?b] => destruct (Z.ltb_spec a b); [try lia|try lia] end).
  - rewrite to_char_code. simpl. by rewrite Hl.
  - simpl. erewrite checked_code; [simpl; by rewrite Hl|lia|lia].
  - simpl. erewrite checked_code; [simpl; by rewrite Hl|lia|lia].
  - simpl. erewrite checked_code; [simpl; by rewrite Hl|lia|lia].
Qed.

Lemma from_utf8_as_bytes s : from_utf8 (as_bytes s) = Some s.
Proof. induction s as [|c s IH]; [done|]. by apply from_utf8_char. Qed.

#[export] Instance as_bytes_inj : Inj (=) (=) as_bytes.
Proof. intros s t H. pose proof (from_utf8_as_bytes s) as E. rewrite H, from_utf8_as_bytes in E. congruence. Qed.

(** ** Whitespace and trimming *)

(** [char::is_whitespace]: the Unicode White_Space property. *)
Definition is_whitespace (c : char) : bool :=
  let n := code c in
  ((9 <=? n) && (n <=? 13)) || (n =? 32) || (n =? 0x85) || (n =? 0xA0) || (n =? 0x1680)
  || ((0x2000 <=? n) && (n <=? 0x200A)) || (n =? 0x2028) || (n =? 0x2029) || (n =? 0x202F)
  || (n =? 0x205F) || (n =? 0x3000).

Fixpoint trim_start (s : rstring) : rstring :=
  match s with
  | [] => []
  | c :: s' => if is_whitespace c then trim_start s' else s
  end.
Definition trim_end (s : rstring) : rstring := rev (trim_start (rev s)).
Definition trim (s : rstring) : rstring := trim_end (trim_start s).

Definition is_empty (s : rstring) : bool := match s with [] => true | _ => false end.

(** ** Searching and splitting *)

(** [str::split_once(c)]: at the first occurrence. *)
Fixpoint split_once (c : char) (s : rstring) : option (rstring * rstring) :=
  match s with
  | [] => None
  | d :: s' =>
      if decide (d = c) then Some ([], s')
      else '(a, b) ← split_once c s'; Some (d :: a, b)
  end.

(** [str::rsplit_once(c)]: at the last occurrence. *)
Fixpoint rsplit_once (c : char) (s : rstring) : option (rstring * rstring) :=
  match s with
  | [] => None
  | d :: s' =>
      match rsplit_once c s' with
      | Some (a, b) => Some (d :: a, b)
      | None => if decide (d = c) then Some ([], s') else None
      end
  end.

Fixpoint strip_prefix (p s : rstring) : option rstring :=
  match p, s with
  | [], _ => Some s
  | c :: p', d :: s' => if decide (c = d) then strip_prefix p' s' else None
  | _ :: _, [] => None
  end.

Definition starts_with (p s : rstring) : bool := bool_decide (is_Some (strip_prefix p s)).

(** [str::split_inclusive('\n')], each piece without its line ending:
    [str::lines]. *)
Definition strip_cr (l : rstring) : rstring :=
  match rev l with
  | c :: r => if decide (c = carriage) then rev r else l
  | [] => []
  end.

Fixpoint lines (s : rstring) : list rstring :=
  match s with
  | [] => []
  | c :: s' =>
      if decide (c = newline) then [] :: lines s'
      else match lines_from s' with
           | (l, true, rest) => strip_cr (c :: l) :: rest
           | (l, false, rest) => (c :: l) :: rest
           end
  end
(** The current line, whether a newline ended it, and the later lines. *)
with lines_from (s : rstring) : rstring * bool * list rstring :=
  match s with
  | [] => ([], false, [])
  | c :: s' =>
      if decide (c = newline) then ([], true, lines s')
      else let '(l, t, rest) := lines_from s' in (c :: l, t, rest)
  end.

(** [str::splitn(n, c)] *)
Fixpoint splitn (n : nat) (c : char) (s : rstring) : list rstring :=
  match n with
  | O => []
  | S O => [s]
  | S n' =>
      match split_once c s with
      | Some (a, b) => a :: splitn n' c b
      | None => [s]
      end
  end.

(** [Display] of an integer. *)
Definition display_int (z : Z) : rstring := str (pretty z).

(** ** Facts about the string operations *)

Lemma split_once_app c a b : c ∉ a → split_once c (a ++ c :: b) = Some (a, b).
Proof.
  induction a as [|d a IH]; simpl; intros Hc.
  - by rewrite decide_True.
  - rewrite decide_False by set_solver. rewrite IH by set_solver. done.
Qed.

Lemma split_once_None c s : split_once c s = None ↔ c ∉ s.
Proof.
  induction s as [|d s IH]; simpl; [set_solver|].
  case_decide; [set_solver|]. destruct (split_once c s) as [[a b]|]; simpl; set_solver.
Qed.

Lemma rsplit_once_None c s : rsplit_once c s = None ↔ c ∉ s.
Proof.
  induction s as [|d s IH]; simpl; [set_solver|].
  destruct (rsplit_once c s) as [[a b]|]; [|case_decide]; set_solver.
Qed.

Lemma rsplit_once_app c a b : c ∉ b → rsplit_once c (a ++ c :: b) = Some (a, b).
Proof.
  intros Hb. apply rsplit_once_None in Hb. induction a as [|d a IH]; simpl.
  - by rewrite Hb, decide_True.
  - by rewrite IH.
Qed.

Lemma rsplit_once_Some c s a b : rsplit_once c s = Some (a, b) → s = a ++ c :: b ∧ c ∉ b.
Proof.
  revert a. induction s as [|d s IH]; intros a; simpl; [done|].
  destruct (rsplit_once c s) as [[a' b']|] eqn:E.
  - intros [= <- ->]. destruct (IH a' eq_refl) as [-> ?]. done.
  - case_decide; [|done]. intros [= <- <-]. subst. split; [done|]. by apply rsplit_once_None.
Qed.

Lemma strip_prefix_Some p s r : strip_prefix p s = Some r ↔ s = p ++ r.
Proof.
  revert s. induction p as [|c p IH]; intros [|d s]; simpl; try (split; congruence).
  case_decide; subst.
  - rewrite IH. split; congruence.
  - split; [done|]. intros [= ??]. congruence.
Qed.

Lemma starts_with_spec p s : starts_with p s = true ↔ p `prefix_of` s.
Proof.
  unfold starts_with. rewrite bool_decide_eq_true. split.
  - intros [r Hr]. apply strip_prefix_Some in Hr as ->. by exists r.
  - intros [r ->]. exists r. by apply strip_prefix_Some.
Qed.

Lemma trim_start_head s c s' : trim_start s = c :: s' → is_whitespace c = false.
Proof. induction s as [|d s IH]; simpl; [done|]. case_match; [done|]. congruence. Qed.

Lemma trim_start_suffix s : trim_start s `suffix_of` s.
Proof. induction s as [|c s IH]; simpl; [done|]. case_match; [by apply suffix_cons_r|done]. Qed.

Lemma trim_start_id s : (∀ c s', s = c :: s' → is_whitespace c = false) → trim_start s = s.
Proof. destruct s as [|c s]; [done|]. simpl. intros H. by rewrite (H c s). Qed.

Lemma trim_end_last s c : last (trim_end s) = Some c → is_whitespace c = false.
Proof.
  unfold trim_end. rewrite last_rev. destruct (trim_start (rev s)) as [|d r] eqn:E; [done|].
  simpl. intros [= ->]. by eapply trim_start_head.
Qed.

Lemma trim_last s c : last (trim s) = Some c → is_whitespace c = false.
Proof. apply trim_end_last. Qed.

Lemma trim_end_prefix s : trim_end s `prefix_of` s.
Proof.
  unfold trim_end. destruct (trim_start_suffix (rev s)) as [k Hk].
  exists (rev k). rewrite <- rev_app_distr, <- Hk. by rewrite rev_involutive.
Qed.

Lemma trim_head s c s' : trim s = c :: s' → is_whitespace c = false.
Proof.
  unfold trim. intros H. destruct (trim_end_prefix (trim_start s)) as [k Hk].
  rewrite H in Hk. by eapply trim_start_head.
Qed.

Lemma trim_elem s c : c ∈ trim s → c ∈ s.
Proof.
  unfold trim. destruct (trim_end_prefix (trim_start s)) as [k Hk].
  destruct (trim_start_suffix s) as [h Hh]. intros Hin. rewrite Hh. apply elem_of_app. right.
  rewrite Hk. apply elem_of_app. by left.
Qed.

Lemma trim_id s :
  (∀ c s', s = c :: s' → is_whitespace c = false) →
  (∀ c, last s = Some c → is_whitespace c = false) → trim s = s.
Proof.
  intros Hh Hl. unfold trim. rewrite trim_start_id by done. unfold trim_end.
  rewrite trim_start_id, rev_involutive; [done|]. intros c s' Hs. apply Hl.
  by rewrite <- (rev_involutive s), Hs, last_rev.
Qed.

Lemma trim_idemp s : trim (trim s) = trim s.
Proof. apply trim_id; [apply trim_head|apply trim_last]. Qed.

Lemma strip_cr_id l : last l ≠ Some carriage → strip_cr l = l.
Proof.
  intros H. unfold strip_cr. destruct (rev l) as [|c r] eqn:E.
  - apply (f_equal (@rev char)) in E. by rewrite rev_involutive in E.
  - case_decide; [|done]. subst. destruct H. by rewrite <- (rev_involutive l), E, last_rev.
Qed.

Lemma lines_from_app l s : newline ∉ l → lines_from (l ++ newline :: s) = (l, true, lines s).
Proof.
  induction l as [|c l IH]; intros Hn; [done|].
  cbn [app lines_from]. rewrite decide_False by set_solver. by rewrite IH by set_solver.
Qed.

(** A line terminated by a newline is the first of [lines]. *)
Lemma lines_app l s : newline ∉ l → lines (l ++ newline :: s) = strip_cr l :: lines s.
Proof.
  destruct l as [|c l]; intros Hn; [done|].
  cbn [app lines]. rewrite decide_False by set_solver. by rewrite lines_from_app by set_solver.
Qed.

Lemma strip_cr_elem l c : c ∈ strip_cr l → c ∈ l.
Proof.
  unfold strip_cr. destruct (rev l) as [|d r] eqn:Er; [by intros ?%not_elem_of_nil|].
  case_decide; [|done]. rewrite <- (rev_involutive l), Er. simpl.
  intros. apply elem_of_app. by left.
Qed.

Lemma lines_no_newline s : Forall (λ l, newline ∉ l) (lines s).
Proof.
  assert (H : Forall (λ l, newline ∉ l) (lines s) ∧
    (newline ∉ (lines_from s).1.1) ∧ Forall (λ l, newline ∉ l) ((lines_from s).2)).
  { induction s as [|c s (IH1 & IH2 & IH3)].
    { repeat split; try constructor. apply not_elem_of_nil. }
    cbn [lines lines_from]. case_decide as Hc.
    { simpl. repeat split; [constructor; [apply not_elem_of_nil|done]|apply not_elem_of_nil|done]. }
    destruct (lines_from s) as [[l t] rest] eqn:E; simpl in *.
    assert (Hcl : newline ∉ c :: l) by (rewrite elem_of_cons; naive_solver).
    split; [|done]. destruct t; constructor; try done.
    intros Hin%strip_cr_elem. done. }
  apply H.
Qed.

Lemma newline_whitespace : is_whitespace newline = true.
Proof. done. Qed.
Lemma carriage_whitespace : is_whitespace carriage = true.
Proof. done. Qed.

(** A trimmed name does not end with a carriage return. *)
Lemma trim_not_cr s : last (trim s) ≠ Some carriage.
Proof. intros H. apply trim_last in H. by rewrite carriage_whitespace in H. Qed.

Example lines_crlf : lines (str "ab" ++ [carriage; newline] ++ str "c") = [str "ab"; str "c"].
Proof. reflexivity. Qed.
Example display_42 : display_int 42 = str "42".
Proof. reflexivity. Qed.
