(* ===== verification/Primitives.v ===== *)
(** * Third-party code: the parameters of the model

    Everything the crates call that is not under src/ and not the standard
    library: the dalek key types, HKDF/HMAC/SHA-256/Argon2, the
    ChaCha20-Poly1305 AEAD, the [hex] and [rmp_serde] codecs, the [sled]
    key-value store, the clock and the random generator.  They are operations
    of type classes; what the program relies on is stated, one documented
    fact each, by the law classes, so that a theorem's context shows which
    facts it uses. *)

From Stdlib Require Import Strings.Byte Sorting.Sorted.
From S2P Require Import Prelude Bytes Text.

Abbreviation KeyType := (array 32).
Abbreviation Key := (array 32).
Abbreviation Nonce := (array 12).
Abbreviation Signature := (array 64).
Abbreviation hash := (array 32).

(** ** Cryptographic primitives *)

Class Primitives := {
  (* x25519_dalek *)
  StaticSecret : Type;
  PublicKey : Type;
  secret_from : KeyType → StaticSecret;
  secret_bytes : StaticSecret → KeyType;
  public_of : StaticSecret → PublicKey;
  pk_from : KeyType → PublicKey;
  pk_bytes : PublicKey → KeyType;
  diffie_hellman : StaticSecret → PublicKey → array 32;
  (* ed25519_dalek *)
  SigningKey : Type;
  VerifyingKey : Type;
  sk_from_bytes : KeyType → SigningKey;
  sk_bytes : SigningKey → KeyType;
  verifying_key : SigningKey → VerifyingKey;
  vk_from_bytes : KeyType → option VerifyingKey;
  vk_bytes : VerifyingKey → KeyType;
  ed_sign : SigningKey → bytes → Signature;
  ed_verify : VerifyingKey → bytes → Signature → bool;
  sig_from_slice : bytes → option Signature;
  (* hkdf, hmac, sha2, argon2: [Hkdf::<Sha256>::new(None, ikm).expand(info, &mut [0; n])] *)
  hkdf_expand : ∀ (ikm info : bytes) (n : nat), option (array n);
  hmac_sha256 : bytes → bytes → option (array 32);
  sha256 : bytes → array 32;
  argon2_hash : ∀ (passwd salt : bytes), option (array 32);
  (* chacha20poly1305 *)
  aead_encrypt : Key → Nonce → bytes → option bytes;
  aead_decrypt : Key → Nonce → bytes → option bytes;
  (* hex *)
  hex_encode : bytes → rstring;
  hex_decode : rstring → result bytes rstring
}.

(** [rmp_serde::to_vec] and [rmp_serde::from_slice] at a type; the error is
    its [to_string]. *)
Class Rmp (T : Type) := {
  rmp_to_vec : T → result bytes rstring;
  rmp_from_slice : bytes → result T rstring
}.

(** ** Documented facts, one class each *)

Class KeyLaws `{Primitives} : Prop := {
  secret_from_bytes : ∀ s, secret_from (secret_bytes s) = s;
  pk_from_bytes : ∀ p, pk_from (pk_bytes p) = p;
  pk_bytes_from : ∀ b, pk_bytes (pk_from b) = b;
  sk_from_to_bytes : ∀ s, sk_from_bytes (sk_bytes s) = s;
  vk_from_to_bytes : ∀ v, vk_from_bytes (vk_bytes v) = Some v;
  vk_bytes_from : ∀ b v, vk_from_bytes b = Some v → vk_bytes v = b
}.

(** X25519 is a Diffie-Hellman exchange. *)
Class DhLaws `{Primitives} : Prop := {
  dh_comm : ∀ a b, diffie_hellman a (public_of b) = diffie_hellman b (public_of a)
}.

(** Signatures made with a key verify under its verifying key;
    [Signature::from_slice] reads back the 64 bytes of a signature. *)
Class SigLaws `{Primitives} : Prop := {
  ed_sign_verify : ∀ sk m, ed_verify (verifying_key sk) m (ed_sign sk m) = true;
  sig_slice : ∀ s, sig_from_slice (arr_data s) = Some s;
  sig_slice_data : ∀ b s, sig_from_slice b = Some s → arr_data s = b
}.

(** HKDF-SHA256 expands up to 255 * 32 bytes; HMAC takes keys of any length. *)
Class KdfLaws `{Primitives} : Prop := {
  hkdf_total : ∀ ikm info n, (Z.of_nat n ≤ 8160)%Z → ∃ k, hkdf_expand ikm info n = Some k;
  hmac_total : ∀ k m, ∃ t, hmac_sha256 k m = Some t
}.

(** Argon2 hashes passwords below 2^32 bytes with a salt of at least 8 bytes. *)
Class ArgonLaws `{Primitives} : Prop := {
  argon2_total : ∀ passwd salt, (Z.of_nat (length passwd) < 2 ^ 32)%Z → (8 ≤ length salt)%nat →
    ∃ k, argon2_hash passwd salt = Some k
}.

(** ChaCha20-Poly1305 (RFC 8439): decryption inverts encryption, the
    ciphertext is 16 bytes longer, and plaintexts below 2^36 bytes encrypt. *)
Class AeadLaws `{Primitives} : Prop := {
  aead_roundtrip : ∀ k n p c, aead_encrypt k n p = Some c → aead_decrypt k n c = Some p;
  aead_length : ∀ k n p c, aead_encrypt k n p = Some c → length c = (length p + 16)%nat;
  aead_open_length : ∀ k n p c, aead_decrypt k n c = Some p → length c = (length p + 16)%nat;
  aead_total : ∀ k n p, (Z.of_nat (length p) < 2 ^ 36)%Z → ∃ c, aead_encrypt k n p = Some c
}.

(** [hex]: decoding inverts encoding, and the digits are [0-9a-f]. *)
Definition is_hex_digit (c : char) : bool :=
  (((48 <=? code c) && (code c <=? 57)) || ((97 <=? code c) && (code c <=? 102)))%Z.

Class HexLaws `{Primitives} : Prop := {
  hex_roundtrip : ∀ b, hex_decode (hex_encode b) = Ok b;
  hex_digits : ∀ b, Forall (λ c, is_hex_digit c = true) (hex_encode b);
  hex_length : ∀ b, length (hex_encode b) = (2 * length b)%nat;
  hex_app : ∀ a b, hex_encode (a ++ b) = hex_encode a ++ hex_encode b
}.

(** MessagePack: what [to_vec] writes, [from_slice] reads. *)
Class RmpLaws T `{Rmp T} : Prop := {
  rmp_roundtrip : ∀ (x : T) b, rmp_to_vec x = Ok b → rmp_from_slice b = Ok x
}.

(** A truncated encoding does not decode: [from_slice] reports the missing bytes. *)
Class RmpPrefix T `{Rmp T} : Prop := {
  rmp_truncated : ∀ (x : T) b n, rmp_to_vec x = Ok b → (n < length b)%nat →
    ∃ e, rmp_from_slice (take n b) = Err e
}.

#[export] Instance hex_encode_inj `{HexLaws} : Inj (=) (=) hex_encode.
Proof. intros a b E. pose proof (hex_roundtrip a) as R. rewrite E, hex_roundtrip in R. congruence. Qed.

Lemma hex_char_not c b `{HexLaws} : is_hex_digit c = false → c ∉ hex_encode b.
Proof.
  intros Hc Hin. pose proof (hex_digits b) as Hf. rewrite Forall_forall in Hf.
  specialize (Hf c Hin). simpl in Hf. congruence.
Qed.

(** ** The embedded store: a [sled] tree as an ordered map of byte strings *)

Class Sled := {
  Db : Type;
  db_empty : Db;
  db_iter : Db → list (bytes * bytes);
  db_last : Db → option (bytes * bytes);
  db_insert : bytes → bytes → Db → Db;
  db_remove : bytes → Db → Db
}.

Definition key_lt (x y : bytes * bytes) : Prop := lex_lt x.1 y.1 = true.

Class SledLaws `{Sled} : Prop := {
  db_iter_empty : db_iter db_empty = [];
  db_iter_sorted : ∀ d, StronglySorted key_lt (db_iter d);
  db_last_iter : ∀ d, db_last d = last (db_iter d);
  db_iter_insert : ∀ d k v k' v', (k', v') ∈ db_iter (db_insert k v d) ↔
    (k' = k ∧ v' = v) ∨ (k' ≠ k ∧ (k', v') ∈ db_iter d);
  db_iter_remove : ∀ d k k' v', (k', v') ∈ db_iter (db_remove k d) ↔
    k' ≠ k ∧ (k', v') ∈ db_iter d
}.

(** Two strictly sorted lists with the same elements are equal. *)
Lemma sorted_ext (l k : list (bytes * bytes)) :
  StronglySorted key_lt l → StronglySorted key_lt k → (∀ x, x ∈ l ↔ x ∈ k) → l = k.
Proof.
  assert (Hirr : ∀ x, ¬ key_lt x x) by (intros x; unfold key_lt; by rewrite lex_lt_irrefl).
  assert (Htr : ∀ x y z, key_lt x y → key_lt y z → key_lt x z).
  { unfold key_lt. intros ???. apply lex_lt_trans. }
  intros Hl. revert k. induction Hl as [|x l Hl IH Hx]; intros k Hk Heq.
  - destruct k as [|y k]; [done|]. exfalso. apply (not_elem_of_nil y), Heq, list_elem_of_here.
  - rewrite Forall_forall in Hx.
    destruct Hk as [|y k Hk Hy]; [exfalso; apply (not_elem_of_nil x), Heq, list_elem_of_here|].
    rewrite Forall_forall in Hy.
    assert (x = y) as ->.
    { assert (Hxk : x ∈ y :: k) by apply Heq, list_elem_of_here.
      assert (Hyl : y ∈ x :: l) by apply Heq, list_elem_of_here.
      apply elem_of_cons in Hxk as [->|Hxk]; [done|]. apply elem_of_cons in Hyl as [->|Hyl]; [done|].
      destruct (Hirr x). eauto. }
    f_equal. apply IH; [done|]. intros z. specialize (Heq z). rewrite !elem_of_cons in Heq. split; intros Hz.
    + destruct (proj1 Heq (or_intror Hz)) as [->|?]; [|done]. by destruct (Hirr y (Hx y Hz)).
    + destruct (proj2 Heq (or_intror Hz)) as [->|?]; [|done]. by destruct (Hirr y (Hy y Hz)).
Qed.

Lemma sorted_snoc (l : list (bytes * bytes)) x :
  StronglySorted key_lt l → Forall (λ y, key_lt y x) l → StronglySorted key_lt (l ++ [x]).
Proof.
  induction 1 as [|y l Hl IH Hy]; simpl; intros Hx; [repeat constructor|].
  inv Hx. constructor; [by apply IH|]. apply Forall_app. split; [done|]. by repeat constructor.
Qed.

(** In a strictly sorted list every element but the last is below the last. *)
Lemma sorted_last (l : list (bytes * bytes)) x y :
  StronglySorted key_lt l → last l = Some x → y ∈ l → y = x ∨ key_lt y x.
Proof.
  induction 1 as [|z l Hl IH Hz]; [done|]. rewrite Forall_forall in Hz. intros Hlast Hin.
  destruct l as [|w l].
  { simpl in Hlast. simplify_eq. apply list_elem_of_singleton in Hin. auto. }
  rewrite last_cons_cons in Hlast. apply elem_of_cons in Hin as [->|Hin]; [|by apply IH].
  right. apply Hz. by apply last_Some_elem_of.
Qed.

(** A key above every stored key is appended. *)
Lemma db_insert_append `{SledLaws} d k v :
  Forall (λ e, lex_lt e.1 k = true) (db_iter d) → db_iter (db_insert k v d) = db_iter d ++ [(k, v)].
Proof.
  intros Hall. apply sorted_ext.
  - apply db_iter_sorted.
  - apply sorted_snoc; [apply db_iter_sorted|done].
  - intros [k' v']. rewrite db_iter_insert, elem_of_app, list_elem_of_singleton.
    rewrite Forall_forall in Hall. split; [naive_solver|].
    intros [Hin|[= -> ->]]; [|by left]. right. split; [|done]. intros ->.
    specialize (Hall _ Hin). simpl in Hall. by rewrite lex_lt_irrefl in Hall.
Qed.

(** Removing a key deletes its entry and keeps the order of the others. *)
Lemma db_remove_filter `{SledLaws} d k :
  db_iter (db_remove k d) = filter (λ e, e.1 ≠ k) (db_iter d).
Proof.
  apply sorted_ext.
  - apply db_iter_sorted.
  - pose proof (db_iter_sorted d) as Hs. induction Hs as [|x l Hl IH Hx]; [constructor|].
    rewrite filter_cons. case_decide; [|done]. constructor; [done|].
    rewrite Forall_forall in *. intros y [_ Hy]%list_elem_of_filter. auto.
  - intros [k' v']. by rewrite db_iter_remove, list_elem_of_filter.
Qed.

(** ** The environment: clock, randomness, file-system faults

    [clock n] is the [n]-th reading of [Utc::now().timestamp()]; [rng_*] the
    [n]-th draw from the operating system's generator; [io_fault n] the
    fault, if any, of the [n]-th file-system operation, and [io_partial n]
    how many bytes a faulting write put down; [dir_order] the unspecified
    order of a directory listing; [io_display] and the other displays the texts of
    library errors. *)

Inductive ErrorKind := EkNotFound | EkPermissionDenied | EkUnexpectedEof | EkOther.

Class Env `{Primitives} := {
  home_dir : list rstring;
  clock : nat → Z;
  rng_fill : nat → ∀ n, array n;
  rng_secret : nat → StaticSecret;
  rng_signing : nat → SigningKey;
  rng_nonce : nat → Nonce;
  io_fault : nat → option ErrorKind;
  io_partial : nat → nat;
  dir_order : list rstring → list rstring;
  io_display : ErrorKind → rstring;
  argon2_error_display : rstring;
  aead_error_display : rstring
}.

(** A listing names every entry exactly once; timestamps are [i64]. *)
Class EnvLaws `{Env} : Prop := {
  dir_order_perm : ∀ l, Permutation (dir_order l) l;
  clock_i64 : ∀ n, i64_ok (clock n)
}.
