(* ===== verification/Instances.v ===== *)
(** * A concrete instance of every parameter

    Small executable functions that satisfy the law classes of
    [Primitives.v]; the witnesses of the theorems run the model on them.
    They stand for nothing in the crates: no definition of the model uses
    them. *)

From Stdlib Require Import Strings.Byte Sorting.Sorted.
From S2P Require Import Prelude Bytes Text Primitives.

Local Open Scope Z_scope.

(** ** Self-delimiting codecs, for the [Rmp] instances *)

Class Codec (T : Type) := {
  enc : T → bytes;
  dec : bytes → option (T * bytes);
  dec_enc : ∀ x r, dec (enc x ++ r) = Some (x, r);
  dec_short : ∀ x n, (n < length (enc x))%nat → dec (take n (enc x)) = None
}.

(** A byte string: each byte preceded by [x01], terminated by [x00]. *)
Fixpoint enc_bytes (l : bytes) : bytes :=
  match l with [] => [x00] | b :: l' => x01 :: b :: enc_bytes l' end.
Fixpoint dec_bytes (l : bytes) : option (bytes * bytes) :=
  match l with
  | x00 :: r => Some ([], r)
  | x01 :: b :: r => '(l', r') ← dec_bytes r; Some (b :: l', r')
  | _ => None
  end.
Lemma dec_enc_bytes l r : dec_bytes (enc_bytes l ++ r) = Some (l, r).
Proof. induction l as [|b l IH]; [done|]. simpl. by rewrite IH. Qed.
Lemma dec_short_bytes l n : (n < length (enc_bytes l))%nat → dec_bytes (take n (enc_bytes l)) = None.
Proof.
  revert n. induction l as [|b l IH]; intros n Hn; simpl in Hn.
  - by destruct n; [|lia].
  - destruct n as [|[|n]]; [done..|]. simpl. by rewrite IH by lia.
Qed.
#[export] Instance bytes_codec : Codec bytes := {| dec_enc := dec_enc_bytes; dec_short := dec_short_bytes |}.

#[export] Program Instance array_codec n : Codec (array n) := {|
  enc a := arr_data a;
  dec l := a ← try_into n (take n l); Some (a, drop n l)
|}.
Next Obligation.
  intros n a r. simpl. rewrite take_app_exact, drop_app_exact by (by rewrite arr_length).
  by rewrite try_into_data.
Qed.
Next Obligation.
  intros n a k Hk. simpl in *. rewrite arr_length in Hk.
  assert (Hn : try_into n (take n (take k (arr_data a))) = None).
  { apply try_into_None. rewrite !length_take, arr_length. lia. }
  by rewrite Hn.
Qed.

#[export] Program Instance pair_codec {A B} `{Codec A, Codec B} : Codec (A * B) := {|
  enc p := enc p.1 ++ enc p.2;
  dec l := '(a, r) ← dec l; '(b, r') ← dec r; Some ((a, b), r')
|}.
Next Obligation. intros A B ?? [a b] r. simpl. rewrite <- app_assoc, dec_enc. simpl. by rewrite dec_enc. Qed.
Next Obligation.
  intros A B ?? [a b] n. simpl. rewrite length_app. intros Hn.
  destruct (Nat.lt_ge_cases n (length (enc a))).
  - rewrite take_app_le by lia. by rewrite dec_short.
  - rewrite take_app_ge by lia. rewrite dec_enc. simpl. by rewrite dec_short by lia.
Qed.

Definition dec_sum {A B} `{Codec A, Codec B} (l : bytes) : option ((A + B) * bytes) :=
  match l with
  | x00 :: r => '(a, r') ← dec r; Some (inl a, r')
  | x01 :: r => '(b, r') ← dec r; Some (inr b, r')
  | _ => None
  end.
#[export] Program Instance sum_codec {A B} `{Codec A, Codec B} : Codec (A + B) := {|
  enc x := match x with inl a => x00 :: enc a | inr b => x01 :: enc b end;
  dec := dec_sum
|}.
Next Obligation. intros A B ?? [a|b] r; simpl; by rewrite dec_enc. Qed.
Next Obligation.
  intros A B ?? [a|b] [|n] Hn; simpl in *; try done; rewrite dec_short by lia; done.
Qed.

#[export] Program Instance unit_codec : Codec unit := {| enc _ := []; dec l := Some (tt, l) |}.
Next Obligation. by intros []. Qed.
Next Obligation. simpl. lia. Qed.

(** A codec along a retraction. *)
Program Definition retract_codec {A B} `{Codec B} (f : A → B) (g : B → option A)
    (gf : ∀ a, g (f a) = Some a) : Codec A := {|
  enc a := enc (f a);
  dec l := '(b, r) ← dec l; a ← g b; Some (a, r)
|}.
Next Obligation. intros A B ? f g gf a r. simpl. rewrite dec_enc. simpl. by rewrite gf. Qed.
Next Obligation. intros A B ? f g gf a n Hn. simpl. by rewrite dec_short. Qed.

Definition Z_to_bytes (z : Z) : bytes :=
  (if z <? 0 then x01 else x00) :: le_bytes (Z.to_nat (Z.log2 (Z.abs z) + 1)) (Z.abs z).
Definition Z_of_bytes (l : bytes) : option Z :=
  match l with
  | x01 :: r => Some (- le_val r)
  | _ :: r => Some (le_val r)
  | [] => None
  end.
Lemma Z_of_to_bytes z : Z_of_bytes (Z_to_bytes z) = Some z.
Proof.
  assert (H : le_val (le_bytes (Z.to_nat (Z.log2 (Z.abs z) + 1)) (Z.abs z)) = Z.abs z).
  { rewrite le_val_bytes. apply Z.mod_small. split; [lia|].
    pose proof (Z.log2_nonneg (Z.abs z)). rewrite Z2Nat.id by lia.
    destruct (decide (Z.abs z = 0)) as [->|]; [done|].
    change 256 with (2 ^ 8). rewrite <- Z.pow_mul_r by lia.
    eapply Z.lt_le_trans; [apply Z.log2_spec; lia|]. apply Z.pow_le_mono_r; lia. }
  unfold Z_of_bytes, Z_to_bytes. destruct (Z.ltb_spec z 0); rewrite H; f_equal; lia.
Qed.
#[export] Instance Z_codec : Codec Z := retract_codec Z_to_bytes Z_of_bytes Z_of_to_bytes.
#[export] Instance rstring_codec : Codec rstring := retract_codec as_bytes from_utf8 from_utf8_as_bytes.

Definition codec_rmp {T} (C : Codec T) : Rmp T := {|
  rmp_to_vec x := Ok (enc x);
  rmp_from_slice b := match dec b with Some (x, _) => Ok x | None => Err (str "invalid") end
|}.
Lemma codec_rmp_laws {T} (C : Codec T) : @RmpLaws T (codec_rmp C).
Proof.
  constructor. intros x b [= <-]. simpl. pose proof (dec_enc x []) as H.
  rewrite app_nil_r in H. by rewrite H.
Qed.

Lemma codec_rmp_prefix {T} (C : Codec T) : @RmpPrefix T (codec_rmp C).
Proof.
  constructor. intros x b n [= <-] Hn. eexists. simpl. by rewrite dec_short.
Qed.

(** ** Hexadecimal *)

Definition hex_digit (n : Z) : char :=
  default (Char 0 stt) (to_char (if n <? 10 then 48 + n else 87 + n)).
Definition hex_value (c : char) : option Z :=
  let n := code c in
  if (48 <=? n) && (n <=? 57) then Some (n - 48)
  else if (97 <=? n) && (n <=? 102) then Some (n - 87)
  else if (65 <=? n) && (n <=? 70) then Some (n - 55)
  else None.
Fixpoint toy_hex_encode (l : bytes) : rstring :=
  match l with
  | [] => []
  | b :: l' => hex_digit (byte_val b / 16) :: hex_digit (byte_val b mod 16) :: toy_hex_encode l'
  end.
Fixpoint toy_hex_decode (s : rstring) : result bytes rstring :=
  match s with
  | [] => Ok []
  | [_] => Err (str "Odd number of digits")
  | c :: d :: s' =>
      match hex_value c, hex_value d with
      | Some x, Some y => map_ok (λ l, byte_of (16 * x + y) :: l) (toy_hex_decode s')
      | _, _ => Err (str "Invalid character")
      end
  end.

Lemma hex_digit_cases n : 0 ≤ n < 16 →
  hex_value (hex_digit n) = Some n ∧ is_hex_digit (hex_digit n) = true.
Proof.
  intros H. assert (n ∈ [0;1;2;3;4;5;6;7;8;9;10;11;12;13;14;15]) as Hin
    by (rewrite !elem_of_cons; lia).
  repeat (apply elem_of_cons in Hin as [->|Hin]; [split; reflexivity|]).
  by apply not_elem_of_nil in Hin.
Qed.

Lemma byte_nibbles b : 0 ≤ byte_val b / 16 < 16 ∧ 0 ≤ byte_val b mod 16 < 16.
Proof.
  pose proof (byte_val_range b). split; [|by apply Z.mod_pos_bound].
  split; [apply Z.div_pos; lia|apply Z.div_lt_upper_bound; lia].
Qed.

Lemma toy_hex_roundtrip l : toy_hex_decode (toy_hex_encode l) = Ok l.
Proof.
  induction l as [|b l IH]; [done|]. cbn [toy_hex_encode toy_hex_decode].
  destruct (byte_nibbles b) as [H1 H2].
  rewrite (proj1 (hex_digit_cases _ H1)), (proj1 (hex_digit_cases _ H2)), IH. simpl.
  rewrite <- (Z.div_mod (byte_val b) 16) by lia. by rewrite byte_of_val.
Qed.
Lemma toy_hex_digits l : Forall (λ c, is_hex_digit c = true) (toy_hex_encode l).
Proof.
  induction l as [|b l IH]; [constructor|]. destruct (byte_nibbles b) as [H1 H2]. simpl.
  constructor; [by apply hex_digit_cases|]. constructor; [by apply hex_digit_cases|done].
Qed.
Lemma toy_hex_length l : length (toy_hex_encode l) = (2 * length l)%nat.
Proof. induction l; simpl; lia. Qed.
Lemma toy_hex_app a b : toy_hex_encode (a ++ b) = toy_hex_encode a ++ toy_hex_encode b.
Proof. induction a as [|x a IH]; [done|]. simpl. by rewrite IH. Qed.

(** ** Cryptographic stand-ins *)

Definition xor_bytes (a b : bytes) : bytes := zip_with byte_xor a b.
Definition toy_sum (l : bytes) : Z := foldr (λ b acc, byte_val b + 31 * acc + 7) 11 l.
Definition toy_digest (l : bytes) : bytes := le_bytes 32 (toy_sum l).
Definition toy_tag (k n : bytes) : bytes := le_bytes 16 (toy_sum (k ++ n)).

Definition toy_sign (sk : KeyType) (m : bytes) : Signature :=
  pad_array 64 (arr_data sk ++ toy_digest m).
Definition toy_encrypt (k : Key) (n : Nonce) (p : bytes) : option bytes :=
  Some (p ++ toy_tag (arr_data k) (arr_data n)).
Definition toy_decrypt (k : Key) (n : Nonce) (c : bytes) : option bytes :=
  let m := (length c - 16)%nat in
  if decide (drop m c = toy_tag (arr_data k) (arr_data n)) then Some (take m c) else None.

Definition toy_prims : Primitives := {|
  StaticSecret := KeyType; PublicKey := KeyType;
  secret_from k := k; secret_bytes k := k; public_of k := k; pk_from k := k; pk_bytes k := k;
  diffie_hellman a b := pad_array 32 (xor_bytes (arr_data a) (arr_data b));
  SigningKey := KeyType; VerifyingKey := KeyType;
  sk_from_bytes k := k; sk_bytes k := k; verifying_key k := k;
  vk_from_bytes k := Some k; vk_bytes k := k;
  ed_sign := toy_sign;
  ed_verify vk m s := bool_decide (s = toy_sign vk m);
  sig_from_slice := try_into 64;
  hkdf_expand ikm info n := Some (pad_array n (pad 16 (info ++ [x01]) ++ toy_digest (ikm ++ info)));
  hmac_sha256 k m := Some (pad_array 32 (toy_digest (k ++ m)));
  sha256 m := pad_array 32 (toy_digest m);
  argon2_hash p s := Some (pad_array 32 (toy_digest (p ++ s)));
  aead_encrypt := toy_encrypt; aead_decrypt := toy_decrypt;
  hex_encode := toy_hex_encode; hex_decode := toy_hex_decode
|}.

Lemma toy_key_laws : @KeyLaws toy_prims.
Proof. constructor; simpl; try done. by intros b v [= ->]. Qed.

Lemma xor_bytes_comm a b : xor_bytes a b = xor_bytes b a.
Proof.
  unfold xor_bytes. revert b. induction a as [|x a IH]; intros [|y b]; simpl; try done.
  by rewrite byte_xor_comm, IH.
Qed.
Lemma toy_dh_laws : @DhLaws toy_prims.
Proof. constructor. simpl. intros a b. by rewrite xor_bytes_comm. Qed.

Lemma toy_sig_laws : @SigLaws toy_prims.
Proof.
  constructor; simpl.
  - intros. by apply bool_decide_eq_true.
  - intros. apply try_into_data.
  - intros b s. by rewrite try_into_Some.
Qed.

Lemma toy_kdf_laws : @KdfLaws toy_prims.
Proof. constructor; simpl; eauto. Qed.

Lemma toy_aead_laws : @AeadLaws toy_prims.
Proof.
  constructor; simpl.
  - intros k n p c [= <-]. unfold toy_decrypt.
    assert (Hl : length (toy_tag (arr_data k) (arr_data n)) = 16%nat) by apply le_bytes_length.
    rewrite length_app, Hl. replace (length p + 16 - 16)%nat with (length p) by lia.
    by rewrite drop_app_length, take_app_length, decide_True.
  - intros k n p c [= <-]. by rewrite length_app.
  - intros k n p c. unfold toy_decrypt. case_decide as H; [|done]. intros [= <-].
    apply (f_equal length) in H. rewrite length_drop in H.
    change (length (toy_tag (arr_data k) (arr_data n))) with 16%nat in H.
    rewrite length_take. lia.
  - eauto.
Qed.

Lemma toy_argon_laws : @ArgonLaws toy_prims.
Proof. constructor; simpl; eauto. Qed.

Lemma toy_hex_laws : @HexLaws toy_prims.
Proof.
  constructor; simpl; [apply toy_hex_roundtrip|apply toy_hex_digits|apply toy_hex_length|
    apply toy_hex_app].
Qed.

(** ** A sorted association list as the store *)

Fixpoint list_insert_key (k v : bytes) (l : list (bytes * bytes)) : list (bytes * bytes) :=
  match l with
  | [] => [(k, v)]
  | e :: l' =>
      if decide (e.1 = k) then (k, v) :: l'
      else if lex_lt k e.1 then (k, v) :: l
      else e :: list_insert_key k v l'
  end.

Definition sorted_db : Type := { l : list (bytes * bytes) | StronglySorted key_lt l }.

Lemma list_insert_elem k v l k' v' : StronglySorted key_lt l →
  (k', v') ∈ list_insert_key k v l ↔ (k' = k ∧ v' = v) ∨ (k' ≠ k ∧ (k', v') ∈ l).
Proof.
  induction 1 as [|[k0 v0] l Hl IH Hx]; simpl.
  { rewrite list_elem_of_singleton. set_solver. }
  rewrite Forall_forall in Hx. case_decide; [|case_match]; subst; rewrite ?elem_of_cons, ?IH.
  - split; [|naive_solver]. intros [?|Hin]; [naive_solver|]. right. split; [|naive_solver].
    intros ->. specialize (Hx _ Hin). unfold key_lt in Hx. simpl in Hx. by rewrite lex_lt_irrefl in Hx.
  - split; [|naive_solver]. intros [?|[?|Hin]]; [naive_solver|naive_solver|]. right. split; [|naive_solver].
    intros ->. specialize (Hx _ Hin). unfold key_lt in Hx. simpl in *.
    apply lex_lt_asym in Hx. congruence.
  - naive_solver.
Qed.

Lemma list_insert_sorted k v l : StronglySorted key_lt l → StronglySorted key_lt (list_insert_key k v l).
Proof.
  induction 1 as [|[k0 v0] l Hl IH Hx]; simpl; [repeat constructor|].
  case_decide as Hk; [|case_match eqn:E]; simpl in *; subst.
  - by constructor.
  - constructor; [by constructor|]. constructor; [done|].
    eapply Forall_impl; [exact Hx|]. intros y Hy. unfold key_lt in *. by eapply lex_lt_trans.
  - constructor; [done|]. rewrite Forall_forall in *. intros [k' v'] Hin.
    apply list_insert_elem in Hin as [[-> ->]|[_ Hin]]; [|by apply Hx|done].
    unfold key_lt. simpl. destruct (lex_lt_total k0 k) as [?|[?|?]]; congruence.
Qed.

Lemma list_filter_sorted k (l : list (bytes * bytes)) :
  StronglySorted key_lt l → StronglySorted key_lt (filter (λ e, e.1 ≠ k) l).
Proof.
  induction 1 as [|x l Hl IH Hx]; [constructor|]. rewrite filter_cons.
  case_decide; [|done]. constructor; [done|]. rewrite Forall_forall in *.
  intros y [_ Hy]%list_elem_of_filter. auto.
Qed.

Definition list_sled : Sled := {|
  Db := sorted_db;
  db_empty := exist _ [] (SSorted_nil _);
  db_iter d := `d;
  db_last d := last (`d);
  db_insert k v d := exist _ (list_insert_key k v (`d)) (list_insert_sorted k v _ (proj2_sig d));
  db_remove k d := exist _ (filter (λ e, e.1 ≠ k) (`d)) (list_filter_sorted k _ (proj2_sig d))
|}.

Lemma list_sled_laws : @SledLaws list_sled.
Proof.
  constructor; simpl; try done.
  - intros d. apply (proj2_sig d).
  - intros. apply list_insert_elem, (proj2_sig d).
  - intros. by rewrite list_elem_of_filter.
Qed.

(** ** A quiet environment: no faults, a clock that advances by one second *)

Definition toy_env : @Env toy_prims :=
  @Build_Env toy_prims
    [str "home"]
    (λ n, 1000000 + Z.of_nat n mod 100)
    (λ i n, pad_array n (le_bytes n (Z.of_nat i + 1)))
    (λ i, pad_array 32 (le_bytes 32 (Z.of_nat i + 100)))
    (λ i, pad_array 32 (le_bytes 32 (Z.of_nat i + 200)))
    (λ i, pad_array 12 (le_bytes 12 (Z.of_nat i + 1)))
    (λ _, None)
    (λ _, 0%nat)
    (λ l, l)
    (λ _, str "io error")
    (str "argon2 error")
    (str "aead::Error").

Lemma toy_env_laws : @EnvLaws toy_prims toy_env.
Proof.
  constructor; [done|]. intros n. unfold i64_ok. cbn -[Z.modulo].
  pose proof (Z.mod_pos_bound (Z.of_nat n) 100 ltac:(lia)). assert (2000000 < two63) by done. lia.
Qed.
