(* ===== verification/World.v ===== *)
(** * The operating system as the crates see it

    The state the code reads and writes outside its own memory: the file
    system below the home directory, and how many clock readings, random
    draws and file-system operations have happened.  File-system calls are
    those of [std::fs] ([create_dir_all], [OpenOptions::open], [write_all],
    [flush], [read_exact], [read_dir], [remove_dir_all], ...); each can fail
    with the fault the environment holds for it.  A [sled] database occupies
    one node of the tree. *)

From S2P Require Import Prelude Bytes Text Primitives.

Abbreviation path := (list rstring).

Inductive node `{Sled} :=
| NDir
| NFile (data : bytes)
| NDb (db : Db).

Record World `{Sled} := mkWorld {
  w_fs : gmap path node;
  w_clock : nat;
  w_rng : nat;
  w_io : nat
}.
Arguments mkWorld {_}.

Section World.
Context `{Prim : Primitives} `{EnvI : !Env} `{SledI : Sled}.

Definition set_fs (fs : gmap path node) (w : World) : World :=
  mkWorld fs (w_clock w) (w_rng w) (w_io w).

(** [Utc::now().timestamp()] *)
Definition utc_now : St World Z :=
  λ w, (clock (w_clock w), mkWorld (w_fs w) (S (w_clock w)) (w_rng w) (w_io w)).

(** A draw from [OsRng]. *)
Definition draw {A} (f : nat → A) : St World A :=
  λ w, (f (w_rng w), mkWorld (w_fs w) (w_clock w) (S (w_rng w)) (w_io w)).

(** One fallible system call: the environment's fault, or the operation. *)
Definition syscall {A} (op : gmap path node → result A ErrorKind * gmap path node) :
    St World (result A ErrorKind) :=
  λ w, let w' := mkWorld (w_fs w) (w_clock w) (w_rng w) (S (w_io w)) in
       match io_fault (w_io w) with
       | Some k => (Err k, w')
       | None => let '(r, fs) := op (w_fs w) in (r, set_fs fs w')
       end.

(** The root of the tree always is a directory. *)
Definition is_dir_node (fs : gmap path node) (p : path) : bool :=
  match p with
  | [] => true
  | _ => match fs !! p with Some NDir | Some (NDb _) => true | _ => false end
  end.

Definition parent (p : path) : path := take (length p - 1) p.

(** Create the missing directories on the way from [base] down [rest]. *)
Fixpoint mkdirs (base rest : path) (fs : gmap path node) : result unit ErrorKind * gmap path node :=
  match rest with
  | [] => (Ok tt, fs)
  | x :: rest' =>
      let p := base ++ [x] in
      match fs !! p with
      | None => mkdirs p rest' (<[p := NDir]> fs)
      | Some (NFile _) => (Err EkOther, fs)
      | Some _ => mkdirs p rest' fs
      end
  end.

(** [fs::create_dir_all] *)
Definition create_dir_all (p : path) : St World (result unit ErrorKind) :=
  syscall (mkdirs [] p).

(** [OpenOptions::new().write(true).create(true).truncate(true).open(p)] *)
Definition open_truncate (p : path) : St World (result unit ErrorKind) :=
  syscall (λ fs,
    if negb (is_dir_node fs (parent p)) then (Err EkNotFound, fs)
    else match fs !! p with
         | Some NDir | Some (NDb _) => (Err EkOther, fs)
         | _ => (Ok tt, <[p := NFile []]> fs)
         end).

(** [file.write_all(data)] on a file opened for writing at its end; a fault
    leaves a prefix of the data behind. *)
Definition append_data (p : path) (data : bytes) (fs : gmap path node) : gmap path node :=
  match fs !! p with
  | Some (NFile old) => <[p := NFile (old ++ data)]> fs
  | _ => fs
  end.

Definition write_all (p : path) (data : bytes) : St World (result unit ErrorKind) :=
  λ w, let w' := mkWorld (w_fs w) (w_clock w) (w_rng w) (S (w_io w)) in
       match io_fault (w_io w) with
       | Some k => (Err k, set_fs (append_data p (take (io_partial (w_io w)) data) (w_fs w)) w')
       | None => (Ok tt, set_fs (append_data p data (w_fs w)) w')
       end.

Definition flush : St World (result unit ErrorKind) := syscall (λ fs, (Ok tt, fs)).

(** [OpenOptions::new().read(true).open(p)] *)
Definition open_read (p : path) : St World (result unit ErrorKind) :=
  syscall (λ fs, match fs !! p with Some _ => (Ok tt, fs) | None => (Err EkNotFound, fs) end).

(** [file.read_exact(&mut [0u8; n])] on a file just opened. *)
Definition read_exact (p : path) (n : nat) : St World (result bytes ErrorKind) :=
  syscall (λ fs, match fs !! p with
                 | Some (NFile d) =>
                     if (n <=? length d)%nat then (Ok (take n d), fs) else (Err EkUnexpectedEof, fs)
                 | _ => (Err EkOther, fs)
                 end).

(** [Path::is_dir], [Path::exists]: [false] when the metadata call fails. *)
Definition path_is_dir (p : path) : St World bool :=
  λ w, let '(r, w') := syscall (λ fs, (Ok (is_dir_node fs p), fs)) w in (unwrap_or false r, w').
Definition path_exists (p : path) : St World bool :=
  λ w, let '(r, w') := syscall (λ fs, (Ok (bool_decide (is_Some (fs !! p))), fs)) w in
       (unwrap_or false r, w').

Definition remove_tree (p : path) (fs : gmap path node) : gmap path node :=
  filter (λ kv, ¬ p `prefix_of` kv.1) fs.

(** [fs::remove_dir_all] *)
Definition remove_dir_all (p : path) : St World (result unit ErrorKind) :=
  syscall (λ fs, match fs !! p with
                 | None => (Err EkNotFound, fs)
                 | Some (NFile _) => (Err EkOther, fs)
                 | Some _ => (Ok tt, remove_tree p fs)
                 end).

(** The entries of a directory, in the environment's order. *)
Definition child_name (p q : path) : option rstring :=
  if decide (take (length p) q = p) then
    match drop (length p) q with [x] => Some x | _ => None end
  else None.

Definition children (p : path) (fs : gmap path node) : list rstring :=
  omap (child_name p) (map_to_list fs).*1.

(** [Path::read_dir] *)
Definition read_dir (p : path) : St World (result (list rstring) ErrorKind) :=
  syscall (λ fs, if is_dir_node fs p then (Ok (dir_order (children p fs)), fs)
                 else (Err EkNotFound, fs)).

(** One entry of a directory iterator. *)
Definition dir_entry (p : path) (x : rstring) : St World (result path ErrorKind) :=
  syscall (λ fs, (Ok (p ++ [x]), fs)).

(** [fs::read_to_string] *)
Definition read_to_string (p : path) : St World (result rstring ErrorKind) :=
  syscall (λ fs, match fs !! p with
                 | Some (NFile d) =>
                     match from_utf8 d with Some s => (Ok s, fs) | None => (Err EkOther, fs) end
                 | Some _ => (Err EkOther, fs)
                 | None => (Err EkNotFound, fs)
                 end).

(** [fs::write] *)
Definition fs_write (p : path) (data : bytes) : St World (result unit ErrorKind) :=
  let? _ := open_truncate p in write_all p data.

(** ** [sled] databases in the tree *)

(** [sled::open]: creates the storage directory when there is none. *)
Definition sled_open (p : path) : St World (result unit ErrorKind) :=
  syscall (λ fs, match fs !! p with
                 | Some (NDb _) => (Ok tt, fs)
                 | Some (NFile _) => (Err EkOther, fs)
                 | Some NDir => (Ok tt, <[p := NDb db_empty]> fs)
                 | None =>
                     match mkdirs [] (parent p) fs with
                     | (Ok _, fs') => (Ok tt, <[p := NDb db_empty]> fs')
                     | (Err k, fs') => (Err k, fs')
                     end
                 end).

(** An operation on an open database. *)
Definition db_op {A} (p : path) (f : Db → A * Db) : St World (result A ErrorKind) :=
  syscall (λ fs, match fs !! p with
                 | Some (NDb d) => let '(a, d') := f d in (Ok a, <[p := NDb d']> fs)
                 | _ => (Err EkOther, fs)
                 end).

(** ** Facts *)

(** Reading leaves the file system as it is. *)
Definition same_fs (w w' : World) : Prop := w_fs w' = w_fs w.
#[export] Instance same_fs_preorder : PreOrder same_fs.
Proof. split; [done|]. unfold same_fs. intros ??? H1 H2. congruence. Qed.

Lemma syscall_reads {A} (op : gmap path node → result A ErrorKind * gmap path node) :
  (∀ fs, (op fs).2 = fs) → respects same_fs (syscall op).
Proof.
  intros Hop w. unfold syscall, same_fs. destruct (io_fault (w_io w)); [done|].
  specialize (Hop (w_fs w)). by destruct (op (w_fs w)).
Qed.

(** No file-system operation faults. *)
Class Quiet : Prop := quiet : ∀ n, io_fault n = None.

Lemma syscall_quiet {A} `{!Quiet} (op : gmap path node → result A ErrorKind * gmap path node) w :
  syscall op w = ((op (w_fs w)).1,
                  mkWorld (op (w_fs w)).2 (w_clock w) (w_rng w) (S (w_io w))).
Proof. unfold syscall. rewrite quiet. by destruct (op (w_fs w)). Qed.

(** A read-only system call keeps the file system, fault or not. *)
Lemma syscall_fs {A} (op : gmap path node → result A ErrorKind * gmap path node) w :
  (∀ fs, (op fs).2 = fs) → w_fs (syscall op w).2 = w_fs w.
Proof.
  intros Hop. unfold syscall. destruct (io_fault _); [done|].
  specialize (Hop (w_fs w)). by destruct (op (w_fs w)).
Qed.

Lemma lookup_remove_tree_in p q fs : p `prefix_of` q → remove_tree p fs !! q = None.
Proof. intros H. unfold remove_tree. apply map_lookup_filter_None. right. by intros x _ []. Qed.

Lemma lookup_remove_tree_out p q fs : ¬ p `prefix_of` q → remove_tree p fs !! q = fs !! q.
Proof.
  intros H. unfold remove_tree. rewrite map_lookup_filter. destruct (fs !! q); [|done].
  simpl. by rewrite option_guard_True.
Qed.

Lemma mkdirs_mono base rest fs q :
  is_Some (fs !! q) → (mkdirs base rest fs).2 !! q = fs !! q.
Proof.
  revert base fs. induction rest as [|x rest IH]; intros base fs Hq; [done|]. simpl.
  destruct (fs !! (base ++ [x])) as [[]|] eqn:E; [by apply IH|done|by apply IH|].
  rewrite IH.
  - apply lookup_insert_ne. intros <-. destruct Hq. congruence.
  - rewrite lookup_insert_ne; [done|]. intros <-. destruct Hq. congruence.
Qed.

(** [mkdirs] only adds directories, on the way to its target. *)
Lemma mkdirs_new base rest fs q n :
  (mkdirs base rest fs).2 !! q = Some n → fs !! q = Some n ∨
    (n = NDir ∧ fs !! q = None ∧ ∃ k, q = base ++ take k rest ∧ (0 < k)%nat).
Proof.
  revert base fs. induction rest as [|x rest IH]; intros base fs; [by left|]. simpl.
  assert (Hlift : (∃ k, q = (base ++ [x]) ++ take k rest ∧ (0 < k)%nat) →
    ∃ k, q = base ++ take k (x :: rest) ∧ (0 < k)%nat).
  { intros (k & -> & ?). exists (S k). simpl. rewrite <- app_assoc. simpl. split; [done|lia]. }
  destruct (fs !! (base ++ [x])) as [m|] eqn:E.
  - destruct m; intros H; try (by left); apply IH in H as [?|(? & ? & ?)]; eauto 6.
  - intros H. apply IH in H as [H|(? & Hn & ?)].
    + rewrite lookup_insert in H. case_decide; [|by left]. simplify_eq. right.
      split_and!; [done|done|]. exists 1%nat. simpl. split; [done|lia].
    + rewrite lookup_insert in Hn. case_decide; [done|]. right. eauto 6.
Qed.

Lemma mkdirs_ok base rest fs fs' :
  mkdirs base rest fs = (Ok tt, fs') →
  ∀ k, (0 < k ≤ length rest)%nat → is_dir_node fs' (base ++ take k rest) = true.
Proof.
  revert base fs. induction rest as [|x rest IH]; intros base fs H k Hk; simpl in *; [lia|].
  assert (Hdir : ∀ p, p ≠ [] → fs' !! p = Some NDir ∨ (∃ d, fs' !! p = Some (NDb d)) →
    is_dir_node fs' p = true).
  { intros [|c p] Hne Hp; [done|]. unfold is_dir_node. by destruct Hp as [->|[d ->]]. }
  assert (Hstep : ∀ fs0, mkdirs (base ++ [x]) rest fs0 = (Ok tt, fs') →
    is_Some (fs0 !! (base ++ [x])) → fs' !! (base ++ [x]) = fs0 !! (base ++ [x])).
  { intros fs0 E Hs. pose proof (mkdirs_mono (base ++ [x]) rest fs0 _ Hs) as Hm. by rewrite E in Hm. }
  destruct k as [|[|k]]; [lia|..].
  - change (take 1 (x :: rest)) with [x]. apply Hdir; [by destruct base|].
    destruct (fs !! (base ++ [x])) as [[| |d]|] eqn:E; simplify_eq.
    + left. rewrite <- E. apply Hstep; [done|by rewrite E].
    + right. exists d. rewrite <- E. apply Hstep; [done|by rewrite E].
    + left. rewrite (Hstep _ H); rewrite lookup_insert_eq; done.
  - change (take (S (S k)) (x :: rest)) with (x :: take (S k) rest).
    replace (base ++ x :: take (S k) rest) with ((base ++ [x]) ++ take (S k) rest)
      by (by rewrite <- app_assoc).
    destruct (fs !! (base ++ [x])) as [[| |d]|] eqn:E; simplify_eq; eapply IH; eauto with lia.
Qed.

(** No regular file stands on the way to [p]. *)
Definition clear_path (fs : gmap path node) (p : path) : Prop :=
  ∀ k d, fs !! take k p ≠ Some (NFile d).

Lemma mkdirs_clear base rest fs :
  (∀ k d, (0 < k)%nat → fs !! (base ++ take k rest) ≠ Some (NFile d)) →
  ∃ fs', mkdirs base rest fs = (Ok tt, fs').
Proof.
  revert base fs. induction rest as [|x rest IH]; intros base fs Hc; simpl; [eauto|].
  assert (Hsub : ∀ k d, (0 < k)%nat → fs !! ((base ++ [x]) ++ take k rest) ≠ Some (NFile d)).
  { intros k d Hk. rewrite <- app_assoc. apply (Hc (S k) d). lia. }
  destruct (fs !! (base ++ [x])) as [[|d|db]|] eqn:E; [by apply IH| |by apply IH|].
  - by destruct (Hc 1%nat d ltac:(lia)).
  - apply IH. intros k d Hk. rewrite lookup_insert. case_decide; [done|by apply Hsub].
Qed.

Lemma mkdirs_clear_path p fs : clear_path fs p → ∃ fs', mkdirs [] p fs = (Ok tt, fs').
Proof. intros Hc. apply mkdirs_clear. intros k d _. apply Hc. Qed.

(** After a successful [mkdirs] the target is a directory. *)
Lemma mkdirs_target p fs fs' : mkdirs [] p fs = (Ok tt, fs') → is_dir_node fs' p = true.
Proof.
  intros H. destruct p as [|x p]; [done|].
  pose proof (mkdirs_ok _ _ _ _ H (length (x :: p)) ltac:(simpl; lia)) as Hd.
  by rewrite firstn_all in Hd.
Qed.

Lemma mkdirs_clear_mono p q fs fs' :
  mkdirs [] p fs = (Ok tt, fs') → clear_path fs q → clear_path fs' q.
Proof.
  intros H Hc k d Hk. pose proof (mkdirs_new [] p fs (take k q) (NFile d)) as Hn.
  rewrite H in Hn. apply Hn in Hk as [Hk|(? & _)]; [|done]. by apply (Hc k d).
Qed.

Lemma mkdirs_file p fs fs' q d :
  mkdirs [] p fs = (Ok tt, fs') → fs' !! q = Some (NFile d) → fs !! q = Some (NFile d).
Proof.
  intros H Hq. pose proof (mkdirs_new [] p fs q (NFile d)) as Hn. rewrite H in Hn.
  apply Hn in Hq as [?|(? & _)]; done.
Qed.

Lemma child_name_snoc p x : child_name p (p ++ [x]) = Some x.
Proof. unfold child_name. by rewrite take_app_length, drop_app_length, decide_True. Qed.

Lemma child_name_Some p q x : child_name p q = Some x → q = p ++ [x].
Proof.
  unfold child_name. case_decide as Ht; [|done].
  destruct (drop (length p) q) as [|y [|]] eqn:Hd; try done. intros [= ->].
  by rewrite <- (take_drop (length p) q), Ht, Hd.
Qed.

(** A directory lists exactly the names that exist below it. *)
Lemma elem_of_children p x fs : x ∈ children p fs ↔ is_Some (fs !! (p ++ [x])).
Proof.
  unfold children. rewrite list_elem_of_omap. split.
  - intros (q & Hq & Hx). apply child_name_Some in Hx as ->.
    apply list_elem_of_fmap in Hq as ([q n] & -> & Hq). apply elem_of_map_to_list in Hq. eauto.
  - intros [n Hn]. exists (p ++ [x]). split; [|apply child_name_snoc].
    apply list_elem_of_fmap. exists (p ++ [x], n). split; [done|]. by apply elem_of_map_to_list.
Qed.

(** [p] is free, or a regular file. *)
Definition not_a_dir (fs : gmap path node) (p : path) : Prop :=
  match fs !! p with Some NDir | Some (NDb _) => False | _ => True end.

(** Only prefixes of the target become directories. *)
Lemma mkdirs_not_a_dir p q fs fs' :
  ¬ q `prefix_of` p → mkdirs [] p fs = (Ok tt, fs') → not_a_dir fs q → not_a_dir fs' q.
Proof.
  intros Hq Hm Hn. unfold not_a_dir in *. destruct (fs' !! q) as [n|] eqn:E; [|done].
  pose proof (mkdirs_new [] p fs q n) as Hnew. rewrite Hm in Hnew.
  apply Hnew in E as [E|(-> & _ & k & Hk & _)]; [by rewrite E in Hn|].
  destruct Hq. simpl in Hk. subst q. apply prefix_take.
Qed.

Lemma parent_snoc p x : parent (p ++ [x]) = p.
Proof. unfold parent. rewrite length_app. simpl. apply take_app_exact. lia. Qed.

Lemma is_dir_insert_file fs p q d :
  is_dir_node fs q = true → p ≠ q → is_dir_node (<[p := NFile d]> fs) q = true.
Proof. destruct q as [|x q]; [done|]. unfold is_dir_node. intros H Hne. by rewrite lookup_insert_ne. Qed.

Lemma is_dir_insert_db fs p q d :
  is_dir_node fs q = true → is_dir_node (<[p := NDb d]> fs) q = true.
Proof.
  destruct q as [|x q]; [done|]. unfold is_dir_node. rewrite lookup_insert. by case_decide.
Qed.

(** Creating and writing a file, without faults. *)
Lemma open_truncate_quiet `{!Quiet} p w :
  is_dir_node (w_fs w) (parent p) = true → not_a_dir (w_fs w) p →
  open_truncate p w = (Ok tt, mkWorld (<[p := NFile []]> (w_fs w)) (w_clock w) (w_rng w) (S (w_io w))).
Proof.
  intros Hp Hn. unfold open_truncate. rewrite syscall_quiet. rewrite Hp. simpl.
  unfold not_a_dir in Hn. destruct (w_fs w !! p) as [[]|]; done.
Qed.

Lemma write_all_quiet `{!Quiet} p old data w :
  w_fs w !! p = Some (NFile old) →
  write_all p data w =
    (Ok tt, mkWorld (<[p := NFile (old ++ data)]> (w_fs w)) (w_clock w) (w_rng w) (S (w_io w))).
Proof. intros Hp. unfold write_all, append_data. by rewrite quiet, Hp. Qed.

Lemma fs_write_quiet `{!Quiet} p data w :
  is_dir_node (w_fs w) (parent p) = true → not_a_dir (w_fs w) p →
  fs_write p data w =
    (Ok tt, mkWorld (<[p := NFile data]> (w_fs w)) (w_clock w) (w_rng w) (S (S (w_io w)))).
Proof.
  intros Hp Hn. unfold fs_write, ebind. rewrite open_truncate_quiet by done.
  rewrite (write_all_quiet _ []) by (simpl; by rewrite lookup_insert_eq). simpl.
  by rewrite insert_insert_eq.
Qed.

End World.
