(* ===== verification/Crypto.v ===== *)
(** * The [crypto] crate: keys, messages and envelopes

    src/crates/crypto/src/lib.rs without its files: the data types, the key
    schedule (HKDF labels), chat-message encryption with counter-derived
    nonces, the storage encryption of one message, presence tokens, and the
    blob envelope.  [None] of an [option] result is a panic ([unwrap],
    [expect], a slice out of range). *)

From Stdlib Require Import Strings.Byte.
From S2P Require Import Prelude Bytes Text Primitives Instances World.

Local Open Scope Z_scope.

Inductive Author := You | Peer.

Record Message := mkMessage {
  msg_author : Author;
  msg_text : rstring;
  msg_timestamp : Z
}.

Inductive CryptoErrors :=
| CryptographicError
| NotADirectory (s : rstring)
| PermissionDenied
| BadPermission
| NotFound (s : rstring)
| Other (e : ErrorKind)
| CorruptedFile.

#[export] Instance Author_eq_dec : EqDecision Author.
Proof. solve_decision. Defined.
#[export] Instance Message_eq_dec : EqDecision Message.
Proof. solve_decision. Defined.

(** [Message::from_parts] *)
Definition from_parts (text : rstring) (author : Author) (timestamp : Z) : Message :=
  mkMessage author text timestamp.

(** [&l[a..b]] *)
Definition slice (a b : nat) (l : bytes) : option bytes :=
  if ((a <=? b) && (b <=? length l))%nat then Some (take (b - a) (drop a l)) else None.

Lemma slice_exact a b l : (a ≤ b ≤ length l)%nat → slice a b l = Some (take (b - a) (drop a l)).
Proof.
  intros H. unfold slice. destruct (Nat.leb_spec a b); [|lia].
  destruct (Nat.leb_spec b (length l)); [done|lia].
Qed.

(** ** The nonce of a chat message *)

Definition xor_loop (base counter_bytes : bytes) : bytes :=
  foldl (λ n i, alter (λ b, byte_xor b (default x00 (counter_bytes !! i))) (4 + i)%nat n)
        base (seq 0 8).

Lemma xor_loop_length base c : length (xor_loop base c) = length base.
Proof.
  unfold xor_loop. generalize (seq 0 8). intros l. revert base.
  induction l as [|i l IH]; intros base; simpl; [done|]. by rewrite IH, length_alter.
Qed.

Definition nonce_for_message (base : array 12) (counter : Z) : Nonce :=
  Array (xor_loop (arr_data base) (to_le_bytes counter))
    (SIsTrue_of _ (proj2 (Nat.eqb_eq _ _) (eq_trans (xor_loop_length _ _) (arr_length base)))).

(** The loop leaves bytes 0..4 and XORs the counter into bytes 4..12. *)
Lemma xor_loop_spec base c :
  length base = 12%nat → length c = 8%nat →
  xor_loop base c = take 4 base ++ zip_with byte_xor (drop 4 base) c.
Proof.
  intros Hb Hc. do 12 (destruct base as [|? base]; [done|]). destruct base; [|done].
  do 8 (destruct c as [|? c]; [done|]). destruct c; [|done]. reflexivity.
Qed.

Lemma zip_xor_inj (a b c : bytes) :
  length b = length a → length c = length a →
  zip_with byte_xor a b = zip_with byte_xor a c → b = c.
Proof.
  revert b c. induction a as [|x a IH]; intros [|y b] [|z c]; simpl; try done.
  intros [= Hb] [= Hc] [= Hx Hr]. apply byte_xor_inj_r in Hx as ->. f_equal. by apply IH.
Qed.

Section Crypto.
Context `{Prim : Primitives} `{EnvI : !Env} `{SledI : Sled}.

Record PeerPublic := mkPeerPublic {
  peer_public : PublicKey;
  peer_verifying : VerifyingKey
}.

Record Keys := mkKeys {
  x25519_priv : StaticSecret;
  x25519_pub : PublicKey;
  ed25519_signing : SigningKey;
  ed25519_verifying : VerifyingKey
}.

(** [impl fmt::Display for CryptoErrors] *)
Definition display_crypto (e : CryptoErrors) : rstring :=
  match e with
  | CryptographicError => str "Cryptographic error"
  | NotADirectory s => str "Not a directory: " ++ s
  | PermissionDenied => str "Permission denied"
  | BadPermission => str "Bad file permission"
  | NotFound s => str "Not found: " ++ s
  | Other e => str "IO error: " ++ io_display e
  | CorruptedFile => str "Corrupted file"
  end.

(** [Message::new] *)
Definition message_new (text : rstring) (author : Author) : St World Message :=
  let! timestamp := utc_now in sret (mkMessage author text timestamp).

Definition generate_x25519 : St World (StaticSecret * PublicKey) :=
  let! secret := draw rng_secret in sret (secret, public_of secret).

Definition generate_ed25519 : St World SigningKey := draw rng_signing.

Definition identity_hash (x25519_pub : PublicKey) (verifying : VerifyingKey) : hash :=
  sha256 (arr_data (pk_bytes x25519_pub) ++ arr_data (vk_bytes verifying)).

(** HKDF labels. *)
Definition label (s : String.string) : bytes := as_bytes (str s).

(** ** Chat messages over a session *)

(** [message] is [String::as_bytes], then encrypted. *)
Definition encrypt_message_for_chat (message : rstring) (sessionkey : Key) (counter : Z) :
    option bytes :=
  message_key ← hkdf_expand (arr_data sessionkey) (label "message") 32;
  base ← hkdf_expand (arr_data sessionkey) (label "nonce") 12;
  aead_encrypt message_key (nonce_for_message base counter) (as_bytes message).

Definition decrypt_message_from_chat (message : bytes) (sessionkey : Key) (counter : Z) :
    option (result rstring CryptoErrors) :=
  message_key ← hkdf_expand (arr_data sessionkey) (label "message") 32;
  base ← hkdf_expand (arr_data sessionkey) (label "nonce") 12;
  Some (let* decrypted := ok_or CryptographicError
          (aead_decrypt message_key (nonce_for_message base counter) message) in
        ok_or CorruptedFile (from_utf8 decrypted)).

(** ** Keys shared with a peer *)

Definition derive_shared (privkey : StaticSecret) (peer_pub : PublicKey) (lbl : bytes) :
    option KeyType :=
  hkdf_expand (arr_data (diffie_hellman privkey peer_pub)) lbl 32.

Definition load_storage_key (peer_pub : PublicKey) (privkey : StaticSecret) :
    result Key CryptoErrors :=
  ok_or CryptographicError (derive_shared privkey peer_pub (label "storage")).

Definition derive_session_key (ephermal_priv : StaticSecret) (peer_ephemeral_pub : PublicKey) :
    result KeyType CryptoErrors :=
  ok_or CryptographicError (derive_shared ephermal_priv peer_ephemeral_pub (label "session")).

Definition relay_session_key (peer_pub : PublicKey) (my_priv : StaticSecret) : option KeyType :=
  derive_shared my_priv peer_pub (label "relay-session").

Definition derive_directional_key (session_key : KeyType) (lbl : bytes) : option Key :=
  hkdf_expand (arr_data session_key) lbl 32.

(** [(timestamp / 15) * 15]: division truncates toward zero. *)
Definition presence_window (timestamp : Z) : Z := Z.quot timestamp 15 * 15.

Definition presence_token (privkey : StaticSecret) (peer_pub : PublicKey) (timestamp : Z) :
    result KeyType CryptoErrors :=
  let* presence_key := ok_or CryptographicError (derive_shared privkey peer_pub (label "presence")) in
  let ts := presence_window timestamp in
  ok_or CryptographicError (hmac_sha256 (arr_data presence_key) (to_le_bytes ts)).

Definition verify_challenge (verif : VerifyingKey) (bits : bytes) (signature : Signature) :
    result unit CryptoErrors :=
  if ed_verify verif bits signature then Ok tt else Err CryptographicError.

Definition sign_challenge (signing : SigningKey) (b : bytes) : Signature := ed_sign signing b.

(** ** Stored messages *)

Context `{MsgRmp : !Rmp Message}.

Definition decrypt_message_stored (data : bytes) (storagekey : Key) : result bytes CryptoErrors :=
  if (length data <? 12)%nat then Err CorruptedFile
  else match try_into 12 (take 12 data) with
       | None => Err CorruptedFile
       | Some nonce => ok_or CryptographicError (aead_decrypt storagekey nonce (drop 12 data))
       end.

Definition encrypt_message_stored (msg : Message) (storagekey : Key) :
    St World (result bytes CryptoErrors) :=
  let! nonce := draw rng_nonce in
  sret (let* b := map_err (λ _, CryptographicError) (rmp_to_vec msg) in
        let* ciphertext := ok_or CryptographicError (aead_encrypt storagekey nonce b) in
        Ok (arr_data nonce ++ ciphertext)).

(** ** The blob envelope: ephemeral public key, nonce, ciphertext *)

Definition encrypt_blob (recipient_pub : PublicKey) (plaintext : bytes) :
    St World (result bytes CryptoErrors) :=
  let! eph_secret := draw rng_secret in
  let eph_pub := public_of eph_secret in
  let? key := sret (ok_or CryptographicError (derive_shared eph_secret recipient_pub (label "blob"))) in
  let! nonce := draw rng_nonce in
  sret (let* ciphertext := ok_or CryptographicError (aead_encrypt key nonce plaintext) in
        Ok (arr_data (pk_bytes eph_pub) ++ arr_data nonce ++ ciphertext)).

Definition decrypt_blob (blob : bytes) (privkey : StaticSecret) : result bytes CryptoErrors :=
  if (length blob <? 44)%nat then Err CorruptedFile
  else
    let* eph := ok_or CorruptedFile (try_into 32 (take 32 blob)) in
    let* key := ok_or CryptographicError (derive_shared privkey (pk_from eph) (label "blob")) in
    let* nonce := ok_or CorruptedFile (try_into 12 (take 12 (drop 32 blob))) in
    ok_or CryptographicError (aead_decrypt key nonce (drop 44 blob)).

(** ** Lemmas shared by the theorems *)

Lemma nonce_inj base c1 c2 :
  u64_ok c1 → u64_ok c2 → nonce_for_message base c1 = nonce_for_message base c2 → c1 = c2.
Proof.
  intros H1 H2 H. apply (f_equal arr_data) in H. simpl in H.
  assert (Hb := arr_length base).
  rewrite !xor_loop_spec in H by auto with sechat. apply app_inv_head in H.
  apply to_le_bytes_inj_u64; [done..|].
  eapply zip_xor_inj; [| |exact H]; rewrite to_le_bytes_length, length_drop, Hb; done.
Qed.

Lemma presence_window_bounds t : 0 ≤ t → presence_window t ≤ t < presence_window t + 15.
Proof.
  intros H. unfold presence_window. rewrite Z.quot_div_nonneg by lia.
  pose proof (Z.div_mod t 15 ltac:(lia)). pose proof (Z.mod_pos_bound t 15 ltac:(lia)). lia.
Qed.

Lemma derive_shared_comm `{!DhLaws} a b lbl :
  derive_shared a (public_of b) lbl = derive_shared b (public_of a) lbl.
Proof. unfold derive_shared. by rewrite dh_comm. Qed.

Lemma derive_shared_total `{!KdfLaws} a p lbl : ∃ k, derive_shared a p lbl = Some k.
Proof. unfold derive_shared. apply hkdf_total. lia. Qed.

Lemma verify_sign `{!SigLaws} sk m :
  verify_challenge (verifying_key sk) m (sign_challenge sk m) = Ok tt.
Proof. unfold verify_challenge, sign_challenge. by rewrite ed_sign_verify. Qed.

(** What was encrypted for a chat decrypts, whoever derived the key. *)
Lemma decrypt_encrypted `{!AeadLaws} t key c ct :
  encrypt_message_for_chat t key c = Some ct → decrypt_message_from_chat ct key c = Some (Ok t).
Proof.
  unfold encrypt_message_for_chat, decrypt_message_from_chat.
  destruct (hkdf_expand _ _ 32) as [mk|]; [|done]. destruct (hkdf_expand _ _ 12) as [base|]; [|done].
  simpl. intros Hct. rewrite (aead_roundtrip _ _ _ _ Hct). simpl. by rewrite from_utf8_as_bytes.
Qed.

Lemma encrypt_total `{!KdfLaws, !AeadLaws} t key c :
  Z.of_nat (length (as_bytes t)) < 2 ^ 36 → ∃ ct, encrypt_message_for_chat t key c = Some ct ∧
    length ct = (length (as_bytes t) + 16)%nat.
Proof.
  intros Hl. unfold encrypt_message_for_chat.
  destruct (hkdf_total (arr_data key) (label "message") 32 ltac:(done)) as [mk ->].
  destruct (hkdf_total (arr_data key) (label "nonce") 12 ltac:(done)) as [base ->]. simpl.
  destruct (aead_total mk (nonce_for_message base c) (as_bytes t) Hl) as [ct Hct].
  exists ct. split; [done|by eapply aead_length].
Qed.

Lemma decrypt_stored_app `{!AeadLaws} (nonce : Nonce) key p c :
  aead_encrypt key nonce p = Some c → decrypt_message_stored (arr_data nonce ++ c) key = Ok p.
Proof.
  intros Henc. unfold decrypt_message_stored. rewrite length_app, arr_length.
  rewrite take_app_exact, drop_app_exact by (by rewrite arr_length).
  rewrite try_into_data. simpl. by rewrite (aead_roundtrip _ _ _ _ Henc).
Qed.

Lemma decrypt_blob_app `{!AeadLaws, !KeyLaws} priv eph (nonce : Nonce) key p c :
  derive_shared priv eph (label "blob") = Some key → aead_encrypt key nonce p = Some c →
  decrypt_blob (arr_data (pk_bytes eph) ++ arr_data nonce ++ c) priv = Ok p.
Proof.
  intros Hk Hc. unfold decrypt_blob. rewrite !length_app, !arr_length. simpl Nat.ltb.
  rewrite take_app_exact by (by rewrite arr_length). rewrite try_into_data. simpl rbind.
  rewrite pk_from_bytes, Hk. simpl rbind.
  rewrite drop_app_exact by (by rewrite arr_length).
  rewrite take_app_exact by (by rewrite arr_length). rewrite try_into_data. simpl rbind.
  rewrite app_assoc, drop_app_exact by (by rewrite length_app, !arr_length).
  by rewrite (aead_roundtrip _ _ _ _ Hc).
Qed.

(** Whatever was drawn, what was sealed opens. *)
Lemma encrypt_blob_opens `{!AeadLaws, !KeyLaws, !DhLaws} priv p w blob w' :
  encrypt_blob (public_of priv) p w = (Ok blob, w') → decrypt_blob blob priv = Ok p.
Proof.
  unfold encrypt_blob, sbind, ebind, draw, sret. cbn [w_rng].
  destruct (derive_shared _ _ _) as [key|] eqn:Hk; [|done]. cbn [ok_or].
  destruct (aead_encrypt _ _ _) as [ct|] eqn:Hc; [|done]. intros [= <- _].
  eapply decrypt_blob_app; [|exact Hc]. by rewrite derive_shared_comm.
Qed.

Lemma encrypt_stored_opens `{!AeadLaws} msg key w data w' :
  encrypt_message_stored msg key w = (Ok data, w') →
  ∃ b, rmp_to_vec msg = Ok b ∧ decrypt_message_stored data key = Ok b.
Proof.
  unfold encrypt_message_stored, sbind, draw, sret. destruct (rmp_to_vec msg) as [b|]; [|done].
  cbn [map_err rbind]. destruct (aead_encrypt _ _ _) as [ct|] eqn:Hc; [|done]. intros [= <- _].
  exists b. split; [done|by apply decrypt_stored_app].
Qed.

Lemma load_storage_key_comm `{!DhLaws} a b :
  load_storage_key (public_of a) b = load_storage_key (public_of b) a.
Proof. unfold load_storage_key. by rewrite derive_shared_comm. Qed.

End Crypto.

Arguments mkPeerPublic {_}.
Arguments mkKeys {_}.
#[export] Hint Resolve verify_sign derive_shared_total : sechat.

Section CryptoTheorems.
Context `{Prim : Primitives} `{EnvI : !Env} `{SledI : Sled} `{MsgRmp : !Rmp Message}.

(** A chat message decrypts to itself: for every text, session key and
    counter, encryption does not panic, the ciphertext is 16 bytes longer than
    the UTF-8 text, and decrypting it with the same key and counter returns
    the text. *)
Theorem chat_message_roundtrip `{!KdfLaws, !AeadLaws} (message : rstring) (key : Key) (counter : Z) :
  Z.of_nat (length (as_bytes message)) < 2 ^ 36 →
  ∃ ct, encrypt_message_for_chat message key counter = Some ct ∧
    length ct = (length (as_bytes message) + 16)%nat ∧
    decrypt_message_from_chat ct key counter = Some (Ok message).
Proof.
  intros Hl. destruct (encrypt_total message key counter Hl) as (ct & Hct & Hlen).
  exists ct. split_and!; [done..|by apply decrypt_encrypted].
Qed.

(** The offline envelope opens for its recipient: whatever ephemeral key
    and nonce are drawn, [encrypt_blob] for a public key succeeds, the blob is
    the 44-byte header plus a ciphertext 16 bytes longer than the payload, and
    [decrypt_blob] with the matching secret key returns the payload. *)
Theorem blob_roundtrip `{!KdfLaws, !AeadLaws, !DhLaws, !KeyLaws} (priv : StaticSecret)
    (plaintext : bytes) (w : World) :
  Z.of_nat (length plaintext) < 2 ^ 36 →
  ∃ blob w', encrypt_blob (public_of priv) plaintext w = (Ok blob, w') ∧
    length blob = (60 + length plaintext)%nat ∧ decrypt_blob blob priv = Ok plaintext.
Proof.
  intros Hl. set (eph := rng_secret (w_rng w)). set (nonce := rng_nonce (S (w_rng w))).
  destruct (derive_shared_total eph (public_of priv) (label "blob")) as [key Hk].
  destruct (aead_total key nonce plaintext Hl) as [ct Hct].
  eexists (_ ++ _ ++ ct), _. split_and!.
  - unfold encrypt_blob. erewrite sbind_step by reflexivity. fold eph.
    erewrite ebind_step by (unfold sret; rewrite Hk; reflexivity).
    erewrite sbind_step by reflexivity. cbn [w_rng]. fold nonce. unfold sret. by rewrite Hct.
  - rewrite !length_app, !arr_length, (aead_length _ _ _ _ Hct). lia.
  - eapply decrypt_blob_app; [|exact Hct]. by rewrite derive_shared_comm.
Qed.

(** Two peers compute the same presence token within a 15-second window:
    from its own secret and the other's public key, each side derives the same
    token whenever both clocks fall into the same window, and deriving it
    never fails. *)
Theorem presence_token_agreement `{!KdfLaws, !DhLaws} (a b : StaticSecret) (t t' : Z) :
  0 ≤ t → 0 ≤ t' → t / 15 = t' / 15 →
  ∃ token, presence_token a (public_of b) t = Ok token ∧ presence_token b (public_of a) t' = Ok token.
Proof.
  intros Ht Ht' Hw. unfold presence_token, presence_window. rewrite (derive_shared_comm b a).
  destruct (derive_shared_total a (public_of b) (label "presence")) as [k ->]. simpl.
  rewrite !Z.quot_div_nonneg, Hw by lia.
  destruct (hmac_total (arr_data k) (to_le_bytes (t' / 15 * 15))) as [tok ->]. by exists tok.
Qed.

(** C32: The nonce of a message is the base nonce XORed with the counter, as
    numbers: the byte loop computes the 96-bit little-endian number
    [base xor (counter * 2^32)], so that its low 32 bits are those of the base
    and every counter gives another nonce. *)
Theorem nonce_is_xor (base : array 12) (counter : Z) :
  u64_ok counter →
  arr_data (nonce_for_message base counter) =
    le_bytes 12 (Z.lxor (le_val (arr_data base)) (Z.shiftl counter 32)) ∧
  le_val (arr_data (nonce_for_message base counter)) mod 2 ^ 32 = le_val (arr_data base) mod 2 ^ 32.
Proof.
  intros Hc. pose proof (arr_length base) as Hb. pose proof (to_le_bytes_length counter) as Hlen.
  assert (Hv : le_val (arr_data (nonce_for_message base counter)) =
    le_val (take 4 (arr_data base)) + 2 ^ 32 * Z.lxor (le_val (drop 4 (arr_data base))) counter).
  { cbn [nonce_for_message arr_data]. rewrite xor_loop_spec, le_val_app, le_val_xor by (auto || by rewrite length_drop, Hb, Hlen).
    rewrite length_take, Hb. unfold to_le_bytes. rewrite le_val_bytes. change (256 ^ Z.of_nat 8) with two64.
    rewrite (Z.mod_small counter) by exact Hc. done. }
  assert (Hbv : le_val (arr_data base) = le_val (take 4 (arr_data base)) + 2 ^ 32 * le_val (drop 4 (arr_data base))).
  { rewrite <- (take_drop 4 (arr_data base)) at 1. rewrite le_val_app, length_take, Hb. done. }
  assert (Hlo : 0 ≤ le_val (take 4 (arr_data base)) < 2 ^ 32).
  { pose proof (le_val_range (take 4 (arr_data base))) as Hr. by rewrite length_take, Hb in Hr. }
  split.
  - rewrite Hbv, Z.shiftl_mul_pow2, (Z.mul_comm counter), <- (Z.add_0_l (2 ^ 32 * counter)) by lia.
    rewrite lxor_digit by (done || lia). rewrite Z.lxor_0_r, <- Hv.
    pose proof (le_bytes_val (arr_data (nonce_for_message base counter))) as Hl. by rewrite arr_length in Hl.
  - rewrite Hv, Hbv. by rewrite !(Z.mul_comm (2 ^ 32)), !Z.mod_add.
Qed.
End CryptoTheorems.

Module CryptoWitness.
#[local] Existing Instances toy_prims toy_env list_sled.
Definition k1 : KeyType := pad_array 32 [x01; x02].
Definition k2 : KeyType := pad_array 32 [x05].
Definition w0 : World := mkWorld ∅ 0 0 0.

Lemma chat_message_roundtrip_witness :
  ∃ ct, encrypt_message_for_chat (str "Hi") k1 7 = Some ct ∧
    length ct = (length (as_bytes (str "Hi")) + 16)%nat ∧
    decrypt_message_from_chat ct k1 7 = Some (Ok (str "Hi")).
Proof.
  apply (@chat_message_roundtrip toy_prims toy_kdf_laws toy_aead_laws (str "Hi") k1 7).
  vm_compute. reflexivity.
Defined.

Lemma blob_roundtrip_witness :
  ∃ blob w', encrypt_blob (public_of k1) (label "payload") w0 = (Ok blob, w') ∧
    length blob = (60 + length (label "payload"))%nat ∧ decrypt_blob blob k1 = Ok (label "payload").
Proof.
  apply (@blob_roundtrip toy_prims toy_env list_sled toy_kdf_laws toy_aead_laws toy_dh_laws toy_key_laws
    k1 (label "payload") w0).
  vm_compute. reflexivity.
Defined.

Lemma presence_token_agreement_witness :
  ∃ token, presence_token k1 (public_of k2) 100 = Ok token ∧ presence_token k2 (public_of k1) 104 = Ok token.
Proof.
  apply (@presence_token_agreement toy_prims toy_kdf_laws toy_dh_laws k1 k2 100 104); [lia|lia|reflexivity].
Defined.

Lemma nonce_is_xor_witness :
  arr_data (nonce_for_message (pad_array 12 [x01; x02; x03; x04; x05]) 258) =
    le_bytes 12 (Z.lxor (le_val [x01; x02; x03; x04; x05]) (Z.shiftl 258 32)).
Proof.
  destruct (nonce_is_xor (pad_array 12 [x01; x02; x03; x04; x05]) 258) as [H _]; [split; vm_compute; [discriminate|reflexivity]|].
  rewrite H. reflexivity.
Defined.
End CryptoWitness.
