(* ===== verification/KeyFile.v ===== *)
(** * The identity files

    [encrypt_keyfile], [read_keyfile] and [decrypt_keyfile] of the [crypto]
    crate, and the [create_identity]/[unlock] entry points of the [client]
    crate: the password-encrypted identity.key and the plain identity.pub. *)

From Stdlib Require Import Strings.Byte.
From S2P Require Import Prelude Bytes Text Primitives Instances World Crypto.

Section KeyFile.
Context `{Prim : Primitives} `{EnvI : !Env} `{SledI : Sled}.

Definition sechat_dir : path := home_dir ++ [str ".sechat"].
Definition peers_dir : path := sechat_dir ++ [str "peers"].
Definition pending_dir : path := sechat_dir ++ [str "pending"].

Record FileData := mkFileData {
  fd_salt : bytes;
  fd_nonce : bytes;
  fd_ciphertext : bytes;
  fd_pubkey : bytes
}.

(** The text of a boxed I/O error. *)
Definition boxed {A} (m : St World (result A ErrorKind)) : St World (result A rstring) :=
  smap_err io_display m.

(** [options.open(p)?], [file.write_all(..)?], [file.flush()?]. *)
Definition store_file (p : path) (data : bytes) : St World (result unit rstring) :=
  let? _ := boxed (open_truncate p) in
  let? _ := boxed (write_all p data) in
  let? _ := boxed flush in
  sret (Ok tt).

Definition encrypt_keyfile (passwdplain : rstring) (x25519_priv : StaticSecret)
    (x25519_pub : PublicKey) (ed25519_signing : SigningKey) : St World (result unit rstring) :=
  let! salt := draw (λ i, rng_fill i 32) in
  let plaintext := arr_data (secret_bytes x25519_priv) ++ arr_data (sk_bytes ed25519_signing) in
  let? derived_filekey := sret (ok_or (str "Argon2 error: " ++ argon2_error_display)
    (argon2_hash (as_bytes passwdplain) (arr_data salt))) in
  let! nonce := draw rng_nonce in
  let? ciphertext := sret (ok_or (str "Encrypt error: " ++ aead_error_display)
    (aead_encrypt derived_filekey nonce plaintext)) in
  let? _ := boxed (create_dir_all sechat_dir) in
  let? _ := boxed (create_dir_all peers_dir) in
  let writeable := arr_data salt ++ arr_data nonce ++ ciphertext in
  let? _ := store_file (sechat_dir ++ [str "identity.key"]) writeable in
  let pub_bytes := arr_data (pk_bytes x25519_pub)
                   ++ arr_data (vk_bytes (verifying_key ed25519_signing)) in
  let? _ := store_file (sechat_dir ++ [str "identity.pub"]) pub_bytes in
  sret (Ok tt).

Definition open_error (e : ErrorKind) : CryptoErrors :=
  match e with EkPermissionDenied => PermissionDenied | e => Other e end.
Definition read_error (e : ErrorKind) : CryptoErrors :=
  match e with
  | EkUnexpectedEof => CorruptedFile
  | EkPermissionDenied => PermissionDenied
  | e => Other e
  end.

Definition read_file_to_buffer (filename : path) (sizeinbytes : nat) :
    St World (result bytes CryptoErrors) :=
  let? _ := smap_err open_error (open_read filename) in
  smap_err read_error (read_exact filename sizeinbytes).

(** The buffers have exactly the sizes asked for, so the slices
    [..32], [32..44], [44..124] are in range. *)
Definition read_keyfile : St World (result FileData CryptoErrors) :=
  let? privkeybuf := read_file_to_buffer (sechat_dir ++ [str "identity.key"]) 124 in
  let salt := take 32 privkeybuf in
  let nonce := take 12 (drop 32 privkeybuf) in
  let ciphertext := take 80 (drop 44 privkeybuf) in
  let? pubkeybuf := read_file_to_buffer (sechat_dir ++ [str "identity.pub"]) 64 in
  sret (Ok (mkFileData salt nonce ciphertext pubkeybuf)).

(** [None]: [Nonce::from_slice] or a slice of the plaintext panics. *)
Definition decrypt_keyfile (password : rstring) (file_data : FileData) :
    option (result Keys CryptoErrors) :=
  match argon2_hash (as_bytes password) (fd_salt file_data) with
  | None => Some (Err CryptographicError)
  | Some derived_filekey =>
      nonce ← try_into 12 (fd_nonce file_data);
      match aead_decrypt derived_filekey nonce (fd_ciphertext file_data) with
      | None => Some (Err PermissionDenied)
      | Some plaintext =>
          xs ← slice 0 32 plaintext;
          es ← slice 32 64 plaintext;
          Some (
            let* x25519_bytes := ok_or CorruptedFile (try_into 32 xs) in
            let x25519_priv := secret_from x25519_bytes in
            let* ed25519_bytes := ok_or CorruptedFile (try_into 32 es) in
            let ed25519_signing := sk_from_bytes ed25519_bytes in
            Ok (mkKeys x25519_priv (public_of x25519_priv)
                       ed25519_signing (verifying_key ed25519_signing)))
      end
  end.

(** [client::identity_exists] *)
Definition identity_exists : St World bool := path_exists (sechat_dir ++ [str "identity.key"]).

(** [client::unlock]: the password is wrong, or the file cannot be read. *)
Definition unlock (password : rstring) : St World (option (result Keys rstring)) :=
  let! file := read_keyfile in
  match file with
  | Err _ => sret (Some (Err (str "failed to read identity file")))
  | Ok file => sret (map_err (λ _, str "wrong password") <$> decrypt_keyfile password file)
  end.

(** [client::create_identity] *)
Definition create_identity (password : rstring) : St World (result Keys rstring) :=
  let! (x25519_priv, x25519_pub) := generate_x25519 in
  let! ed25519_signing := generate_ed25519 in
  let? _ := smap_err (λ e, str "failed to write identity: " ++ e)
              (encrypt_keyfile password x25519_priv x25519_pub ed25519_signing) in
  sret (Ok (mkKeys x25519_priv x25519_pub ed25519_signing (verifying_key ed25519_signing))).

(** ** Lemmas *)

Lemma keyfile_names_ne : str "identity.key" ≠ str "identity.pub".
Proof. str_ne. Qed.

Lemma dir_below (p : path) x : p ++ [x] ≠ p.
Proof. intros Heq. apply (f_equal length) in Heq. rewrite length_app in Heq. simpl in Heq. lia. Qed.

Lemma read_file_quiet `{!Quiet} p n d w :
  w_fs w !! p = Some (NFile d) → (n ≤ length d)%nat →
  read_file_to_buffer p n w =
    (Ok (take n d), mkWorld (w_fs w) (w_clock w) (w_rng w) (S (S (w_io w)))).
Proof.
  intros Hp Hn. unfold read_file_to_buffer, ebind, smap_err, open_read, read_exact.
  rewrite syscall_quiet, Hp. simpl. rewrite syscall_quiet. simpl. rewrite Hp.
  destruct (Nat.leb_spec n (length d)); [done|lia].
Qed.

(** What a successful read returned was in the file. *)
Lemma read_file_inv p n w b w' :
  read_file_to_buffer p n w = (Ok b, w') →
  ∃ d, w_fs w !! p = Some (NFile d) ∧ (n ≤ length d)%nat ∧ b = take n d.
Proof.
  unfold read_file_to_buffer, ebind, smap_err.
  assert (Hfs : w_fs (open_read p w).2 = w_fs w)
    by (apply syscall_fs; intros fs; by destruct (fs !! p)).
  destruct (open_read p w) as [[[]|?] w1]; simpl in *; [|done].
  unfold read_exact, syscall. destruct (io_fault _); [done|]. rewrite Hfs.
  destruct (w_fs w !! p) as [[|d|]|]; simpl; try done.
  destruct (Nat.leb_spec n (length d)); simpl; [|done].
  intros [= <- _]. by exists d.
Qed.

(** A file read never returns a buffer of another size. *)
Lemma read_file_length p n w b w' :
  read_file_to_buffer p n w = (Ok b, w') → length b = n.
Proof.
  unfold read_file_to_buffer, ebind, smap_err.
  destruct (open_read p w) as [[[]|?] w1]; simpl; [|done].
  unfold read_exact, syscall. destruct (io_fault _); [done|].
  destruct (w_fs w1 !! p) as [[|d|]|]; simpl; try done.
  destruct (Nat.leb_spec n (length d)); simpl; [|done].
  intros [= <- _]. rewrite length_take. lia.
Qed.

Lemma store_file_quiet `{!Quiet} p data w :
  is_dir_node (w_fs w) (parent p) = true → not_a_dir (w_fs w) p →
  store_file p data w =
    (Ok tt, mkWorld (<[p := NFile data]> (w_fs w)) (w_clock w) (w_rng w) (S (S (S (w_io w))))).
Proof.
  intros Hp Hn. unfold store_file, boxed, smap_err, ebind. rewrite open_truncate_quiet by done.
  simpl. rewrite (write_all_quiet _ []) by (simpl; by rewrite lookup_insert_eq). simpl.
  unfold flush. rewrite syscall_quiet. simpl. by rewrite insert_insert_eq.
Qed.

(** The world can hold the identity files. *)
Record identity_ready (fs : gmap path node) : Prop := {
  ready_peers : clear_path fs peers_dir;
  ready_key : not_a_dir fs (sechat_dir ++ [str "identity.key"]);
  ready_pub : not_a_dir fs (sechat_dir ++ [str "identity.pub"])
}.

Lemma create_dir_quiet `{!Quiet} p w : clear_path (w_fs w) p →
  ∃ fs', mkdirs [] p (w_fs w) = (Ok tt, fs') ∧
    create_dir_all p w = (Ok tt, mkWorld fs' (w_clock w) (w_rng w) (S (w_io w))).
Proof.
  intros Hc. destruct (mkdirs_clear_path _ _ Hc) as [fs' Hfs]. exists fs'. split; [done|].
  unfold create_dir_all. by rewrite syscall_quiet, Hfs.
Qed.

Lemma clear_path_prefix fs p q : clear_path fs (p ++ q) → clear_path fs p.
Proof.
  intros Hc k d. destruct (decide (k ≤ length p)%nat).
  - rewrite <- (take_app_le p q k) by lia. apply Hc.
  - rewrite take_ge by lia. rewrite <- (take_app_length p q). apply Hc.
Qed.

(** [encrypt_keyfile], without faults: the two files it leaves. *)
Lemma encrypt_keyfile_quiet `{!Quiet, !ArgonLaws, !AeadLaws} passwd priv pub sk w :
  (Z.of_nat (length (as_bytes passwd)) < 2 ^ 32)%Z → identity_ready (w_fs w) →
  ∃ salt nonce key ct w',
    encrypt_keyfile passwd priv pub sk w = (Ok tt, w') ∧
    argon2_hash (as_bytes passwd) (arr_data salt) = Some key ∧
    aead_encrypt key nonce (arr_data (secret_bytes priv) ++ arr_data (sk_bytes sk)) = Some ct ∧
    w_fs w' !! (sechat_dir ++ [str "identity.key"]) =
      Some (NFile (arr_data (salt : array 32) ++ arr_data nonce ++ ct)) ∧
    w_fs w' !! (sechat_dir ++ [str "identity.pub"]) =
      Some (NFile (arr_data (pk_bytes pub) ++ arr_data (vk_bytes (verifying_key sk)))) ∧
    w_rng w' = S (S (w_rng w)).
Proof.
  intros Hpw [Hp Hk Hpub].
  set (salt := rng_fill (w_rng w) 32). set (nonce := rng_nonce (S (w_rng w))).
  destruct (argon2_total (as_bytes passwd) (arr_data salt) Hpw) as [key Hkey];
    [rewrite arr_length; lia|].
  destruct (aead_total key nonce (arr_data (secret_bytes priv) ++ arr_data (sk_bytes sk)))
    as [ct Hct]; [rewrite length_app, !arr_length; done|].
  exists salt, nonce, key, ct.
  set (w2 := mkWorld (w_fs w) (w_clock w) (S (S (w_rng w))) (w_io w)).
  destruct (create_dir_quiet sechat_dir w2) as (fs1 & Hm1 & Hc1);
    [by apply (clear_path_prefix _ _ [str "peers"])|].
  assert (Hp1 : clear_path fs1 peers_dir) by (by eapply mkdirs_clear_mono).
  match type of Hc1 with _ = (_, ?w3) => destruct (create_dir_quiet peers_dir w3 Hp1) as (fs2 & Hm2 & Hc2) end.
  simpl in *.
  assert (Hfile : ∀ x, x ≠ str "peers" → not_a_dir (w_fs w) (sechat_dir ++ [x]) →
    not_a_dir fs2 (sechat_dir ++ [x])).
  { intros x Hx Hn. eapply mkdirs_not_a_dir; [|exact Hm2|].
    - intros [r Hr]. unfold peers_dir in Hr. rewrite <- app_assoc in Hr. apply app_inv_head in Hr.
      by simplify_eq/=.
    - eapply mkdirs_not_a_dir; [|exact Hm1|done].
      intros [r Hr]. apply (f_equal length) in Hr. rewrite !length_app in Hr. simpl in Hr. lia. }
  assert (Hdir : is_dir_node fs2 sechat_dir = true).
  { pose proof (mkdirs_ok _ _ _ _ Hm2 (length sechat_dir)) as Hd. simpl in Hd.
    unfold peers_dir in Hd. rewrite take_app_length in Hd. apply Hd.
    unfold sechat_dir. rewrite !length_app. simpl. lia. }
  set (data := arr_data salt ++ arr_data nonce ++ ct).
  set (pubs := arr_data (pk_bytes pub) ++ arr_data (vk_bytes (verifying_key sk))).
  set (w4 := mkWorld fs2 (w_clock w) (S (S (w_rng w))) (S (S (w_io w)))).
  pose proof (store_file_quiet (sechat_dir ++ [str "identity.key"]) data w4) as Hs1.
  rewrite parent_snoc in Hs1. specialize (Hs1 Hdir (Hfile (str "identity.key") ltac:(str_ne) Hk)).
  match type of Hs1 with _ = (_, ?w5) =>
    pose proof (store_file_quiet (sechat_dir ++ [str "identity.pub"]) pubs w5) as Hs2 end.
  rewrite parent_snoc in Hs2. simpl in Hs2.
  specialize (Hs2 (is_dir_insert_file _ _ _ _ Hdir (dir_below _ _))).
  pose proof (snoc_ne sechat_dir _ _ keyfile_names_ne) as Hne.
  assert (Hn2 : not_a_dir (<[sechat_dir ++ [str "identity.key"] := NFile data]> fs2)
    (sechat_dir ++ [str "identity.pub"])).
  { unfold not_a_dir. rewrite lookup_insert_ne by done. apply (Hfile (str "identity.pub") ltac:(str_ne) Hpub). }
  specialize (Hs2 Hn2). eexists. split; [|split; [exact Hkey|split; [exact Hct|]]].
  { unfold encrypt_keyfile. erewrite sbind_step by reflexivity. fold salt. cbv zeta.
    erewrite ebind_step by (unfold sret; rewrite Hkey; reflexivity).
    erewrite sbind_step by reflexivity. cbn [w_rng w_fs w_clock w_io]. fold nonce.
    erewrite ebind_step by (unfold sret; rewrite Hct; reflexivity).
    erewrite ebind_step by (apply smap_err_step, Hc1).
    erewrite ebind_step by (apply smap_err_step, Hc2).
    erewrite ebind_step by exact Hs1. erewrite ebind_step by exact Hs2. reflexivity. }
  cbn [w_fs w_rng]. rewrite lookup_insert_eq, lookup_insert_ne by done. by rewrite lookup_insert_eq.
Qed.
End KeyFile.

(** ** Theorems *)

Section KeyFileTheorems.
Context `{Prim : Primitives} `{EnvI : !Env} `{SledI : Sled}.

Lemma slices_of_keyfile (salt : array 32) (nonce : Nonce) ct :
  length ct = 80%nat →
  take 32 (arr_data salt ++ arr_data nonce ++ ct) = arr_data salt ∧
  take 12 (drop 32 (arr_data salt ++ arr_data nonce ++ ct)) = arr_data nonce ∧
  take 80 (drop 44 (arr_data salt ++ arr_data nonce ++ ct)) = ct.
Proof.
  intros Hct. pose proof (arr_length salt). pose proof (arr_length nonce). split_and!.
  - by apply take_app_exact.
  - rewrite drop_app_exact by done. by apply take_app_exact.
  - rewrite app_assoc, drop_app_exact by (rewrite length_app; lia). by apply take_ge; lia.
Qed.

Lemma slices_of_plaintext (a b : array 32) :
  slice 0 32 (arr_data a ++ arr_data b) = Some (arr_data a) ∧
  slice 32 64 (arr_data a ++ arr_data b) = Some (arr_data b).
Proof.
  rewrite !slice_exact by (rewrite length_app, !arr_length; lia). split; f_equal.
  - rewrite drop_0. apply take_app_exact. by rewrite arr_length.
  - rewrite drop_app_exact by (by rewrite arr_length). apply take_ge. by rewrite arr_length.
Qed.

(** A key file that [encrypt_keyfile] wrote unlocks with its password. *)
Lemma unlock_written `{!Quiet, !AeadLaws, !KeyLaws} password priv sk (salt : array 32) nonce key ct w :
  argon2_hash (as_bytes password) (arr_data salt) = Some key →
  aead_encrypt key nonce (arr_data (secret_bytes priv) ++ arr_data (sk_bytes sk)) = Some ct →
  w_fs w !! (sechat_dir ++ [str "identity.key"]) = Some (NFile (arr_data salt ++ arr_data nonce ++ ct)) →
  w_fs w !! (sechat_dir ++ [str "identity.pub"]) =
    Some (NFile (arr_data (pk_bytes (public_of priv)) ++ arr_data (vk_bytes (verifying_key sk)))) →
  (unlock password w).1 = Some (Ok (mkKeys priv (public_of priv) sk (verifying_key sk))).
Proof.
  intros Hkey Hct Hfk Hfp. assert (Hlen : length ct = 80%nat).
  { apply aead_length in Hct. rewrite length_app, !arr_length in Hct. done. }
  destruct (slices_of_keyfile salt nonce ct Hlen) as (Hs & Hn & Hc).
  unfold unlock, read_keyfile, sbind.
  erewrite ebind_step; [|apply read_file_quiet; [exact Hfk|]];
    [|rewrite !length_app, !arr_length, Hlen; lia].
  erewrite ebind_step; [|apply read_file_quiet; [exact Hfp|]];
    [|rewrite length_app, !arr_length; lia].
  cbn. unfold decrypt_keyfile. cbn [fd_salt fd_nonce fd_ciphertext].
  rewrite (take_ge _ 124) by (rewrite !length_app, !arr_length, Hlen; lia).
  rewrite Hs, Hn, Hc, Hkey, try_into_data. cbn.
  rewrite (aead_roundtrip _ _ _ _ Hct).
  destruct (slices_of_plaintext (secret_bytes priv) (sk_bytes sk)) as [-> ->]. cbn.
  rewrite !try_into_data. cbn. by rewrite secret_from_bytes, sk_from_to_bytes.
Qed.

(** The keys the generator gives next. *)
Definition next_keys (n : nat) : Keys :=
  let priv := rng_secret n in
  let sk := rng_signing (S n) in
  mkKeys priv (public_of priv) sk (verifying_key sk).

(** [create_identity], without faults: fresh keys, and any later state of the
    disk that still has the two files unlocks to them. *)
Lemma create_identity_quiet `{!Quiet, !ArgonLaws, !AeadLaws, !KeyLaws} password w :
  (Z.of_nat (length (as_bytes password)) < 2 ^ 32)%Z → identity_ready (w_fs w) →
  ∃ w', create_identity password w = (Ok (next_keys (w_rng w)), w') ∧ w_rng w' = (4 + w_rng w)%nat ∧
    (∀ x, x = str "identity.key" ∨ x = str "identity.pub" → is_Some (w_fs w' !! (sechat_dir ++ [x]))) ∧
    ∀ w'', (∀ x, x = str "identity.key" ∨ x = str "identity.pub" →
              w_fs w'' !! (sechat_dir ++ [x]) = w_fs w' !! (sechat_dir ++ [x])) →
      (unlock password w'').1 = Some (Ok (next_keys (w_rng w))).
Proof.
  intros Hpw Hready. set (priv := rng_secret (w_rng w)). set (sk := rng_signing (S (w_rng w))).
  set (w2 := mkWorld (w_fs w) (w_clock w) (S (S (w_rng w))) (w_io w)).
  destruct (encrypt_keyfile_quiet password priv (public_of priv) sk w2)
    as (salt & nonce & key & ct & w' & Henc & Hkey & Hct & Hfk & Hfp & Hrng); [done|done|].
  exists w'. split_and!; [|exact Hrng| |].
  - unfold create_identity, generate_x25519. erewrite sbind_step by reflexivity.
    cbv beta iota. erewrite sbind_step by reflexivity. cbn [w_rng].
    erewrite ebind_step; [reflexivity|]. apply smap_err_step, Henc.
  - intros x [->| ->]; rewrite ?Hfk, ?Hfp; by eexists.
  - intros w'' Hw. apply (unlock_written _ _ _ salt nonce key ct); [done|done|..]; rewrite Hw; auto.
Qed.

(** C10: Creating an identity and unlocking it with the same password returns
    the same four keys: with no file-system fault, from any file system that
    can hold the two identity files, [create_identity] succeeds and [unlock]
    on the resulting world yields exactly the generated keys. *)
Theorem identity_roundtrip
    `{!Quiet, !ArgonLaws, !AeadLaws, !KeyLaws} (password : rstring) (w : World) :
  (Z.of_nat (length (as_bytes password)) < 2 ^ 32)%Z → identity_ready (w_fs w) →
  ∃ keys w', create_identity password w = (Ok keys, w') ∧
             (unlock password w').1 = Some (Ok keys).
Proof.
  intros Hpw Hready. destruct (create_identity_quiet password w Hpw Hready) as (w' & Hc & _ & _ & Hu).
  exists (next_keys (w_rng w)), w'. split; [done|]. by apply Hu.
Qed.

(** Unlocking never panics: whatever the identity files contain, whatever
    I/O faults occur and whatever password is given, the slices of the
    decrypted key file are in range and [unlock] returns a result. *)
Theorem unlock_never_panics `{!AeadLaws} (password : rstring) (w : World) :
  ∃ r, (unlock password w).1 = Some r.
Proof.
  unfold unlock, sbind. destruct (read_keyfile w) as [[f|e] w'] eqn:Hr; [|eauto].
  assert (Hf : length (fd_nonce f) = 12%nat ∧ length (fd_ciphertext f) = 80%nat).
  { unfold read_keyfile, ebind in Hr.
    destruct (read_file_to_buffer _ 124 w) as [[b|e] w1] eqn:H1; [|done].
    destruct (read_file_to_buffer _ 64 w1) as [[b'|e] w2] eqn:H2; [|done].
    apply read_file_length in H1. unfold sret in Hr. simplify_eq. cbn.
    rewrite !length_take, !length_drop. lia. }
  destruct Hf as [Hn Hc]. cbn. unfold decrypt_keyfile.
  destruct (argon2_hash _ _) as [key|]; [|eauto].
  destruct (try_into_is_Some _ _ Hn) as (n & -> & _). cbn.
  destruct (aead_decrypt key n (fd_ciphertext f)) as [p|] eqn:Hd; [|eauto].
  apply aead_open_length in Hd. rewrite Hc in Hd.
  rewrite !slice_exact by lia. cbn. eauto.
Qed.

End KeyFileTheorems.

Module KeyFileWitness.
#[local] Existing Instances toy_prims toy_env list_sled.
Definition w0 : World := mkWorld ∅ 0 0 0.

Lemma toy_quiet : Quiet.
Proof. intros n. reflexivity. Qed.

Lemma identity_roundtrip_witness :
  ∃ keys w', create_identity (str "hunter2") w0 = (Ok keys, w') ∧
             (unlock (str "hunter2") w').1 = Some (Ok keys).
Proof.
  apply (@identity_roundtrip toy_prims toy_env list_sled toy_quiet toy_argon_laws toy_aead_laws
    toy_key_laws (str "hunter2") w0).
  - vm_compute. reflexivity.
  - constructor.
    + intros k d. change (w_fs w0) with (∅ : gmap path node). by rewrite lookup_empty.
    + exact I.
    + exact I.
Defined.

Lemma unlock_never_panics_witness : ∃ r, (unlock (str "pw") w0).1 = Some r.
Proof. apply (@unlock_never_panics toy_prims toy_env list_sled toy_aead_laws (str "pw") w0). Defined.
End KeyFileWitness.
