(* ===== verification/PeerStore.v ===== *)
(** * The peer directory

    The [peers/] tree of the [crypto] crate: one directory per peer, named by
    the hex of its identity hash, holding peer.pub.  [initialize_peer],
    [load_peer_data], [load_peers], [delete_peer], [purge_peer_chat] and
    [purge]. *)

From Stdlib Require Import Strings.Byte.
From S2P Require Import Prelude Bytes Text Primitives Instances World Crypto KeyFile.

Section PeerStore.
Context `{Prim : Primitives} `{EnvI : !Env} `{SledI : Sled}.

(** [peers_dir().join(hex::encode(data))] *)
Definition peer_dir (data : hash) : path := peers_dir ++ [hex_encode (arr_data data)].
Definition peer_pub_path (data : hash) : path := peer_dir data ++ [str "peer.pub"].
Definition chat_path (data : hash) : path := peer_dir data ++ [str "chat.db"].

Definition initialize_peer (peer_pub : PublicKey) (peer_veryfing : VerifyingKey)
    (privkey : StaticSecret) : St World (result (Key * Key) CryptoErrors) :=
  let id := identity_hash peer_pub peer_veryfing in
  let? _ := smap_err Other (create_dir_all (peer_dir id)) in
  let? _ := smap_err Other (open_truncate (peer_pub_path id)) in
  let bytes_to_write := arr_data (pk_bytes peer_pub) ++ arr_data (vk_bytes peer_veryfing) in
  let? _ := smap_err Other (write_all (peer_pub_path id) bytes_to_write) in
  let? _ := smap_err Other flush in
  sret (let* session_key := ok_or CryptographicError (derive_shared privkey peer_pub (label "session")) in
        let* storage_key := ok_or CryptographicError (derive_shared privkey peer_pub (label "storage")) in
        Ok (session_key, storage_key)).

(** The two keys of a 64-byte peer.pub. *)
Definition parse_peer (buf : bytes) : result PeerPublic CryptoErrors :=
  let* pub_bytes := ok_or CorruptedFile (try_into 32 (take 32 buf)) in
  let* verifying_bytes := ok_or CorruptedFile (try_into 32 (take 32 (drop 32 buf))) in
  let* verifying := ok_or CorruptedFile (vk_from_bytes verifying_bytes) in
  Ok (mkPeerPublic (pk_from pub_bytes) verifying).

Definition load_peer_data (data : hash) : St World (result PeerPublic CryptoErrors) :=
  let! d := path_is_dir (peer_dir data) in
  if negb d then sret (Err (NotFound (hex_encode (arr_data data))))
  else let? buf := read_file_to_buffer (peer_pub_path data) 64 in
       sret (parse_peer buf).

(** The text of a path, for the error of [load_peers]. *)
Definition path_string (p : path) : rstring := mjoin ((λ x, str "/" ++ x) <$> p).

Definition load_peers : St World (result (list PeerPublic) CryptoErrors) :=
  let? entries := smap_err (λ _, NotFound (path_string peers_dir)) (read_dir peers_dir) in
  ecollect entries (λ x,
    let? peerdir := smap_err Other (dir_entry peers_dir x) in
    let? _ := smap_err Other (open_read (peerdir ++ [str "peer.pub"])) in
    let? buf := smap_err Other (read_exact (peerdir ++ [str "peer.pub"]) 64) in
    sret (parse_peer buf)).

Definition purge (p : option path) : St World (result unit CryptoErrors) :=
  smap_err Other (remove_dir_all (default sechat_dir p)).

(** [if path.exists() { remove_dir_all(path)?; }] *)
Definition remove_if_exists (p : path) : St World (result unit CryptoErrors) :=
  let! e := path_exists p in
  if e then smap_err Other (remove_dir_all p) else sret (Ok tt).

Definition purge_peer_chat (data : hash) : St World (result unit CryptoErrors) :=
  remove_if_exists (chat_path data).

Definition delete_peer (data : hash) : St World (result unit CryptoErrors) :=
  remove_if_exists (peer_dir data).

(** ** Lemmas *)

Lemma peer_dir_inj `{!HexLaws} d1 d2 : peer_dir d1 = peer_dir d2 → d1 = d2.
Proof.
  intros Heq. unfold peer_dir in Heq. apply app_inv_head in Heq.
  assert (hex_encode (arr_data d1) = hex_encode (arr_data d2)) as Hx by congruence.
  by apply (inj hex_encode), (inj arr_data) in Hx.
Qed.

Lemma peer_dir_length d : length (peer_dir d) = S (length peers_dir).
Proof. unfold peer_dir. rewrite length_app. simpl. lia. Qed.

Lemma parse_peer_written `{!KeyLaws} p v :
  parse_peer (arr_data (pk_bytes p) ++ arr_data (vk_bytes v)) = Ok (mkPeerPublic p v).
Proof.
  unfold parse_peer. rewrite take_app_exact, drop_app_exact by (by rewrite arr_length).
  rewrite (take_ge (arr_data (vk_bytes v))) by (by rewrite arr_length).
  rewrite !try_into_data. simpl. rewrite vk_from_to_bytes. simpl. by rewrite pk_from_bytes.
Qed.

(** A successful parse determines the 64 bytes. *)
Lemma parse_peer_inv `{!KeyLaws} buf peer :
  length buf = 64%nat → parse_peer buf = Ok peer →
  buf = arr_data (pk_bytes (peer_public peer)) ++ arr_data (vk_bytes (peer_verifying peer)).
Proof.
  intros Hl. unfold parse_peer.
  destruct (try_into 32 (take 32 buf)) as [a|] eqn:Ha; simpl; [|done].
  destruct (try_into 32 (take 32 (drop 32 buf))) as [b|] eqn:Hb; simpl; [|done].
  destruct (vk_from_bytes b) as [v|] eqn:Hv; simpl; [|done]. intros [= <-]. simpl.
  apply try_into_Some in Ha, Hb. rewrite pk_bytes_from, (vk_bytes_from _ _ Hv), Ha, Hb.
  rewrite (take_ge (drop 32 buf)) by (rewrite length_drop; lia). by rewrite take_drop.
Qed.

(** What a directory and its peer.pub answer, without faults. *)
Definition peer_on_disk (fs : gmap path node) (d : hash) (peer : PeerPublic) : Prop :=
  is_dir_node fs (peer_dir d) = true ∧
  ∃ buf, fs !! peer_pub_path d = Some (NFile buf) ∧ (64 ≤ length buf)%nat ∧
         parse_peer (take 64 buf) = Ok peer.

Lemma load_peer_data_quiet `{!Quiet} d peer w :
  peer_on_disk (w_fs w) d peer →
  load_peer_data d w = (Ok peer, mkWorld (w_fs w) (w_clock w) (w_rng w) (S (S (S (w_io w))))).
Proof.
  intros (Hd & buf & Hf & Hl & Hp). unfold load_peer_data, path_is_dir, sbind.
  rewrite syscall_quiet. simpl. rewrite Hd. simpl.
  erewrite ebind_step; [|apply read_file_quiet; [exact Hf|done]]. simpl. unfold sret. by rewrite Hp.
Qed.

(** What was loaded was on disk, with or without faults. *)
Lemma load_peer_data_inv d w peer w' :
  load_peer_data d w = (Ok peer, w') → peer_on_disk (w_fs w) d peer.
Proof.
  unfold load_peer_data, sbind, path_is_dir.
  pose proof (syscall_fs (λ fs, (Ok (is_dir_node fs (peer_dir d)), fs)) w ltac:(done)) as Hfs.
  assert (Hdir : ∀ r w1, syscall (λ fs, (Ok (is_dir_node fs (peer_dir d)), fs)) w = (r, w1) →
    unwrap_or false r = true → is_dir_node (w_fs w) (peer_dir d) = true).
  { intros r w1. unfold syscall. destruct (io_fault _); by intros [= <- _]. }
  destruct (syscall _ w) as [r w1]. specialize (Hdir r w1 eq_refl). simpl in Hfs.
  destruct (unwrap_or false r) eqn:Hr; cbn [negb]; [|done].
  unfold ebind. destruct (read_file_to_buffer _ _ w1) as [[buf|] w2] eqn:Hread; [|done].
  apply read_file_inv in Hread as (file & Hfile & Hlen & ->). rewrite Hfs in Hfile.
  intros [= Hp _]. split; [by apply Hdir|]. by exists file.
Qed.

(** Loading reads only. *)
Lemma load_peer_data_fs d w : w_fs (load_peer_data d w).2 = w_fs w.
Proof.
  unfold load_peer_data, sbind, path_is_dir.
  pose proof (syscall_fs (λ fs, (Ok (is_dir_node fs (peer_dir d)), fs)) w ltac:(done)) as H1.
  destruct (syscall _ w) as [r w1]. simpl in H1. destruct (negb _); [done|].
  unfold ebind, read_file_to_buffer, smap_err, ebind, open_read, read_exact.
  match goal with |- context [syscall ?op w1] => pose proof (syscall_fs op w1) as H2;
    destruct (syscall op w1) as [r2 w2] end.
  simpl in H2. rewrite H1 in H2. specialize (H2 ltac:(intros fs; by destruct (fs !! _))).
  destruct r2; simpl; [|done].
  match goal with |- context [syscall ?op w2] => pose proof (syscall_fs op w2) as H3;
    destruct (syscall op w2) as [r3 w3] end.
  simpl in H3. rewrite H2 in H3.
  specialize (H3 ltac:(intros fs; destruct (fs !! _) as [[]|]; try done; by case_match)).
  destruct r3; done.
Qed.

(** [remove_if_exists], without faults. *)
Lemma remove_if_exists_quiet `{!Quiet} p w :
  (∀ d, w_fs w !! p ≠ Some (NFile d)) →
  ∃ n, remove_if_exists p w =
    (Ok tt, mkWorld (if decide (is_Some (w_fs w !! p)) then remove_tree p (w_fs w) else w_fs w)
              (w_clock w) (w_rng w) n).
Proof.
  intros Hp. unfold remove_if_exists, path_exists, sbind. rewrite syscall_quiet. simpl.
  destruct (decide (is_Some (w_fs w !! p))) as [Hs|Hs].
  - rewrite bool_decide_true by done. unfold smap_err, remove_dir_all. rewrite syscall_quiet. simpl.
    destruct Hs as [[|d|db] Hs]; rewrite Hs; simpl; [eauto| |eauto]. by destruct (Hp d).
  - rewrite bool_decide_false by done. eauto.
Qed.

(** [initialize_peer] from a file system with room for the peer. *)
Record peer_ready (fs : gmap path node) (d : hash) : Prop := {
  ready_dir : clear_path fs (peer_dir d);
  ready_file : not_a_dir fs (peer_pub_path d)
}.

Lemma initialize_peer_quiet `{!Quiet, !KdfLaws} p v priv w :
  let d := identity_hash p v in
  peer_ready (w_fs w) d →
  ∃ ks w' fs1, initialize_peer p v priv w = (Ok ks, w') ∧
    mkdirs [] (peer_dir d) (w_fs w) = (Ok tt, fs1) ∧
    w_fs w' = <[peer_pub_path d := NFile (arr_data (pk_bytes p) ++ arr_data (vk_bytes v))]> fs1.
Proof.
  intros d [Hd Hf].
  destruct (create_dir_quiet _ _ Hd) as (fs1 & Hm & Hc).
  destruct (derive_shared_total priv p (label "session")) as [k1 Hk1].
  destruct (derive_shared_total priv p (label "storage")) as [k2 Hk2].
  exists (k1, k2).
  assert (Hdir : is_dir_node fs1 (parent (peer_pub_path d)) = true).
  { unfold peer_pub_path. rewrite parent_snoc. by eapply mkdirs_target. }
  assert (Hn : not_a_dir fs1 (peer_pub_path d)).
  { eapply mkdirs_not_a_dir; [|exact Hm|done]. intros [r Hr].
    apply (f_equal length) in Hr. unfold peer_pub_path in Hr. rewrite !length_app in Hr.
    simpl in Hr. lia. }
  eexists. exists fs1. split_and!; [|exact Hm|].
  { unfold initialize_peer. fold d. erewrite ebind_step by (apply smap_err_step, Hc).
    erewrite ebind_step; [|apply smap_err_step, open_truncate_quiet; done].
    erewrite ebind_step; [|apply smap_err_step, (write_all_quiet _ []);
      simpl; by rewrite lookup_insert_eq].
    unfold flush, smap_err, ebind. rewrite syscall_quiet. simpl. unfold sret.
    rewrite Hk1, Hk2. reflexivity. }
  simpl. by rewrite insert_insert_eq.
Qed.
End PeerStore.

Section PeerStoreTheorems.
Context `{Prim : Primitives} `{EnvI : !Env} `{SledI : Sled}.

(** Every complete peer.pub sits in the directory named by its own identity. *)
Definition store_wf (fs : gmap path node) : Prop :=
  ∀ d buf peer, fs !! peer_pub_path d = Some (NFile buf) → (64 ≤ length buf)%nat →
    parse_peer (take 64 buf) = Ok peer →
    identity_hash (peer_public peer) (peer_verifying peer) = d.

Lemma peer_pub_path_inj `{!HexLaws} d1 d2 : peer_pub_path d1 = peer_pub_path d2 → d1 = d2.
Proof. unfold peer_pub_path. intros [Heq _]%app_inj_tail. by apply peer_dir_inj. Qed.

(** [store_wf] only looks at files. *)
Lemma store_wf_files fs fs' :
  (∀ q buf, fs' !! q = Some (NFile buf) → fs !! q = Some (NFile buf)) →
  store_wf fs → store_wf fs'.
Proof. intros Hsub Hwf d buf peer Hb. by apply Hwf, Hsub. Qed.

(** Writing some prefix of the right content into a peer's file is fine. *)
Lemma store_wf_insert `{!HexLaws, !KeyLaws} fs p v k :
  let d := identity_hash p v in
  store_wf fs →
  store_wf (<[peer_pub_path d :=
    NFile (take k (arr_data (pk_bytes p) ++ arr_data (vk_bytes v)))]> fs).
Proof.
  intros d Hwf d' buf peer. rewrite lookup_insert. case_decide as Hd; [|by apply Hwf].
  apply peer_pub_path_inj in Hd as <-. intros [= <-] Hl Hp.
  assert (H64 : length (arr_data (pk_bytes p) ++ arr_data (vk_bytes v)) = 64%nat)
    by (by rewrite length_app, !arr_length).
  rewrite length_take in Hl. rewrite (take_ge _ k), take_ge in Hp by lia.
  rewrite parse_peer_written in Hp. by injection Hp as <-.
Qed.

Lemma syscall_store_wf {A} (op : gmap path node → result A ErrorKind * gmap path node) w :
  (∀ fs, store_wf fs → store_wf (op fs).2) → store_wf (w_fs w) → store_wf (w_fs (syscall op w).2).
Proof.
  intros Hop Hw. unfold syscall. destruct (io_fault _); [done|].
  specialize (Hop (w_fs w) Hw). by destruct (op (w_fs w)).
Qed.

Lemma create_dir_store_wf p w : store_wf (w_fs w) → store_wf (w_fs (create_dir_all p w).2).
Proof.
  apply syscall_store_wf. intros fs. apply store_wf_files. intros q buf Hq.
  by apply mkdirs_new in Hq as [?|(? & _)].
Qed.

Lemma open_truncate_store_wf `{!HexLaws, !KeyLaws} p v w :
  store_wf (w_fs w) → store_wf (w_fs (open_truncate (peer_pub_path (identity_hash p v)) w).2).
Proof.
  apply syscall_store_wf. intros fs Hwf. destruct (negb _); [done|].
  pose proof (store_wf_insert fs p v 0 Hwf) as Hi.
  destruct (fs !! _) as [[]|]; done.
Qed.

(** Whatever prefix a faulting write left behind. *)
Lemma write_peer_store_wf `{!HexLaws, !KeyLaws} p v w :
  let d := identity_hash p v in
  let data := arr_data (pk_bytes p) ++ arr_data (vk_bytes v) in
  w_fs w !! peer_pub_path d = Some (NFile []) → store_wf (w_fs w) →
  store_wf (w_fs (write_all (peer_pub_path d) data w).2).
Proof.
  intros d data Hd Hwf. unfold write_all, append_data. rewrite Hd.
  destruct (io_fault _); simpl; rewrite ?app_nil_l.
  - by apply store_wf_insert.
  - rewrite <- (firstn_all data). by apply store_wf_insert.
Qed.

Lemma remove_store_wf p w : store_wf (w_fs w) → store_wf (w_fs (remove_if_exists p w).2).
Proof.
  intros Hwf. unfold remove_if_exists, path_exists, sbind.
  pose proof (syscall_store_wf (λ fs, (Ok (bool_decide (is_Some (fs !! p))), fs)) w ltac:(done) Hwf) as H1.
  destruct (syscall _ w) as [r w1]. simpl in H1. destruct (unwrap_or false r); [|done].
  unfold smap_err, remove_dir_all.
  match goal with |- context [syscall ?op w1] =>
    assert (H2 : store_wf (w_fs (syscall op w1).2)) by
     (apply syscall_store_wf; [|done]; intros fs Hf; destruct (fs !! p) as [[]|]; try done;
      (eapply store_wf_files; [|exact Hf]; intros q buf; simpl; unfold remove_tree;
       rewrite map_lookup_filter_Some; by intros [? _]));
    destruct (syscall op w1) as [r2 w2] end.
  done.
Qed.

(** C29: The peer directory stays consistent under every operation and every
    fault: if each complete peer.pub lies in the directory named by the hash
    of the keys it holds, then so it does after [initialize_peer],
    [delete_peer] or [purge_peer_chat], even when any system call of the
    operation fails and a write stops part way. *)
Theorem peer_store_invariant `{!HexLaws, !KeyLaws} (w : World) :
  store_wf (w_fs w) →
  (∀ p v priv, store_wf (w_fs (initialize_peer p v priv w).2)) ∧
  (∀ d, store_wf (w_fs (delete_peer d w).2)) ∧
  (∀ d, store_wf (w_fs (purge_peer_chat d w).2)).
Proof.
  intros Hwf. split_and!; [|intros; by apply remove_store_wf..].
  intros p v priv. unfold initialize_peer, ebind, smap_err.
  pose proof (create_dir_store_wf (peer_dir (identity_hash p v)) w Hwf) as H1.
  destruct (create_dir_all _ w) as [[[]|e] w1]; simpl in *; [|done].
  pose proof (open_truncate_store_wf p v w1 H1) as H2.
  destruct (open_truncate _ w1) as [[[]|e] w2] eqn:Ho; simpl in *; [|done].
  assert (Hempty : w_fs w2 !! peer_pub_path (identity_hash p v) = Some (NFile [])).
  { unfold open_truncate, syscall in Ho. destruct (io_fault _); [done|].
    destruct (negb _); simplify_eq/=.
    destruct (w_fs w1 !! _) as [[]|]; simplify_eq/=; by rewrite lookup_insert_eq. }
  pose proof (write_peer_store_wf p v w2 Hempty H2) as H3.
  destruct (write_all _ _ w2) as [[[]|e] w3]; simpl in *; [|done].
  pose proof (syscall_store_wf (λ fs, (Ok tt, fs)) w3 ltac:(done) H3) as H4.
  unfold flush. destruct (syscall _ w3) as [[[]|e] w4]; simpl in *; done.
Qed.

Lemma is_dir_frame fs fs' d q :
  mkdirs [] (peer_dir d) fs = (Ok tt, fs') → is_dir_node fs q = true → is_dir_node fs' q = true.
Proof.
  intros Hm. unfold is_dir_node. destruct q as [|x q]; [done|].
  destruct (fs !! (x :: q)) as [n|] eqn:E; [|done].
  pose proof (mkdirs_mono [] (peer_dir d) fs (x :: q) ltac:(by rewrite E)) as Hk.
  rewrite Hm in Hk. simpl in Hk. by rewrite Hk, E.
Qed.

(** Adding a peer and loading it back: without faults and given room in
    the tree, [initialize_peer] succeeds, [load_peer_data] on the identity
    hash then returns exactly the two keys, and every other peer on disk is
    loaded exactly as before. *)
Theorem add_peer_load `{!Quiet, !HexLaws, !KeyLaws, !KdfLaws} p v priv (w : World) :
  let d := identity_hash p v in
  peer_ready (w_fs w) d →
  ∃ ks w', initialize_peer p v priv w = (Ok ks, w') ∧
    (load_peer_data d w').1 = Ok (mkPeerPublic p v) ∧
    ∀ d' q, d' ≠ d → peer_on_disk (w_fs w) d' q → (load_peer_data d' w').1 = Ok q.
Proof.
  intros d Hr. destruct (initialize_peer_quiet p v priv w Hr) as (ks & w' & fs1 & Hi & Hm & Hfs).
  exists ks, w'. split; [done|]. fold d in Hm, Hfs.
  assert (Hne : ∀ d', peer_pub_path d ≠ peer_dir d').
  { intros d' Heq. apply (f_equal length) in Heq. unfold peer_pub_path in Heq.
    rewrite length_app, !peer_dir_length in Heq. simpl in Heq. lia. }
  split.
  - rewrite (load_peer_data_quiet d (mkPeerPublic p v)); [done|]. rewrite Hfs. split.
    + apply is_dir_insert_file; [|done]. by eapply mkdirs_target.
    + eexists. rewrite lookup_insert_eq. split; [done|].
      assert (length (arr_data (pk_bytes p) ++ arr_data (vk_bytes v)) = 64%nat) as H64
        by (by rewrite length_app, !arr_length).
      split; [lia|]. rewrite take_ge by lia. apply parse_peer_written.
  - intros d' q Hdd (Hdir & buf & Hf & Hl & Hp). rewrite (load_peer_data_quiet d' q); [done|].
    rewrite Hfs. split.
    + apply is_dir_insert_file; [|done]. by eapply is_dir_frame.
    + exists buf. split_and!; [|done..]. rewrite lookup_insert_ne by
        (intros Heq; by apply peer_pub_path_inj in Heq).
      pose proof (mkdirs_mono [] (peer_dir d) (w_fs w) (peer_pub_path d') ltac:(by rewrite Hf)) as Hk.
      rewrite Hm in Hk. simpl in Hk. by rewrite Hk.
Qed.

Lemma peer_dir_not_prefix `{!HexLaws} d d' (r : path) : d ≠ d' → ¬ peer_dir d `prefix_of` peer_dir d' ++ r.
Proof.
  intros Hne [s Hs]. apply Hne, peer_dir_inj.
  apply app_inj_1 in Hs as [-> _]; [done|]. by rewrite !peer_dir_length.
Qed.

(** Deleting a peer: without faults [delete_peer] succeeds, the peer is
    [NotFound] afterwards and neither its keys nor its conversation remain on
    disk, and every other peer keeps its keys and its chat database. *)
Theorem delete_peer_forgets `{!Quiet, !HexLaws} d (w : World) :
  (∀ x, w_fs w !! peer_dir d ≠ Some (NFile x)) →
  (∀ q, peer_dir d `prefix_of` q → w_fs w !! peer_dir d = None → w_fs w !! q = None) →
  ∃ w', delete_peer d w = (Ok tt, w') ∧
    (load_peer_data d w').1 = Err (NotFound (hex_encode (arr_data d))) ∧
    (∀ q, peer_dir d `prefix_of` q → w_fs w' !! q = None) ∧
    (∀ d' r, d' ≠ d → w_fs w' !! (peer_dir d' ++ r) = w_fs w !! (peer_dir d' ++ r)).
Proof.
  intros Hnf Hclosed. destruct (remove_if_exists_quiet (peer_dir d) w Hnf) as [n Hrm].
  eexists. split; [exact Hrm|]. cbn [w_fs].
  assert (Hgone : ∀ q, peer_dir d `prefix_of` q →
    (if decide (is_Some (w_fs w !! peer_dir d)) then remove_tree (peer_dir d) (w_fs w) else w_fs w) !! q = None).
  { intros q Hq. case_decide as Hs; [by apply lookup_remove_tree_in|].
    apply Hclosed; [done|]. by apply eq_None_not_Some. }
  split_and!; [|done|].
  - unfold load_peer_data, path_is_dir, sbind. rewrite syscall_quiet. cbn [w_fs fst snd unwrap_or].
    assert (is_dir_node (if decide (is_Some (w_fs w !! peer_dir d)) then remove_tree (peer_dir d) (w_fs w)
      else w_fs w) (peer_dir d) = false) as ->; [|done].
    unfold is_dir_node. rewrite (Hgone (peer_dir d)) by done.
    pose proof (peer_dir_length d). by destruct (peer_dir d).
  - intros d' r Hne. case_decide; [|done]. apply lookup_remove_tree_out.
    by apply peer_dir_not_prefix.
Qed.
End PeerStoreTheorems.

Module PeerStoreWitness.
#[local] Existing Instances toy_prims toy_env list_sled.
Definition w0 : World := KeyFileWitness.w0.
Definition alice : KeyType := pad_array 32 [x01].
Definition bob : KeyType := pad_array 32 [x02].
Definition alice_id : hash := identity_hash alice alice.

Lemma w0_wf : store_wf (w_fs w0).
Proof. intros d buf peer. change (w_fs w0) with (∅ : gmap path node). by rewrite lookup_empty. Qed.

Lemma peer_store_invariant_witness :
  store_wf (w_fs (initialize_peer alice alice bob w0).2).
Proof.
  destruct (@peer_store_invariant toy_prims toy_env list_sled toy_hex_laws toy_key_laws w0 w0_wf)
    as (H & _ & _). apply H.
Defined.

Lemma add_peer_load_witness :
  ∃ ks w', initialize_peer alice alice bob w0 = (Ok ks, w') ∧
    (load_peer_data alice_id w').1 = Ok (mkPeerPublic alice alice) ∧
    ∀ d' q, d' ≠ alice_id → peer_on_disk (w_fs w0) d' q → (load_peer_data d' w').1 = Ok q.
Proof.
  apply (@add_peer_load toy_prims toy_env list_sled KeyFileWitness.toy_quiet toy_hex_laws toy_key_laws
    toy_kdf_laws alice alice bob w0).
  constructor.
  - intros k d. change (w_fs w0) with (∅ : gmap path node). by rewrite lookup_empty.
  - exact I.
Defined.

(** A world where Alice is registered, with a message log. *)
Definition w1 : World :=
  mkWorld {[ peers_dir := NDir; peer_dir alice_id := NDir;
             peer_pub_path alice_id := NFile (arr_data alice ++ arr_data alice);
             chat_path alice_id := NDb db_empty ]} 0 0 0.

Lemma delete_peer_forgets_witness :
  ∃ w', delete_peer alice_id w1 = (Ok tt, w') ∧
    (load_peer_data alice_id w').1 = Err (NotFound (hex_encode (arr_data alice_id))) ∧
    (∀ q, peer_dir alice_id `prefix_of` q → w_fs w' !! q = None) ∧
    (∀ d' r, d' ≠ alice_id → w_fs w' !! (peer_dir d' ++ r) = w_fs w1 !! (peer_dir d' ++ r)).
Proof.
  assert (Hd : w_fs w1 !! peer_dir alice_id = Some NDir) by (vm_compute; reflexivity).
  apply (@delete_peer_forgets toy_prims toy_env list_sled KeyFileWitness.toy_quiet toy_hex_laws).
  - intros x. by rewrite Hd.
  - intros q _ Hn. by rewrite Hd in Hn.
Defined.
End PeerStoreWitness.
