(* ===== verification/ChatDb.v ===== *)
(** * The conversation log

    chat.db of the [crypto] crate: [find_counter], [insert_message_stored],
    [insert_blob_to_chat], [load_peer_chat_file] and
    [load_peer_chat_messages]; and the two client entry points over it,
    [persist_message] and [Client::history].  The log is specified by the
    list of messages it decodes to; inserting is refined to appending. *)

From Stdlib Require Import Strings.Byte Sorting.Sorted.
From S2P Require Import Prelude Bytes Text Primitives Instances World Crypto KeyFile PeerStore.

Local Open Scope Z_scope.

(** [crypto::Messages] and [client::ChatLine] *)
Record Messages := mkMessages { msgs_data : list Message; msgs_peer : rstring }.
Record ChatLine := mkChatLine { cl_from_me : bool; cl_text : rstring; cl_timestamp : Z }.

Definition chat_line (m : Message) : ChatLine :=
  mkChatLine (bool_decide (msg_author m = You)) (msg_text m) (msg_timestamp m).

Section ChatDb.
Context `{Prim : Primitives} `{EnvI : !Env} `{SledI : Sled} `{MsgRmp : !Rmp Message}.

(** The database handle is the path it was opened at. *)
Definition load_peer_chat_file (data : hash) : St World (result path CryptoErrors) :=
  let? _ := smap_err (λ _, CorruptedFile) (sled_open (chat_path data)) in
  sret (Ok (chat_path data)).

(** The counter after the last key: [last + 1] wraps at the end of [u64]. *)
Definition next_counter (last : option (bytes * bytes)) : result Z CryptoErrors :=
  match last with
  | Some (key, _) =>
      let* a := ok_or CorruptedFile (try_into 8 key) in
      Ok (as_u64 (from_be_bytes a + 1))
  | None => Ok 0
  end.

Definition find_counter (db : path) : St World (result Z CryptoErrors) :=
  let? last := smap_err (λ _, CorruptedFile) (db_op db (λ d, (db_last d, d))) in
  sret (next_counter last).

Definition insert_blob_to_chat (blob : bytes) (db : path) : St World (result unit CryptoErrors) :=
  let? counter := find_counter db in
  smap_err (λ _, CorruptedFile) (db_op db (λ d, (tt, db_insert (to_be_bytes counter) blob d))).

Definition insert_message_stored (msg : Message) (storagekey : Key) (db : path) :
    St World (result unit CryptoErrors) :=
  let? encrypted_data := encrypt_message_stored msg storagekey in
  let? counter := find_counter db in
  smap_err (λ _, CorruptedFile)
    (db_op db (λ d, (tt, db_insert (to_be_bytes counter) encrypted_data d))).

(** What one stored value decodes to. *)
Definition decode_entry (storagekey : Key) (value : bytes) : option Message :=
  match decrypt_message_stored value storagekey with
  | Ok item => to_option (rmp_from_slice item)
  | Err _ => None
  end.

(** [item.ok()?]: the next item of the iterator may be an error. *)
Definition item_ok : St World bool :=
  λ w, let '(r, w') := syscall (λ fs, (Ok tt, fs)) w in (is_ok r, w').

(** The [filter_map] over [db.iter()]: messages pushed, keys to remove. *)
Fixpoint scan_items (storagekey : Key) (items : list (bytes * bytes)) :
    St World (list Message * list bytes) :=
  match items with
  | [] => sret ([], [])
  | (key, value) :: items' =>
      let! ok := item_ok in
      if negb ok then scan_items storagekey items'
      else match decode_entry storagekey value with
           | Some msg =>
               let! (msgs, to_remove) := scan_items storagekey items' in
               sret (msg :: msgs, to_remove)
           | None =>
               let! (msgs, to_remove) := scan_items storagekey items' in
               sret (msgs, key :: to_remove)
           end
  end.

Definition load_peer_chat_messages (peer : PeerPublic) (storagekey : Key) :
    St World (result Messages CryptoErrors) :=
  let id := identity_hash (peer_public peer) (peer_verifying peer) in
  let? _ := smap_err (λ _, CorruptedFile) (sled_open (chat_path id)) in
  let! items := db_op (chat_path id) (λ d, (db_iter d, d)) in
  let! (msgvec, to_remove) := scan_items storagekey (unwrap_or [] items) in
  let! _ := sfor to_remove (λ key,
    let! _ := db_op (chat_path id) (λ d, (tt, db_remove key d)) in sret tt) in
  sret (Ok (mkMessages msgvec (hex_encode (arr_data id)))).

(** [client::persist_message] *)
Definition persist_message (keys : Keys) (peer_pub : PeerPublic) (peer_id : hash)
    (text : rstring) (author : Author) (timestamp : Z) : St World (result unit rstring) :=
  let? storage_key := sret (map_err (λ e, str "key derivation failed: " ++ display_crypto e)
    (load_storage_key (peer_public peer_pub) (x25519_priv keys))) in
  let? db := smap_err (λ e, str "open chat db: " ++ display_crypto e) (load_peer_chat_file peer_id) in
  let msg := from_parts text author timestamp in
  smap_err (λ e, str "store message: " ++ display_crypto e) (insert_message_stored msg storage_key db).

(** [Client::history] *)
Definition history (keys : Keys) (peer : hash) : St World (result (list ChatLine) rstring) :=
  let? peer_pub := smap_err (λ e, str "unknown peer: " ++ display_crypto e) (load_peer_data peer) in
  let? storage_key := sret (map_err (λ e, str "key derivation failed: " ++ display_crypto e)
    (load_storage_key (peer_public peer_pub) (x25519_priv keys))) in
  let? messages := smap_err (λ e, str "failed to read history: " ++ display_crypto e)
    (load_peer_chat_messages peer_pub storage_key) in
  sret (Ok (map chat_line (msgs_data messages))).

(** ** The specification: a log is the list of messages it decodes to *)

Definition log_messages (storagekey : Key) (d : Db) : list Message :=
  omap (λ e, decode_entry storagekey e.2) (db_iter d).

(** Every key is a 64-bit counter, with at least [n] counters above it. *)
Definition log_room (n : Z) (d : Db) : Prop :=
  Forall (λ e, ∃ c, u64_ok c ∧ c < two64 - n ∧ e.1 = to_be_bytes c) (db_iter d).
Definition log_wf (d : Db) : Prop := log_room 1 d.

(** The log a database path holds: an absent database is an empty one. *)
Definition log_at (fs : gmap path node) (p : path) (d : Db) : Prop :=
  match fs !! p with
  | Some (NDb d') => d' = d
  | Some (NFile _) => False
  | Some NDir | None => d = db_empty
  end.

(** ** Lemmas *)

Lemma to_be_bytes_array c : ∃ a, try_into 8 (to_be_bytes c) = Some a ∧ arr_data a = to_be_bytes c.
Proof. apply try_into_is_Some, to_be_bytes_length. Qed.

Lemma two64_pos : 1 < two64.
Proof. done. Qed.

(** The next counter is above every key in the log. *)
Lemma next_counter_above `{!SledLaws} n d : 1 ≤ n ≤ two64 → log_room n d →
  ∃ c, next_counter (db_last d) = Ok c ∧ u64_ok c ∧ c < two64 - (n - 1) ∧
       Forall (λ e, lex_lt e.1 (to_be_bytes c) = true) (db_iter d).
Proof.
  intros Hn Hwf. pose proof two64_pos. unfold log_room in Hwf. rewrite Forall_forall in Hwf.
  rewrite db_last_iter. destruct (last (db_iter d)) as [[k v]|] eqn:Hl.
  - destruct (Hwf _ (last_Some_elem_of _ _ Hl)) as (c & Hc & Hmax & Hk). simpl in Hk. subst k.
    destruct (to_be_bytes_array c) as (a & Ha & Hd). unfold next_counter. rewrite Ha. cbn [ok_or rbind].
    rewrite (from_to_be_bytes c a Hc Hd). unfold as_u64, u64_ok in *.
    rewrite Z.mod_small by lia. exists (c + 1). split; [done|]. split; [unfold u64_ok; lia|]. split; [lia|].
    apply Forall_forall. intros [k' v'] Hin. simpl.
    destruct (Hwf _ Hin) as (c' & Hc' & _ & Hk'). simpl in Hk'. subst k'.
    apply to_be_bytes_lt; [done|unfold u64_ok; lia|].
    destruct (sorted_last _ _ _ (db_iter_sorted d) Hl Hin) as [Heq|Hlt].
    + apply (f_equal fst), to_be_bytes_inj in Heq; [lia|done..].
    + unfold key_lt in Hlt. simpl in Hlt. apply to_be_bytes_lt_iff in Hlt; [lia|done..].
  - exists 0. simpl. split_and!; [done|unfold u64_ok; lia|lia|].
    apply last_None in Hl. rewrite Hl. constructor.
Qed.

(** Appending uses up one counter. *)
Lemma log_room_insert `{!SledLaws} n c v d :
  log_room n d → u64_ok c → c < two64 - (n - 1) →
  Forall (λ e, lex_lt e.1 (to_be_bytes c) = true) (db_iter d) →
  log_room (n - 1) (db_insert (to_be_bytes c) v d).
Proof.
  intros Hn Hc Hlt Habove. unfold log_room. rewrite db_insert_append by done. apply Forall_app. split.
  - eapply Forall_impl; [exact Hn|]. intros e (c' & Hc' & Hl & He). exists c'. split_and!; [done|lia|done].
  - repeat constructor. by exists c.
Qed.

Lemma log_room_empty `{!SledLaws} n : log_room n db_empty.
Proof. unfold log_room. rewrite db_iter_empty. constructor. Qed.

(** A write to one database changes no other node, and makes no node but
    directories above it. *)
Definition only_db (p : path) (fs fs' : gmap path node) : Prop :=
  (∀ q, q ≠ p → is_Some (fs !! q) → fs' !! q = fs !! q) ∧
  (∀ q n, fs' !! q = Some n → q ≠ p → fs !! q = Some n ∨ (n = NDir ∧ q `prefix_of` parent p)) ∧
  (fs !! p = None → is_dir_node fs' (parent p) = true).

Lemma sled_open_quiet `{!Quiet} p d w :
  log_at (w_fs w) p d → clear_path (w_fs w) (parent p) →
  ∃ fs', sled_open p w = (Ok tt, mkWorld fs' (w_clock w) (w_rng w) (S (w_io w))) ∧
    fs' !! p = Some (NDb d) ∧ only_db p (w_fs w) fs'.
Proof.
  intros Hlog Hclear. unfold sled_open. rewrite syscall_quiet. unfold log_at in Hlog.
  destruct (w_fs w !! p) as [[|x|db]|] eqn:E; simpl in *; [|done|..].
  - subst. eexists. split_and!; [done|by rewrite lookup_insert_eq|].
    unfold only_db. split_and!; [..|congruence]; intros q; intros; rewrite lookup_insert_ne in * by done; auto.
  - subst. eexists. split_and!; [done|done|]. unfold only_db. split_and!; [auto..|congruence].
  - destruct (mkdirs_clear_path _ _ Hclear) as [fs' Hm]. rewrite Hm. simpl. subst.
    eexists. split_and!; [done|by rewrite lookup_insert_eq|]. unfold only_db. split_and!.
    + intros q Hq Hs. rewrite lookup_insert_ne by done.
      pose proof (mkdirs_mono [] (parent p) (w_fs w) q Hs) as Hk. by rewrite Hm in Hk.
    + intros q n Hq Hne. rewrite lookup_insert_ne in Hq by done.
      pose proof (mkdirs_new [] (parent p) (w_fs w) q n) as Hn. rewrite Hm in Hn.
      apply Hn in Hq as [?|(? & _ & k & -> & _)]; auto. right. split; [done|]. apply prefix_take.
    + intros _. apply is_dir_insert_db. by apply mkdirs_target in Hm.
Qed.

Lemma db_op_quiet {A} `{!Quiet} p (f : Db → A * Db) d w :
  w_fs w !! p = Some (NDb d) →
  db_op p f w = (Ok (f d).1, mkWorld (<[p := NDb (f d).2]> (w_fs w)) (w_clock w) (w_rng w) (S (w_io w))).
Proof. intros Hp. unfold db_op. rewrite syscall_quiet, Hp. by destruct (f d). Qed.

(** The scan of a log, without faults: decoded messages and undecodable keys. *)
Lemma scan_items_quiet `{!Quiet} key items w :
  ∃ n, scan_items key items w =
    ((omap (λ e, decode_entry key e.2) items,
      (filter (λ e, decode_entry key e.2 = None) items).*1),
     mkWorld (w_fs w) (w_clock w) (w_rng w) n).
Proof.
  revert w. induction items as [|[k v] items IH]; intros w.
  { exists (w_io w). by destruct w. }
  destruct (IH (mkWorld (w_fs w) (w_clock w) (w_rng w) (S (w_io w)))) as [n Hn]. exists n.
  cbn [scan_items]. erewrite sbind_step by (unfold item_ok; rewrite syscall_quiet; reflexivity).
  cbn [fst snd is_ok negb]. rewrite filter_cons. cbn [omap list_omap snd].
  destruct (decode_entry key v) as [m|] eqn:E; erewrite sbind_step by exact Hn; done.
Qed.

Lemma encrypt_stored_quiet `{!AeadLaws, !RmpLaws Message} msg key b w :
  rmp_to_vec msg = Ok b → Z.of_nat (length b) < 2 ^ 36 →
  ∃ data, encrypt_message_stored msg key w =
    (Ok data, mkWorld (w_fs w) (w_clock w) (S (w_rng w)) (w_io w)) ∧ decode_entry key data = Some msg.
Proof.
  intros Hb Hl. set (nonce := rng_nonce (w_rng w)).
  destruct (aead_total key nonce b Hl) as [ct Hct].
  exists (arr_data nonce ++ ct). split.
  - unfold encrypt_message_stored, sbind, draw, sret. fold nonce. rewrite Hb. simpl. by rewrite Hct.
  - unfold decode_entry. rewrite (decrypt_stored_app _ _ _ _ Hct). simpl.
    by rewrite (rmp_roundtrip _ _ Hb).
Qed.

(** Inserting into an open log with a counter left appends one message. *)
Lemma insert_message_quiet `{!Quiet, !SledLaws, !AeadLaws, !RmpLaws Message} n msg key p b d w :
  w_fs w !! p = Some (NDb d) → 1 ≤ n ≤ two64 → log_room n d →
  rmp_to_vec msg = Ok b → Z.of_nat (length b) < 2 ^ 36 →
  ∃ d' w', insert_message_stored msg key p w = (Ok tt, w') ∧
    w_fs w' = <[p := NDb d']> (w_fs w) ∧ w_clock w' = w_clock w ∧
    log_messages key d' = log_messages key d ++ [msg] ∧ log_room (n - 1) d'.
Proof.
  intros Hp Hn Hwf Hb Hl.
  destruct (encrypt_stored_quiet msg key b w Hb Hl) as (data & Henc & Hdec).
  destruct (next_counter_above n d Hn Hwf) as (c & Hc & Hu & Hlt & Habove).
  exists (db_insert (to_be_bytes c) data d). eexists. split_and!.
  - unfold insert_message_stored. erewrite ebind_step by exact Henc.
    erewrite ebind_step.
    2:{ unfold find_counter. erewrite ebind_step by (apply smap_err_step, db_op_quiet, Hp).
        simpl. unfold sret. rewrite Hc. reflexivity. }
    unfold smap_err. rewrite (db_op_quiet _ _ d) by (simpl; by rewrite lookup_insert_eq). reflexivity.
  - simpl. by rewrite insert_insert_eq.
  - done.
  - unfold log_messages. rewrite db_insert_append, omap_app by done. simpl. by rewrite Hdec.
  - by apply log_room_insert.
Qed.

(** Opening a peer's log and inserting, without faults. *)
Lemma open_insert_quiet `{!Quiet, !SledLaws, !AeadLaws, !RmpLaws Message} n msg key id b d w :
  log_at (w_fs w) (chat_path id) d → clear_path (w_fs w) (peer_dir id) → 1 ≤ n ≤ two64 → log_room n d →
  rmp_to_vec msg = Ok b → Z.of_nat (length b) < 2 ^ 36 →
  ∃ w1 d' w', load_peer_chat_file id w = (Ok (chat_path id), w1) ∧
    insert_message_stored msg key (chat_path id) w1 = (Ok tt, w') ∧
    w_fs w' !! chat_path id = Some (NDb d') ∧ w_clock w' = w_clock w ∧
    log_messages key d' = log_messages key d ++ [msg] ∧ log_room (n - 1) d' ∧
    only_db (chat_path id) (w_fs w) (w_fs w').
Proof.
  intros Hlog Hclear Hn Hwf Hb Hl.
  destruct (sled_open_quiet (chat_path id) d w Hlog) as (fs1 & Ho & Hp & Hf1 & Hf2 & Hf3);
    [unfold chat_path; by rewrite parent_snoc|].
  destruct (insert_message_quiet n msg key (chat_path id) b d
    (mkWorld fs1 (w_clock w) (w_rng w) (S (w_io w))) Hp Hn Hwf Hb Hl) as (d' & w' & Hi & Hfs & Hc & Hm & Hr).
  eexists _, d', w'. split_and!; [|exact Hi|by rewrite Hfs, lookup_insert_eq|done..|].
  - unfold load_peer_chat_file. by erewrite ebind_step by (apply smap_err_step, Ho).
  - unfold only_db. rewrite Hfs. split_and!.
    + intros q Hq Hs. rewrite lookup_insert_ne by done. auto.
    + intros q m Hq Hne. rewrite lookup_insert_ne in Hq by done. auto.
    + intros Hn0. by apply is_dir_insert_db, Hf3.
Qed.

(** What a write to a peer's log keeps. *)
Lemma only_db_peer id peer fs fs' :
  only_db (chat_path id) fs fs' → peer_on_disk fs id peer → peer_on_disk fs' id peer.
Proof.
  intros [Hfr _] (Hdir & buf & Hbuf & ? & ?). split.
  - unfold is_dir_node in *. destruct (peer_dir id) as [|c r] eqn:Epd; [done|].
    destruct (fs !! (c :: r)) as [n|] eqn:En; [|done]. rewrite Hfr.
    + by rewrite En.
    + rewrite <- Epd. apply not_eq_sym. apply dir_below.
    + by rewrite En.
  - exists buf. split_and!; [|done..]. rewrite Hfr; [done| |by rewrite Hbuf].
    unfold peer_pub_path, chat_path. apply snoc_ne. str_ne.
Qed.

Lemma only_db_clear id fs fs' :
  only_db (chat_path id) fs fs' → clear_path fs (peer_dir id) → clear_path fs' (peer_dir id).
Proof.
  intros [_ [Hnew _]] Hclear k x Hx. destruct (Hnew _ _ Hx) as [Hold|[? _]]; [|by apply (Hclear k x)|done].
  intros Heq. apply (f_equal length) in Heq. rewrite length_take in Heq.
  unfold chat_path in Heq. rewrite length_app in Heq. simpl in Heq. lia.
Qed.

(** Removing keys one by one, without faults. *)
Lemma remove_keys_quiet `{!Quiet, !SledLaws} p keys d w :
  w_fs w !! p = Some (NDb d) →
  ∃ d' w', sfor keys (λ key, let! _ := db_op p (λ d, (tt, db_remove key d)) in sret tt) w = (tt, w') ∧
    w_fs w' !! p = Some (NDb d') ∧ db_iter d' = filter (λ e, e.1 ∉ keys) (db_iter d) ∧
    (∀ q, q ≠ p → w_fs w' !! q = w_fs w !! q).
Proof.
  revert d w. induction keys as [|k keys IH]; intros d w Hp; simpl.
  - exists d, w. split_and!; try done. symmetry. apply filter_Forall, Forall_true.
    intros e. apply not_elem_of_nil.
  - unfold sbind at 1 2. rewrite (db_op_quiet _ _ d) by done. unfold sret. cbn [fst snd].
    destruct (IH (db_remove k d) (mkWorld (<[p := NDb (db_remove k d)]> (w_fs w)) (w_clock w) (w_rng w)
      (S (w_io w)))) as (d' & w' & Hf & Hl & Hi & Hq); [simpl; by rewrite lookup_insert_eq|].
    exists d', w'. split_and!; [exact Hf|done| |].
    + rewrite Hi, db_remove_filter, list_filter_filter. apply list_filter_iff.
      intros e. rewrite not_elem_of_cons. tauto.
    + intros q Hne. rewrite Hq by done. simpl. by rewrite lookup_insert_ne.
Qed.

(** Keys are unique in a database. *)
Lemma db_key_unique `{!SledLaws} d k v v' : (k, v) ∈ db_iter d → (k, v') ∈ db_iter d → v = v'.
Proof.
  pose proof (db_iter_sorted d) as Hs. induction Hs as [|x l Hl IH Hx]; [by intros ?%not_elem_of_nil|].
  assert (Hlt : ∀ u u' : bytes, x = (k, u) → (k, u') ∈ l → False).
  { rewrite Forall_forall in Hx. intros u u' -> Hin. specialize (Hx _ Hin). unfold key_lt in Hx.
    simpl in Hx. by rewrite lex_lt_irrefl in Hx. }
  intros [E|H1]%elem_of_cons [E'|H2]%elem_of_cons; [congruence|destruct (Hlt v v'); congruence|
    destruct (Hlt v' v); congruence|by apply IH].
Qed.

(** Loading a log returns its messages and prunes what does not decode. *)
Lemma load_messages_quiet `{!Quiet, !SledLaws} peer key d w :
  let id := identity_hash (peer_public peer) (peer_verifying peer) in
  log_at (w_fs w) (chat_path id) d → clear_path (w_fs w) (peer_dir id) →
  ∃ d' w', load_peer_chat_messages peer key w =
      (Ok (mkMessages (log_messages key d) (hex_encode (arr_data id))), w') ∧
    w_fs w' !! chat_path id = Some (NDb d') ∧
    db_iter d' = filter (λ e, is_Some (decode_entry key e.2)) (db_iter d).
Proof.
  intros id Hlog Hclear.
  destruct (sled_open_quiet (chat_path id) d w Hlog) as (fs1 & Ho & Hp & _);
    [unfold chat_path; by rewrite parent_snoc|].
  set (w1 := mkWorld fs1 (w_clock w) (w_rng w) (S (w_io w))) in *.
  pose proof (db_op_quiet (chat_path id) (λ d, (db_iter d, d)) d w1 Hp) as Hit.
  match type of Hit with _ = (_, ?w2) =>
    destruct (scan_items_quiet key (db_iter d) w2) as [n Hs] end.
  match type of Hs with _ = ((_, ?ks), ?w3) =>
    destruct (remove_keys_quiet (chat_path id) ks d w3) as (d' & w' & Hr & Hl & Hi & _) end.
  { simpl. by rewrite lookup_insert_eq. }
  exists d', w'. split_and!; [|done|].
  - unfold load_peer_chat_messages. fold id. erewrite ebind_step by (apply smap_err_step, Ho).
    erewrite sbind_step by exact Hit. cbn [unwrap_or fst]. erewrite sbind_step by exact Hs.
    cbv beta iota. erewrite sbind_step by exact Hr. reflexivity.
  - rewrite Hi. apply list_filter_iff'. intros [k v] Hin. simpl.
    rewrite list_elem_of_fmap. split.
    + intros Hbad. apply not_eq_None_Some. intros Hn. apply Hbad. exists (k, v). split; [done|].
      by apply list_elem_of_filter.
    + intros [m Hm] ([k' v'] & Hk & Hf). apply list_elem_of_filter in Hf as [Hnone Hf]. simpl in *.
      subst k'. rewrite (db_key_unique d k v' v Hf Hin) in Hnone. congruence.
Qed.
End ChatDb.

Section ChatDbTheorems.
Context `{Prim : Primitives} `{EnvI : !Env} `{SledI : Sled} `{MsgRmp : !Rmp Message}.

Lemma load_storage_key_total `{!KdfLaws} p priv : ∃ k, load_storage_key p priv = Ok k.
Proof. unfold load_storage_key. destruct (derive_shared_total priv p (label "storage")) as [k ->]. by exists k. Qed.

Lemma persist_room `{!Quiet, !SledLaws, !AeadLaws, !RmpLaws Message} n keys peer id text author ts key b d w :
  load_storage_key (peer_public peer) (x25519_priv keys) = Ok key →
  log_at (w_fs w) (chat_path id) d → clear_path (w_fs w) (peer_dir id) → 1 ≤ n ≤ two64 → log_room n d →
  rmp_to_vec (from_parts text author ts) = Ok b → Z.of_nat (length b) < 2 ^ 36 →
  ∃ d' w', persist_message keys peer id text author ts w = (Ok tt, w') ∧
    w_fs w' !! chat_path id = Some (NDb d') ∧
    log_messages key d' = log_messages key d ++ [from_parts text author ts] ∧ log_room (n - 1) d' ∧
    only_db (chat_path id) (w_fs w) (w_fs w').
Proof.
  intros Hk Hlog Hclear Hn Hwf Hb Hl.
  destruct (open_insert_quiet n (from_parts text author ts) key id b d w)
    as (w1 & d' & w' & Ho & Hi & Hfs & _ & Hm & Hr & Hfr); [done..|].
  exists d', w'. split_and!; [|done..]. unfold persist_message.
  erewrite ebind_step by (unfold sret; by rewrite Hk).
  erewrite ebind_step; [apply smap_err_step, Hi|]. by apply smap_err_step.
Qed.

Lemma persist_quiet `{!Quiet, !SledLaws, !AeadLaws, !RmpLaws Message} keys peer id text author ts key b d w :
  load_storage_key (peer_public peer) (x25519_priv keys) = Ok key →
  log_at (w_fs w) (chat_path id) d → clear_path (w_fs w) (peer_dir id) → log_wf d →
  rmp_to_vec (from_parts text author ts) = Ok b → Z.of_nat (length b) < 2 ^ 36 →
  ∃ d' w', persist_message keys peer id text author ts w = (Ok tt, w') ∧
    w_fs w' !! chat_path id = Some (NDb d') ∧
    log_messages key d' = log_messages key d ++ [from_parts text author ts] ∧
    only_db (chat_path id) (w_fs w) (w_fs w').
Proof.
  intros Hk Hlog Hclear Hwf Hb Hl. pose proof two64_pos.
  destruct (persist_room 1 keys peer id text author ts key b d w) as (d' & w' & ? & ? & ? & _ & ?);
    [done|done|done|lia|done..|]. by exists d', w'.
Qed.

(** [history] of a registered peer is its log, decoded. *)
Lemma history_quiet `{!Quiet, !SledLaws} keys peer key d w :
  let id := identity_hash (peer_public peer) (peer_verifying peer) in
  load_storage_key (peer_public peer) (x25519_priv keys) = Ok key →
  peer_on_disk (w_fs w) id peer → clear_path (w_fs w) (peer_dir id) → log_at (w_fs w) (chat_path id) d →
  ∃ w', history keys id w = (Ok (map chat_line (log_messages key d)), w').
Proof.
  intros id Hk Hdisk Hclear Hlog.
  set (w1 := mkWorld (w_fs w) (w_clock w) (w_rng w) (S (S (S (w_io w))))).
  destruct (load_messages_quiet peer key d w1 Hlog Hclear) as (d' & w' & Hload & _).
  exists w'. unfold history. erewrite ebind_step by (apply smap_err_step, load_peer_data_quiet, Hdisk).
  erewrite ebind_step by (unfold sret; by rewrite Hk).
  by erewrite ebind_step by (apply smap_err_step, Hload).
Qed.

(** C9: The conversation log is append-only: for a registered peer with a
    well-formed log, on a disk without faults, [persist_message] succeeds and [history] then returns the
    messages stored before, in the same order, followed by exactly the new
    one. *)
Theorem history_after_persist
    `{!Quiet, !SledLaws, !AeadLaws, !KdfLaws, !RmpLaws Message}
    keys peer text author ts b d (w : World) :
  let id := identity_hash (peer_public peer) (peer_verifying peer) in
  peer_on_disk (w_fs w) id peer → clear_path (w_fs w) (peer_dir id) →
  log_at (w_fs w) (chat_path id) d → log_wf d →
  rmp_to_vec (from_parts text author ts) = Ok b → Z.of_nat (length b) < 2 ^ 36 →
  ∃ key w' w'', load_storage_key (peer_public peer) (x25519_priv keys) = Ok key ∧
    persist_message keys peer id text author ts w = (Ok tt, w') ∧
    history keys id w' =
      (Ok (map chat_line (log_messages key d)
           ++ [mkChatLine (bool_decide (author = You)) text ts]), w'').
Proof.
  intros id Hdisk Hclear Hlog Hwf Hb Hl.
  destruct (load_storage_key_total (peer_public peer) (x25519_priv keys)) as [key Hk].
  destruct (persist_quiet keys peer id text author ts key b d w) as (d' & w' & Hp & Hdb & Hm & Hfr);
    [done..|].
  pose proof (only_db_peer id peer _ _ Hfr Hdisk) as Hdisk'. pose proof (only_db_clear id _ _ Hfr Hclear) as Hclear'.
  assert (Hlog' : log_at (w_fs w') (chat_path id) d') by (unfold log_at; by rewrite Hdb).
  destruct (history_quiet keys peer key d' w' Hk Hdisk' Hclear' Hlog') as [w'' Hh].
  exists key, w', w''. split_and!; [done..|]. unfold id. by rewrite Hh, Hm, map_app.
Qed.

(** Loading a conversation returns the messages that decrypt and parse, in
    key order, and removes from the database exactly the entries that do not,
    keeping every other entry. *)
Theorem load_prunes_undecodable `{!Quiet, !SledLaws} peer key d (w : World) :
  let id := identity_hash (peer_public peer) (peer_verifying peer) in
  log_at (w_fs w) (chat_path id) d → clear_path (w_fs w) (peer_dir id) →
  ∃ d' w', load_peer_chat_messages peer key w =
      (Ok (mkMessages (log_messages key d) (hex_encode (arr_data id))), w') ∧
    w_fs w' !! chat_path id = Some (NDb d') ∧
    db_iter d' = filter (λ e, is_Some (decode_entry key e.2)) (db_iter d).
Proof. apply load_messages_quiet. Qed.

Lemma ecollect_err {A B E} (f : A → St World (result B E)) l x (w : World) :
  x ∈ l → (∀ w1, w_fs w1 = w_fs w → ∃ e, (f x w1).1 = Err e) →
  (∀ y w1, w_fs (f y w1).2 = w_fs w1) → ∃ e, (ecollect l f w).1 = Err e.
Proof.
  revert w. induction l as [|y l IH]; intros w Hin Hx Hfs; [by apply not_elem_of_nil in Hin|].
  simpl. unfold ebind at 1. destruct (f y w) as [[b|e] w1] eqn:Hy; [|by exists e].
  assert (Hw1 : w_fs w1 = w_fs w) by (pose proof (Hfs y w) as Hf; by rewrite Hy in Hf).
  apply elem_of_cons in Hin as [->|Hin].
  - destruct (Hx w eq_refl) as [e He]. rewrite Hy in He. done.
  - destruct (IH w1 Hin) as [e He].
    + intros w2 Hw2. apply Hx. congruence.
    + done.
    + unfold ebind. destruct (ecollect l f w1) as [[]]; simpl in *; [done|eauto].
Qed.

(** A peer directory without peer.pub makes the whole listing fail. *)
Lemma load_peers_broken `{!Quiet, !EnvLaws} id (w : World) :
  is_dir_node (w_fs w) peers_dir = true → is_Some (w_fs w !! peer_dir id) →
  w_fs w !! peer_pub_path id = None → ∃ e, (load_peers w).1 = Err e.
Proof.
  intros Hdir Hs Hnone. unfold load_peers, ebind at 1, smap_err at 1, read_dir.
  rewrite syscall_quiet. rewrite Hdir. cbn [fst snd map_err w_fs].
  eapply (ecollect_err _ _ (hex_encode (arr_data id))).
  - rewrite dir_order_perm. apply elem_of_children. done.
  - intros w1 Hw1. unfold ebind, smap_err, dir_entry, open_read. rewrite syscall_quiet.
    cbn [fst snd map_err w_fs]. rewrite syscall_quiet. cbn [w_fs]. rewrite Hw1. cbn [w_fs].
    change ((peers_dir ++ [hex_encode (arr_data id)]) ++ [str "peer.pub"]) with (peer_pub_path id).
    rewrite Hnone. cbn. eauto.
  - intros y w1. unfold ebind, smap_err, dir_entry, open_read, read_exact.
    rewrite syscall_quiet. cbn [fst snd map_err w_fs]. rewrite syscall_quiet. cbn [fst snd map_err w_fs].
    destruct (w_fs w1 !! _) as [n|] eqn:E; cbn [fst snd map_err w_fs]; [|done].
    rewrite syscall_quiet. cbn [fst snd map_err w_fs]. rewrite E.
    destruct n as [|x|]; cbn [fst snd map_err w_fs]; try done.
    destruct (Nat.leb 64 (length x)); cbn [fst snd map_err w_fs]; reflexivity.
Qed.

Lemma clear_path_remove fs p q : clear_path fs q → clear_path (remove_tree p fs) q.
Proof. intros Hc k d Hk. apply (Hc k d). by apply map_lookup_filter_Some in Hk as [? _]. Qed.

(** A message that arrives after its peer was removed hides every contact:
    [delete_peer] followed by the [persist_message] of the still-open session
    succeeds, recreates the peer's directory without peer.pub, and from then
    on [load_peers] fails, for all peers. *)
Theorem late_message_hides_contacts
    `{!Quiet, !EnvLaws, !SledLaws, !AeadLaws, !KdfLaws, !RmpLaws Message}
    keys peer text ts b (w : World) :
  let id := identity_hash (peer_public peer) (peer_verifying peer) in
  is_dir_node (w_fs w) peers_dir = true → w_fs w !! peer_dir id = Some NDir →
  clear_path (w_fs w) (peer_dir id) →
  rmp_to_vec (from_parts text Peer ts) = Ok b → Z.of_nat (length b) < 2 ^ 36 →
  ∃ w1 w2 e, delete_peer id w = (Ok tt, w1) ∧
    persist_message keys peer id text Peer ts w1 = (Ok tt, w2) ∧ (load_peers w2).1 = Err e.
Proof.
  intros id Hpeers Hpd Hclear Hb Hl.
  destruct (remove_if_exists_quiet (peer_dir id) w) as [n Hrm]; [intros d; by rewrite Hpd|].
  rewrite decide_True in Hrm by (by rewrite Hpd).
  set (w1 := mkWorld (remove_tree (peer_dir id) (w_fs w)) (w_clock w) (w_rng w) n) in *.
  assert (Hgone : ∀ q, peer_dir id `prefix_of` q → w_fs w1 !! q = None)
    by (intros; by apply lookup_remove_tree_in).
  destruct (load_storage_key_total (peer_public peer) (x25519_priv keys)) as [key Hk].
  destruct (persist_quiet keys peer id text Peer ts key b db_empty w1)
    as (d' & w2 & Hp & _ & _ & Hfr & Hnew & Hdir); try done.
  { unfold log_at. rewrite Hgone; [done|]. by exists [str "chat.db"]. }
  { by apply clear_path_remove. }
  { apply log_room_empty. }
  specialize (Hdir (Hgone _ ltac:(by exists [str "chat.db"]))).
  unfold chat_path in Hdir at 1. rewrite parent_snoc in Hdir.
  destruct (load_peers_broken id w2) as [e He].
  - unfold is_dir_node in *. destruct peers_dir as [|c r] eqn:Epeers; [done|].
    destruct (w_fs w !! (c :: r)) as [m|] eqn:Em; [|done].
    assert (Hw1 : w_fs w1 !! (c :: r) = Some m).
    { unfold w1. cbn [w_fs]. rewrite lookup_remove_tree_out; [done|]. intros [s Hs].
      apply (f_equal length) in Hs. rewrite length_app, peer_dir_length, Epeers in Hs. lia. }
    rewrite Hfr, Hw1; [done| |done]. rewrite <- Epeers. unfold chat_path. intros Heq.
    apply (f_equal length) in Heq. rewrite length_app, peer_dir_length in Heq. lia.
  - unfold is_dir_node in Hdir. pose proof (peer_dir_length id).
    destruct (peer_dir id); [done|]. by destruct (w_fs w2 !! _).
  - destruct (w_fs w2 !! peer_pub_path id) as [m|] eqn:Em; [|done].
    apply Hnew in Em as [Em|[_ Hs]].
    + rewrite Hgone in Em; [done|]. by exists [str "peer.pub"].
    + apply prefix_length in Hs. unfold peer_pub_path, chat_path in Hs. rewrite parent_snoc, length_app in Hs.
      simpl in Hs. lia.
    + unfold peer_pub_path, chat_path. apply snoc_ne. str_ne.
  - exists w1, w2, e. done.
Qed.
End ChatDbTheorems.

Module ChatDbWitness.
#[local] Existing Instances toy_prims toy_env list_sled.

Definition message_iso (m : Message) : (unit + unit) * (rstring * Z) :=
  (match msg_author m with You => inl tt | Peer => inr tt end, (msg_text m, msg_timestamp m)).
Definition message_of (x : (unit + unit) * (rstring * Z)) : option Message :=
  Some (mkMessage (match x.1 with inl _ => You | inr _ => Peer end) x.2.1 x.2.2).
Lemma message_of_iso m : message_of (message_iso m) = Some m.
Proof. by destruct m as [[] ? ?]. Qed.
Definition message_codec : Codec Message := retract_codec message_iso message_of message_of_iso.
Definition toy_rmp_message : Rmp Message := codec_rmp message_codec.
#[local] Existing Instance toy_rmp_message.
Definition toy_rmp_message_laws : RmpLaws Message := codec_rmp_laws message_codec.

Definition peer : PeerPublic := mkPeerPublic PeerStoreWitness.alice PeerStoreWitness.alice.
Definition me : Keys := mkKeys PeerStoreWitness.bob PeerStoreWitness.bob PeerStoreWitness.bob PeerStoreWitness.bob.
Definition w1 : World := PeerStoreWitness.w1.
Definition id : hash := PeerStoreWitness.alice_id.

Lemma w1_clear : clear_path (w_fs w1) (peer_dir id).
Proof.
  assert (Hall : ∀ k, (k ≤ length (peer_dir id))%nat → match w_fs w1 !! take k (peer_dir id) with
    | Some (NFile _) => False | _ => True end).
  { intros k Hk. change (length (peer_dir id)) with 4%nat in Hk.
    do 5 (destruct k as [|k]; [vm_compute; exact I|]). lia. }
  intros k d Hk. destruct (decide (k ≤ length (peer_dir id))%nat) as [Hle|Hgt].
  - specialize (Hall k Hle). by rewrite Hk in Hall.
  - rewrite take_ge in Hk by lia. specialize (Hall (length (peer_dir id)) ltac:(lia)).
    rewrite firstn_all, Hk in Hall. done.
Qed.

Lemma w1_peer : peer_on_disk (w_fs w1) id peer.
Proof.
  split; [vm_compute; reflexivity|]. exists (arr_data PeerStoreWitness.alice ++ arr_data PeerStoreWitness.alice).
  split_and!; [vm_compute; reflexivity|vm_compute; lia|].
  apply (@parse_peer_written toy_prims toy_key_laws PeerStoreWitness.alice PeerStoreWitness.alice).
Qed.

Lemma history_after_persist_witness :
  ∃ key w' w'', load_storage_key (peer_public peer) (x25519_priv me) = Ok key ∧
    persist_message me peer id (str "hi") You 42 w1 = (Ok tt, w') ∧
    history me id w' =
      (Ok (map chat_line (log_messages key db_empty) ++ [mkChatLine true (str "hi") 42]), w'').
Proof.
  apply (@history_after_persist toy_prims toy_env list_sled toy_rmp_message KeyFileWitness.toy_quiet
    list_sled_laws toy_aead_laws toy_kdf_laws toy_rmp_message_laws me peer (str "hi") You 42
    (enc (Codec := message_codec) (from_parts (str "hi") You 42)) db_empty w1).
  - apply w1_peer.
  - apply w1_clear.
  - vm_compute. reflexivity.
  - constructor.
  - reflexivity.
  - vm_compute. reflexivity.
Defined.

Lemma load_prunes_undecodable_witness (key := PeerStoreWitness.alice) :
  ∃ d' w', load_peer_chat_messages peer key w1 =
      (Ok (mkMessages (log_messages key db_empty) (hex_encode (arr_data id))), w') ∧
    w_fs w' !! chat_path id = Some (NDb d') ∧
    db_iter d' = filter (λ e, is_Some (decode_entry key e.2)) (db_iter db_empty).
Proof.
  apply (@load_prunes_undecodable toy_prims toy_env list_sled toy_rmp_message KeyFileWitness.toy_quiet
    list_sled_laws peer key db_empty w1); [vm_compute; reflexivity|apply w1_clear].
Defined.

Lemma late_message_hides_contacts_witness :
  ∃ w2 w3 e, delete_peer id w1 = (Ok tt, w2) ∧
    persist_message me peer id (str "late") Peer 42 w2 = (Ok tt, w3) ∧ (load_peers w3).1 = Err e.
Proof.
  apply (@late_message_hides_contacts toy_prims toy_env list_sled toy_rmp_message KeyFileWitness.toy_quiet
    toy_env_laws list_sled_laws toy_aead_laws toy_kdf_laws toy_rmp_message_laws me peer (str "late") 42
    (enc (Codec := message_codec) (from_parts (str "late") Peer 42)) w1).
  - vm_compute. reflexivity.
  - vm_compute. reflexivity.
  - apply w1_clear.
  - reflexivity.
  - vm_compute. reflexivity.
Defined.
End ChatDbWitness.
