(* ===== verification/Wire.v ===== *)
(** * Peer-to-peer frames

    The wire messages of src/crates/p2p/src/lib.rs: [P2PMessage],
    [PeerMessage] with its signature ([PeerMessage::new], [verify]), the
    freshness window, the tie-break [am_i_first], and the [Ping] and STUN
    datagrams. *)

From Stdlib Require Import Strings.Byte.
From S2P Require Import Prelude Bytes Text Primitives Instances World Crypto.

Local Open Scope Z_scope.

Inductive P2PError :=
| CommunicationError
| P2PTimeout
| StorageFailed (s : rstring)
| SerializationFailed
| DeserializationFailed
| P2PCryptographicError.

Inductive P2PMessage :=
| Init (ephermal : KeyType)
| ChatMessage (counter : Z) (message_bytes : bytes)
| HeartBeat
| SyncRequest (last_timestamp : Z)
| SyncResponse (messages : bytes)
| EndMsg.

Record Ping := mkPing { ping_pubkey : KeyType; ping_timestamp : Z }.
Record StunPing := mkStunPing {
  stun_pub_key : KeyType;
  stun_verif : KeyType;
  stun_timestamp : Z;
  stun_signature : bytes
}.
Record StunReply := mkStunReply { observed : rstring }.

(** [std::net::SocketAddr] *)
Record SocketAddr := mkAddr { sa_ip : rstring; sa_port : Z }.
#[export] Instance SocketAddr_eq_dec : EqDecision SocketAddr.
Proof. solve_decision. Defined.

Definition MAX_FRAME_AGE_SECS : Z := 120.

Definition frame_is_fresh (frame_ts now : Z) : bool :=
  i64_abs (i64_sub now frame_ts) <=? MAX_FRAME_AGE_SECS.

(** [mypubkey > remote_pubkey] on arrays: lexicographic. *)
Definition am_i_first (mypubkey remote_pubkey : KeyType) : bool :=
  lex_lt (arr_data remote_pubkey) (arr_data mypubkey).

(** The bytes of a payload that the signature covers. *)
Definition payload_bytes (payload : P2PMessage) : bytes :=
  match payload with
  | Init ephermal => arr_data ephermal
  | ChatMessage counter message_bytes => to_le_bytes counter ++ message_bytes
  | EndMsg => label "EndOfConversation"
  | HeartBeat => label "Heartbeat"
  | SyncRequest last_timestamp => to_le_bytes last_timestamp
  | SyncResponse messages => messages
  end.

Section Wire.
Context `{Prim : Primitives} `{EnvI : !Env} `{SledI : Sled}.

Record PeerMessage := mkPeerMessage {
  pm_timestamp : Z;
  pm_payload : P2PMessage;
  pm_sender : PublicKey;
  pm_signature : bytes
}.

Definition data_to_sign (sender : PublicKey) (timestamp : Z) (payload : P2PMessage) : bytes :=
  arr_data (pk_bytes sender) ++ to_le_bytes timestamp ++ payload_bytes payload.

(** The frame of a given timestamp. *)
Definition make_message (timestamp : Z) (payload : P2PMessage) (sender : PublicKey)
    (signing : SigningKey) : PeerMessage :=
  mkPeerMessage timestamp payload sender
    (arr_data (sign_challenge signing (data_to_sign sender timestamp payload))).

(** [PeerMessage::new] *)
Definition peer_message_new (payload : P2PMessage) (sender : PublicKey) (signing : SigningKey) :
    St World PeerMessage :=
  let! timestamp := utc_now in sret (make_message timestamp payload sender signing).

(** [PeerMessage::verify] *)
Definition peer_message_verify (pm : PeerMessage) (expected_x25519 : KeyType)
    (expected_verifying : VerifyingKey) : bool :=
  if decide (pk_bytes (pm_sender pm) ≠ expected_x25519) then false
  else
    let data := data_to_sign (pm_sender pm) (pm_timestamp pm) (pm_payload pm) in
    match sig_from_slice (pm_signature pm) with
    | Some signature => is_ok (verify_challenge expected_verifying data signature)
    | None => false
    end.

Context `{PmRmp : !Rmp PeerMessage}.

(** [frame] *)
Definition frame (payload : P2PMessage) (my_pub : PublicKey) (signing : SigningKey) :
    St World (option bytes) :=
  let! msg := peer_message_new payload my_pub signing in
  sret (to_option (rmp_to_vec msg)).

(** ** Lemmas *)

(** What a peer signs, the other side verifies. *)
Lemma verify_made `{!SigLaws} ts payload pub sk :
  peer_message_verify (make_message ts payload pub sk) (pk_bytes pub) (verifying_key sk) = true.
Proof.
  unfold peer_message_verify, make_message. cbn [pm_sender pm_signature pm_timestamp pm_payload].
  rewrite decide_False by (intros []; done). by rewrite sig_slice, verify_sign.
Qed.

(** Verification depends on the signed bytes, not on the kind of payload. *)
Lemma verify_payload_bytes ts p1 p2 s sig x v :
  payload_bytes p1 = payload_bytes p2 →
  peer_message_verify (mkPeerMessage ts p1 s sig) x v =
  peer_message_verify (mkPeerMessage ts p2 s sig) x v.
Proof. intros Hp. unfold peer_message_verify, data_to_sign. cbn. by rewrite Hp. Qed.

Lemma am_i_first_asym a b : a ≠ b → am_i_first a b = negb (am_i_first b a).
Proof.
  intros Hne. unfold am_i_first. destruct (lex_lt_total (arr_data a) (arr_data b)) as [H|[H|H]].
  - by rewrite H, (lex_lt_asym _ _ H).
  - by apply arr_ext in H.
  - by rewrite H, (lex_lt_asym _ _ H).
Qed.

(** Two frames of the same kind with equal signed bytes are equal. *)
Definition same_kind (p q : P2PMessage) : bool :=
  match p, q with
  | Init _, Init _ | ChatMessage _ _, ChatMessage _ _ | HeartBeat, HeartBeat
  | SyncRequest _, SyncRequest _ | SyncResponse _, SyncResponse _ | EndMsg, EndMsg => true
  | _, _ => false
  end.
Definition payload_ok (p : P2PMessage) : Prop :=
  match p with ChatMessage c _ => i64_ok c | SyncRequest t => i64_ok t | _ => True end.

Lemma payload_bytes_inj p q :
  same_kind p q = true → payload_ok p → payload_ok q → payload_bytes p = payload_bytes q → p = q.
Proof.
  destruct p, q; cbn [same_kind payload_ok payload_bytes]; try done; intros _ Hp Hq Heq.
  - f_equal. by apply arr_ext.
  - apply app_inj_length in Heq as [H1 H2]; [|by rewrite !to_le_bytes_length].
    apply to_le_bytes_inj_i64 in H1; [|done..]. congruence.
  - apply to_le_bytes_inj_i64 in Heq; [|done..]. congruence.
  - congruence.
Qed.

Lemma freshness_core now ts :
  0 ≤ now < 2 ^ 62 → i64_ok ts →
  frame_is_fresh ts now = true ↔ Z.abs (now - ts) ≤ MAX_FRAME_AGE_SECS ∨ now - ts = two63.
Proof.
  intros Hn Ht. unfold frame_is_fresh. rewrite Z.leb_le. by apply i64_distance.
Qed.
End Wire.
Arguments mkPeerMessage {_}.

Section WireTheorems.
Context `{Prim : Primitives} `{EnvI : !Env} `{SledI : Sled}.

(** The freshness window, exactly: for a clock between 1970 and 2^62
    seconds, a frame is accepted when its timestamp is at most 120 seconds from
    the clock, on either side, and for one more value: the timestamp that lies
    2^63 seconds in the past, where the subtraction wraps to [i64::MIN] and so
    does its absolute value. *)
Theorem frame_freshness_window (now ts : Z) :
  0 ≤ now < 2 ^ 62 → i64_ok ts →
  frame_is_fresh ts now = true ↔ Z.abs (now - ts) ≤ MAX_FRAME_AGE_SECS ∨ now - ts = two63.
Proof. apply freshness_core. Qed.

(** The signature of a frame covers everything in it: within one kind of
    payload, two frames whose signed bytes coincide have the same sender, the
    same timestamp and the same payload, so no field can be altered under a
    valid signature. *)
Theorem signed_bytes_bind `{!KeyLaws} s1 s2 t1 t2 p1 p2 :
  same_kind p1 p2 = true → payload_ok p1 → payload_ok p2 → i64_ok t1 → i64_ok t2 →
  data_to_sign s1 t1 p1 = data_to_sign s2 t2 p2 → s1 = s2 ∧ t1 = t2 ∧ p1 = p2.
Proof.
  intros Hk Hp1 Hp2 Ht1 Ht2 Hd. unfold data_to_sign in Hd.
  apply app_inj_length in Hd as [Hs Hd]; [|by rewrite !arr_length].
  apply app_inj_length in Hd as [Ht Hp]; [|by rewrite !to_le_bytes_length].
  split_and!; [|by apply to_le_bytes_inj_i64|by apply payload_bytes_inj].
  apply arr_ext in Hs. rewrite <- (pk_from_bytes s1), <- (pk_from_bytes s2). congruence.
Qed.
End WireTheorems.

(** Codecs for the frames, for the witnesses. *)
Module WireWitness.
#[local] Existing Instances toy_prims toy_env list_sled.
Abbreviation wire_sum := (KeyType + (Z * bytes) + unit + Z + bytes + unit)%type.
Definition p2p_to (p : P2PMessage) : wire_sum :=
  match p with
  | Init e => inl (inl (inl (inl (inl e))))
  | ChatMessage c m => inl (inl (inl (inl (inr (c, m)))))
  | HeartBeat => inl (inl (inl (inr tt)))
  | SyncRequest t => inl (inl (inr t))
  | SyncResponse m => inl (inr m)
  | EndMsg => inr tt
  end.
Definition p2p_of (x : wire_sum) : option P2PMessage :=
  Some match x with
  | inl (inl (inl (inl (inl e)))) => Init e
  | inl (inl (inl (inl (inr (c, m))))) => ChatMessage c m
  | inl (inl (inl (inr tt))) => HeartBeat
  | inl (inl (inr t)) => SyncRequest t
  | inl (inr m) => SyncResponse m
  | inr tt => EndMsg
  end.
Lemma p2p_of_to p : p2p_of (p2p_to p) = Some p.
Proof. by destruct p. Qed.
Definition p2p_codec : Codec P2PMessage := retract_codec p2p_to p2p_of p2p_of_to.

Definition pm_to (m : PeerMessage) : Z * P2PMessage * KeyType * bytes :=
  (pm_timestamp m, pm_payload m, pm_sender m, pm_signature m).
Definition pm_of (x : Z * P2PMessage * KeyType * bytes) : option PeerMessage :=
  let '(t, p, s, g) := x in Some (mkPeerMessage t p s g).
Lemma pm_of_to m : pm_of (pm_to m) = Some m.
Proof. by destruct m. Qed.
#[local] Existing Instance p2p_codec.
Definition pm_codec : Codec PeerMessage := retract_codec pm_to pm_of pm_of_to.
Definition toy_rmp_pm : Rmp PeerMessage := codec_rmp pm_codec.
Definition toy_rmp_pm_laws : @RmpLaws PeerMessage toy_rmp_pm := codec_rmp_laws pm_codec.

Definition ping_to (p : Ping) : KeyType * Z := (ping_pubkey p, ping_timestamp p).
Definition ping_of (x : KeyType * Z) : option Ping := Some (mkPing x.1 x.2).
Lemma ping_of_to p : ping_of (ping_to p) = Some p.
Proof. by destruct p. Qed.
Definition toy_rmp_ping : Rmp Ping := codec_rmp (retract_codec ping_to ping_of ping_of_to).

Definition x1 : KeyType := pad_array 32 [x01; x02].

Lemma frame_freshness_window_witness :
  frame_is_fresh (1000 - two63) 1000 = true ∧
  (frame_is_fresh 880 1000 = true ↔ Z.abs (1000 - 880) ≤ MAX_FRAME_AGE_SECS ∨ 1000 - 880 = two63).
Proof.
  split.
  - apply (frame_freshness_window 1000 (1000 - two63)); [lia|vm_compute; done|right; reflexivity].
  - apply (frame_freshness_window 1000 880); [lia|vm_compute; done].
Defined.

Lemma signed_bytes_bind_witness :
  data_to_sign x1 5 (ChatMessage 1 [x07]) = data_to_sign x1 (2 + 3) (ChatMessage (3 - 2) [x07]) ∧
  x1 = x1 ∧ 5 = 2 + 3 ∧ ChatMessage 1 [x07] = ChatMessage (3 - 2) [x07].
Proof.
  split; [reflexivity|].
  apply (@signed_bytes_bind toy_prims toy_key_laws x1 x1 5 (2 + 3) (ChatMessage 1 [x07])
           (ChatMessage (3 - 2) [x07])); [reflexivity|vm_compute; done..|reflexivity].
Defined.
End WireWitness.
