(* ===== verification/Handshake.v ===== *)
(** * Hole punching, STUN discovery and the session handshake

    [punch_hole], [stun_discover], [send_peer_message], [initial_handshake]
    and [relay_handshake] of src/crates/p2p/src/lib.rs.  A [tokio::select!]
    loop is a function of the list of branches that fire, in order; it
    returns [None] while it still waits.  What a send or a receive yields is
    part of the event.  The frames a task emits are recorded in order. *)

From Stdlib Require Import Strings.Byte.
From S2P Require Import Prelude Bytes Text Primitives Instances World Crypto Wire.

Local Open Scope Z_scope.

Inductive PunchHoleResult := SendError | RecvError | PunchTimeout.

(** Where a datagram or relay frame goes. *)
Inductive dest := ToName (addr : rstring) | ToAddr (addr : SocketAddr) | ToRelay.

Record Net `{Sled} := mkNet { n_world : World; n_sent : list (dest * bytes) }.
Arguments mkNet {_}.

Inductive punch_event :=
| PunchTick (send_ok : bool)
| PunchRecv (r : option (bytes * SocketAddr))
| PunchDeadline.

Inductive hs_event :=
| Resend (send_ok : bool)
| Received (r : option (bytes * SocketAddr))
| Deadline.

Inductive relay_event :=
| RelayResend
| RelayReceived (r : option bytes)
| RelayDeadline.

(** [socket.recv_from(&mut buf)]: a datagram is cut to the buffer. *)
Definition recv_buf (n : nat) (datagram : bytes) : bytes := take n datagram.

Section Handshake.
Context `{Prim : Primitives} `{EnvI : !Env} `{SledI : Sled}.
Context `{PmRmp : !Rmp PeerMessage} `{PingRmp : !Rmp Ping}.
Context `{StunRmp : !Rmp StunPing} `{ReplyRmp : !Rmp StunReply}.

Definition on_world {A} (m : St World A) : St Net A :=
  λ n, let '(a, w) := m (n_world n) in (a, mkNet w (n_sent n)).

(** A send that reaches the wire when [ok]. *)
Definition emit (ok : bool) (to : dest) (data : bytes) : St Net bool :=
  λ n, (ok, if ok then mkNet (n_world n) (n_sent n ++ [(to, data)]) else n).

(** ** Hole punching *)

Fixpoint punch_loop (timestamp : Z) (remote_pubkey : KeyType) (remote_addr : rstring) (data : bytes)
    (evs : list punch_event) : St Net (option (result SocketAddr PunchHoleResult)) :=
  match evs with
  | [] => sret None
  | PunchTick ok :: evs' =>
      let! _ := emit ok (ToName remote_addr) data in
      punch_loop timestamp remote_pubkey remote_addr data evs'
  | PunchRecv (Some (d, addr)) :: evs' =>
      match rmp_from_slice (recv_buf 1024 d) with
      | Ok p =>
          if decide (ping_pubkey p = remote_pubkey ∧ ping_timestamp p = timestamp)
          then sret (Some (Ok addr))
          else punch_loop timestamp remote_pubkey remote_addr data evs'
      | Err _ => punch_loop timestamp remote_pubkey remote_addr data evs'
      end
  | PunchRecv None :: _ => sret (Some (Err RecvError))
  | PunchDeadline :: _ => sret (Some (Err PunchTimeout))
  end.

Definition punch_hole (timestamp : Z) (mypubkey remote_pubkey : PublicKey) (remote_addr : rstring)
    (evs : list punch_event) : St Net (option (result SocketAddr PunchHoleResult)) :=
  match rmp_to_vec (mkPing (pk_bytes mypubkey) timestamp) with
  | Err _ => sret (Some (Err SendError))
  | Ok data => punch_loop timestamp (pk_bytes remote_pubkey) remote_addr data evs
  end.

(** ** STUN discovery: up to three attempts *)

(** One attempt: whether the send works, and the reply within two seconds. *)
Definition stun_attempt : Type := bool * option (bytes * SocketAddr).

Fixpoint stun_loop (stun_addr : rstring) (b : bytes) (rounds : list nat) (attempts : nat → stun_attempt) :
    St Net (option rstring) :=
  match rounds with
  | [] => sret None
  | i :: rounds' =>
      let '(ok, reply) := attempts i in
      let! sent := emit ok (ToName stun_addr) b in
      if negb sent then sret None
      else match reply with
           | Some (d, _) =>
               match rmp_from_slice (recv_buf 512 d) with
               | Ok r => sret (Some (observed r))
               | Err _ => stun_loop stun_addr b rounds' attempts
               end
           | None => stun_loop stun_addr b rounds' attempts
           end
  end.

Definition stun_discover (stun_addr : rstring) (pub_key : KeyType) (signing : SigningKey)
    (attempts : nat → stun_attempt) : St Net (option rstring) :=
  let! timestamp := on_world utc_now in
  let verif := vk_bytes (verifying_key signing) in
  let data := arr_data pub_key ++ arr_data verif ++ to_le_bytes timestamp in
  let signature := arr_data (sign_challenge signing data) in
  match rmp_to_vec (mkStunPing pub_key verif timestamp signature) with
  | Err _ => sret None
  | Ok b => stun_loop stun_addr b (seq 0 3) attempts
  end.

(** ** The handshake *)

Definition send_peer_message (ok : bool) (remote_addr : SocketAddr) (payload : P2PMessage)
    (my_pub : PublicKey) (signing : SigningKey) : St Net (result unit P2PError) :=
  let! msg := on_world (peer_message_new payload my_pub signing) in
  match rmp_to_vec msg with
  | Err _ => sret (Err SerializationFailed)
  | Ok b =>
      let! sent := emit ok (ToAddr remote_addr) b in
      sret (if sent then Ok tt else Err CommunicationError)
  end.

(** What both handshakes do with received bytes: the ephemeral key of a
    signed, fresh [Init] from the peer, or nothing. *)
Definition accept_init (remote : PeerPublic) (b : bytes) : St World (option KeyType) :=
  match rmp_from_slice b with
  | Err _ => sret None
  | Ok msg =>
      if negb (peer_message_verify msg (pk_bytes (peer_public remote)) (peer_verifying remote))
      then sret None
      else
        let! now := utc_now in
        if negb (frame_is_fresh (pm_timestamp msg) now) then sret None
        else match pm_payload msg with
             | Init ephermal => sret (Some ephermal)
             | _ => sret None
             end
  end.

Definition session_from (myephermal_priv : StaticSecret) (ephermal : KeyType) :
    result KeyType P2PError :=
  map_err (λ _, P2PCryptographicError) (derive_session_key myephermal_priv (pk_from ephermal)).

Section Direct.
Context (my_pubkey : PublicKey) (myephermal_priv : StaticSecret) (myephermal_pub : KeyType).
Context (remote : PeerPublic) (my_signing : SigningKey) (remote_addr : SocketAddr).

Fixpoint initial_loop (evs : list hs_event) : St Net (option (result KeyType P2PError)) :=
  match evs with
  | [] => sret None
  | Resend ok :: evs' =>
      let! _ := send_peer_message ok remote_addr (Init myephermal_pub) my_pubkey my_signing in
      initial_loop evs'
  | Received None :: evs' => initial_loop evs'
  | Received (Some (d, _)) :: evs' =>
      let! a := on_world (accept_init remote (recv_buf 1024 d)) in
      match a with
      | Some ephermal => sret (Some (session_from myephermal_priv ephermal))
      | None => initial_loop evs'
      end
  | Deadline :: _ => sret (Some (Err P2PTimeout))
  end.

Definition initial_handshake (first_ok : bool) (evs : list hs_event) :
    St Net (option (result KeyType P2PError)) :=
  let! _ := send_peer_message first_ok remote_addr (Init myephermal_pub) my_pubkey my_signing in
  initial_loop evs.

(** The relay variant: frames go through the server; a closed channel ends it. *)
Definition send_init : St Net unit :=
  let! b := on_world (frame (Init myephermal_pub) my_pubkey my_signing) in
  match b with
  | Some b => let! _ := emit true ToRelay b in sret tt
  | None => sret tt
  end.

Fixpoint relay_loop (evs : list relay_event) : St Net (option (result KeyType P2PError)) :=
  match evs with
  | [] => sret None
  | RelayResend :: evs' => let! _ := send_init in relay_loop evs'
  | RelayReceived None :: _ => sret (Some (Err CommunicationError))
  | RelayReceived (Some b) :: evs' =>
      let! a := on_world (accept_init remote b) in
      match a with
      | Some ephermal => sret (Some (session_from myephermal_priv ephermal))
      | None => relay_loop evs'
      end
  | RelayDeadline :: _ => sret (Some (Err P2PTimeout))
  end.

Definition relay_handshake (evs : list relay_event) : St Net (option (result KeyType P2PError)) :=
  let! _ := send_init in relay_loop evs.
End Direct.

(** ** Lemmas *)

(** An accepted [Init]: it parses, verifies, is fresh at a clock reading. *)
Definition authentic_init (remote : PeerPublic) (b : bytes) (ephermal : KeyType) : Prop :=
  ∃ msg i, rmp_from_slice b = Ok msg ∧ pm_payload msg = Init ephermal ∧
    pk_bytes (pm_sender msg) = pk_bytes (peer_public remote) ∧
    peer_message_verify msg (pk_bytes (peer_public remote)) (peer_verifying remote) = true ∧
    frame_is_fresh (pm_timestamp msg) (clock i) = true.

Lemma verify_sender pm x v : peer_message_verify pm x v = true → pk_bytes (pm_sender pm) = x.
Proof. unfold peer_message_verify. case_decide as Hd; [done|]. intros _.
  destruct (decide (pk_bytes (pm_sender pm) = x)); [done|contradiction].
Qed.

Lemma accept_init_authentic remote b w e w' :
  accept_init remote b w = (Some e, w') → authentic_init remote b e.
Proof.
  unfold accept_init. destruct (rmp_from_slice b) as [msg|] eqn:Hm; [|done].
  destruct (peer_message_verify _ _ _) eqn:Hv; [|done]. unfold sbind, utc_now. cbn [negb].
  destruct (frame_is_fresh _ _) eqn:Hf; [|done]. cbn [negb].
  destruct (pm_payload msg) eqn:Hp; try done. intros [= <- _].
  exists msg, (w_clock w). split_and!; try done. by eapply verify_sender.
Qed.

(** Bytes that do not parse, or do not verify, are dropped without effect. *)
Definition junk (remote : PeerPublic) (b : bytes) : Prop :=
  match rmp_from_slice b with
  | Ok msg => peer_message_verify msg (pk_bytes (peer_public remote)) (peer_verifying remote) = false
  | Err _ => True
  end.

Lemma accept_init_junk remote b w : junk remote b → accept_init remote b w = (None, w).
Proof.
  unfold junk, accept_init. destruct (rmp_from_slice b); [|done]. by intros ->.
Qed.

Lemma accept_init_made `{!SigLaws, !RmpLaws PeerMessage} pub sk ts e b w :
  rmp_to_vec (make_message ts (Init e) pub sk) = Ok b →
  frame_is_fresh ts (clock (w_clock w)) = true →
  ∃ w', accept_init (mkPeerPublic pub (verifying_key sk)) b w = (Some e, w').
Proof.
  intros Hb Hf. unfold accept_init. rewrite (rmp_roundtrip _ _ Hb). cbn [peer_public peer_verifying].
  rewrite verify_made. unfold sbind, utc_now. cbn [negb pm_timestamp make_message]. rewrite Hf.
  cbn. eauto.
Qed.

Definition quiet_event (remote : PeerPublic) (ev : hs_event) : Prop :=
  match ev with
  | Resend _ | Received None => True
  | Received (Some (d, _)) => junk remote (recv_buf 1024 d)
  | Deadline => False
  end.

(** The resend ticks among the events; each reads the clock once. *)
Definition resends (evs : list hs_event) : nat :=
  list_sum (map (λ ev, match ev with Resend _ => 1 | _ => 0 end)%nat evs).

Lemma send_peer_message_clock ok addr p pub sk n r n' :
  send_peer_message ok addr p pub sk n = (r, n') → w_clock (n_world n') = S (w_clock (n_world n)).
Proof.
  unfold send_peer_message, on_world, peer_message_new, utc_now, emit. run.
  destruct (rmp_to_vec _) as [b|]; [|by intros [= _ <-]]. by destruct ok; intros [= _ <-].
Qed.

(** Leftover pings and other junk before the [Init] do not matter; only the
    resend ticks read the clock. *)
Lemma initial_loop_skip my_pub priv epub remote sk addr pre evs n :
  Forall (quiet_event remote) pre →
  ∃ n', initial_loop my_pub priv epub remote sk addr (pre ++ evs) n =
        initial_loop my_pub priv epub remote sk addr evs n' ∧
    w_clock (n_world n') = (w_clock (n_world n) + resends pre)%nat.
Proof.
  intros Hpre. revert n. induction Hpre as [|ev pre Hev Hpre IH]; intros n; [exists n; split; [done|cbn; lia]|].
  destruct ev as [ok|[[d a]|]|]; cbn [app initial_loop]; [..|done].
  - unfold sbind at 1. destruct (send_peer_message _ _ _ _ _ n) as [r n1] eqn:Hs.
    apply send_peer_message_clock in Hs. destruct (IH n1) as (n' & Hr & Hc). exists n'. split; [done|].
    rewrite Hc, Hs. change (resends (Resend ok :: pre)) with (S (resends pre)). lia.
  - unfold sbind at 1, on_world. cbn in Hev. rewrite accept_init_junk by done.
    exact (IH (mkNet (n_world n) (n_sent n))).
  - exact (IH n).
Qed.

Definition quiet_relay (remote : PeerPublic) (ev : relay_event) : Prop :=
  match ev with
  | RelayResend => True
  | RelayReceived (Some b) => junk remote b
  | _ => False
  end.

Lemma relay_loop_skip my_pub priv epub remote sk pre evs n :
  Forall (quiet_relay remote) pre →
  ∃ n', relay_loop my_pub priv epub remote sk (pre ++ evs) n =
        relay_loop my_pub priv epub remote sk evs n'.
Proof.
  intros Hpre. revert n. induction Hpre as [|ev pre Hev Hpre IH]; intros n; [by exists n|].
  destruct ev as [|[b|]|]; cbn [app relay_loop]; try done.
  - unfold sbind at 1. destruct (send_init _ _ _ n) as [r n1]. apply IH.
  - unfold sbind at 1, on_world. cbn in Hev. rewrite accept_init_junk by done. apply IH.
Qed.

(** Both sides derive one key from the two ephemeral pairs. *)
Lemma session_from_agree `{!DhLaws, !KeyLaws, !KdfLaws} a b :
  ∃ k, session_from a (pk_bytes (public_of b)) = Ok k ∧ session_from b (pk_bytes (public_of a)) = Ok k.
Proof.
  unfold session_from, derive_session_key. rewrite !pk_from_bytes.
  rewrite (derive_shared_comm b a).
  destruct (derive_shared_total a (public_of b) (label "session")) as [k ->]. by exists k.
Qed.
(** The peer's [Init], whole, fresh at the reading taken when it arrives (one
    reading for the first send, one for each resend) and before the deadline,
    ends the handshake with the key derived from it. *)
Lemma initial_handshake_accepts `{!SigLaws, !RmpLaws PeerMessage} my_pub priv epub pub sk ts e f
    pre post src addr sk' ok n :
  rmp_to_vec (make_message ts (Init e) pub sk) = Ok f → (length f ≤ 1024)%nat →
  frame_is_fresh ts (clock (w_clock (n_world n) + 1 + resends pre)) = true →
  Forall (quiet_event (mkPeerPublic pub (verifying_key sk))) pre →
  (initial_handshake my_pub priv epub (mkPeerPublic pub (verifying_key sk)) sk' addr ok
     (pre ++ Received (Some (f, src)) :: post) n).1 = Some (session_from priv e).
Proof.
  intros Hf Hl Hc Hp. unfold initial_handshake, sbind. destruct (send_peer_message _ _ _ _ _ n) as [r n1] eqn:Hs.
  apply send_peer_message_clock in Hs.
  destruct (initial_loop_skip my_pub priv epub _ sk' addr pre (Received (Some (f, src)) :: post) n1 Hp)
    as (n2 & -> & Hn2).
  cbn [initial_loop]. unfold sbind, on_world, recv_buf. rewrite take_ge by done.
  destruct (accept_init_made pub sk ts e f (n_world n2) Hf) as [w' ->]; [|done].
  by rewrite Hn2, Hs, <- Nat.add_1_r.
Qed.

Lemma relay_handshake_accepts `{!SigLaws, !RmpLaws PeerMessage} my_pub priv epub pub sk ts e f
    pre post sk' n :
  rmp_to_vec (make_message ts (Init e) pub sk) = Ok f →
  (∀ i, frame_is_fresh ts (clock i) = true) →
  Forall (quiet_relay (mkPeerPublic pub (verifying_key sk))) pre →
  (relay_handshake my_pub priv epub (mkPeerPublic pub (verifying_key sk)) sk'
     (pre ++ RelayReceived (Some f) :: post) n).1 = Some (session_from priv e).
Proof.
  intros Hf Hc Hp. unfold relay_handshake, sbind. destruct (send_init _ _ _ n) as [r n1].
  destruct (relay_loop_skip my_pub priv epub _ sk' pre (RelayReceived (Some f) :: post) n1 Hp)
    as [n2 ->].
  cbn [relay_loop]. unfold sbind, on_world.
  by destruct (accept_init_made pub sk ts e f (n_world n2) Hf (Hc _)) as [w' ->].
Qed.
(** STUN only reads the clock. *)
Lemma stun_discover_fs addr pub sk attempts net :
  w_fs (n_world (stun_discover addr pub sk attempts net).2) = w_fs (n_world net) ∧
  w_clock (n_world (stun_discover addr pub sk attempts net).2) = S (w_clock (n_world net)).
Proof.
  assert (Hloop : ∀ b rounds net0, n_world (stun_loop addr b rounds attempts net0).2 = n_world net0).
  { intros b rounds. induction rounds as [|i rounds IH]; intros net0; [done|]. cbn [stun_loop].
    destruct (attempts i) as [[] [[dg ?]|]]; unfold sbind, emit; cbn [negb]; try done.
    - destruct (rmp_from_slice _); [done|]. by rewrite IH.
    - by rewrite IH. }
  unfold stun_discover, sbind, on_world. cbn [utc_now n_world]. destruct (rmp_to_vec _); [|done]. by rewrite Hloop.
Qed.
End Handshake.

Section HandshakeTheorems.
Context `{Prim : Primitives} `{EnvI : !Env} `{SledI : Sled}.
Context `{PmRmp : !Rmp PeerMessage} `{PingRmp : !Rmp Ping}.
Context `{StunRmp : !Rmp StunPing} `{ReplyRmp : !Rmp StunReply}.

(** C6: A direct handshake only yields a key from the authentic peer: if it
    returns a session key, then one of the received datagrams was an [Init]
    that parses, carries the peer's x25519 key, verifies under the peer's
    verifying key over sender, timestamp and ephemeral key, is within the
    freshness window, and the key is derived from that ephemeral. *)
Theorem handshake_authentic my_pub priv epub remote sk addr ok evs n k n' :
  initial_handshake my_pub priv epub remote sk addr ok evs n = (Some (Ok k), n') →
  ∃ d src e, Received (Some (d, src)) ∈ evs ∧ authentic_init remote (recv_buf 1024 d) e ∧
    derive_session_key priv (pk_from e) = Ok k.
Proof.
  unfold initial_handshake, sbind. destruct (send_peer_message _ _ _ _ _ n) as [r n1].
  revert n1. induction evs as [|ev evs IH]; intros n1; cbn [initial_loop]; [done|].
  assert (Hlift : ∀ n2, initial_loop my_pub priv epub remote sk addr evs n2 = (Some (Ok k), n') →
    ∃ d src e, Received (Some (d, src)) ∈ ev :: evs ∧ authentic_init remote (recv_buf 1024 d) e ∧
      derive_session_key priv (pk_from e) = Ok k).
  { intros n2 Hn2. destruct (IH n2 Hn2) as (d & src & e & Hin & ?). exists d, src, e.
    split; [by apply list_elem_of_further|done]. }
  destruct ev as [ok'|[[d src]|]|]; [| |by apply Hlift|done].
  - unfold sbind. destruct (send_peer_message _ _ _ _ _ n1) as [r2 n2]. apply Hlift.
  - unfold sbind, on_world. destruct (accept_init _ _ _) as [[e|] w'] eqn:Ha; [|apply Hlift].
    intros [= Hk _]. exists d, src, e. split_and!; [apply list_elem_of_here|by eapply accept_init_authentic|].
    unfold session_from in Hk. by destruct (derive_session_key priv (pk_from e)); simplify_eq/=.
Qed.

Lemma initial_loop_sent my_pub priv epub remote sk addr evs n :
  n_sent n `prefix_of` n_sent (initial_loop my_pub priv epub remote sk addr evs n).2.
Proof.
  revert n. induction evs as [|ev evs IH]; intros n; cbn [initial_loop]; [done|].
  destruct ev as [ok|[[d src]|]|]; [..|done]; try apply IH.
  - unfold sbind at 1. destruct (send_peer_message _ _ _ _ _ n) as [r n1] eqn:Hs.
    etrans; [|apply IH]. revert Hs. unfold send_peer_message, sbind, on_world, emit.
    destruct (peer_message_new _ _ _ _) as [msg w]. destruct (rmp_to_vec msg); cbn; [|by intros [= _ <-]].
    destruct ok; intros [= _ <-]; cbn; [|done]. by exists [(ToAddr addr, a)].
  - unfold sbind, on_world. destruct (accept_init _ _ _) as [[e|] w']; cbn; [done|].
    apply (IH (mkNet w' (n_sent n))).
Qed.

(** A direct handshake always announces itself first and always ends:
    when its first send works, the first frame it emits is its own signed
    [Init], before any event is looked at; and once the deadline branch fires,
    whatever happened before, the handshake has returned. *)
Theorem handshake_progress my_pub priv epub remote sk addr evs evs' w b :
  rmp_to_vec (make_message (clock (w_clock w)) (Init epub) my_pub sk) = Ok b →
  ∃ r n', initial_handshake my_pub priv epub remote sk addr true (evs ++ Deadline :: evs') (mkNet w []) =
            (Some r, n') ∧ head (n_sent n') = Some (ToAddr addr, b).
Proof.
  intros Hb. unfold initial_handshake, sbind, send_peer_message, sbind, on_world, peer_message_new,
    sbind, utc_now, sret. cbn [n_world]. rewrite Hb. unfold emit. cbn [n_world n_sent app].
  match goal with |- context [initial_loop _ _ _ _ _ _ _ ?n] => set (n1 := n) end.
  assert (Hr : ∀ n, ∃ r, (initial_loop my_pub priv epub remote sk addr (evs ++ Deadline :: evs') n).1 = Some r).
  { induction evs as [|ev evs IH]; intros n; [eexists; reflexivity|]. cbn [app initial_loop].
    destruct ev as [ok|[[d src]|]|]; [| |apply IH|eexists; reflexivity].
    - unfold sbind. destruct (send_peer_message _ _ _ _ _ n) as [r2 n2]. apply IH.
    - unfold sbind, on_world. destruct (accept_init _ _ _) as [[e|] w'];
        [eexists; reflexivity|apply (IH (mkNet w' (n_sent n)))]. }
  destruct (Hr n1) as [r Hres].
  pose proof (initial_loop_sent my_pub priv epub remote sk addr (evs ++ Deadline :: evs') n1) as [l Hl].
  destruct (initial_loop _ _ _ _ _ _ _ n1) as [res n']. cbn in Hres, Hl. subst res.
  exists r, n'. split; [done|]. by rewrite Hl.
Qed.

(** The signed bytes carry no tag for the kind of payload: the signature
    of a chat frame with a 24-byte ciphertext (an 8-byte text) also makes the
    frame in which those bytes are read as an [Init], and a handshake accepts
    that frame as the peer's, with an ephemeral key nobody generated. *)
Theorem chat_signature_accepted_as_init `{!SigLaws, !RmpLaws PeerMessage} pub sk ts counter ct e b w :
  try_into 32 (to_le_bytes counter ++ ct) = Some e →
  rmp_to_vec (mkPeerMessage ts (Init e) pub
    (pm_signature (make_message ts (ChatMessage counter ct) pub sk))) = Ok b →
  (∀ i, frame_is_fresh ts (clock i) = true) →
  (accept_init (mkPeerPublic pub (verifying_key sk)) b w).1 = Some e.
Proof.
  intros He Hb Hc.
  assert (Hp : payload_bytes (Init e) = payload_bytes (ChatMessage counter ct)).
  { cbn. by apply try_into_Some in He. }
  assert (Hm : mkPeerMessage ts (Init e) pub (pm_signature (make_message ts (ChatMessage counter ct) pub sk))
    = make_message ts (Init e) pub sk).
  { unfold make_message, data_to_sign. cbn [pm_signature]. by rewrite Hp. }
  rewrite Hm in Hb. by destruct (accept_init_made pub sk ts e b w Hb (Hc _)) as [w' ->].
Qed.

(** Hole punching returns the address of the peer only: a success names the
    source of a datagram that decodes to a [Ping] with the expected public key
    and the brokered timestamp. *)
Theorem punch_hole_matches timestamp my_pub remote_pub remote_addr evs n addr n' :
  punch_hole timestamp my_pub remote_pub remote_addr evs n = (Some (Ok addr), n') →
  ∃ d, PunchRecv (Some (d, addr)) ∈ evs ∧
    rmp_from_slice (recv_buf 1024 d) = Ok (mkPing (pk_bytes remote_pub) timestamp).
Proof.
  unfold punch_hole. destruct (rmp_to_vec _) as [data|]; [|done]. revert n.
  induction evs as [|ev evs IH]; intros n; cbn [punch_loop]; [done|].
  assert (Hlift : ∀ n2, punch_loop timestamp (pk_bytes remote_pub) remote_addr data evs n2 = (Some (Ok addr), n') →
    ∃ d, PunchRecv (Some (d, addr)) ∈ ev :: evs ∧
      rmp_from_slice (recv_buf 1024 d) = Ok (mkPing (pk_bytes remote_pub) timestamp)).
  { intros n2 Hn2. destruct (IH n2 Hn2) as (d & ? & ?). exists d. split; [by apply list_elem_of_further|done]. }
  destruct ev as [ok|[[d src]|]|]; try done.
  - unfold sbind. destruct (emit _ _ _ n) as [r n2]. apply Hlift.
  - destruct (rmp_from_slice (recv_buf 1024 d)) as [p|] eqn:Hp; [|apply Hlift].
    case_decide as Hd; [|apply Hlift]. intros [= <- _]. exists d. split; [apply list_elem_of_here|].
    rewrite Hp. destruct p; cbn in *. by destruct Hd as [-> ->].
Qed.
End HandshakeTheorems.

Section HandshakeAgreement.
Context `{Prim : Primitives} (EA EB : Env) `{SledI : Sled} `{PmRmp : !Rmp PeerMessage}.
Context (pubA pubB : PublicKey) (skA skB : SigningKey) (ephA ephB : StaticSecret).

Let viewA : PeerPublic := mkPeerPublic pubA (verifying_key skA).
Let viewB : PeerPublic := mkPeerPublic pubB (verifying_key skB).
Let initA : P2PMessage := Init (pk_bytes (public_of ephA)).
Let initB : P2PMessage := Init (pk_bytes (public_of ephB)).

(** C5: Two peers that exchange their [Init] frames over UDP derive the same
    session key: each may first see any number of leftover pings, forged or
    malformed datagrams, receive errors and resend ticks; as long as the
    other's frame arrives whole, before the deadline and within the freshness
    window of the local clock, both handshakes return the same key. *)
Theorem handshake_agreement `{!SigLaws, !DhLaws, !KeyLaws, !KdfLaws, !RmpLaws PeerMessage}
    tsA tsB frameA frameB preA preB postA postB addrA addrB srcA srcB okA okB nA nB :
  rmp_to_vec (make_message tsA initA pubA skA) = Ok frameA → (length frameA ≤ 1024)%nat →
  rmp_to_vec (make_message tsB initB pubB skB) = Ok frameB → (length frameB ≤ 1024)%nat →
  (∀ i, frame_is_fresh tsB (@clock _ EA i) = true) →
  (∀ i, frame_is_fresh tsA (@clock _ EB i) = true) →
  Forall (quiet_event viewB) preA → Forall (quiet_event viewA) preB →
  ∃ k,
    (@initial_handshake _ EA _ _ pubA ephA (pk_bytes (public_of ephA)) viewB skA addrB okA
       (preA ++ Received (Some (frameB, srcB)) :: postA) nA).1 = Some (Ok k) ∧
    (@initial_handshake _ EB _ _ pubB ephB (pk_bytes (public_of ephB)) viewA skB addrA okB
       (preB ++ Received (Some (frameA, srcA)) :: postB) nB).1 = Some (Ok k).
Proof.
  intros HfA HlA HfB HlB HcA HcB HpA HpB.
  destruct (session_from_agree ephA ephB) as (k & Hk1 & Hk2). exists k. unfold viewA, viewB. split.
  - erewrite (@initial_handshake_accepts _ EA); eauto. by rewrite Hk1.
  - erewrite (@initial_handshake_accepts _ EB); eauto. by rewrite Hk2.
Qed.

(** The relay handshake agrees too: two peers that exchange their [Init]
    frames through the relay channels derive the same session key, whatever
    junk and resend ticks precede the frame. *)
Theorem relay_handshake_agreement `{!SigLaws, !DhLaws, !KeyLaws, !KdfLaws, !RmpLaws PeerMessage}
    tsA tsB frameA frameB preA preB postA postB nA nB :
  rmp_to_vec (make_message tsA initA pubA skA) = Ok frameA →
  rmp_to_vec (make_message tsB initB pubB skB) = Ok frameB →
  (∀ i, frame_is_fresh tsB (@clock _ EA i) = true) →
  (∀ i, frame_is_fresh tsA (@clock _ EB i) = true) →
  Forall (quiet_relay viewB) preA → Forall (quiet_relay viewA) preB →
  ∃ k,
    (@relay_handshake _ EA _ _ pubA ephA (pk_bytes (public_of ephA)) viewB skA
       (preA ++ RelayReceived (Some frameB) :: postA) nA).1 = Some (Ok k) ∧
    (@relay_handshake _ EB _ _ pubB ephB (pk_bytes (public_of ephB)) viewA skB
       (preB ++ RelayReceived (Some frameA) :: postB) nB).1 = Some (Ok k).
Proof.
  intros HfA HfB HcA HcB HpA HpB.
  destruct (session_from_agree ephA ephB) as (k & Hk1 & Hk2). exists k. unfold viewA, viewB. split.
  - erewrite (@relay_handshake_accepts _ EA); eauto. by rewrite Hk1.
  - erewrite (@relay_handshake_accepts _ EB); eauto. by rewrite Hk2.
Qed.
End HandshakeAgreement.

Module HandshakeWitness.
#[local] Existing Instances toy_prims toy_env list_sled.
#[local] Existing Instances WireWitness.toy_rmp_pm WireWitness.toy_rmp_ping.
Definition ephA : KeyType := pad_array 32 [x01].
Definition ephB : KeyType := pad_array 32 [x02; x09].
Definition pubA : KeyType := pad_array 32 [x03].
Definition pubB : KeyType := pad_array 32 [x04].
Definition skA : KeyType := pad_array 32 [x05].
Definition skB : KeyType := pad_array 32 [x06].
Definition init_frame (eph pub sk : KeyType) : bytes :=
  enc (Codec := WireWitness.pm_codec) (make_message 1000050 (Init (pk_bytes (public_of eph))) pub sk).
Definition here : SocketAddr := mkAddr (str "10.0.0.1") 4000.
Definition there : SocketAddr := mkAddr (str "10.0.0.2") 4000.
Definition net0 : Net := mkNet (mkWorld ∅ 0 0 0) [].
Definition laws := WireWitness.toy_rmp_pm_laws.

Lemma toy_fresh i : frame_is_fresh 1000050 (clock i) = true.
Proof.
  pose proof (Z.mod_pos_bound (Z.of_nat i) 100 ltac:(lia)) as Hm.
  apply freshness_core; cbn -[Z.modulo]; [lia|vm_compute; done|left; unfold MAX_FRAME_AGE_SECS; lia].
Qed.

Lemma handshake_agreement_witness :
  ∃ k,
    (initial_handshake pubA ephA (pk_bytes (public_of ephA)) (mkPeerPublic pubB (verifying_key skB)) skA there
       true ([Received (Some ([x00], there)); Resend true] ++
             Received (Some (init_frame ephB pubB skB, there)) :: []) net0).1 = Some (Ok k) ∧
    (initial_handshake pubB ephB (pk_bytes (public_of ephB)) (mkPeerPublic pubA (verifying_key skA)) skB here
       true ([] ++ Received (Some (init_frame ephA pubA skA, here)) :: [Deadline]) net0).1 = Some (Ok k).
Proof.
  apply (@handshake_agreement toy_prims toy_env toy_env list_sled _ pubA pubB skA skB ephA ephB
    toy_sig_laws toy_dh_laws toy_key_laws toy_kdf_laws laws 1000050 1000050
    (init_frame ephA pubA skA) (init_frame ephB pubB skB));
    [reflexivity|vm_compute; lia|reflexivity|vm_compute; lia|apply toy_fresh|apply toy_fresh| |constructor].
  repeat constructor.
Defined.

Lemma relay_handshake_agreement_witness :
  ∃ k,
    (relay_handshake pubA ephA (pk_bytes (public_of ephA)) (mkPeerPublic pubB (verifying_key skB)) skA
       ([RelayReceived (Some [x00]); RelayResend] ++ RelayReceived (Some (init_frame ephB pubB skB)) :: [])
       net0).1 = Some (Ok k) ∧
    (relay_handshake pubB ephB (pk_bytes (public_of ephB)) (mkPeerPublic pubA (verifying_key skA)) skB
       ([] ++ RelayReceived (Some (init_frame ephA pubA skA)) :: [RelayDeadline]) net0).1 = Some (Ok k).
Proof.
  apply (@relay_handshake_agreement toy_prims toy_env toy_env list_sled _ pubA pubB skA skB ephA ephB
    toy_sig_laws toy_dh_laws toy_key_laws toy_kdf_laws laws 1000050 1000050
    (init_frame ephA pubA skA) (init_frame ephB pubB skB));
    [reflexivity|reflexivity|apply toy_fresh|apply toy_fresh| |constructor].
  repeat constructor.
Defined.

Definition evs1 : list hs_event :=
  [Resend true] ++ Received (Some (init_frame ephB pubB skB, there)) :: [].
Definition run1 := initial_handshake pubA ephA (pk_bytes (public_of ephA))
  (mkPeerPublic pubB (verifying_key skB)) skA there true evs1 net0.

Lemma run1_ok : ∃ k n', run1 = (Some (Ok k), n').
Proof.
  destruct (@session_from_agree toy_prims toy_dh_laws toy_key_laws toy_kdf_laws ephA ephB) as (k & Hk & _).
  exists k, run1.2. rewrite (surjective_pairing run1). f_equal. unfold run1, evs1.
  erewrite (@initial_handshake_accepts toy_prims toy_env list_sled _ toy_sig_laws laws);
    [by rewrite Hk|reflexivity|vm_compute; lia|apply toy_fresh|repeat constructor].
Qed.

Lemma handshake_authentic_witness :
  ∃ k d src e, Received (Some (d, src)) ∈ evs1 ∧
    authentic_init (mkPeerPublic pubB (verifying_key skB)) (recv_buf 1024 d) e ∧
    derive_session_key ephA (pk_from e) = Ok k.
Proof.
  destruct run1_ok as (k & n' & Hrun). exists k.
  exact (handshake_authentic _ _ _ _ _ _ _ _ _ _ _ Hrun).
Defined.

Lemma handshake_progress_witness :
  ∃ r n', initial_handshake pubA ephA ephA (mkPeerPublic pubB skB) skA there true
      ([Received None] ++ Deadline :: []) net0 = (Some r, n') ∧
    head (n_sent n') =
      Some (ToAddr there, enc (Codec := WireWitness.pm_codec) (make_message 1000000 (Init ephA) pubA skA)).
Proof. apply handshake_progress. reflexivity. Defined.

Definition chat_ct : bytes := arr_data (pad_array 24 [x11; x22]).
Definition forged : bytes := enc (Codec := WireWitness.pm_codec)
  (mkPeerMessage 1000050 (Init (pad_array 32 (to_le_bytes 1 ++ chat_ct))) pubB
    (pm_signature (make_message 1000050 (ChatMessage 1 chat_ct) pubB skB))).
Lemma chat_signature_accepted_as_init_witness :
  (accept_init (mkPeerPublic pubB (verifying_key skB)) forged (n_world net0)).1 =
  Some (pad_array 32 (to_le_bytes 1 ++ chat_ct)).
Proof.
  apply (@chat_signature_accepted_as_init toy_prims toy_env list_sled _ toy_sig_laws laws
    pubB skB 1000050 1 chat_ct); [apply try_into_Some; vm_compute; reflexivity|reflexivity|apply toy_fresh].
Defined.

Definition evs2 : list punch_event := [PunchTick true; PunchRecv (Some ([x00], here));
  PunchRecv (Some (enc (Codec := retract_codec WireWitness.ping_to WireWitness.ping_of WireWitness.ping_of_to)
    (mkPing pubB 7), there))].
Definition run2 : option (result SocketAddr PunchHoleResult) * Net :=
  punch_hole 7 (pubA : PublicKey) (pubB : PublicKey) (str "10.0.0.2:4000") evs2 net0.
Lemma punch_hole_matches_witness :
  ∃ d, PunchRecv (Some (d, there)) ∈ evs2 ∧
    rmp_from_slice (recv_buf 1024 d) = Ok (mkPing (pk_bytes pubB) 7).
Proof.
  assert (Hr : run2 = (Some (Ok there), run2.2)).
  { rewrite (surjective_pairing run2) at 1. by f_equal. }
  exact (punch_hole_matches _ _ _ _ _ _ _ _ Hr).
Defined.
End HandshakeWitness.
