(* ===== verification/Session.v ===== *)
(** * Chat sessions

    [start_session], [handle_inbound_frame], the reader and writer tasks of
    the two transports, of src/crates/p2p/src/lib.rs.  A task is a function of
    the list of events its loop sees, in order; [Waiting] means that the loop
    is still running after them.  A channel of unbounded patience stands for
    the bounded [mpsc] queues: a full queue only delays the task. *)

From Stdlib Require Import Strings.Byte Sorting.Sorted.
From S2P Require Import Prelude Bytes Text Primitives Instances World Crypto Wire Handshake.

Local Open Scope Z_scope.

Inductive SessionEvent :=
| SessionMessage (text : rstring) (timestamp : Z)
| Closed.

Definition HEARTBEAT_SECS : Z := 15.
Definition SESSION_IDLE_TIMEOUT_SECS : Z := 45.

Inductive Transport := Direct (remote : SocketAddr) | Relay.

Inductive task := Waiting | Panicked | Finished.

(** What one [timeout(.., recv)] yields: something received, or the end (the
    idle timeout, a receive error, a closed channel).  [evt_ok] tells whether
    the receiver of the session events is alive by then. *)
Inductive read_event (A : Type) :=
| ReadOk (a : A) (evt_ok : bool)
| ReadStop (evt_ok : bool).
Arguments ReadOk {A}.
Arguments ReadStop {A}.

(** What a reader receives: datagrams with their source, or relayed bytes. *)
Definition input (tr : Transport) : Type :=
  match tr with Direct _ => bytes * SocketAddr | Relay => bytes end.

(** The branches of the writer's [select!]; [ok] is the outcome of its send. *)
Inductive write_event :=
| Outgoing (text : option rstring) (ok : bool)
| HeartbeatTick (ok : bool).

Record Reader `{Sled} := mkReader {
  r_world : World;
  r_last : Z;
  r_events : list SessionEvent
}.
Arguments mkReader {_}.

Section Session.
Context `{Prim : Primitives} `{EnvI : !Env} `{SledI : Sled} `{PmRmp : !Rmp PeerMessage}.

(** ** Receiving *)

Section Receive.
Context (recv_key : Key) (peer_x : KeyType) (verifying : VerifyingKey).

Definition reader_now : St Reader Z :=
  λ s, let '(now, w) := utc_now (r_world s) in (now, mkReader w (r_last s) (r_events s)).
Definition set_last (counter : Z) : St Reader unit :=
  smodify (λ s, mkReader (r_world s) counter (r_events s)).
(** [evt.send(e).await]: whether the receiver is alive. *)
Definition send_event (evt_ok : bool) (e : SessionEvent) : St Reader bool :=
  λ s, (evt_ok, if evt_ok then mkReader (r_world s) (r_last s) (r_events s ++ [e]) else s).

(** [None]: the task panicked. *)
Definition handle_inbound_frame (b : bytes) (evt_ok : bool) : St Reader (option bool) :=
  match rmp_from_slice b with
  | Err _ => sret (Some true)
  | Ok pm =>
      if negb (peer_message_verify pm peer_x verifying) then sret (Some true)
      else
        let! now := reader_now in
        if negb (frame_is_fresh (pm_timestamp pm) now) then sret (Some true)
        else match pm_payload pm with
             | ChatMessage counter message_bytes =>
                 let! s := sget in
                 if counter <=? r_last s then sret (Some true)
                 else match decrypt_message_from_chat message_bytes recv_key (as_u64 counter) with
                      | None => sret None
                      | Some (Err _) => sret (Some true)
                      | Some (Ok text) =>
                          let! _ := set_last counter in
                          let! sent := send_event evt_ok (SessionMessage text (pm_timestamp pm)) in
                          sret (Some sent)
                      end
             | EndMsg => sret (Some false)
             | _ => sret (Some true)
             end
  end.

(** The end of a reader task. *)
Definition close_reader (evt_ok : bool) : St Reader task :=
  let! _ := send_event evt_ok Closed in sret Finished.

Fixpoint direct_reader (remote : SocketAddr) (evs : list (read_event (bytes * SocketAddr))) :
    St Reader task :=
  match evs with
  | [] => sret Waiting
  | ReadStop evt_ok :: _ => close_reader evt_ok
  | ReadOk (d, addr) evt_ok :: evs' =>
      if decide (addr ≠ remote) then direct_reader remote evs'
      else
        let! r := handle_inbound_frame (recv_buf 2048 d) evt_ok in
        match r with
        | None => sret Panicked
        | Some false => close_reader evt_ok
        | Some true => direct_reader remote evs'
        end
  end.

Fixpoint relay_reader (evs : list (read_event bytes)) : St Reader task :=
  match evs with
  | [] => sret Waiting
  | ReadStop evt_ok :: _ => close_reader evt_ok
  | ReadOk b evt_ok :: evs' =>
      let! r := handle_inbound_frame b evt_ok in
      match r with
      | None => sret Panicked
      | Some false => close_reader evt_ok
      | Some true => relay_reader evs'
      end
  end.

Definition session_reader (tr : Transport) : list (read_event (input tr)) → St Reader task :=
  match tr with
  | Direct remote => direct_reader remote
  | Relay => relay_reader
  end.
End Receive.

(** ** Sending *)

Section Send.
Context (send_key : Key) (my_pub : PublicKey) (my_signing : SigningKey).

Fixpoint direct_writer (remote : SocketAddr) (counter : Z) (evs : list write_event) : St Net task :=
  match evs with
  | [] => sret Waiting
  | Outgoing (Some text) ok :: evs' =>
      let counter := wrap_i64 (counter + 1) in
      match encrypt_message_for_chat text send_key (as_u64 counter) with
      | None => sret Panicked
      | Some cipher =>
          let! r := send_peer_message ok remote (ChatMessage counter cipher) my_pub my_signing in
          match r with
          | Err _ => sret Finished
          | Ok _ => direct_writer remote counter evs'
          end
      end
  | Outgoing None ok :: _ =>
      let! _ := send_peer_message ok remote EndMsg my_pub my_signing in sret Finished
  | HeartbeatTick ok :: evs' =>
      let! r := send_peer_message ok remote HeartBeat my_pub my_signing in
      match r with
      | Err _ => sret Finished
      | Ok _ => direct_writer remote counter evs'
      end
  end.

(** [if let Some(bytes) = frame(..) { if out.send(bytes).is_err() { break; } }]:
    whether to go on. *)
Definition relay_send (ok : bool) (payload : P2PMessage) : St Net bool :=
  let! b := on_world (frame payload my_pub my_signing) in
  match b with
  | Some b => emit ok ToRelay b
  | None => sret true
  end.

Fixpoint relay_writer (counter : Z) (evs : list write_event) : St Net task :=
  match evs with
  | [] => sret Waiting
  | Outgoing (Some text) ok :: evs' =>
      let counter := wrap_i64 (counter + 1) in
      match encrypt_message_for_chat text send_key (as_u64 counter) with
      | None => sret Panicked
      | Some cipher =>
          let! go := relay_send ok (ChatMessage counter cipher) in
          if go then relay_writer counter evs' else sret Finished
      end
  | Outgoing None ok :: _ =>
      let! _ := relay_send ok EndMsg in sret Finished
  | HeartbeatTick ok :: evs' =>
      let! go := relay_send ok HeartBeat in
      if go then relay_writer counter evs' else sret Finished
  end.

Definition session_writer (tr : Transport) : list write_event → St Net task :=
  match tr with
  | Direct remote => direct_writer remote 0
  | Relay => relay_writer 0
  end.
End Send.

(** ** The session *)

Definition session_labels (am_first : bool) : bytes * bytes :=
  if am_first then (label "a2b", label "b2a") else (label "b2a", label "a2b").

(** The send and receive keys; [None] is the panic of [expand(..).expect]. *)
Definition session_keys (session_key : KeyType) (am_first : bool) : option (Key * Key) :=
  let '(send_label, recv_label) := session_labels am_first in
  send_key ← derive_directional_key session_key send_label;
  recv_key ← derive_directional_key session_key recv_label;
  Some (send_key, recv_key).

(** The two spawned tasks behind a [SessionHandle]. *)
Record SessionHandle (tr : Transport) := mkSession {
  sh_reader : list (read_event (input tr)) → St Reader task;
  sh_writer : list write_event → St Net task
}.

Definition start_session (tr : Transport) (session_key : KeyType) (my_pub : PublicKey)
    (my_signing : SigningKey) (peer : PeerPublic) (am_first : bool) : option (SessionHandle tr) :=
  '(send_key, recv_key) ← session_keys session_key am_first;
  Some (mkSession tr
    (session_reader recv_key (pk_bytes (peer_public peer)) (peer_verifying peer) tr)
    (session_writer send_key my_pub my_signing tr)).

(** The reader's state when the task is spawned. *)
Definition reader0 (w : World) : Reader := mkReader w (-1) [].

(** ** Lemmas *)

Lemma session_keys_cross_core `{!KdfLaws} k b :
  ∃ ka kb, session_keys k b = Some (ka, kb) ∧ session_keys k (negb b) = Some (kb, ka) ∧
    derive_directional_key k (session_labels b).1 = Some ka ∧
    derive_directional_key k (session_labels b).2 = Some kb.
Proof.
  unfold session_keys, derive_directional_key.
  destruct (hkdf_total (arr_data k) (label "a2b") 32 ltac:(done)) as [k1 H1].
  destruct (hkdf_total (arr_data k) (label "b2a") 32 ltac:(done)) as [k2 H2].
  destruct b; cbn [negb session_labels fst snd]; rewrite H1, H2; eauto 10.
Qed.

(** The texts handed to a writer. *)
Definition out_texts (evs : list write_event) : list rstring :=
  omap (λ e, match e with Outgoing t _ => t | HeartbeatTick _ => None end) evs.

Definition chat_counter (m : PeerMessage) : option Z :=
  match pm_payload m with ChatMessage c _ => Some c | _ => None end.

Section WriterLog.
Context (send_key : Key) (my_pub : PublicKey) (my_signing : SigningKey).

(** A frame of this writer; a chat frame with counter [c] carries text number
    [c - c0] of those still to be sent, encrypted under [c]. *)
Definition sealed (c0 : Z) (texts : list rstring) (m : PeerMessage) : Prop :=
  (∃ ts p, m = make_message ts p my_pub my_signing) ∧
  match pm_payload m with
  | ChatMessage c ct => c0 < c ∧ ∃ t, texts !! Z.to_nat (c - c0 - 1) = Some t ∧
      encrypt_message_for_chat t send_key (as_u64 c) = Some ct
  | _ => True
  end.

(** What a writer run adds to the frames sent. *)
Definition writer_log (c0 : Z) (texts : list rstring) (n n' : Net) : Prop :=
  ∃ ms fs, n_sent n' = n_sent n ++ fs ∧ Forall2 (λ m f, rmp_to_vec m = Ok f.2) ms fs ∧
    Forall (sealed c0 texts) ms ∧ StronglySorted Z.lt (omap chat_counter ms).

(** One send: nothing, or the frame of the payload. *)
Definition sent_one (p : P2PMessage) (n n' : Net) : Prop :=
  n_sent n' = n_sent n ∨
  ∃ ts to b, rmp_to_vec (make_message ts p my_pub my_signing) = Ok b ∧
    n_sent n' = n_sent n ++ [(to, b)].

Lemma send_peer_message_sent ok remote p n r n' :
  send_peer_message ok remote p my_pub my_signing n = (r, n') → sent_one p n n'.
Proof.
  unfold send_peer_message, on_world, peer_message_new, utc_now, emit. run.
  destruct (rmp_to_vec _) as [b|] eqn:Hb; [|intros [= _ <-]; by left].
  destruct ok; intros [= _ <-]; [|by left]. right. eexists _, _, b. split; [exact Hb|done].
Qed.

Lemma relay_send_sent ok p n r n' : relay_send my_pub my_signing ok p n = (r, n') → sent_one p n n'.
Proof.
  unfold relay_send, frame, on_world, peer_message_new, utc_now, emit. run.
  destruct (rmp_to_vec _) as [b|] eqn:Hb; cbn; [|intros [= _ <-]; by left].
  destruct ok; intros [= _ <-]; [|by left]. right. eexists _, _, b. split; [exact Hb|done].
Qed.

Lemma writer_log_nil c0 texts n n' : n_sent n' = n_sent n → writer_log c0 texts n n'.
Proof. intros Hn. exists [], []. rewrite app_nil_r. repeat constructor. done. Qed.

Lemma writer_log_control c0 texts p n n1 n2 :
  chat_counter (make_message 0 p my_pub my_signing) = None → sent_one p n n1 →
  writer_log c0 texts n1 n2 → writer_log c0 texts n n2.
Proof.
  intros Hp [H1|(ts & to & b & Hb & H1)] (ms & fs & Hs & Hms & Hok & Hst).
  { exists ms, fs. by rewrite <- H1. }
  exists (make_message ts p my_pub my_signing :: ms), ((to, b) :: fs). rewrite Hs, H1, <- app_assoc.
  split_and!; [done|by constructor| |].
  - constructor; [|done]. split; [eauto|]. destruct p; try done.
  - destruct p; try done.
Qed.

Lemma sealed_cons c0 t texts m : sealed (c0 + 1) texts m → sealed c0 (t :: texts) m.
Proof.
  intros [Ha Hm]. split; [done|]. destruct (pm_payload m); try done.
  destruct Hm as (Hc & t' & Ht & He). split; [lia|]. exists t'. split; [|done].
  replace (Z.to_nat (counter - c0 - 1)) with (S (Z.to_nat (counter - (c0 + 1) - 1))) by lia. done.
Qed.

Lemma sealed_counters c0 texts ms :
  Forall (sealed c0 texts) ms → Forall (λ c, c0 < c) (omap chat_counter ms).
Proof.
  induction 1 as [|m ms [_ Hm] Hms IH]; [constructor|]. unfold omap in *. simpl. unfold chat_counter at 1.
  destruct (pm_payload m); try done. constructor; [apply Hm|done].
Qed.

Lemma writer_log_chat c0 t ct texts n n1 n2 :
  encrypt_message_for_chat t send_key (as_u64 (c0 + 1)) = Some ct →
  sent_one (ChatMessage (c0 + 1) ct) n n1 →
  writer_log (c0 + 1) texts n1 n2 → writer_log c0 (t :: texts) n n2.
Proof.
  intros He H1 (ms & fs & Hs & Hms & Hok & Hst).
  assert (Hok' : Forall (sealed c0 (t :: texts)) ms).
  { eapply Forall_impl; [exact Hok|]. intros m. apply sealed_cons. }
  destruct H1 as [H1|(ts & to & b & Hb & H1)].
  { exists ms, fs. by rewrite <- H1. }
  exists (make_message ts (ChatMessage (c0 + 1) ct) my_pub my_signing :: ms), ((to, b) :: fs).
  rewrite Hs, H1, <- app_assoc. split_and!; [done|by constructor| |].
  - constructor; [|done]. split; [eauto|]. cbn [make_message pm_payload]. split; [lia|].
    exists t. replace (Z.to_nat (c0 + 1 - c0 - 1)) with 0%nat by lia. done.
  - change (StronglySorted Z.lt ((c0 + 1) :: omap chat_counter ms)).
    constructor; [done|]. by eapply sealed_counters.
Qed.

Lemma direct_writer_log remote c0 evs n t n' :
  0 ≤ c0 → c0 + Z.of_nat (length evs) < two63 →
  direct_writer send_key my_pub my_signing remote c0 evs n = (t, n') →
  writer_log c0 (out_texts evs) n n'.
Proof.
  revert c0 n. induction evs as [|ev evs IH]; intros c0 n Hc Hlen; cbn [direct_writer length].
  { intros [= _ <-]. by apply writer_log_nil. }
  cbn [length] in Hlen. destruct ev as [[text|] ok|ok].
  - rewrite wrap_i64_id by (unfold i64_ok; assert (0 < two63) by done; lia).
    destruct (encrypt_message_for_chat _ _ _) as [ct|] eqn:He; [|intros [= _ <-]; by apply writer_log_nil].
    unfold sbind. destruct (send_peer_message _ _ _ _ _ n) as [r n1] eqn:Hs.
    apply send_peer_message_sent in Hs. destruct r as [|e]; intros Hr; eapply writer_log_chat; eauto.
    + eapply IH; eauto; lia.
    + injection Hr as _ <-. by apply writer_log_nil.
  - unfold sbind. destruct (send_peer_message _ _ _ _ _ n) as [r n1] eqn:Hs. intros [= _ <-].
    apply send_peer_message_sent in Hs. eapply writer_log_control; [|exact Hs|by apply writer_log_nil]; done.
  - unfold sbind. destruct (send_peer_message _ _ _ _ _ n) as [r n1] eqn:Hs.
    apply send_peer_message_sent in Hs. destruct r as [|e]; intros Hr;
      (eapply writer_log_control; [|exact Hs|]; [done|]).
    + eapply IH; eauto; lia.
    + injection Hr as _ <-. by apply writer_log_nil.
Qed.

Lemma relay_writer_log c0 evs n t n' :
  0 ≤ c0 → c0 + Z.of_nat (length evs) < two63 →
  relay_writer send_key my_pub my_signing c0 evs n = (t, n') →
  writer_log c0 (out_texts evs) n n'.
Proof.
  revert c0 n. induction evs as [|ev evs IH]; intros c0 n Hc Hlen; cbn [relay_writer length].
  { intros [= _ <-]. by apply writer_log_nil. }
  cbn [length] in Hlen. destruct ev as [[text|] ok|ok].
  - rewrite wrap_i64_id by (unfold i64_ok; assert (0 < two63) by done; lia).
    destruct (encrypt_message_for_chat _ _ _) as [ct|] eqn:He; [|intros [= _ <-]; by apply writer_log_nil].
    unfold sbind. destruct (relay_send _ _ _ _ n) as [r n1] eqn:Hs.
    apply relay_send_sent in Hs. destruct r; intros Hr; eapply writer_log_chat; eauto.
    + eapply IH; eauto; lia.
    + injection Hr as _ <-. by apply writer_log_nil.
  - unfold sbind. destruct (relay_send _ _ _ _ n) as [r n1] eqn:Hs. intros [= _ <-].
    apply relay_send_sent in Hs. eapply writer_log_control; [|exact Hs|by apply writer_log_nil]; done.
  - unfold sbind. destruct (relay_send _ _ _ _ n) as [r n1] eqn:Hs.
    apply relay_send_sent in Hs. destruct r; intros Hr;
      (eapply writer_log_control; [|exact Hs|]; [done|]).
    + eapply IH; eauto; lia.
    + injection Hr as _ <-. by apply writer_log_nil.
Qed.

Lemma session_writer_log tr evs n t n' :
  Z.of_nat (length evs) < two63 → session_writer send_key my_pub my_signing tr evs n = (t, n') →
  writer_log 0 (out_texts evs) n n'.
Proof.
  intros Hl. destruct tr as [remote|]; cbn [session_writer];
    [apply direct_writer_log|apply relay_writer_log]; lia.
Qed.
End WriterLog.

(** ** Readers: the buffers a reader looks at *)

Definition event_texts (evs : list SessionEvent) : list rstring :=
  omap (λ e, match e with SessionMessage t _ => Some t | Closed => None end) evs.

Lemma event_texts_app l k : event_texts (l ++ k) = event_texts l ++ event_texts k.
Proof. apply omap_app. Qed.

(** A message stamped with a reading of the sender's clock. *)
Definition stamped (clocks : nat → Z) (e : SessionEvent) : Prop := ∃ t i, e = SessionMessage t (clocks i).

(** A direct reader skips other sources and cuts datagrams to its buffer. *)
Fixpoint direct_view (remote : SocketAddr) (evs : list (read_event (bytes * SocketAddr))) :
    list (read_event bytes) :=
  match evs with
  | [] => []
  | ReadStop ok :: evs' => ReadStop ok :: direct_view remote evs'
  | ReadOk (d, addr) ok :: evs' =>
      if decide (addr ≠ remote) then direct_view remote evs'
      else ReadOk (recv_buf 2048 d) ok :: direct_view remote evs'
  end.

Definition view (tr : Transport) : list (read_event (input tr)) → list (read_event bytes) :=
  match tr with Direct remote => direct_view remote | Relay => id end.

Lemma session_reader_view k x v tr evs s :
  session_reader k x v tr evs s = relay_reader k x v (view tr evs) s.
Proof.
  destruct tr as [remote|]; cbn [session_reader view input]; [|done].
  cbn [input] in evs. revert s. induction evs as [|[[d addr] ok|ok] evs IH]; intros s; [done| |done].
  cbn [direct_reader direct_view]. destruct (decide (addr ≠ remote)); [apply IH|].
  cbn [relay_reader]. unfold sbind. destruct (handle_inbound_frame _ _ _ _ _ s) as [[[]|] s']; [apply IH|done..].
Qed.

Section ReaderSpec.
Context `{!KdfLaws, !AeadLaws, !SigLaws, !RmpLaws PeerMessage}.
Context (key : Key) (pub : PublicKey) (sk : SigningKey).
Let peer : PeerPublic := mkPeerPublic pub (verifying_key sk).
Let handle := handle_inbound_frame key (pk_bytes pub) (verifying_key sk).

Lemma handle_junk b ok s : junk peer b → handle b ok s = (Some true, s).
Proof.
  unfold junk, handle, handle_inbound_frame. cbn [peer_public peer_verifying peer].
  destruct (rmp_from_slice b); [|done]. by intros ->.
Qed.

(** What a genuine frame of the writer does to a reader. *)
Lemma handle_sealed texts m b ok s :
  sealed key pub sk 0 texts m → rmp_to_vec m = Ok b →
  ∃ r s', handle b ok s = (Some r, s') ∧
    ((r_last s' = r_last s ∧ r_events s' = r_events s) ∨
     ∃ c t, r_last s < c ∧ 0 < c ∧ texts !! Z.to_nat (c - 1) = Some t ∧ r_last s' = c ∧
       r_events s' = r_events s ++ (if ok then [SessionMessage t (pm_timestamp m)] else [])).
Proof.
  intros [(ts & p & ->) Hm] Hb. unfold handle, handle_inbound_frame. rewrite (rmp_roundtrip _ _ Hb), verify_made.
  unfold reader_now, sbind, utc_now, sget. cbn [negb make_message pm_timestamp pm_payload r_last].
  unfold sret. destruct (frame_is_fresh ts _); cbn [negb]; [|eexists _, _; split; [reflexivity|by left]].
  cbn [make_message pm_payload] in Hm. destruct p as [|c ct| | | |]; try (eexists _, _; split; [reflexivity|by left]).
  destruct Hm as (Hc & t & Ht & He). rewrite (decrypt_encrypted _ _ _ _ He).
  cbn [r_last]. destruct (Z.leb_spec c (r_last s)); [eexists _, _; split; [reflexivity|by left]|].
  unfold set_last, smodify, send_event, sret. cbn [r_world r_events].
  rewrite Z.sub_0_r in Ht. destruct ok; eexists _, _; (split; [reflexivity|]); right; exists c, t;
    cbn [r_last r_events]; rewrite ?app_nil_r; done.
Qed.

Definition delivered (texts : list rstring) (e : read_event bytes) : Prop :=
  match e with
  | ReadOk b _ => junk peer b ∨ ∃ m, sealed key pub sk 0 texts m ∧ rmp_to_vec m = Ok b
  | ReadStop _ => True
  end.

Lemma close_reader_texts ok s t s' :
  close_reader ok s = (t, s') → event_texts (r_events s') = event_texts (r_events s) ∧ t = Finished.
Proof.
  unfold close_reader, send_event. run. destruct ok; intros [= <- <-]; [|done].
  cbn [r_events]. by rewrite event_texts_app, app_nil_r.
Qed.

Lemma drop_sublist {A} (l : list A) i c x :
  l !! Z.to_nat (c - 1) = Some x → i < c → 0 < c →
  (x :: drop (Z.to_nat c) l) `sublist_of` drop (Z.to_nat i) l.
Proof.
  intros Hx Hi Hc. assert (Hd : x :: drop (Z.to_nat c) l = drop (Z.to_nat (c - 1)) l).
  { rewrite (drop_S _ _ _ Hx). do 2 f_equal. lia. }
  rewrite Hd. replace (Z.to_nat (c - 1)) with ((Z.to_nat i) + (Z.to_nat (c - 1) - Z.to_nat i))%nat by lia.
  rewrite <- drop_drop. apply sublist_drop.
Qed.

(** Whatever part of the frames arrives, how often and in which order. *)
Lemma relay_reader_sublist texts evs s t s' :
  Forall (delivered texts) evs →
  relay_reader key (pk_bytes pub) (verifying_key sk) evs s = (t, s') →
  t ≠ Panicked ∧ ∃ new, event_texts (r_events s') = event_texts (r_events s) ++ new ∧
    new `sublist_of` drop (Z.to_nat (r_last s)) texts.
Proof.
  intros Hd. revert s. induction Hd as [|e evs He Hd IH]; intros s; cbn [relay_reader].
  { intros [= <- <-]. split; [done|]. exists []. rewrite app_nil_r. split; [done|apply sublist_nil_l]. }
  destruct e as [b ok|ok]; cycle 1.
  { intros Hc. apply close_reader_texts in Hc as [-> ->]. split; [done|].
    exists []. rewrite app_nil_r. split; [done|apply sublist_nil_l]. }
  unfold sbind. fold handle. destruct He as [He|(m & Hm & Hb)]; [rewrite handle_junk by done; apply IH|].
  destruct (handle_sealed texts m b ok s Hm Hb) as (r & s1 & -> & Hs1).
  assert (Hstep : ∃ new1, event_texts (r_events s1) = event_texts (r_events s) ++ new1 ∧
    ∀ new2, new2 `sublist_of` drop (Z.to_nat (r_last s1)) texts →
      (new1 ++ new2) `sublist_of` drop (Z.to_nat (r_last s)) texts).
  { destruct Hs1 as [[-> ->]|(c & x & Hlt & Hpos & Hx & -> & ->)].
    - exists []. by rewrite app_nil_r.
    - rewrite event_texts_app. eexists. split; [done|]. intros new2 Hn. pose proof (drop_sublist _ _ _ _ Hx Hlt Hpos) as Hds.
      destruct ok; cbn; (etrans; [|exact Hds]); [by apply sublist_skip|by apply sublist_cons]. }
  destruct Hstep as (new1 & Hn1 & Hn2). destruct r.
  - intros Hr. destruct (IH s1 Hr) as [Ht (new2 & He2 & Hsub)]. split; [done|].
    exists (new1 ++ new2). rewrite He2, Hn1, app_assoc. split; [done|by apply Hn2].
  - intros Hc. apply close_reader_texts in Hc as [He2 ->]. split; [done|]. exists (new1 ++ []).
    rewrite He2, Hn1, app_nil_r. split; [done|]. rewrite <- (app_nil_r new1). apply Hn2, sublist_nil_l.
Qed.
End ReaderSpec.

(** ** Runs in which every send works *)

Definition write_ok (e : write_event) : Prop :=
  match e with
  | Outgoing (Some t) ok => ok = true ∧ Z.of_nat (length (as_bytes t)) < 2 ^ 36
  | Outgoing None _ => False
  | HeartbeatTick ok => ok = true
  end.

Section OkRun.
Context (key : Key) (pub : PublicKey) (sk : SigningKey).

(** The frames of a run, in order: each is stamped with the next reading of
    the clock, from reading [i] on. *)
Inductive ok_frames : nat → Z → list write_event → list bytes → Prop :=
| ok_frames_nil i c : ok_frames i c [] []
| ok_frames_chat i c t evs ct b fs :
    encrypt_message_for_chat t key (as_u64 (c + 1)) = Some ct →
    rmp_to_vec (make_message (clock i) (ChatMessage (c + 1) ct) pub sk) = Ok b →
    ok_frames (S i) (c + 1) evs fs → ok_frames i c (Outgoing (Some t) true :: evs) (b :: fs)
| ok_frames_beat i c evs b fs :
    rmp_to_vec (make_message (clock i) HeartBeat pub sk) = Ok b →
    ok_frames (S i) c evs fs → ok_frames i c (HeartbeatTick true :: evs) (b :: fs).

Context `{!KdfLaws, !AeadLaws} (Hser : ∀ m : PeerMessage, ∃ b, rmp_to_vec m = Ok b).

Lemma direct_writer_ok remote c evs n :
  0 ≤ c → c + Z.of_nat (length evs) < two63 → Forall write_ok evs →
  ∃ fs n', direct_writer key pub sk remote c evs n = (Waiting, n') ∧
    map snd (n_sent n') = map snd (n_sent n) ++ fs ∧ ok_frames (w_clock (n_world n)) c evs fs.
Proof.
  intros Hc Hl Hok. revert c n Hc Hl. induction Hok as [|e evs He Hok IH]; intros c n Hc Hl.
  { exists [], n. rewrite app_nil_r. repeat constructor. }
  cbn [length] in Hl. destruct e as [[t|] ok|ok]; cbn in He; [destruct He as [-> Ht]|done|subst ok];
    cbn [direct_writer].
  - rewrite wrap_i64_id by (unfold i64_ok; assert (0 < two63) by done; lia).
    destruct (encrypt_total t key (as_u64 (c + 1)) Ht) as (ct & He & _). rewrite He.
    unfold send_peer_message, on_world, peer_message_new, utc_now, emit. run.
    edestruct Hser as [b Hb]. rewrite Hb. edestruct (IH (c + 1)) as (fs & n' & Hr & Hsn & Hf); [lia|lia|].
    eexists (b :: fs), n'. split; [exact Hr|]. split; [|by econstructor].
    rewrite Hsn. cbn [n_sent]. rewrite map_app, <- app_assoc. done.
  - unfold send_peer_message, on_world, peer_message_new, utc_now, emit. run.
    edestruct Hser as [b Hb]. rewrite Hb. edestruct (IH c) as (fs & n' & Hr & Hsn & Hf); [lia|lia|].
    eexists (b :: fs), n'. split; [exact Hr|]. split; [|by econstructor].
    rewrite Hsn. cbn [n_sent]. rewrite map_app, <- app_assoc. done.
Qed.

Lemma relay_writer_ok c evs n :
  0 ≤ c → c + Z.of_nat (length evs) < two63 → Forall write_ok evs →
  ∃ fs n', relay_writer key pub sk c evs n = (Waiting, n') ∧
    map snd (n_sent n') = map snd (n_sent n) ++ fs ∧ ok_frames (w_clock (n_world n)) c evs fs.
Proof.
  intros Hc Hl Hok. revert c n Hc Hl. induction Hok as [|e evs He Hok IH]; intros c n Hc Hl.
  { exists [], n. rewrite app_nil_r. repeat constructor. }
  cbn [length] in Hl. destruct e as [[t|] ok|ok]; cbn in He; [destruct He as [-> Ht]|done|subst ok];
    cbn [relay_writer].
  - rewrite wrap_i64_id by (unfold i64_ok; assert (0 < two63) by done; lia).
    destruct (encrypt_total t key (as_u64 (c + 1)) Ht) as (ct & He & _). rewrite He.
    unfold relay_send, frame, on_world, peer_message_new, utc_now, emit. run.
    edestruct Hser as [b Hb]. rewrite Hb. edestruct (IH (c + 1)) as (fs & n' & Hr & Hsn & Hf); [lia|lia|].
    eexists (b :: fs), n'. split; [exact Hr|]. split; [|by econstructor].
    rewrite Hsn. cbn [n_sent]. rewrite map_app, <- app_assoc. done.
  - unfold relay_send, frame, on_world, peer_message_new, utc_now, emit. run.
    edestruct Hser as [b Hb]. rewrite Hb. edestruct (IH c) as (fs & n' & Hr & Hsn & Hf); [lia|lia|].
    eexists (b :: fs), n'. split; [exact Hr|]. split; [|by econstructor].
    rewrite Hsn. cbn [n_sent]. rewrite map_app, <- app_assoc. done.
Qed.

Lemma session_writer_ok tr evs n :
  Z.of_nat (length evs) < two63 → Forall write_ok evs →
  ∃ fs n', session_writer key pub sk tr evs n = (Waiting, n') ∧
    map snd (n_sent n') = map snd (n_sent n) ++ fs ∧ ok_frames (w_clock (n_world n)) 0 evs fs.
Proof.
  intros Hl Hok. destruct tr as [remote|]; cbn [session_writer];
    [apply direct_writer_ok|apply relay_writer_ok]; (done || lia).
Qed.
End OkRun.
End Session.
Arguments sh_reader {_ _}.
Arguments sh_writer {_ _}.

Section Delivery.
Context `{Prim : Primitives} (EA EB : Env) `{SledI : Sled} `{PmRmp : !Rmp PeerMessage}.
Context `{!KdfLaws, !AeadLaws, !SigLaws, !RmpLaws PeerMessage}.
Context (key : Key) (pub : PublicKey) (sk : SigningKey).

(** The first [n] readings of the clock of B from [j] on accept frames
    stamped with the first [n] readings of the clock of A from [i] on, frame by
    frame: frame number [m] is stamped with reading [i + m] of A and checked
    against reading [j + m] of B. *)
Definition accepted_in_turn (i j n : nat) : Prop :=
  ∀ m, (m < n)%nat → frame_is_fresh (@clock _ EA (i + m)) (@clock _ EB (j + m)) = true.

Lemma accepted_head i j n : accepted_in_turn i j (S n) →
  frame_is_fresh (@clock _ EA i) (@clock _ EB j) = true ∧ accepted_in_turn (S i) (S j) n.
Proof.
  intros Hn. split; [rewrite <- (Nat.add_0_r i), <- (Nat.add_0_r j); apply Hn; lia|].
  intros m Hm. replace (S i + m)%nat with (i + S m)%nat by lia. replace (S j + m)%nat with (j + S m)%nat by lia.
  apply Hn. lia.
Qed.

(** Each frame is read at most 120 seconds, on the reader's clock, from the
    time its writer put on it. *)
Definition clocks_in_step (i j n : nat) : Prop :=
  ∀ m, (m < n)%nat → 0 ≤ @clock _ EB (j + m) < 2 ^ 62 ∧
    Z.abs (@clock _ EB (j + m) - @clock _ EA (i + m)) ≤ 120.

Lemma in_step_accepted i j n : clocks_in_step i j n → accepted_in_turn i j n.
Proof.
  intros Hn m Hm. destruct (Hn m Hm) as [Hr Ha].
  assert (H63 : two63 = 2 * 2 ^ 62) by done. assert (Hbig : 120 < 2 ^ 62) by done. set (T := 2 ^ 62) in *.
  apply freshness_core; [done|unfold i64_ok; lia|by left].
Qed.

(** A reader that gets every frame of a run, in order. *)
Lemma relay_reader_all i c evs fs s :
  accepted_in_turn i (w_clock (r_world s)) (length evs) →
  @ok_frames _ EA _ key pub sk i c evs fs → r_last s ≤ c →
  ∃ s' new, @relay_reader _ EB _ _ key (pk_bytes pub) (verifying_key sk)
      (map (λ b, ReadOk b true) fs) s = (Waiting, s') ∧
    r_events s' = r_events s ++ new ∧ Forall (stamped (@clock _ EA)) new ∧ event_texts new = out_texts evs.
Proof.
  intros Hfresh Hf. revert s Hfresh. induction Hf as [i c|i c t evs ct b fs He Hb Hf IH|i c evs b fs Hb Hf IH];
    intros s Hfresh Hs; cbn [map relay_reader]; [|apply accepted_head in Hfresh as [Hfr Hfresh]..].
  - exists s, []. rewrite app_nil_r. repeat constructor.
  - unfold sbind. unfold handle_inbound_frame at 1.
    rewrite (rmp_roundtrip _ _ Hb), verify_made. unfold reader_now, sbind, utc_now, sget.
    cbn [negb make_message pm_timestamp pm_payload]. rewrite Hfr. cbn [negb r_last].
    destruct (Z.leb_spec (c + 1) (r_last s)); [lia|]. rewrite (decrypt_encrypted _ _ _ _ He).
    unfold set_last, smodify, send_event, sret.
    edestruct IH as (s' & new & Hr & Hev & Hm & Ht); cycle 2.
    { eexists s', (_ :: new). split; [exact Hr|]. rewrite Hev. cbn [r_events]. rewrite <- app_assoc.
      split; [reflexivity|]. split; [constructor; [by eexists _, _|done]|]. cbn. by f_equal. }
    { exact Hfresh. }
    cbn [r_last]. lia.
  - unfold sbind. unfold handle_inbound_frame at 1.
    rewrite (rmp_roundtrip _ _ Hb), verify_made. unfold reader_now, sbind, utc_now, sget.
    cbn [negb make_message pm_timestamp pm_payload]. rewrite Hfr. cbn [negb].
    unfold sret. edestruct IH as (s' & new & Hr & Hev & Hm & Ht); cycle 2.
    { exists s', new. split_and!; [exact Hr|by rewrite Hev|done..]. }
    { exact Hfresh. }
    done.
Qed.
End Delivery.

Lemma sorted_lt_NoDup (l : list Z) : StronglySorted Z.lt l → NoDup l.
Proof.
  induction 1 as [|c l Hl IH Hc]; constructor; [|done]. intros Hin.
  rewrite Forall_forall in Hc. specialize (Hc c Hin). lia.
Qed.

Lemma as_u64_ok c : u64_ok (as_u64 c).
Proof. unfold u64_ok, as_u64. apply Z.mod_pos_bound. done. Qed.

Lemma out_texts_length evs : (length (out_texts evs) ≤ length evs)%nat.
Proof.
  induction evs as [|e evs IH]; [done|].
  destruct e as [[t|] ok|ok]; cbn; fold (out_texts evs); lia.
Qed.

(** The counters of a writer's frames fit in an [i64]. *)
Lemma sealed_counter_bound `{Prim : Primitives} `{EnvI : !Env} `{SledI : Sled} k pub sk evs (ms : list PeerMessage) :
  Z.of_nat (length evs) < two63 → Forall (sealed k pub sk 0 (out_texts evs)) ms →
  ∀ c, c ∈ omap chat_counter ms → 0 ≤ c < two63.
Proof.
  intros Hl Hok c Hc. apply list_elem_of_omap in Hc as (m & Hm & Hc).
  rewrite Forall_forall in Hok. destruct (Hok m Hm) as [_ Hs]. unfold chat_counter in Hc.
  destruct (pm_payload m); try done. injection Hc as ->. destruct Hs as (Hpos & t & Ht & _).
  apply lookup_lt_Some in Ht. pose proof (out_texts_length evs). lia.
Qed.

Section SessionTheorems.
Context `{Prim : Primitives} `{EnvI : !Env} `{SledI : Sled} `{PmRmp : !Rmp PeerMessage}.

(** The two ends of a session use crossed keys, one per direction: for
    peers with different public keys exactly one is first, what one end sends
    with is what the other receives with, in both directions, and the two keys
    are the expansions of the session key under two different labels. *)
Theorem session_keys_cross `{!KdfLaws} (k pubA pubB : KeyType) :
  pubA ≠ pubB →
  am_i_first pubA pubB = negb (am_i_first pubB pubA) ∧
  ∃ ka kb la lb, session_keys k (am_i_first pubA pubB) = Some (ka, kb) ∧
    session_keys k (am_i_first pubB pubA) = Some (kb, ka) ∧
    derive_directional_key k la = Some ka ∧ derive_directional_key k lb = Some kb ∧ la ≠ lb.
Proof.
  intros Hne. rewrite (am_i_first_asym pubB pubA) by done. set (b := am_i_first pubA pubB).
  destruct (session_keys_cross_core k b) as (ka & kb & H1 & H2 & Ha & Hb).
  split; [by rewrite negb_involutive|]. eexists ka, kb, _, _.
  split_and!; [exact H1|exact H2|exact Ha|exact Hb|]. by destruct b.
Qed.

(** C4: A session never reuses a nonce: in any run of a writer over either
    transport, whatever sends fail and however heartbeats interleave, the chat
    frames that leave carry strictly increasing counters, and so pairwise
    different nonces under the session's nonce base. *)
Theorem writer_nonces_unique (send_key : Key) (my_pub : PublicKey) (my_signing : SigningKey)
    tr evs w t n' (base : array 12) :
  Z.of_nat (length evs) < two63 →
  session_writer send_key my_pub my_signing tr evs (mkNet w []) = (t, n') →
  ∃ ms, Forall2 (λ m f, rmp_to_vec m = Ok f.2) ms (n_sent n') ∧
    StronglySorted Z.lt (omap chat_counter ms) ∧
    NoDup (map (λ c, nonce_for_message base (as_u64 c)) (omap chat_counter ms)) ∧
    Forall (λ m, match pm_payload m with
      | ChatMessage c ct => ∃ text, text ∈ out_texts evs ∧
          encrypt_message_for_chat text send_key (as_u64 c) = Some ct
      | _ => True end) ms.
Proof.
  intros Hl Hr. destruct (session_writer_log _ _ _ _ _ _ _ _ Hl Hr) as (ms & fs & Hs & Hms & Hok & Hst).
  cbn [n_sent app] in Hs. rewrite Hs. exists ms. split_and!; [done..| |].
  - apply NoDup_fmap_2_strong; [|by apply sorted_lt_NoDup]. intros c1 c2 H1 H2 Heq.
    apply nonce_inj in Heq; [|apply as_u64_ok..].
    apply (sealed_counter_bound _ _ _ _ _ Hl Hok) in H1, H2.
    assert (0 < two63) by done. apply as_u64_inj; unfold i64_ok; lia || done.
  - eapply Forall_impl; [exact Hok|]. intros m [_ Hm]. destruct (pm_payload m); try done.
    destruct Hm as (_ & t' & Ht & He). exists t'. split; [by eapply list_elem_of_lookup_2|done].
Qed.

(** Closing works, and is not bound to a session: when the application
    drops its end, the relay writer sends a signed [End] and finishes; a reader
    that gets it fresh reports [Closed] and finishes.  The frame names no
    session and no counter: any reader of that peer's frames, whatever its key
    and its state, is closed by it, also when it is replayed. *)
Theorem end_closes_session `{!SigLaws, !RmpLaws PeerMessage} (key recv_key : Key) (pub : PublicKey)
    (sk : SigningKey) w b evs s :
  rmp_to_vec (make_message (clock (w_clock w)) EndMsg pub sk) = Ok b →
  (∀ j, frame_is_fresh (clock (w_clock w)) (clock j) = true) →
  (∃ n', relay_writer key pub sk 0 [Outgoing None true] (mkNet w []) = (Finished, n') ∧
     n_sent n' = [(ToRelay, b)]) ∧
  ∃ s', relay_reader recv_key (pk_bytes pub) (verifying_key sk) (ReadOk b true :: evs) s = (Finished, s') ∧
    r_events s' = r_events s ++ [Closed].
Proof.
  intros Hb Hf. split.
  - cbn [relay_writer]. unfold relay_send, frame, on_world, peer_message_new, utc_now, emit. run.
    rewrite Hb. eexists. split; [reflexivity|done].
  - cbn [relay_reader]. unfold sbind, handle_inbound_frame. rewrite (rmp_roundtrip _ _ Hb), verify_made.
    unfold reader_now, sbind, utc_now. cbn [negb make_message pm_timestamp pm_payload]. rewrite Hf.
    eexists. split; [reflexivity|done].
Qed.

(** A direct session silently loses long messages: a frame of more than
    2048 bytes is cut by the receive buffer, does not decode, and the reader
    goes on as if nothing had arrived; the sender gets no error. *)
Theorem long_frame_lost `{!RmpPrefix PeerMessage} recv_key x v remote (m : PeerMessage) b evt_ok evs s :
  rmp_to_vec m = Ok b → (2048 < length b)%nat →
  direct_reader recv_key x v remote (ReadOk (b, remote) evt_ok :: evs) s =
  direct_reader recv_key x v remote evs s.
Proof.
  intros Hb Hl. cbn [direct_reader]. rewrite decide_False by (intros Hn; by apply Hn).
  unfold sbind, handle_inbound_frame, recv_buf.
  by destruct (rmp_truncated _ _ 2048 Hb Hl) as [e ->].
Qed.
End SessionTheorems.

Section EndToEnd.
Context `{Prim : Primitives} (EA EB : Env) `{SledI : Sled} `{PmRmp : !Rmp PeerMessage}.
Context `{!KdfLaws, !AeadLaws, !SigLaws, !RmpLaws PeerMessage}.
Context (k : KeyType) (pubA pubB : PublicKey) (skA skB : SigningKey) (trA trB : Transport).
Hypothesis (Hne : pk_bytes pubA ≠ pk_bytes pubB).

Let openA := @start_session _ EA _ _ trA k pubA skA (mkPeerPublic pubB (verifying_key skB))
  (am_i_first (pk_bytes pubA) (pk_bytes pubB)).
Let openB := @start_session _ EB _ _ trB k pubB skB (mkPeerPublic pubA (verifying_key skA))
  (am_i_first (pk_bytes pubB) (pk_bytes pubA)).

(** Both ends open, and what A's writer seals, B's reader opens. *)
Lemma open_pair :
  ∃ ka kb,
    openA = Some (mkSession trA (@session_reader _ EA _ _ kb (pk_bytes pubB) (verifying_key skB) trA)
                    (@session_writer _ EA _ _ ka pubA skA trA)) ∧
    openB = Some (mkSession trB (@session_reader _ EB _ _ ka (pk_bytes pubA) (verifying_key skA) trB)
                    (@session_writer _ EB _ _ kb pubB skB trB)).
Proof.
  unfold openA, openB, start_session. rewrite (am_i_first_asym (pk_bytes pubB)) by done.
  destruct (session_keys_cross_core k (am_i_first (pk_bytes pubA) (pk_bytes pubB)))
    as (ka & kb & -> & -> & _). by exists ka, kb.
Qed.

(** What the receiving end reports of frames of the sending end and junk. *)
Lemma pair_sublist ka evs wA tA nA rd wB tB rB :
  Z.of_nat (length evs) < two63 →
  @session_writer _ EA _ _ ka pubA skA trA evs (mkNet wA []) = (tA, nA) →
  Forall (λ e, match e with
    | ReadOk b _ => junk (mkPeerPublic pubA (verifying_key skA)) b ∨ b ∈ map snd (n_sent nA)
    | ReadStop _ => True end) (view trB rd) →
  @session_reader _ EB _ _ ka (pk_bytes pubA) (verifying_key skA) trB rd (reader0 wB) = (tB, rB) →
  tB ≠ Panicked ∧ event_texts (r_events rB) `sublist_of` out_texts evs.
Proof.
  intros Hl HA Hrd HB. rewrite session_reader_view in HB.
  destruct (session_writer_log _ _ _ _ _ _ _ _ Hl HA) as (ms & fs & Hs & Hms & Hok & _).
  cbn [n_sent app] in Hs. rewrite Hs in Hrd.
  eapply relay_reader_sublist in HB as [Ht (new & -> & Hsub)]; [exact (conj Ht Hsub)|].
  eapply Forall_impl; [exact Hrd|]. intros [b ok|ok]; [|done]. intros [Hj|Hb]; [by left|right].
  apply list_elem_of_fmap in Hb as ([to b'] & -> & Hin). apply list_elem_of_lookup_1 in Hin as [i Hi].
  destruct (Forall2_lookup_r _ _ _ _ _ Hms Hi) as (m & Hm & Hmb). exists m.
  split; [|done]. by eapply Forall_lookup_1.
Qed.

(** C1: No network can make a session deliver anything but a subsequence of
    what was sent: if every buffer the receiving end reads is a frame the
    sending end emitted or bytes that do not parse or verify (dropped,
    repeated, reordered and forged traffic included), then the receiver never
    panics and the texts it reports are a subsequence of the texts handed to
    the sender: no duplicates, no reordering, no inventions. *)
Theorem session_delivers_subsequence evs wA rd wB :
  Z.of_nat (length evs) < two63 →
  ∃ sA sB, openA = Some sA ∧ openB = Some sB ∧
    ∀ tA nA tB rB, sh_writer sA evs (mkNet wA []) = (tA, nA) →
      Forall (λ e, match e with
        | ReadOk b _ => junk (mkPeerPublic pubA (verifying_key skA)) b ∨ b ∈ map snd (n_sent nA)
        | ReadStop _ => True end) (view trB rd) →
      sh_reader sB rd (reader0 wB) = (tB, rB) →
      tB ≠ Panicked ∧ event_texts (r_events rB) `sublist_of` out_texts evs.
Proof.
  intros Hl. destruct open_pair as (ka & kb & -> & ->). eexists _, _. split_and!; [done..|].
  intros tA nA tB rB HA Hrd HB. cbn [sh_writer sh_reader] in *. by eapply pair_sublist.
Qed.

(** A run in which nothing is lost: the events the receiver reports are the
    messages, in order. *)
Lemma session_pair_delivers evs wA rd wB :
  (∀ m : PeerMessage, ∃ b, rmp_to_vec m = Ok b) →
  accepted_in_turn EA EB (w_clock wA) (w_clock wB) (length evs) →
  Z.of_nat (length evs) < two63 → Forall write_ok evs →
  ∃ sA sB nA, openA = Some sA ∧ openB = Some sB ∧ sh_writer sA evs (mkNet wA []) = (Waiting, nA) ∧
    (view trB rd = map (λ f, ReadOk f.2 true) (n_sent nA) →
     ∃ rB, sh_reader sB rd (reader0 wB) = (Waiting, rB) ∧ Forall (stamped (@clock _ EA)) (r_events rB) ∧
       event_texts (r_events rB) = out_texts evs).
Proof.
  intros Hser Hfresh Hl Hok. destruct open_pair as (ka & kb & -> & ->).
  destruct (@session_writer_ok _ EA _ _ ka pubA skA _ _ Hser trA evs (mkNet wA []) Hl Hok)
    as (fs & nA & Hw & Hsn & Hf).
  eexists _, _, nA. split_and!; [done..|exact Hw|]. intros Hview. cbn [sh_reader].
  rewrite session_reader_view, Hview. cbn [n_sent map app] in Hsn.
  assert (Hmap : map (λ f, ReadOk f.2 true) (n_sent nA) = map (λ b, ReadOk b true) fs).
  { rewrite <- Hsn, map_map. done. }
  rewrite Hmap.
  destruct (relay_reader_all EA EB ka pubA skA (w_clock wA) 0 evs fs (reader0 wB) Hfresh Hf) as (s' & new & Hr & Hev & Hm & Ht);
    [cbn; lia|].
  exists s'. split; [exact Hr|]. cbn [reader0 r_events app] in Hev. by rewrite Hev.
Qed.

(** C2: Over a network that does its job everything arrives, however long
    the session lasts: if the sends work, every frame can be serialised, the
    receiver reads exactly the emitted frames in order, and each frame is read
    at most 120 seconds (on the receiver's clock) from the time the sender's
    clock put on that frame, then the receiver reports exactly the texts handed
    to the sender, in order, and both tasks are still running.  The clocks may
    advance up to 2^62 seconds: frame number [m] takes the sender's reading
    number [m] and is compared with the receiver's reading number [m] only.
    (Texts are shorter than 2^36 bytes and there are fewer than 2^63 events.) *)
Theorem session_delivers_all evs wA rd wB :
  (∀ m : PeerMessage, ∃ b, rmp_to_vec m = Ok b) →
  clocks_in_step EA EB (w_clock wA) (w_clock wB) (length evs) →
  Z.of_nat (length evs) < two63 → Forall write_ok evs →
  ∃ sA sB nA, openA = Some sA ∧ openB = Some sB ∧ sh_writer sA evs (mkNet wA []) = (Waiting, nA) ∧
    (view trB rd = map (λ f, ReadOk f.2 true) (n_sent nA) →
     ∃ rB, sh_reader sB rd (reader0 wB) = (Waiting, rB) ∧ event_texts (r_events rB) = out_texts evs).
Proof.
  intros Hser Hfresh Hl Hok.
  destruct (session_pair_delivers evs wA rd wB Hser (in_step_accepted _ _ _ _ _ Hfresh) Hl Hok) as (sA & sB & nA & ? & ? & ? & Hrd).
  exists sA, sB, nA. split_and!; [done..|]. intros Hv. destruct (Hrd Hv) as (rB & ? & _ & ?). by exists rB.
Qed.
End EndToEnd.

Module SessionWitness.
#[local] Existing Instances toy_prims toy_env list_sled WireWitness.toy_rmp_pm.
Import HandshakeWitness.
Definition pA : @PublicKey toy_prims := pubA.
Definition sA0 : @SigningKey toy_prims := skA.
Definition k0 : KeyType := pad_array 32 [x21; x22].
Definition w0 : World := mkWorld ∅ 0 0 0.
Definition texts0 : list write_event :=
  [Outgoing (Some (str "one")) true; HeartbeatTick true; Outgoing (Some (str "two")) true].

Lemma pub_ne : pk_bytes pubA ≠ pk_bytes pubB.
Proof. intros Heq. apply (f_equal (λ a, head (arr_data a))) in Heq. vm_compute in Heq. done. Qed.

Lemma toy_total (m : PeerMessage) : ∃ b, rmp_to_vec m = Ok b.
Proof. by eexists. Qed.

Lemma toy_clocks i j : frame_is_fresh (clock i) (clock j) = true.
Proof.
  pose proof (Z.mod_pos_bound (Z.of_nat i) 100 ltac:(lia)). pose proof (Z.mod_pos_bound (Z.of_nat j) 100 ltac:(lia)).
  assert (2000000 < two63) by done.
  apply freshness_core; cbn -[Z.modulo]; unfold i64_ok, MAX_FRAME_AGE_SECS; lia.
Qed.

Lemma texts0_ok : Forall write_ok texts0.
Proof. repeat constructor. Qed.

Lemma session_keys_cross_witness :
  am_i_first pubA pubB = negb (am_i_first pubB pubA) ∧
  ∃ ka kb la lb, session_keys k0 (am_i_first pubA pubB) = Some (ka, kb) ∧
    session_keys k0 (am_i_first pubB pubA) = Some (kb, ka) ∧
    derive_directional_key k0 la = Some ka ∧ derive_directional_key k0 lb = Some kb ∧ la ≠ lb.
Proof.
  apply (@session_keys_cross toy_prims toy_kdf_laws k0 pubA pubB). exact pub_ne.
Defined.

Definition wrun : task * Net := session_writer k0 pA sA0 Relay texts0 (mkNet w0 []).
Lemma writer_nonces_unique_witness :
  ∃ ms, Forall2 (λ m f, rmp_to_vec m = Ok f.2) ms (n_sent wrun.2) ∧
    StronglySorted Z.lt (omap chat_counter ms) ∧
    NoDup (map (λ c, nonce_for_message (pad_array 12 []) (as_u64 c)) (omap chat_counter ms)) ∧
    Forall (λ m, match pm_payload m with
      | ChatMessage c ct => ∃ text, text ∈ out_texts texts0 ∧
          encrypt_message_for_chat text k0 (as_u64 c) = Some ct
      | _ => True end) ms.
Proof.
  apply (writer_nonces_unique k0 pA sA0 Relay texts0 w0 wrun.1 wrun.2); [vm_compute; done|].
  exact (surjective_pairing wrun).
Defined.

Lemma end_closes_session_witness :
  (∃ n', relay_writer k0 pA sA0 0 [Outgoing None true] (mkNet w0 []) = (Finished, n') ∧
     n_sent n' = [(ToRelay, enc (Codec := WireWitness.pm_codec) (make_message 1000000 EndMsg pA sA0))]) ∧
  ∃ s', relay_reader k0 (pk_bytes pA) (verifying_key sA0)
      [ReadOk (enc (Codec := WireWitness.pm_codec) (make_message 1000000 EndMsg pA sA0)) true] (reader0 w0)
      = (Finished, s') ∧ r_events s' = r_events (reader0 w0) ++ [Closed].
Proof.
  apply (@end_closes_session toy_prims toy_env list_sled _ toy_sig_laws laws k0 k0 pA sA0 w0);
    [reflexivity|exact (toy_clocks 0)].
Defined.

Definition long_text : bytes := replicate 1500 x80.
Definition long_frame : PeerMessage := make_message 1000000 (ChatMessage 1 long_text) pA sA0.
Lemma long_frame_lost_witness :
  direct_reader k0 (pk_bytes pA) (verifying_key sA0) here
    [ReadOk (enc (Codec := WireWitness.pm_codec) long_frame, here) true] (reader0 w0) =
  direct_reader k0 (pk_bytes pA) (verifying_key sA0) here [] (reader0 w0).
Proof.
  apply (@long_frame_lost toy_prims toy_env list_sled _ (codec_rmp_prefix WireWitness.pm_codec) k0
    (pk_bytes pA) (verifying_key sA0) here long_frame); [reflexivity|].
  apply Nat.ltb_lt. vm_compute. reflexivity.
Defined.

Definition openA := start_session Relay k0 (pubA : PublicKey) (skA : SigningKey)
  (mkPeerPublic (pubB : PublicKey) (verifying_key skB)) (am_i_first (pk_bytes pubA) (pk_bytes pubB)).
Definition openB := start_session (Direct here) k0 (pubB : PublicKey) (skB : SigningKey)
  (mkPeerPublic (pubA : PublicKey) (verifying_key skA)) (am_i_first (pk_bytes pubB) (pk_bytes pubA)).
Definition junk_in : list (read_event (input (Direct here))) :=
  [ReadOk ([x07], there) true; ReadOk ([x07], here) true; ReadStop true].

Lemma session_delivers_subsequence_witness :
  ∃ sA sB, openA = Some sA ∧ openB = Some sB ∧
    ∀ tA nA tB rB, sh_writer sA texts0 (mkNet w0 []) = (tA, nA) →
      sh_reader sB junk_in (reader0 w0) = (tB, rB) →
      tB ≠ Panicked ∧ event_texts (r_events rB) `sublist_of` out_texts texts0.
Proof.
  destruct (@session_delivers_subsequence toy_prims toy_env toy_env list_sled _ toy_kdf_laws toy_aead_laws
    toy_sig_laws laws k0 pubA pubB skA skB Relay (Direct here) pub_ne texts0 w0 junk_in w0)
    as (sA & sB & HA & HB & Hall); [vm_compute; done|].
  exists sA, sB. split; [exact HA|split; [exact HB|]]. intros tA nA tB rB H1 H2.
  apply (Hall tA nA tB rB H1); [|exact H2]. cbn. repeat constructor.
Defined.

(** A clock that advances by 100 seconds with every frame; the receiver's is
    30 seconds ahead.  The three frames of [texts0] span 200 seconds.  (The
    clock starts over after 10000 seconds, so that checks of all its readings
    are finite.) *)
Definition slow_env (start : Z) : Env :=
  {| home_dir := home_dir; clock := λ n, start + 100 * (Z.of_nat n mod 100); rng_fill := rng_fill; rng_secret := rng_secret;
     rng_signing := rng_signing; rng_nonce := rng_nonce; io_fault := io_fault; io_partial := io_partial;
     dir_order := dir_order; io_display := io_display; argon2_error_display := argon2_error_display;
     aead_error_display := aead_error_display |}.
Definition slow_open (start : Z) := start_session (EnvI := slow_env start) Relay k0 (pubA : PublicKey) (skA : SigningKey)
  (mkPeerPublic (pubB : PublicKey) (verifying_key skB)) (am_i_first (pk_bytes pubA) (pk_bytes pubB)).
Definition slow_openB (start : Z) := start_session (EnvI := slow_env start) (Direct here) k0 (pubB : PublicKey)
  (skB : SigningKey) (mkPeerPublic (pubA : PublicKey) (verifying_key skA)) (am_i_first (pk_bytes pubB) (pk_bytes pubA)).

Lemma slow_in_step i n : clocks_in_step (slow_env 1000000) (slow_env 1000030) i i n.
Proof.
  intros m _. assert (Hbig : 1010030 < 2 ^ 62) by done. set (T := 2 ^ 62) in *.
  pose proof (Z.mod_pos_bound (Z.of_nat (i + m)) 100 ltac:(lia)). cbn [clock slow_env]. lia.
Qed.

Definition frames0 : list bytes :=
  match openA with Some sA => map snd (n_sent (sh_writer sA texts0 (mkNet w0 [])).2) | None => [] end.
Definition slow_frames : list bytes :=
  match slow_open 1000000 with Some sA => map snd (n_sent (sh_writer sA texts0 (mkNet w0 [])).2) | None => [] end.
Definition all_in : list (read_event (input (Direct here))) := map (λ b, ReadOk (b, here) true) slow_frames.

Lemma session_delivers_all_witness :
  ∃ sA sB nA, slow_open 1000000 = Some sA ∧ slow_openB 1000030 = Some sB ∧
    sh_writer sA texts0 (mkNet w0 []) = (Waiting, nA) ∧
    ∃ rB, sh_reader sB all_in (reader0 w0) = (Waiting, rB) ∧ event_texts (r_events rB) = out_texts texts0.
Proof.
  destruct (@session_delivers_all toy_prims (slow_env 1000000) (slow_env 1000030) list_sled _ toy_kdf_laws
    toy_aead_laws toy_sig_laws laws k0 pubA pubB skA skB Relay (Direct here) pub_ne texts0 w0 all_in w0)
    as (sA & sB & nA & HA & HB & Hw & Hall);
    [exact toy_total|apply slow_in_step|vm_compute; done|exact texts0_ok|].
  exists sA, sB, nA. split; [exact HA|split; [exact HB|split; [exact Hw|]]]. apply Hall.
  assert (Hf : map snd (n_sent nA) = slow_frames).
  { unfold slow_frames, slow_open. rewrite HA, Hw. reflexivity. }
  unfold all_in. cbn [view]. assert (Hv : direct_view here (map (λ b, ReadOk (b, here) true) slow_frames)
    = map (λ b, ReadOk b true) slow_frames) by (vm_compute; reflexivity).
  rewrite Hv, <- Hf, map_map. reflexivity.
Defined.
End SessionWitness.
