(* ===== verification/SharedSocket.v ===== *)
(** * One socket, many readers

    [Client::start] of src/crates/client/src/lib.rs binds one UDP socket;
    [orchestrate] hands clones of the same [Arc] to STUN discovery and to every
    [connect_session], and every direct session's reader task
    (src/crates/p2p/src/lib.rs, [start_session]) awaits [recv_from] on it under
    an idle timeout.  A datagram goes to one of the waiting readers, whichever
    the runtime polls first.

    The machine interleaves the readers over the queue of the socket and a
    clock in seconds; a reader is [direct_reader] of [Session.v] on what it
    received so far.  The theorems say what sharing leaves intact (nothing
    false is delivered; a session that has the socket to itself gets
    everything) and what it breaks. *)

From Stdlib Require Import Strings.Byte.
From S2P Require Import Prelude Bytes Text Primitives Instances World Crypto Wire Handshake Session.

Local Open Scope Z_scope.

Abbreviation datagram := (bytes * SocketAddr)%type.

Section SharedSocket.
Context `{Prim : Primitives} `{EnvI : !Env} `{SledI : Sled} `{PmRmp : !Rmp PeerMessage}.

(** What a reader task captured when it was spawned. *)
Record reader_info := mkInfo {
  ri_key : Key;
  ri_peer : KeyType;
  ri_verifying : VerifyingKey;
  ri_remote : SocketAddr
}.

(** A reader: what [recv_from] gave it, and since when it waits. *)
Record socket_reader := mkSocketReader {
  sr_info : reader_info;
  sr_seen : list (read_event datagram);
  sr_since : Z
}.

Record Socket := mkSocket {
  so_now : Z;
  so_queue : list datagram;
  so_readers : gmap nat socket_reader
}.

Inductive so_label :=
| Arrive (d : datagram)
| Open (i : nat) (ri : reader_info)       (* [start_session] spawns a reader *)
| TakenBy (i : nat) (evt_ok : bool)       (* [recv_from] of reader [i] returns *)
| TakenElsewhere                          (* [recv_from] of STUN, a punch or a handshake *)
| TimesOut (i : nat) (evt_ok : bool)      (* the [timeout] of reader [i] *)
| Elapse (secs : Z).

(** The clock readings of each reader's task. *)
Context (world : nat → World).

Definition progress (i : nat) (r : socket_reader) : task * Reader :=
  direct_reader (ri_key (sr_info r)) (ri_peer (sr_info r)) (ri_verifying (sr_info r)) (ri_remote (sr_info r))
    (sr_seen r) (reader0 (world i)).
Definition waits (i : nat) (r : socket_reader) : bool :=
  match (progress i r).1 with Waiting => true | _ => false end.
Definition deadline (r : socket_reader) : Z := sr_since r + SESSION_IDLE_TIMEOUT_SECS.
Definition saw (ev : read_event datagram) (now : Z) (r : socket_reader) : socket_reader :=
  mkSocketReader (sr_info r) (sr_seen r ++ [ev]) now.

Definition so_step (l : so_label) (s : Socket) : option Socket :=
  match l with
  | Arrive d => Some (mkSocket (so_now s) (so_queue s ++ [d]) (so_readers s))
  | Open i ri =>
      match so_readers s !! i with
      | Some _ => None
      | None => Some (mkSocket (so_now s) (so_queue s) (<[i := mkSocketReader ri [] (so_now s)]> (so_readers s)))
      end
  | TakenBy i evt_ok =>
      match so_queue s, so_readers s !! i with
      | d :: queue, Some r =>
          if waits i r
          then Some (mkSocket (so_now s) queue (<[i := saw (ReadOk d evt_ok) (so_now s) r]> (so_readers s)))
          else None
      | _, _ => None
      end
  | TakenElsewhere =>
      match so_queue s with
      | _ :: queue => Some (mkSocket (so_now s) queue (so_readers s))
      | [] => None
      end
  | TimesOut i evt_ok =>
      match so_readers s !! i with
      | Some r =>
          if waits i r && (deadline r <=? so_now s)
          then Some (mkSocket (so_now s) (so_queue s) (<[i := saw (ReadStop evt_ok) (so_now s) r]> (so_readers s)))
          else None
      | None => None
      end
  | Elapse secs =>
      (* no timer is passed by *)
      if (0 <=? secs) && bool_decide (map_Forall (λ i r, waits i r = true → so_now s + secs ≤ deadline r) (so_readers s))
      then Some (mkSocket (so_now s + secs) (so_queue s) (so_readers s))
      else None
  end.

Fixpoint so_run (ls : list so_label) (s : Socket) : option Socket :=
  match ls with [] => Some s | l :: ls' => s' ← so_step l s; so_run ls' s' end.

(** The reader that [start_session] spawns for a direct session. *)
Definition direct_info (remote : SocketAddr) (session_key : KeyType) (peer : PeerPublic) (am_first : bool) :
    option reader_info :=
  '(_, recv_key) ← session_keys session_key am_first;
  Some (mkInfo recv_key (pk_bytes (peer_public peer)) (peer_verifying peer) remote).

(** The datagrams of a schedule, and those among the events of a reader. *)
Definition arrivals (ls : list so_label) : list datagram :=
  omap (λ l, match l with Arrive d => Some d | _ => None end) ls.
Definition datagrams (evs : list (read_event datagram)) : list datagram :=
  omap (λ e, match e with ReadOk d _ => Some d | ReadStop _ => None end) evs.

(** ** Lemmas *)

Lemma so_run_app ls1 ls2 s : so_run (ls1 ++ ls2) s = s1 ← so_run ls1 s; so_run ls2 s1.
Proof. revert s. induction ls1 as [|l ls1 IH]; intros s; cbn; [done|]. destruct (so_step l s); cbn; [apply IH|done]. Qed.

Lemma arrivals_app ls1 ls2 : arrivals (ls1 ++ ls2) = arrivals ls1 ++ arrivals ls2.
Proof. apply omap_app. Qed.
Lemma datagrams_app evs1 evs2 : datagrams (evs1 ++ evs2) = datagrams evs1 ++ datagrams evs2.
Proof. apply omap_app. Qed.

(** Between two states of a run, with [ds] arriving: reader [i] is still
    there, and what it received, with what waits, is part of what there was. *)
Definition kept (i : nat) (s s' : Socket) (ds : list datagram) : Prop :=
  ∀ r, so_readers s !! i = Some r → ∃ r' new, so_readers s' !! i = Some r' ∧ sr_info r' = sr_info r ∧
    sr_seen r' = sr_seen r ++ new ∧ (datagrams new ++ so_queue s') `sublist_of` (so_queue s ++ ds).

Lemma kept_untouched i s s' ds :
  so_readers s' !! i = so_readers s !! i → so_queue s' `sublist_of` (so_queue s ++ ds) → kept i s s' ds.
Proof. intros Hr Hq r Hi. exists r, []. by rewrite Hr, app_nil_r. Qed.

Lemma kept_saw i j ev s s' r :
  so_readers s !! j = Some r → so_readers s' = <[j := saw ev (so_now s) r]> (so_readers s) →
  (datagrams [ev] ++ so_queue s') = so_queue s → kept i s s' [].
Proof.
  intros Hj Hr Hq. destruct (decide (i = j)) as [->|Hne].
  - intros r0 Hi. rewrite Hj in Hi. injection Hi as <-. exists (saw ev (so_now s) r), [ev].
    rewrite Hr, lookup_insert_eq, app_nil_r, Hq. by split_and!.
  - apply kept_untouched; [by rewrite Hr, lookup_insert_ne|]. rewrite app_nil_r, <- Hq. by apply sublist_inserts_l.
Qed.

Lemma so_step_kept l i s s' : so_step l s = Some s' → kept i s s' (arrivals [l]).
Proof.
  destruct l as [d|j ri|j ok| |j ok|secs]; cbn [so_step arrivals omap list_omap].
  - intros [= <-]. by apply kept_untouched.
  - destruct (so_readers s !! j) eqn:Hj; [done|]. intros [= <-] r Hi. exists r, [].
    cbn [so_readers so_queue]. rewrite lookup_insert_ne by congruence. by rewrite !app_nil_r.
  - destruct (so_queue s) as [|d queue] eqn:Hq; [done|]. destruct (so_readers s !! j) as [r|] eqn:Hj; [|done].
    destruct (waits j r); [|done]. intros [= <-]. eapply kept_saw; [done..|]. by rewrite Hq.
  - destruct (so_queue s) as [|d queue] eqn:Hq; [done|]. intros [= <-]. apply kept_untouched; [done|].
    cbn [so_queue]. rewrite Hq, app_nil_r. by apply sublist_cons.
  - destruct (so_readers s !! j) as [r|] eqn:Hj; [|done]. destruct (waits j r && _); [|done]. intros [= <-].
    by eapply kept_saw.
  - destruct (_ && _); [|done]. intros [= <-]. apply kept_untouched; [done|]. by rewrite app_nil_r.
Qed.

Lemma so_run_kept ls i s s' : so_run ls s = Some s' → kept i s s' (arrivals ls).
Proof.
  revert s. induction ls as [|l ls IH]; intros s; cbn [so_run].
  { intros [= <-]. apply kept_untouched; [done|]. by rewrite app_nil_r. }
  destruct (so_step l s) as [s1|] eqn:Hl; cbn [mbind option_bind]; [|done]. intros Hrun r Hi.
  destruct (so_step_kept l i s s1 Hl r Hi) as (r1 & n1 & H1 & I1 & E1 & Q1).
  destruct (IH s1 Hrun r1 H1) as (r2 & n2 & H2 & I2 & E2 & Q2).
  exists r2, (n1 ++ n2). split_and!; [done|congruence|by rewrite E2, E1, app_assoc|].
  rewrite (arrivals_app [l] ls : arrivals (l :: ls) = _), datagrams_app, <- app_assoc.
  etrans; [apply sublist_app; [done|exact Q2]|]. rewrite !(app_assoc _ _ (arrivals ls)). by apply sublist_app.
Qed.

(** A reader with the socket to itself: every [recv_from] is its own. *)
Definition sole (i : nat) (l : so_label) : Prop :=
  match l with
  | TakenBy j evt_ok => j = i ∧ evt_ok = true
  | TakenElsewhere => False
  | TimesOut j _ => j ≠ i
  | Arrive _ | Open _ _ | Elapse _ => True
  end.

Lemma so_run_sole ls i s s' r :
  Forall (sole i) ls → so_run ls s = Some s' → so_readers s !! i = Some r →
  ∃ r' new, so_readers s' !! i = Some r' ∧ sr_info r' = sr_info r ∧
    sr_seen r' = sr_seen r ++ map (λ d, ReadOk d true) new ∧ new ++ so_queue s' = so_queue s ++ arrivals ls.
Proof.
  intros Hs. revert s r. induction Hs as [|l ls Hl Hs IH]; intros s r; cbn [so_run].
  { intros [= <-] Hi. exists r, []. by rewrite !app_nil_r. }
  destruct (so_step l s) as [s1|] eqn:Hstep; cbn [mbind option_bind]; [|done]. intros Hrun Hi.
  rewrite (arrivals_app [l] ls : arrivals (l :: ls) = _), app_assoc.
  assert (H1 : ∃ r1 new, so_readers s1 !! i = Some r1 ∧ sr_info r1 = sr_info r ∧
    sr_seen r1 = sr_seen r ++ map (λ d, ReadOk d true) new ∧ new ++ so_queue s1 = so_queue s ++ arrivals [l]).
  { clear IH Hrun. destruct l as [d|j ri|j ok| |j ok|secs]; cbn [so_step arrivals omap list_omap sole] in *.
    - simplify_eq. exists r, []. by rewrite app_nil_r.
    - destruct (so_readers s !! j) eqn:Hj; [done|]. injection Hstep as <-. exists r, []. cbn [so_readers so_queue].
      rewrite lookup_insert_ne by congruence. by rewrite !app_nil_r.
    - destruct Hl as [-> ->]. rewrite Hi in Hstep. destruct (so_queue s) as [|d queue]; [done|].
      destruct (waits i r); [|done]. injection Hstep as <-. exists (saw (ReadOk d true) (so_now s) r), [d].
      cbn [so_readers so_queue]. by rewrite lookup_insert_eq, app_nil_r.
    - done.
    - destruct (so_readers s !! j) as [rj|]; [|done]. destruct (waits j rj && _); [|done]. injection Hstep as <-.
      exists r, []. cbn [so_readers so_queue]. rewrite lookup_insert_ne by done. by rewrite !app_nil_r.
    - destruct (_ && _); [|done]. injection Hstep as <-. exists r, []. by rewrite !app_nil_r. }
  destruct H1 as (r1 & n1 & L1 & I1 & E1 & Q1). destruct (IH s1 r1 Hrun L1) as (r2 & n2 & L2 & I2 & E2 & Q2).
  exists r2, (n1 ++ n2). split_and!; [done|congruence| |by rewrite <- app_assoc, Q2, app_assoc, Q1].
  by rewrite E2, E1, map_app, app_assoc.
Qed.

(** What a reader makes of its datagrams. *)
Lemma direct_view_app remote evs1 evs2 :
  direct_view remote (evs1 ++ evs2) = direct_view remote evs1 ++ direct_view remote evs2.
Proof.
  induction evs1 as [|[[d a] ok|ok] evs1 IH]; cbn; [done| |by rewrite IH]. destruct (decide (a ≠ remote)); cbn; by rewrite IH.
Qed.

Lemma direct_view_datagrams remote (l : list datagram) :
  direct_view remote (map (λ d, ReadOk d true) l) =
  map (λ d, ReadOk (recv_buf 2048 d.1) true) (filter (λ d, d.2 = remote) l).
Proof.
  induction l as [|[d a] l IH]; cbn [map direct_view]; [done|]. rewrite filter_cons. cbn [snd].
  destruct (decide (a ≠ remote)); case_decide; try done; cbn [map fst]; by rewrite <- IH.
Qed.

Lemma direct_view_elem remote evs b ok :
  ReadOk b ok ∈ direct_view remote evs → ∃ d, (d, remote) ∈ datagrams evs ∧ b = recv_buf 2048 d.
Proof.
  induction evs as [|[[d a] ok'|ok'] evs IH]; cbn [direct_view]; [set_solver| |].
  - change (datagrams (ReadOk (d, a) ok' :: evs)) with ((d, a) :: datagrams evs).
    destruct (decide (a ≠ remote)) as [|Ha].
    + intros H. destruct (IH H) as (d' & Hd & ->). exists d'. split; [by right|done].
    + apply dec_stable in Ha as ->. intros [[= E _]|H]%elem_of_cons; [exists d; split; [by left|exact E]|].
      destruct (IH H) as (d' & Hd & ->). exists d'. split; [by right|done].
  - intros [?|H]%elem_of_cons; [done|]. by apply IH.
Qed.

(** What the reader task captured is what [direct_info] says. *)
Lemma direct_info_start remote k pub sk peer am_first h :
  start_session (Direct remote) k pub sk peer am_first = Some h →
  ∃ ri, direct_info remote k peer am_first = Some ri ∧ ri_remote ri = remote ∧
    sh_reader h = direct_reader (ri_key ri) (ri_peer ri) (ri_verifying ri) remote.
Proof.
  unfold start_session, direct_info. destruct (session_keys k am_first) as [[send_key recv_key]|]; [|done].
  intros [= <-]. by eexists.
Qed.

(** A datagram from elsewhere is read and forgotten. *)
Lemma saw_foreign i d addr ok now r :
  addr ≠ ri_remote (sr_info r) → progress i (saw (ReadOk (d, addr) ok) now r) = progress i r.
Proof.
  intros Ha. unfold progress, saw. cbn [sr_info sr_seen].
  change (direct_reader ?k ?p ?v ?rm ?evs) with (session_reader k p v (Direct rm) evs).
  rewrite !session_reader_view. cbn [view input]. rewrite direct_view_app. cbn [direct_view].
  destruct (decide (addr ≠ _)); [|done]. by rewrite app_nil_r.
Qed.
Lemma waits_foreign i d addr ok now r :
  addr ≠ ri_remote (sr_info r) → waits i (saw (ReadOk (d, addr) ok) now r) = waits i r.
Proof. intros Ha. unfold waits. by rewrite saw_foreign. Qed.
End SharedSocket.

(** ** What sharing leaves intact *)

Section SharedPair.
Context `{Prim : Primitives} (EA EB : Env) `{SledI : Sled} `{PmRmp : !Rmp PeerMessage}.
Context `{!KdfLaws, !AeadLaws, !SigLaws, !RmpLaws PeerMessage}.
Context (k : KeyType) (pubA pubB : PublicKey) (skA skB : SigningKey) (trA : Transport) (remote : SocketAddr).
Hypothesis (Hne : pk_bytes pubA ≠ pk_bytes pubB).
Context (world : nat → World) (i : nat).

Let openA := start_session (EnvI := EA) trA k pubA skA (mkPeerPublic pubB (verifying_key skB))
  (am_i_first (pk_bytes pubA) (pk_bytes pubB)).
Let openB := start_session (EnvI := EB) (Direct remote) k pubB skB (mkPeerPublic pubA (verifying_key skA))
  (am_i_first (pk_bytes pubB) (pk_bytes pubA)).
Let infoB := direct_info remote k (mkPeerPublic pubA (verifying_key skA)) (am_i_first (pk_bytes pubB) (pk_bytes pubA)).

(** C16: Sharing the socket never makes a session report something false.
    However the readers, STUN, punches and handshakes of one client compete for
    the datagrams, if what arrives from the peer's address are frames the peer
    emitted or bytes that do not parse or verify, then the session's reader
    does not panic and the texts it reports are a subsequence of the texts the
    peer was handed. *)
Theorem shared_socket_subsequence evs wA :
  Z.of_nat (length evs) < two63 →
  ∃ sA ri, openA = Some sA ∧ infoB = Some ri ∧
    ∀ tA nA ls s s' now, sh_writer sA evs (mkNet wA []) = (tA, nA) →
      so_readers s !! i = Some (mkSocketReader ri [] now) →
      so_run (EnvI := EB) world ls s = Some s' →
      Forall (λ d, d.2 = remote → junk (mkPeerPublic pubA (verifying_key skA)) (recv_buf 2048 d.1) ∨
        recv_buf 2048 d.1 ∈ map snd (n_sent nA)) (so_queue s ++ arrivals ls) →
      ∃ r', so_readers s' !! i = Some r' ∧ (progress (EnvI := EB) world i r').1 ≠ Panicked ∧
        event_texts (r_events (progress (EnvI := EB) world i r').2) `sublist_of` out_texts evs.
Proof.
  intros Hl. destruct (open_pair EA EB k pubA pubB skA skB trA (Direct remote) Hne) as (ka & kb & HA & HB).
  destruct (direct_info_start _ _ _ _ _ _ _ HB) as (ri & Hri & Hrem & Hcap). cbn [sh_reader session_reader] in Hcap.
  eexists _, ri. split_and!; [exact HA|exact Hri|].
  intros tA nA ls s s' now Hw Hi Hrun Hall. cbn [sh_writer] in Hw.
  destruct (so_run_kept _ _ i _ _ Hrun _ Hi) as (r' & new & Hr' & Hinfo & Hseen & Hsub). exists r'. split; [done|].
  destruct (progress world i r') as [tB rB] eqn:Hp. cbn [fst snd].
  unfold progress in Hp. rewrite Hinfo, Hseen in Hp. cbn [sr_info sr_seen app] in Hp. rewrite Hrem, <- Hcap in Hp.
  eapply (pair_sublist EA EB pubA skA trA (Direct remote)); [exact Hl|exact Hw| |exact Hp]. cbn [view input].
  rewrite Forall_forall. intros [b ok|ok] Hin; [|done]. apply direct_view_elem in Hin as (d & Hd & ->).
  rewrite Forall_forall in Hall. apply (Hall (d, remote)); [|done].
  eapply elem_of_sublist; [|exact Hsub]. by apply elem_of_app; left.
Qed.

(** A session that has the socket to itself gets everything: when no one
    else receives, the frames the peer emitted arrive in order (among any
    datagrams from other addresses), each fits the buffer, and the queue has
    been read, and each is fresh at the reading it is checked against, the session is up and has reported exactly the texts the peer
    was handed. *)
Theorem sole_reader_delivers evs wA :
  (∀ m : PeerMessage, ∃ b, rmp_to_vec m = Ok b) →
  accepted_in_turn EA EB (w_clock wA) (w_clock (world i)) (length evs) →
  Z.of_nat (length evs) < two63 → Forall write_ok evs →
  ∃ sA ri nA, openA = Some sA ∧ infoB = Some ri ∧
    sh_writer sA evs (mkNet wA []) = (Waiting, nA) ∧
    ∀ ls s s' now, so_readers s !! i = Some (mkSocketReader ri [] now) →
      so_run (EnvI := EB) world ls s = Some s' → Forall (sole i) ls → so_queue s' = [] →
      filter (λ d, d.2 = remote) (so_queue s ++ arrivals ls) = map (λ f, (f.2, remote)) (n_sent nA) →
      Forall (λ f, (length f.2 ≤ 2048)%nat) (n_sent nA) →
      ∃ r', so_readers s' !! i = Some r' ∧ (progress (EnvI := EB) world i r').1 = Waiting ∧
        event_texts (r_events (progress (EnvI := EB) world i r').2) = out_texts evs.
Proof.
  intros Hser Hclk Hl Hok. pose proof (session_pair_delivers EA EB k pubA pubB skA skB trA (Direct remote) Hne evs wA) as Hpair.
  destruct (Hpair [] (world i) Hser Hclk Hl Hok) as (sA & sB & nA & HA & HB & Hw & _).
  destruct (direct_info_start _ _ _ _ _ _ _ HB) as (ri & Hri & Hrem & Hcap). exists sA, ri, nA.
  split_and!; [exact HA|exact Hri|exact Hw|]. intros ls s s' now Hi Hrun Hsole Hq Hf Hfit.
  destruct (so_run_sole _ _ i _ _ _ Hsole Hrun Hi) as (r' & new & Hr' & Hinfo & Hseen & Hnew). exists r'. split; [done|].
  rewrite Hq, app_nil_r in Hnew. rewrite <- Hnew in Hf.
  unfold progress. rewrite Hinfo, Hseen. cbn [sr_info sr_seen app]. rewrite Hrem, <- Hcap.
  destruct (Hpair (map (λ d, ReadOk d true) new) (world i) Hser Hclk Hl Hok) as (sA' & sB' & nA' & HA' & HB' & Hw' & Hdel).
  rewrite HA in HA'. injection HA' as <-. rewrite HB in HB'. injection HB' as <-.
  rewrite Hw in Hw'. injection Hw' as <-. destruct Hdel as (rB & Hr & _ & Ht); [|by rewrite Hr].
  cbn [view input]. rewrite direct_view_datagrams, Hf, map_map. cbn [fst]. apply Forall_fmap_ext_1.
  eapply Forall_impl; [exact Hfit|]. intros f Hlf. unfold recv_buf. by rewrite take_ge.
Qed.
End SharedPair.

(** ** What it breaks *)

Section SharedTrouble.
Context `{Prim : Primitives} `{EnvI : !Env} `{SledI : Sled} `{PmRmp : !Rmp PeerMessage}.
Context (world : nat → World).

(** Only sessions receive. *)
Definition by_session (l : so_label) : Prop :=
  match l with Arrive _ | TakenBy _ _ => True | _ => False end.

(** No session is told anything between two states. *)
Definition nothing_heard (s s' : Socket) : Prop :=
  so_now s' = so_now s ∧
  ∀ n r, so_readers s !! n = Some r → ∃ r', so_readers s' !! n = Some r' ∧ sr_info r' = sr_info r ∧
    progress world n r' = progress world n r.

Lemma nothing_heard_trans s1 s2 s3 : nothing_heard s1 s2 → nothing_heard s2 s3 → nothing_heard s1 s3.
Proof.
  intros [T1 H1] [T2 H2]. split; [congruence|]. intros n r Hr. destruct (H1 n r Hr) as (r2 & L2 & I2 & P2).
  destruct (H2 n r2 L2) as (r3 & L3 & I3 & P3). exists r3. split_and!; congruence.
Qed.

(** A waiting reader swallows a datagram from another address. *)
Lemma swallow i r d s :
  so_queue s = [] → so_readers s !! i = Some r → waits world i r = true → d.2 ≠ ri_remote (sr_info r) →
  ∃ s1, so_run world [Arrive d; TakenBy i true] s = Some s1 ∧ so_queue s1 = [] ∧ nothing_heard s s1 ∧
    so_readers s1 = <[i := saw (ReadOk d true) (so_now s) r]> (so_readers s).
Proof.
  intros Hq Hi Hw Hd. cbn [so_run so_step mbind option_bind so_queue so_readers so_now]. rewrite Hq, Hi, Hw.
  cbn [app mbind option_bind]. eexists. split_and!; [reflexivity|done| |done]. split; [done|]. cbn [so_readers]. intros n r0 Hn.
  destruct (decide (n = i)) as [->|Hne]; [|by rewrite lookup_insert_ne by done; exists r0].
  rewrite lookup_insert_eq. rewrite Hi in Hn. injection Hn as <-. eexists. split_and!; [done|done|].
  destruct d as [d addr]. by apply saw_foreign.
Qed.

Lemma nothing_heard_waits s s1 n r :
  nothing_heard s s1 → so_readers s !! n = Some r → waits world n r = true →
  ∃ r1, so_readers s1 !! n = Some r1 ∧ sr_info r1 = sr_info r ∧ waits world n r1 = true.
Proof. intros [_ H] Hn Hw. destruct (H n r Hn) as (r1 & L & I & P). exists r1. split_and!; [done..|]. unfold waits. by rewrite P. Qed.

(** C21: Two direct sessions are enough to lose everything: on a socket shared
    by two waiting readers of different peers, whatever datagrams arrive, there
    is an order in which the readers take every one of them and no session
    hears anything; each reader drops the datagrams that were meant for the
    other, and nobody gets them again. *)
Theorem shared_socket_starves i j ri rj s ds :
  so_queue s = [] → so_readers s !! i = Some ri → so_readers s !! j = Some rj →
  waits world i ri = true → waits world j rj = true → ri_remote (sr_info ri) ≠ ri_remote (sr_info rj) →
  ∃ ls s', arrivals ls = ds ∧ Forall by_session ls ∧ so_run world ls s = Some s' ∧ so_queue s' = [] ∧ nothing_heard s s'.
Proof.
  intros Hq Hi Hj Wi Wj Hne. revert s ri rj Hq Hi Hj Wi Wj Hne. induction ds as [|d ds IH]; intros s ri rj Hq Hi Hj Wi Wj Hne.
  { exists [], s. split_and!; [done|done|done|done|split; [done|eauto]]. }
  assert (∃ n r, so_readers s !! n = Some r ∧ waits world n r = true ∧ d.2 ≠ ri_remote (sr_info r)) as (n & r & Hn & Wn & Hd).
  { destruct (decide (d.2 = ri_remote (sr_info ri))) as [E|]; [|by exists i, ri]. exists j, rj. by rewrite E. }
  destruct (swallow n r d s Hq Hn Wn Hd) as (s1 & R1 & Q1 & N1 & _).
  destruct (nothing_heard_waits _ _ _ _ N1 Hi Wi) as (ri1 & Hi1 & Ii1 & Wi1).
  destruct (nothing_heard_waits _ _ _ _ N1 Hj Wj) as (rj1 & Hj1 & Ij1 & Wj1).
  destruct (IH s1 ri1 rj1 Q1 Hi1 Hj1 Wi1 Wj1) as (ls & s' & Hls & Hby & Hrun & Q' & N'); [congruence|].
  exists ([Arrive d; TakenBy n true] ++ ls), s'. rewrite arrivals_app, so_run_app, R1, Hls.
  split_and!; [done|by repeat constructor|done|done|by eapply nothing_heard_trans].
Qed.

Lemma direct_reader_app k x v remote evs1 evs2 u u1 :
  direct_reader k x v remote evs1 u = (Waiting, u1) →
  direct_reader k x v remote (evs1 ++ evs2) u = direct_reader k x v remote evs2 u1.
Proof.
  revert u. induction evs1 as [|[[d a] ok|ok] evs1 IH]; intros u; cbn [direct_reader app].
  - by intros [= <-].
  - destruct (decide (a ≠ remote)); [apply IH|]. unfold sbind.
    destruct (handle_inbound_frame _ _ _ _ _ u) as [[[]|] u']; [apply IH| |done].
    intros Hc. by apply close_reader_texts in Hc as [_ ?].
  - intros Hc. by apply close_reader_texts in Hc as [_ ?].
Qed.

(** The timeout closes the session. *)
Lemma saw_stop i now r :
  waits world i r = true →
  (progress world i (saw (ReadStop true) now r)).1 = Finished ∧
  r_events (progress world i (saw (ReadStop true) now r)).2 = r_events (progress world i r).2 ++ [Closed].
Proof.
  unfold waits. destruct (progress world i r) as [t u] eqn:Hp. cbn [fst]. destruct t; [|done..]. intros _.
  unfold progress, saw in *. cbn [sr_info sr_seen]. by rewrite (direct_reader_app _ _ _ _ _ _ _ _ Hp).
Qed.

Lemma elapse_sole i r s secs :
  so_readers s = {[ i := r ]} → waits world i r = true → 0 ≤ secs →
  so_step world (Elapse secs) s =
  if so_now s + secs <=? deadline r then Some (mkSocket (so_now s + secs) (so_queue s) (so_readers s)) else None.
Proof.
  intros Hr Hw Hs. cbn [so_step]. rewrite (proj2 (Z.leb_le 0 secs) Hs), Hr. cbn [andb].
  destruct (Z.leb_spec (so_now s + secs) (deadline r)).
  - rewrite bool_decide_eq_true_2; [done|]. by apply map_Forall_singleton.
  - rewrite bool_decide_eq_false_2; [done|]. rewrite map_Forall_singleton. intros Hd. specialize (Hd Hw). lia.
Qed.

(** Fifteen seconds, then a datagram from elsewhere. *)
Lemma stranger_round i r s d :
  so_queue s = [] → so_readers s = {[ i := r ]} → waits world i r = true → sr_since r = so_now s →
  d.2 ≠ ri_remote (sr_info r) →
  ∃ s1 r1, so_run world [Elapse HEARTBEAT_SECS; Arrive d; TakenBy i true] s = Some s1 ∧ so_queue s1 = [] ∧
    so_now s1 = so_now s + HEARTBEAT_SECS ∧ so_readers s1 = {[ i := r1 ]} ∧ sr_since r1 = so_now s1 ∧
    sr_info r1 = sr_info r ∧ progress world i r1 = progress world i r.
Proof.
  intros Hq Hr Hw Hsince Hd. change [Elapse HEARTBEAT_SECS; Arrive d; TakenBy i true] with
    ([Elapse HEARTBEAT_SECS] ++ [Arrive d; TakenBy i true]). rewrite so_run_app. cbn [so_run].
  rewrite (elapse_sole i r) by done. unfold deadline. rewrite Hsince.
  rewrite (proj2 (Z.leb_le _ _)) by (unfold HEARTBEAT_SECS, SESSION_IDLE_TIMEOUT_SECS; lia). cbn [mbind option_bind].
  set (s0 := mkSocket (so_now s + HEARTBEAT_SECS) (so_queue s) (so_readers s)).
  destruct (swallow i r d s0 Hq) as (s1 & R1 & Q1 & [T1 _] & L1); [by cbn; rewrite Hr, lookup_singleton_eq|done..|].
  exists s1, (saw (ReadOk d true) (so_now s0) r). split_and!; [exact R1|done|done| |done|done|].
  - rewrite L1. cbn. by rewrite Hr, insert_singleton_eq.
  - destruct d as [d addr]. by apply saw_foreign.
Qed.

(** C37: The idle timeout watches the socket, not the peer.  Left in silence, a
    session is closed after 45 seconds, neither earlier nor later; but any datagrams from other
    addresses, one every 15 seconds (another peer's heartbeats), keep it up
    for as long as they come, although its own peer sends nothing: the time
    that passes is unbounded and the session has not been told. *)
Theorem idle_timer_reset_by_strangers i r s ds :
  so_queue s = [] → so_readers s = {[ i := r ]} → waits world i r = true → sr_since r = so_now s →
  ((∀ secs, SESSION_IDLE_TIMEOUT_SECS < secs → so_step world (Elapse secs) s = None) ∧
   (∀ secs evt_ok, 0 ≤ secs < SESSION_IDLE_TIMEOUT_SECS → so_run world [Elapse secs; TimesOut i evt_ok] s = None) ∧
   ∃ s' r', so_run world [Elapse SESSION_IDLE_TIMEOUT_SECS; TimesOut i true] s = Some s' ∧ so_readers s' !! i = Some r' ∧
     (progress world i r').1 = Finished ∧
     r_events (progress world i r').2 = r_events (progress world i r).2 ++ [Closed]) ∧
  (Forall (λ d, d.2 ≠ ri_remote (sr_info r)) ds →
   ∃ ls s' r', arrivals ls = ds ∧ so_run world ls s = Some s' ∧
     so_now s' = so_now s + HEARTBEAT_SECS * Z.of_nat (length ds) ∧
     so_readers s' !! i = Some r' ∧ progress world i r' = progress world i r).
Proof.
  intros Hq Hr Hw Hsince. split; [split; [|split]|].
  - intros secs Hs. rewrite (elapse_sole i r) by (done || (unfold SESSION_IDLE_TIMEOUT_SECS in *; lia)).
    unfold deadline. rewrite Hsince. by destruct (Z.leb_spec (so_now s + secs) (so_now s + SESSION_IDLE_TIMEOUT_SECS)); [lia|].
  - intros secs evt_ok Hs. cbn [so_run]. rewrite (elapse_sole i r) by (done || lia). unfold deadline. rewrite Hsince.
    rewrite (proj2 (Z.leb_le _ _)) by lia. cbn [mbind option_bind so_step so_readers].
    rewrite Hr, lookup_singleton_eq, Hw. unfold deadline. cbn [so_now]. rewrite Hsince.
    by rewrite (proj2 (Z.leb_gt _ _)) by lia.
  - cbn [so_run]. rewrite (elapse_sole i r) by done. unfold deadline. rewrite Hsince, Z.leb_refl. cbn [mbind option_bind so_step so_readers].
    rewrite Hr, lookup_singleton_eq, Hw. unfold deadline. cbn [so_now]. rewrite Hsince, Z.leb_refl. cbn [andb mbind option_bind].
    eexists _, _. split; [reflexivity|]. cbn [so_readers]. rewrite lookup_insert_eq. split; [reflexivity|]. by apply saw_stop.
  - intros Hds. revert s r Hq Hr Hw Hsince Hds. induction ds as [|d ds IH]; intros s r Hq Hr Hw Hsince Hds.
    { exists [], s, r. rewrite Hr, lookup_singleton_eq. split_and!; [done..|cbn; lia|done|done]. }
    inv Hds. destruct (stranger_round i r s d) as (s1 & r1 & R1 & Q1 & T1 & L1 & S1 & I1 & P1); [done..|].
    destruct (IH s1 r1) as (ls & s' & r' & Hls & Hrun & Hnow & Hl & Hp); [done..|unfold waits; by rewrite P1|done|by rewrite I1|].
    exists ([Elapse HEARTBEAT_SECS; Arrive d; TakenBy i true] ++ ls), s', r'.
    rewrite arrivals_app, so_run_app, R1, Hls. split_and!; [done|exact Hrun|rewrite Hnow, T1; cbn [length]; lia|done|congruence].
Qed.
End SharedTrouble.

Module SharedSocketWitness.
Import HandshakeWitness SessionWitness.
#[local] Existing Instances toy_prims toy_env list_sled WireWitness.toy_rmp_pm.
#[local] Existing Instances toy_kdf_laws toy_aead_laws toy_sig_laws laws.

Definition world0 : nat → World := λ _, w0.
Definition info0 : option reader_info :=
  direct_info here k0 (mkPeerPublic (pubA : PublicKey) (verifying_key skA)) (am_i_first (pk_bytes pubB) (pk_bytes pubA)).
Definition dummy : reader_info := mkInfo k0 k0 (verifying_key skA) there.
Definition ri0 : reader_info := default dummy info0.
Lemma info0_ri : info0 = Some ri0.
Proof. assert (H : (if info0 is Some _ then true else false) = true) by (vm_compute; reflexivity). unfold ri0. by destruct info0. Qed.
(** One session, or two of different peers, just opened. *)
Definition alone : Socket := mkSocket 0 [] {[ 0%nat := mkSocketReader ri0 [] 0 ]}.
Definition both : Socket := mkSocket 0 [] (<[ 1%nat := mkSocketReader dummy [] 0 ]> (so_readers alone)).

Definition final (ls : list so_label) (s : Socket) : Socket := default s (so_run world0 ls s).
Lemma final_run ls s : (if so_run world0 ls s is Some _ then true else false) = true → so_run world0 ls s = Some (final ls s).
Proof. unfold final. by destruct (so_run world0 ls s). Qed.

(** The other session takes the first frame of two. *)
Definition contended : list so_label :=
  map (λ b, Arrive (b, here)) (take 2 frames0) ++ [TakenBy 1 true; TakenBy 0 true].
Lemma shared_socket_subsequence_witness :
  ∃ r', so_readers (final contended both) !! 0%nat = Some r' ∧ (progress world0 0 r').1 ≠ Panicked ∧
    event_texts (r_events (progress world0 0 r').2) `sublist_of` out_texts texts0.
Proof.
  destruct (shared_socket_subsequence toy_env toy_env k0 pubA pubB skA skB Relay here pub_ne world0 0 texts0 w0)
    as (sA & ri & HA & Hri & Hall); [vm_compute; done|].
  fold info0 in Hri. rewrite info0_ri in Hri. injection Hri as <-.
  destruct (sh_writer sA texts0 (mkNet w0 [])) as [tA nA] eqn:Hw.
  apply (Hall tA nA contended both (final contended both) 0); [reflexivity|reflexivity|apply final_run; vm_compute; reflexivity|].
  assert (Hf : map snd (n_sent nA) = frames0). { unfold frames0, SessionWitness.openA. rewrite HA, Hw. reflexivity. }
  rewrite Hf, Forall_forall. intros d Hd _. right.
  assert (Hb : forallb (λ d, bool_decide (recv_buf 2048 d.1 ∈ frames0)) (so_queue both ++ arrivals contended) = true)
    by (vm_compute; reflexivity).
  rewrite forallb_forall in Hb. specialize (Hb d). rewrite <- list_elem_of_In in Hb.
  apply bool_decide_eq_true in Hb; [exact Hb|exact Hd].
Defined.

(** Everything arrives, a stranger's datagram in between, and is read. *)
Definition undisturbed : list so_label :=
  Arrive ([x07], there) :: map (λ b, Arrive (b, here)) frames0 ++ replicate (S (length frames0)) (TakenBy 0 true).
Lemma sole_reader_delivers_witness :
  ∃ r', so_readers (final undisturbed alone) !! 0%nat = Some r' ∧ (progress world0 0 r').1 = Waiting ∧
    event_texts (r_events (progress world0 0 r').2) = [str "one"; str "two"].
Proof.
  destruct (sole_reader_delivers toy_env toy_env k0 pubA pubB skA skB Relay here pub_ne world0 0 texts0 w0)
    as (sA & ri & nA & HA & Hri & Hw & Hall); [exact toy_total|intros m _; apply toy_clocks|vm_compute; done|exact texts0_ok|].
  fold info0 in Hri. rewrite info0_ri in Hri. injection Hri as <-.
  assert (Hf : map snd (n_sent nA) = frames0). { unfold frames0, SessionWitness.openA. rewrite HA, Hw. reflexivity. }
  apply (Hall undisturbed alone (final undisturbed alone) 0); [reflexivity|apply final_run; vm_compute; reflexivity| | | |].
  - apply Forall_cons. split; [exact I|]. apply Forall_app. split.
    + apply Forall_map, Forall_true. intros b. exact I.
    + apply Forall_replicate. by split.
  - vm_compute. reflexivity.
  - rewrite <- (map_map snd (λ b, (b, here))), Hf. refine (bool_decide_unpack _ _). vm_compute. exact I.
  - assert (Hl : Forall (λ b, (length b ≤ 2048)%nat) (map snd (n_sent nA))).
    { rewrite Hf. refine (bool_decide_unpack _ _). vm_compute. exact I. }
    by apply Forall_map in Hl.
Defined.

(** Two fresh sessions hear nothing of the frames for the first. *)
Lemma shared_socket_starves_witness :
  ∃ ls s', arrivals ls = map (λ b, (b, here)) frames0 ∧ Forall by_session ls ∧
    so_run world0 ls both = Some s' ∧ so_queue s' = [] ∧ nothing_heard world0 both s'.
Proof.
  apply (shared_socket_starves world0 0 1 (mkSocketReader ri0 [] 0) (mkSocketReader dummy [] 0) both);
    [reflexivity..|]. refine (bool_decide_unpack _ _). vm_compute. exact I.
Defined.

(** A hundred heartbeats of somebody else: 25 minutes. *)
Lemma idle_timer_reset_by_strangers_witness :
  ∃ ls s' r', arrivals ls = replicate 100 ([x07], there) ∧ so_run world0 ls alone = Some s' ∧ so_now s' = 1500 ∧
    so_readers s' !! 0%nat = Some r' ∧ progress world0 0 r' = (Waiting, reader0 w0).
Proof.
  destruct (idle_timer_reset_by_strangers world0 0 (mkSocketReader ri0 [] 0) alone (replicate 100 ([x07], there))) as [_ H];
    [reflexivity..|]. apply H, Forall_replicate. refine (bool_decide_unpack _ _). vm_compute. exact I.
Defined.
End SharedSocketWitness.
