(* ===== verification/ServerProto.v ===== *)
(** * The server protocol: messages, errors and generators

    src/crates/serverclient/src/structs.rs and generators.rs.  The
    constructors of the message enums live in a module per enum: [CM] for
    [ClientMessage], [SM] for [ServerMessage], [SE] for [ServerEvent], [BP]
    for [BlobPayload]. *)

From Stdlib Require Import Strings.Byte.
From S2P Require Import Prelude Bytes Text Primitives Instances World Crypto.

Local Open Scope Z_scope.

Module CE.
Inductive ClientErrors :=
| ConnectionFailed (s : rstring)
| ConnectionClosed
| ConnectionTimeout
| WriteFailed (s : rstring)
| ReadFailed (s : rstring)
| SerializationFailed (s : rstring)
| DeserializationFailed (s : rstring)
| InvalidMessageFormat
| AuthFailed (s : rstring)
| AuthTimeout
| UnexpectedHandshakeMessage
| InvalidSignature
| InvalidTimestamp
| ReplayDetected
| UnknownPeer
| InvalidPublicKey
| DecryptionFailed
| EncryptionFailed
| KeyDerivationFailed
| PeerLoadFailed (s : rstring)
| PeerSaveFailed (s : rstring)
| ChatStorageFailed (s : rstring)
| ChannelClosed
| ServerError (s : rstring).
End CE.
Export CE(ClientErrors).

(** [impl fmt::Display for ClientErrors] *)
Definition display_client (e : ClientErrors) : rstring :=
  match e with
  | CE.ConnectionFailed s => str "connection failed: " ++ s
  | CE.ConnectionClosed => str "connection closed"
  | CE.ConnectionTimeout => str "connection timeout"
  | CE.WriteFailed s => str "write failed: " ++ s
  | CE.ReadFailed s => str "read failed: " ++ s
  | CE.SerializationFailed s => str "serialization failed: " ++ s
  | CE.DeserializationFailed s => str "deserialization failed: " ++ s
  | CE.InvalidMessageFormat => str "invalid message format"
  | CE.AuthFailed s => str "auth failed: " ++ s
  | CE.AuthTimeout => str "auth timeout"
  | CE.UnexpectedHandshakeMessage => str "unexpected handshake message"
  | CE.InvalidSignature => str "invalid signature"
  | CE.InvalidTimestamp => str "invalid timestamp"
  | CE.ReplayDetected => str "replay attack detected"
  | CE.UnknownPeer => str "unknown peer"
  | CE.InvalidPublicKey => str "invalid public key"
  | CE.DecryptionFailed => str "decryption failed"
  | CE.EncryptionFailed => str "encryption failed"
  | CE.KeyDerivationFailed => str "key derivation failed"
  | CE.PeerLoadFailed s => str "peer load failed: " ++ s
  | CE.PeerSaveFailed s => str "peer save failed: " ++ s
  | CE.ChatStorageFailed s => str "chat storage failed: " ++ s
  | CE.ChannelClosed => str "internal channel closed"
  | CE.ServerError s => str "server reported error: " ++ s
  end.

Module CM.
Inductive ClientMessage :=
| Auth (pub_key verif : KeyType) (signature : bytes)
| Announce (token : KeyType) (ip_port : rstring)
| Unannounce (token : KeyType)
| SendBlob (recipient_hash : hash) (blob : bytes)
| Purge (hash_pubkey : hash)
| AckBlob (blob_id : rstring)
| LookupPeer (token : KeyType)
| RequestHolePunch (token : KeyType)
| RequestDenied (token : KeyType)
| RequestAccepted (token : KeyType)
| RelayData (recipient_hash : hash) (payload : bytes).
End CM.
Export CM(ClientMessage).

Inductive RequestDeniedReason := PeerDeclined | DeniedTimeout.

Module SM.
Inductive ServerMessage :=
| AuthOk (observed_address : rstring)
| AuthFailed (reason : rstring)
| PendingBlob (blob_id : rstring) (blob : bytes) (timestamp : Z)
| PeerOnline (hash : KeyType) (ip_port : rstring)
| PeerOffline (hash : KeyType)
| PunchHole (token peer_hash : KeyType) (ip_port : rstring) (punchtimestamp : Z)
| Error (reason : rstring)
| PendingBlobsEnd
| RequestHolePunch (pub_key token : KeyType)
| RequestDenied (token pub_key : KeyType) (reason : RequestDeniedReason)
| RelayData (sender_hash : KeyType) (payload : bytes).
End SM.
Export SM(ServerMessage).

Module SE.
Inductive ServerEvent :=
| Authenticated (observed_address : rstring)
| PeerOnline (hash : KeyType) (ip_port : rstring)
| PeerOffline (hash : KeyType)
| PunchHole (token peer_hash : KeyType) (ip_port : rstring) (punchtimestamp : Z)
| HolePunchDenied (peer : KeyType) (reason : rstring)
| BlobStored (sender_hash : KeyType)
| RelayData (sender_hash : KeyType) (payload : bytes)
| Disconnected.
End SE.
Export SE(ServerEvent).

Module BP.
Inductive BlobPayload :=
| OfflineMessage (sender_pub_hash : hash) (timestamp : Z) (ciphertext signature : bytes)
| Purge (sender_pub_hash : hash) (signature : bytes) (timestamp : Z).
End BP.
Export BP(BlobPayload).

Record ClientToServer := mkClientToServer { cts_payload : ClientMessage; cts_timestamp : Z }.
Record ServerToClient := mkServerToClient { stc_payload : ServerMessage; stc_timestamp : Z }.

Section Generators.
Context `{Prim : Primitives} `{EnvI : !Env} `{SledI : Sled}.
Context `{MsgRmp : !Rmp Message} `{BlobRmp : !Rmp BlobPayload}.

(** [ClientToServer::new]: [unwrap_or] reads the clock in either case. *)
Definition client_to_server_new (payload : ClientMessage) (timestamp : option Z) :
    St World ClientToServer :=
  let! now := utc_now in sret (mkClientToServer payload (default now timestamp)).

Definition server_to_client_new (payload : ServerMessage) : St World ServerToClient :=
  let! timestamp := utc_now in sret (mkServerToClient payload timestamp).

Definition auth_data (public verif : KeyType) (timestamp : Z) : bytes :=
  arr_data public ++ arr_data verif ++ to_le_bytes timestamp.

Definition generate_authenticate_message (public verif : KeyType) (signing : SigningKey)
    (timestamp : Z) : St World (result ClientToServer CryptoErrors) :=
  let data := sign_challenge signing (auth_data public verif timestamp) in
  let! m := client_to_server_new (CM.Auth public verif (arr_data data)) (Some timestamp) in
  sret (Ok m).

Definition generate_announce_message (privkey : StaticSecret) (peer_pub : PublicKey) (timestamp : Z)
    (ip_port : rstring) : result ClientMessage CryptoErrors :=
  let* token := presence_token privkey peer_pub timestamp in
  Ok (CM.Announce token ip_port).

Definition generate_unannounce_message (privkey : StaticSecret) (peer_pub : PublicKey) (timestamp : Z) :
    result ClientMessage CryptoErrors :=
  let* token := presence_token privkey peer_pub timestamp in
  Ok (CM.Unannounce token).

Definition generate_peer_hash (peer : PeerPublic) : hash :=
  identity_hash (peer_public peer) (peer_verifying peer).

Definition generate_blob (recipient : PeerPublic) (message : bytes) :
    St World (result ClientMessage CryptoErrors) :=
  let? blob := encrypt_blob (peer_public recipient) message in
  sret (Ok (CM.SendBlob (generate_peer_hash recipient) blob)).

(** The bytes a purge signs. *)
Definition purge_data (timestamp : Z) : bytes := label "purge" ++ to_le_bytes timestamp.

Definition generate_purge_message (recipient : PeerPublic) (my_pub : PublicKey) (sign : SigningKey) :
    St World (result ClientToServer ClientErrors) :=
  let! timestamp := utc_now in
  let signed := sign_challenge sign (purge_data timestamp) in
  let purge_payload := BP.Purge (identity_hash my_pub (verifying_key sign)) (arr_data signed) timestamp in
  let? payload_bytes := sret (map_err CE.SerializationFailed (rmp_to_vec purge_payload)) in
  let? msg := smap_err (λ _, CE.KeyDerivationFailed) (generate_blob recipient payload_bytes) in
  let! m := client_to_server_new msg None in
  sret (Ok m).

(** The bytes an offline message signs. *)
Definition offline_data (cipher : bytes) (timestamp : Z) : bytes :=
  label "offline" ++ cipher ++ to_le_bytes timestamp.

Definition generate_offline_message (recipient : PeerPublic) (my_pub : PublicKey)
    (my_priv : StaticSecret) (text : rstring) (signing : SigningKey) :
    St World (result ClientToServer ClientErrors) :=
  let! timestamp := utc_now in
  let? storage_key := sret (map_err (λ _, CE.KeyDerivationFailed)
    (load_storage_key (peer_public recipient) my_priv)) in
  let stored_msg := from_parts text You timestamp in
  let? cipher := smap_err (λ _, CE.EncryptionFailed) (encrypt_message_stored stored_msg storage_key) in
  let signed := sign_challenge signing (offline_data cipher timestamp) in
  let offline_payload := BP.OfflineMessage (identity_hash my_pub (verifying_key signing)) timestamp
    cipher (arr_data signed) in
  let? payload_bytes := sret (map_err CE.SerializationFailed (rmp_to_vec offline_payload)) in
  let? msg := smap_err (λ _, CE.KeyDerivationFailed) (generate_blob recipient payload_bytes) in
  let! m := client_to_server_new msg None in
  sret (Ok m).

Definition generate_lookup_message (peer : PeerPublic) : St World ClientToServer :=
  client_to_server_new (CM.LookupPeer (generate_peer_hash peer)) None.

Definition generate_peer_lookup (peer : PeerPublic) : ClientMessage :=
  CM.LookupPeer (generate_peer_hash peer).

Definition generate_ack_blob (blob_id : rstring) : ClientMessage := CM.AckBlob blob_id.

Definition generate_p2p_request (peer_pub : PublicKey) (privkey : StaticSecret) :
    St World (result ClientMessage ClientErrors) :=
  let! now := utc_now in
  sret (let* token := map_err (λ _, CE.EncryptionFailed) (presence_token privkey peer_pub now) in
        Ok (CM.RequestHolePunch token)).

Lemma presence_token_total `{!KdfLaws} priv p t : ∃ tok, presence_token priv p t = Ok tok.
Proof.
  unfold presence_token. destruct (derive_shared_total priv p (label "presence")) as [k ->]. simpl.
  destruct (hmac_total (arr_data k) (to_le_bytes (presence_window t))) as [tok ->]. by exists tok.
Qed.
End Generators.
