(* ===== verification/ServerClient.v ===== *)
(** * The server connection

    src/crates/serverclient/src/lib.rs and handlers.rs: the online table and
    the announced address, the handling of server messages and of offline
    blobs, the connect-time handshake, and the loops that [run_client] spawns.
    The websocket is the list of the items that arrive on it and the list of
    bytes sent; after the last item the socket is open and silent, unless that
    item closes it.  [ws_fault] says which sends fail. *)

From Stdlib Require Import Strings.Byte Sorting.Sorted.
From S2P Require Import Prelude Bytes Text Primitives Instances World Crypto KeyFile PeerStore ChatDb ServerProto.

Local Open Scope Z_scope.

Definition ONLINE_TTL_SECS : Z := 35.

(** The room of the event channel that [orchestrate] makes for a connection. *)
Definition EVENT_CAPACITY : nat := 100.

(** How a computation that may wait ends: it returns, it waits for the server
    on an open socket from which nothing comes, it waits for room in a channel
    that nobody reads, or the fuel of the model ran out. *)
Inductive awaited (A : Type) : Type :=
| Ready (a : A)
| Silent
| Blocked
| NoFuel.
Arguments Ready {A} a.
Arguments Silent {A}.
Arguments Blocked {A}.
Arguments NoFuel {A}.

(** [m().await?], and the rest of the function: what waits goes on waiting. *)
Definition abind {S A B E} (m : St S (result (awaited A) E)) (k : A → St S (result (awaited B) E)) :
    St S (result (awaited B) E) :=
  let? r := m in
  match r with
  | Ready a => k a
  | Silent => sret (Ok Silent)
  | Blocked => sret (Ok Blocked)
  | NoFuel => sret (Ok NoFuel)
  end.
Notation "'let&' x ':=' m 'in' k" := (abind m (λ x, k))
  (at level 10, x pattern, m at level 100, k at level 200) : sechat_scope.

Lemma abind_ready {S A B E} (m : St S (result (awaited A) E)) (k : A → St S (result (awaited B) E)) s a s' :
  m s = (Ok (Ready a), s') → abind m k s = k a s'.
Proof. unfold abind, ebind. by intros ->. Qed.

Lemma abind_silent {S A B E} (m : St S (result (awaited A) E)) (k : A → St S (result (awaited B) E)) s s' :
  m s = (Ok Silent, s') → abind m k s = (Ok Silent, s').
Proof. unfold abind, ebind. by intros ->. Qed.

(** One item of the websocket stream; [WsEnd] is its end ([next()] yields
    [None]), [WsClose] a close frame. *)
Inductive ws_item :=
| WsBinary (data : bytes)
| WsClose
| WsOther
| WsError (e : rstring)
| WsEnd.

(** The limits [connect_to_server] configures, and [connect_async_with_config]:
    the items the server will send on the new socket, or the error's text. *)
Record WebSocketConfig := mkWebSocketConfig { max_message_size : option Z; max_frame_size : option Z }.
Abbreviation connector := (rstring → WebSocketConfig → result (list ws_item) rstring).

(** What the surroundings decide: whether SECHAT_DEV_INSECURE is set, the
    outcome of each send on the socket, and the [Debug] text of an error. *)
Class ServerEnv := {
  dev_insecure : bool;
  ws_fault : nat → option rstring;
  crypto_debug : CryptoErrors → rstring
}.

Section ServerClient.
Context `{Prim : Primitives} `{EnvI : !Env} `{SledI : Sled} `{SrvEnv : ServerEnv}.
Context `{MsgRmp : !Rmp Message} `{BlobRmp : !Rmp BlobPayload}.
Context `{StcRmp : !Rmp ServerToClient} `{CtsRmp : !Rmp ClientToServer}.

Record OnlinePeer := mkOnlinePeer { op_keys : PeerPublic; op_address : rstring; op_last_seen : Z }.

(** [PEERS], [MY_ADDRESS], the events sent to the client, the socket. *)
Record Srv := mkSrv {
  s_world : World;
  s_peers : list OnlinePeer;
  s_address : option rstring;
  s_events : list ServerEvent;
  s_in : list ws_item;
  s_sends : nat;
  s_wire : list bytes
}.

Definition put_world (s : Srv) (w : World) : Srv :=
  mkSrv w (s_peers s) (s_address s) (s_events s) (s_in s) (s_sends s) (s_wire s).
Definition with_world {A} (m : St World A) : St Srv A :=
  λ s, let '(a, w) := m (s_world s) in (a, put_world s w).
Definition set_peers (l : list OnlinePeer) : St Srv unit :=
  smodify (λ s, mkSrv (s_world s) l (s_address s) (s_events s) (s_in s) (s_sends s) (s_wire s)).
Definition set_address (a : option rstring) : St Srv unit :=
  smodify (λ s, mkSrv (s_world s) (s_peers s) a (s_events s) (s_in s) (s_sends s) (s_wire s)).
(** [let _ = events.send(e).await]: the event is in the channel, or it is the
    one the task waits to put there. *)
Definition post (e : ServerEvent) : St Srv unit :=
  smodify (λ s, mkSrv (s_world s) (s_peers s) (s_address s) (s_events s ++ [e]) (s_in s) (s_sends s) (s_wire s)).
(** The channel is full and an event waits. *)
Definition events_stuck : St Srv bool := λ s, ((EVENT_CAPACITY <? length (s_events s))%nat, s).
Definition set_in (l : list ws_item) : St Srv unit :=
  smodify (λ s, mkSrv (s_world s) (s_peers s) (s_address s) (s_events s) l (s_sends s) (s_wire s)).
(** [connection.send(Message::Binary(data)).await] *)
Definition ws_send (data : bytes) : St Srv (result unit rstring) :=
  λ s, match ws_fault (s_sends s) with
       | Some e => (Err e, mkSrv (s_world s) (s_peers s) (s_address s) (s_events s) (s_in s)
                             (S (s_sends s)) (s_wire s))
       | None => (Ok tt, mkSrv (s_world s) (s_peers s) (s_address s) (s_events s) (s_in s)
                             (S (s_sends s)) (s_wire s ++ [data]))
       end.

(** ** The online table *)

Definition load_online_peers : St Srv (list OnlinePeer) :=
  let! now := with_world utc_now in
  let! s := sget in
  let peers := filter (λ p, i64_sub now (op_last_seen p) ≤ ONLINE_TTL_SECS) (s_peers s) in
  let! _ := set_peers peers in
  sret peers.

(** [iter_mut().find(..)]: update the first entry of the hash. *)
Fixpoint update_online (h : hash) (ip_port : rstring) (now : Z) (peers : list OnlinePeer) :
    option (list OnlinePeer) :=
  match peers with
  | [] => None
  | p :: peers' =>
      if decide (generate_peer_hash (op_keys p) = h)
      then Some (mkOnlinePeer (op_keys p) ip_port now :: peers')
      else option_map (cons p) (update_online h ip_port now peers')
  end.

Definition append_online_peer (h : hash) (ip_port : rstring) : St Srv (result unit ClientErrors) :=
  let? peer_data := smap_err (λ _, CE.UnknownPeer) (with_world (load_peer_data h)) in
  let! now := with_world utc_now in
  let! s := sget in
  let! _ := set_peers
    match update_online h ip_port now (s_peers s) with
    | Some peers => peers
    | None => s_peers s ++ [mkOnlinePeer peer_data ip_port now]
    end in
  sret (Ok tt).

Definition remove_online_peer (h : hash) : St Srv (result unit ClientErrors) :=
  let! s := sget in
  let! _ := set_peers (filter (λ p, generate_peer_hash (op_keys p) ≠ h) (s_peers s)) in
  sret (Ok tt).

Definition get_or_set_my_address (new_address : option rstring) : St Srv (option rstring) :=
  match new_address with
  | Some addr => let! _ := set_address (Some addr) in sret (Some addr)
  | None => let! s := sget in sret (s_address s)
  end.

(** ** Offline blobs *)

(** [(now - timestamp).abs() > 86400 * 30] *)
Definition blob_expired (now timestamp : Z) : bool :=
  86400 * 30 <? i64_abs (i64_sub now timestamp).

Definition handle_blob (blob : BlobPayload) (my_priv : StaticSecret) :
    St Srv (result unit ClientErrors) :=
  match blob with
  | BP.OfflineMessage sender_pub_hash timestamp ciphertext signature =>
      let! now := with_world utc_now in
      if blob_expired now timestamp then sret (Err CE.ReplayDetected)
      else
        let? peer_data := smap_err (λ e, CE.PeerLoadFailed (crypto_debug e))
          (with_world (load_peer_data sender_pub_hash)) in
        let? sig := sret (ok_or CE.InvalidSignature (sig_from_slice signature)) in
        let? _ := sret (map_err (λ _, CE.InvalidSignature)
          (verify_challenge (peer_verifying peer_data) (offline_data ciphertext timestamp) sig)) in
        let? storage_key := sret (map_err (λ _, CE.KeyDerivationFailed)
          (load_storage_key (peer_public peer_data) my_priv)) in
        let? plaintext := sret (map_err (λ _, CE.DecryptionFailed)
          (decrypt_message_stored ciphertext storage_key)) in
        let? sender_msg := sret (map_err (λ _, CE.InvalidMessageFormat) (rmp_from_slice plaintext)) in
        let msg := from_parts (msg_text sender_msg) Peer timestamp in
        let? db := smap_err (λ e, CE.ChatStorageFailed (crypto_debug e))
          (with_world (load_peer_chat_file sender_pub_hash)) in
        let? _ := smap_err (λ e, CE.ChatStorageFailed (crypto_debug e))
          (with_world (insert_message_stored msg storage_key db)) in
        let! _ := post (SE.BlobStored sender_pub_hash) in
        sret (Ok tt)
  | BP.Purge sender_pub_hash signature timestamp =>
      let! now := with_world utc_now in
      if blob_expired now timestamp then sret (Err CE.ReplayDetected)
      else
        let? peer_data := smap_err (λ _, CE.UnknownPeer) (with_world (load_peer_data sender_pub_hash)) in
        let? sig := sret (ok_or CE.InvalidSignature (sig_from_slice signature)) in
        let? _ := sret (map_err (λ _, CE.InvalidSignature)
          (verify_challenge (peer_verifying peer_data) (purge_data timestamp) sig)) in
        let? _ := smap_err (λ e, CE.ChatStorageFailed (crypto_debug e))
          (with_world (purge_peer_chat sender_pub_hash)) in
        sret (Ok tt)
  end.

Definition process_blob (blob : bytes) (privkey : StaticSecret) : St Srv (result unit ClientErrors) :=
  let? decrypted := sret (map_err (λ _, CE.DecryptionFailed) (decrypt_blob blob privkey)) in
  let? payload := sret (map_err CE.DeserializationFailed (rmp_from_slice decrypted)) in
  handle_blob payload privkey.

(** [ClientToServer::new(m, None)] as the response *)
Definition respond (m : ClientMessage) : St Srv (result (option ClientToServer) ClientErrors) :=
  let! r := with_world (client_to_server_new m None) in sret (Ok (Some r)).

Definition denied_reason (reason : RequestDeniedReason) : rstring :=
  match reason with
  | PeerDeclined => str "Peer declined your p2p request"
  | DeniedTimeout => str "Request timed out try again later"
  end.

Definition handle_message (msg : ServerToClient) (privkey : StaticSecret) :
    St Srv (result (option ClientToServer) ClientErrors) :=
  match stc_payload msg with
  | SM.PendingBlob blob_id blob _ =>
      let! _ := process_blob blob privkey in
      respond (generate_ack_blob blob_id)
  | SM.PendingBlobsEnd => sret (Ok None)
  | SM.PeerOnline h ip_port => let? _ := append_online_peer h ip_port in sret (Ok None)
  | SM.PeerOffline h => let? _ := remove_online_peer h in sret (Ok None)
  | SM.PunchHole token peer_hash ip_port punchtimestamp =>
      let! _ := post (SE.PunchHole token peer_hash ip_port punchtimestamp) in sret (Ok None)
  | SM.AuthOk observed_address =>
      let! _ := get_or_set_my_address (Some observed_address) in sret (Ok None)
  | SM.AuthFailed reason => sret (Err (CE.AuthFailed reason))
  | SM.Error reason => sret (Err (CE.ServerError reason))
  | SM.RequestHolePunch pub_key token =>
      let! r := with_world (load_peer_data pub_key) in
      respond (if is_ok r then CM.RequestAccepted token else CM.RequestDenied token)
  | SM.RequestDenied _ pub_key reason =>
      let! _ := post (SE.HolePunchDenied pub_key (denied_reason reason)) in sret (Ok None)
  | SM.RelayData sender_hash payload =>
      let! _ := post (SE.RelayData sender_hash payload) in sret (Ok None)
  end.

(** ** The connection *)

Definition ws_url (server_address : rstring) : rstring :=
  let scheme := if dev_insecure then str "ws" else str "wss" in
  scheme ++ str "://" ++ server_address ++ str "/ws".

Definition connect_to_server (connect_async : connector) (server_address : rstring) :
    result (list ws_item) ClientErrors :=
  let config := mkWebSocketConfig (Some (256 * 1024)) (Some (256 * 1024)) in
  map_err CE.ConnectionFailed (connect_async (ws_url server_address) config).

Definition parse_server_message (msg : bytes) : result ServerToClient ClientErrors :=
  map_err CE.DeserializationFailed (rmp_from_slice msg).

(** The first message of the incoming items, and what is left; without one, the
    caller waits: there is no timeout. *)
Fixpoint receive_from (items : list ws_item) : result (awaited ServerToClient) ClientErrors * list ws_item :=
  match items with
  | [] => (Ok Silent, [])
  | WsEnd :: items' => (Err CE.ConnectionClosed, items')
  | WsError e :: items' => (Err (CE.ReadFailed e), items')
  | WsBinary data :: items' => (map_ok Ready (parse_server_message data), items')
  | WsClose :: items' => (Err CE.ConnectionClosed, items')
  | WsOther :: items' => receive_from items'
  end.

Definition receive_message : St Srv (result (awaited ServerToClient) ClientErrors) :=
  let! s := sget in
  let '(r, items') := receive_from (s_in s) in
  let! _ := set_in items' in
  sret r.

(** Serialize a message and send it. *)
Definition send_wrapped (wrapped : ClientToServer) : St Srv (result unit ClientErrors) :=
  let? b := sret (map_err CE.SerializationFailed (rmp_to_vec wrapped)) in
  smap_err CE.WriteFailed (ws_send b).

Definition ack_blob (blob_id : rstring) : St Srv (result unit ClientErrors) :=
  let! wrapped := with_world (client_to_server_new (generate_ack_blob blob_id) None) in
  send_wrapped wrapped.

(** The loop that drains the pending blobs.  [orchestrate] awaits [run_client]
    meanwhile, so nobody reads the event channel. *)
Fixpoint drain_blobs (fuel : nat) (privkey : StaticSecret) : St Srv (result (awaited unit) ClientErrors) :=
  match fuel with
  | O => sret (Ok NoFuel)
  | S fuel' =>
      let& msg := receive_message in
      match stc_payload msg with
      | SM.PendingBlobsEnd => sret (Ok (Ready tt))
      | SM.PendingBlob blob_id blob _ =>
          let! _ := process_blob blob privkey in
          let! stuck := events_stuck in
          if stuck : bool then sret (Ok Blocked)
          else
            let? _ := ack_blob blob_id in
            drain_blobs fuel' privkey
      | SM.AuthFailed reason => sret (Err (CE.AuthFailed reason))
      | SM.Error reason => sret (Err (CE.ServerError reason))
      | _ => drain_blobs fuel' privkey
      end
  end.

(** [announce_override.unwrap_or_else(..)] *)
Definition announce_address (observed_address : rstring) (udp_port : Z) (announce_override : option rstring) :
    rstring :=
  match announce_override with
  | Some a => a
  | None => match rsplit_once colon observed_address with
            | Some (ip, _) => ip ++ str ":" ++ display_int udp_port
            | None => observed_address
            end
  end.

Definition server_initial_handshake (public : PublicKey) (signing : SigningKey) (privkey : StaticSecret)
    (udp_port : Z) (announce_override : option rstring) : St Srv (result (awaited rstring) ClientErrors) :=
  let! timestamp := with_world utc_now in
  let? auth_message := smap_err (λ _, CE.KeyDerivationFailed)
    (with_world (generate_authenticate_message (pk_bytes public) (vk_bytes (verifying_key signing))
       signing timestamp)) in
  let? _ := send_wrapped auth_message in
  let& response := receive_message in
  let? observed_address := sret
    match stc_payload response with
    | SM.AuthOk observed_address => Ok observed_address
    | SM.AuthFailed reason => Err (CE.AuthFailed reason)
    | _ => Err CE.UnexpectedHandshakeMessage
    end in
  let announce := announce_address observed_address udp_port announce_override in
  let! _ := get_or_set_my_address (Some announce) in
  let! _ := post (SE.Authenticated observed_address) in
  let! stuck := events_stuck in
  if stuck : bool then sret (Ok Blocked)
  else
    let! s := sget in
    let& _ := drain_blobs (S (length (s_in s))) privkey in
    let? peers := smap_err (λ e, CE.PeerLoadFailed (crypto_debug e)) (with_world load_peers) in
    let! timestamp := with_world utc_now in
    let? _ := efor peers (λ peer,
      let? msg := sret (map_err (λ _, CE.KeyDerivationFailed)
        (generate_announce_message privkey (peer_public peer) timestamp observed_address)) in
      let! wrapped := with_world (client_to_server_new msg None) in
      send_wrapped wrapped) in
    sret (Ok (Ready observed_address)).

(** ** The tasks of [run_client]

    A queue is the list of what is sent into it; the flag beside an item says
    whether the receiving end was still there. *)

(** The responses queued, in order. *)
Fixpoint main_dispatch_loop (in_rx : list (ServerToClient * bool)) (privkey : StaticSecret) :
    St Srv (list ClientToServer) :=
  match in_rx with
  | [] => sret []
  | (msg, out_ok) :: in_rx' =>
      let! r := handle_message msg privkey in
      match r with
      | Ok (Some response) =>
          if out_ok
          then let! rest := main_dispatch_loop in_rx' privkey in sret (response :: rest)
          else sret []
      | Ok None | Err _ => main_dispatch_loop in_rx' privkey
      end
  end.

(** One tick's announcements; the flag is false when the queue is closed. *)
Fixpoint announce_all (privkey : StaticSecret) (timestamp : Z) (address : rstring) (peers : list PeerPublic)
    (out_ok : nat → bool) : St Srv (list ClientToServer * bool) :=
  match peers with
  | [] => sret ([], true)
  | peer :: peers' =>
      match generate_announce_message privkey (peer_public peer) timestamp address with
      | Err _ => announce_all privkey timestamp address peers' out_ok
      | Ok msg =>
          let! m := with_world (client_to_server_new msg None) in
          if out_ok (length peers')
          then let! (rest, go) := announce_all privkey timestamp address peers' out_ok in
               sret (m :: rest, go)
          else sret ([], false)
      end
  end.

(** The body of [presence_refresh_loop]: what one tick queues. *)
Definition presence_tick (privkey : StaticSecret) (out_ok : nat → bool) :
    St Srv (list ClientToServer * bool) :=
  let! a := get_or_set_my_address None in
  match a with
  | None => sret ([], true)
  | Some address =>
      let! peers := with_world load_peers in
      match peers with
      | Err _ => sret ([], true)
      | Ok peers =>
          let! timestamp := with_world utc_now in
          announce_all privkey timestamp address peers out_ok
      end
  end.

Fixpoint presence_refresh_loop (ticks : list (nat → bool)) (privkey : StaticSecret) :
    St Srv (list ClientToServer) :=
  match ticks with
  | [] => sret []
  | out_ok :: ticks' =>
      let! (ms, go) := presence_tick privkey out_ok in
      if go : bool then let! rest := presence_refresh_loop ticks' privkey in sret (ms ++ rest)
      else sret ms
  end.

Fixpoint write_loop (reader : list ClientToServer) : St Srv unit :=
  match reader with
  | [] => sret tt
  | msg :: reader' =>
      match rmp_to_vec msg with
      | Err _ => write_loop reader'
      | Ok b =>
          let! r := ws_send b in
          match r with
          | Ok _ => write_loop reader'
          | Err _ => sret tt
          end
      end
  end.

(** What [read_loop] hands to the dispatcher, while its queue is open. *)
Fixpoint read_loop (reader : list (ws_item * bool)) : list ServerToClient :=
  match reader with
  | [] => []
  | (WsBinary data, ok) :: reader' =>
      match parse_server_message data with
      | Ok parsed_msg => if ok then parsed_msg :: read_loop reader' else []
      | Err _ => read_loop reader'
      end
  | (WsClose, _) :: _ => []
  | (WsOther, _) :: reader' => read_loop reader'
  | (WsError _, _) :: _ | (WsEnd, _) :: _ => []
  end.

(** [run_client] up to the spawn of its tasks. *)
Definition run_client (connect_async : connector) (public : PublicKey) (signing : SigningKey)
    (privkey : StaticSecret) (server_address : rstring) (udp_port : Z) (announce_override : option rstring) :
    St Srv (result (awaited unit) ClientErrors) :=
  let? connection := sret (connect_to_server connect_async server_address) in
  let! _ := set_in connection in
  let& _ := server_initial_handshake public signing privkey udp_port announce_override in
  sret (Ok (Ready tt)).

(** The supervisor: whichever task ends first, one [Disconnected]. *)
Definition run_client_supervisor : St Srv unit := post SE.Disconnected.

(** ** Lemmas *)

Lemma with_world_step {A} (m : St World A) s a w :
  m (s_world s) = (a, w) → with_world m s = (a, put_world s w).
Proof. unfold with_world. by intros ->. Qed.

Lemma with_world_eq {A} (m : St World A) s : with_world m s = ((m (s_world s)).1, put_world s (m (s_world s)).2).
Proof. unfold with_world. by destruct (m (s_world s)). Qed.

(** Processing a blob touches the disk and the events only. *)
Definition same_conn (s s' : Srv) : Prop :=
  s_in s' = s_in s ∧ s_sends s' = s_sends s ∧ s_wire s' = s_wire s ∧ s_peers s' = s_peers s ∧
  s_address s' = s_address s.

#[export] Instance same_conn_preorder : PreOrder same_conn.
Proof. split; [done|]. unfold same_conn. intros ??? (?&?&?&?&?) (?&?&?&?&?). split_and!; congruence. Qed.

Lemma with_world_conn {A} (m : St World A) : respects same_conn (with_world m).
Proof. intros s. by rewrite with_world_eq. Qed.

Lemma handle_blob_conn blob privkey : respects same_conn (handle_blob blob privkey).
Proof.
  destruct blob; unfold handle_blob; repeat respects_step; first [apply with_world_conn | by intros ?].
Qed.

Lemma process_blob_conn blob privkey : respects same_conn (process_blob blob privkey).
Proof. unfold process_blob. repeat respects_step. apply handle_blob_conn. Qed.

(** What receiving does with the items: a message comes after items that are
    skipped; to wait is to have skipped them all. *)
Lemma receive_from_spec items :
  match receive_from items with
  | (Ok (Ready m), rest) => ∃ n d, items = replicate n WsOther ++ WsBinary d :: rest ∧ parse_server_message d = Ok m
  | (Ok Silent, rest) => items = replicate (length items) WsOther ∧ rest = []
  | (Ok _, _) => False
  | (Err _, _) => True
  end.
Proof.
  induction items as [|[d| | |e|] items IH]; cbn [receive_from]; try done.
  - destruct (parse_server_message d) as [m|] eqn:Hp; [|done]. by exists 0%nat, d.
  - destruct (receive_from items) as [[[m| | |]|] rest]; try done.
    + destruct IH as (n & d & -> & Hd). by exists (S n), d.
    + destruct IH as [IH ->]. split; [|done]. cbn [length replicate]. by rewrite <- IH.
Qed.

Lemma send_wrapped_in m s : s_in (send_wrapped m s).2 = s_in s.
Proof. unfold send_wrapped, ws_send. run. destruct (rmp_to_vec m); simpl; [|done]. by destruct (ws_fault _). Qed.

Lemma ack_blob_in id s : s_in (ack_blob id s).2 = s_in s.
Proof. unfold ack_blob, sbind. rewrite with_world_eq. by rewrite send_wrapped_in. Qed.

(** A blob adds at most one event. *)
Definition silent (s s' : Srv) : Prop := s_events s' = s_events s.
#[export] Instance silent_preorder : PreOrder silent.
Proof. split; [done|]. unfold silent. intros ??? H1 H2. congruence. Qed.

(** The events a message handler makes. *)
Definition handler_event (e : ServerEvent) : Prop :=
  match e with
  | SE.PunchHole _ _ _ _ | SE.HolePunchDenied _ _ | SE.BlobStored _ | SE.RelayData _ _ => True
  | _ => False
  end.

Definition one_event {A} (m : St Srv A) : Prop :=
  ∀ s, ∃ new, s_events (m s).2 = s_events s ++ new ∧ (length new ≤ 1)%nat ∧ Forall handler_event new.

Lemma silent_one_event {A} (m : St Srv A) : respects silent m → one_event m.
Proof. intros Hm s. exists []. rewrite (Hm s), app_nil_r. split_and!; [done|simpl; lia|constructor]. Qed.

Lemma ebind_one_event {A B E} (m : St Srv (result A E)) (k : A → St Srv (result B E)) :
  respects silent m → (∀ a, one_event (k a)) → one_event (ebind m k).
Proof.
  intros Hm Hk s. unfold ebind. specialize (Hm s). unfold silent in Hm. destruct (m s) as [[a|e] s1]; simpl in Hm.
  - destruct (Hk a s1) as (new & -> & Hn). exists new. by rewrite Hm.
  - exists []. simpl. rewrite Hm, app_nil_r. split_and!; [done|lia|constructor].
Qed.

Lemma sbind_one_event {A B} (m : St Srv A) (k : A → St Srv B) :
  respects silent m → (∀ a, one_event (k a)) → one_event (sbind m k).
Proof.
  intros Hm Hk s. unfold sbind. specialize (Hm s). unfold silent in Hm. destruct (m s) as [a s1]; simpl in Hm.
  destruct (Hk a s1) as (new & -> & Hn). exists new. by rewrite Hm.
Qed.

Lemma one_event_sbind {A B} (m : St Srv A) (k : A → St Srv B) :
  one_event m → (∀ a, respects silent (k a)) → one_event (sbind m k).
Proof.
  intros Hm Hk s. unfold sbind. destruct (Hm s) as (new & Hn & H). destruct (m s) as [a s1]. exists new.
  by rewrite (Hk a s1).
Qed.

Lemma with_world_silent {A} (m : St World A) : respects silent (with_world m).
Proof. intros s. by rewrite with_world_eq. Qed.

(** Follow the steps of a blob handler down to its last event. *)
Ltac one_event_step :=
  match goal with
  | |- one_event (ebind _ _) => apply ebind_one_event; [|intros ?]
  | |- one_event (sbind (post _) _) => intros s; eexists [_]; split_and!; [reflexivity|simpl; lia|by repeat constructor]
  | |- one_event (sbind _ _) => apply sbind_one_event; [|intros ?]
  | |- one_event (if ?b then _ else _) => destruct b
  | |- one_event (sret _) => apply silent_one_event; by intros ?
  | |- respects silent _ => repeat respects_step; first [apply with_world_silent | by intros ?]
  end.

Lemma process_blob_one_event blob privkey : one_event (process_blob blob privkey).
Proof.
  unfold process_blob. do 2 (apply ebind_one_event; [by intros ?|intros ?]).
  match goal with |- one_event (handle_blob ?p _) => destruct p end; unfold handle_blob; repeat one_event_step.
Qed.

Lemma handle_message_one_event msg privkey : one_event (handle_message msg privkey).
Proof.
  unfold handle_message. destruct (stc_payload msg); unfold append_online_peer, remove_online_peer,
    get_or_set_my_address, respond; try (repeat one_event_step; fail).
  apply one_event_sbind; [apply process_blob_one_event|]. intros ?. repeat respects_step. apply with_world_silent.
Qed.

(** The blobs that wait in the stream. *)
Definition item_blob (i : ws_item) : option rstring :=
  match i with
  | WsBinary d =>
      match parse_server_message d with
      | Ok m => match stc_payload m with SM.PendingBlob id _ _ => Some id | _ => None end
      | Err _ => None
      end
  | _ => None
  end.
Definition pending (items : list ws_item) : nat := length (omap item_blob items).

(** Messages the drain loop goes on after, and the blobs it acks. *)
Definition keeps_draining (m : ServerToClient) : Prop :=
  match stc_payload m with
  | SM.PendingBlobsEnd | SM.AuthFailed _ | SM.Error _ => False
  | _ => True
  end.
Definition blob_id_of (m : ServerToClient) : option rstring :=
  match stc_payload m with SM.PendingBlob id _ _ => Some id | _ => None end.

(** An item that neither ends the stream nor the drain. *)
Definition goes_on (i : ws_item) : Prop :=
  match i with
  | WsOther => True
  | WsBinary d => match parse_server_message d with Ok m => keeps_draining m | Err _ => False end
  | _ => False
  end.

Lemma goes_on_skipped n : Forall goes_on (replicate n WsOther).
Proof. by apply Forall_replicate. Qed.

Lemma skipped_blobs n : omap item_blob (replicate n WsOther) = [].
Proof. induction n as [|n IH]; [done|exact IH]. Qed.

(** Receiving consumes the stream. *)
Lemma receive_from_ready items m rest :
  receive_from items = (Ok (Ready m), rest) →
  (length rest < length items)%nat ∧ pending items = (length (option_list (blob_id_of m)) + pending rest)%nat ∧
  (Forall goes_on items ↔ keeps_draining m ∧ Forall goes_on rest).
Proof.
  intros Hr. pose proof (receive_from_spec items) as Hs. rewrite Hr in Hs. destruct Hs as (n & d & -> & Hd).
  split_and!.
  - rewrite length_app. cbn. lia.
  - unfold pending. rewrite omap_app, skipped_blobs. cbn [app]. rewrite omap_cons. unfold item_blob at 1. rewrite Hd. unfold blob_id_of. by destruct (stc_payload m).
  - rewrite Forall_app, Forall_cons. cbn [goes_on]. rewrite Hd. split; [tauto|]. intros []. by split; [apply goes_on_skipped|].
Qed.

Lemma receive_from_silent items rest : receive_from items = (Ok Silent, rest) → Forall goes_on items ∧ rest = [].
Proof.
  intros Hr. pose proof (receive_from_spec items) as Hs. rewrite Hr in Hs. destruct Hs as [-> ->].
  split; [apply goes_on_skipped|done].
Qed.

(** Items that go on give a message or let the receiver wait. *)
Lemma receive_from_goes_on items :
  Forall goes_on items → ∃ r rest, receive_from items = (Ok r, rest) ∧ match r with Ready _ | Silent => True | _ => False end.
Proof.
  induction 1 as [|[d| | |e|] items Hi _ IH]; try done; [eexists _, _; by split; [reflexivity|]|].
  cbn [receive_from goes_on] in *. destruct (parse_server_message d); [|done]. eexists _, _. by split; [reflexivity|].
Qed.

Lemma receive_message_eq s :
  receive_message s = ((receive_from (s_in s)).1,
    mkSrv (s_world s) (s_peers s) (s_address s) (s_events s) (receive_from (s_in s)).2 (s_sends s) (s_wire s)).
Proof. unfold receive_message. run. by destruct (receive_from (s_in s)). Qed.

Lemma send_wrapped_events m s : s_events (send_wrapped m s).2 = s_events s.
Proof. unfold send_wrapped, ws_send. run. destruct (rmp_to_vec m); simpl; [|done]. by destruct (ws_fault _). Qed.

Lemma ack_blob_events id s : s_events (ack_blob id s).2 = s_events s.
Proof. unfold ack_blob, sbind. rewrite with_world_eq. by rewrite send_wrapped_events. Qed.

(** How a wait of the handshake ends: not for lack of fuel; for room only when
    [extra] and a place for each pending blob exceed the event channel; for the
    server only when every item was taken and none of them was an end. *)
Definition wait_ends {A} (extra : nat) (items : list ws_item) (x : result (awaited A) ClientErrors * Srv) : Prop :=
  x.1 ≠ Ok NoFuel ∧
  (x.1 = Ok Blocked → (EVENT_CAPACITY < extra + pending items)%nat) ∧
  (x.1 = Ok Silent → Forall goes_on items ∧ s_in x.2 = []).

Lemma wait_ends_returned {A} extra items (r : result (awaited A) ClientErrors) s :
  match r with Ok (Ready _) | Err _ => True | _ => False end → wait_ends extra items (r, s).
Proof. by destruct r as [[]|]. Qed.

(** Going on after a message. *)
Lemma wait_ends_after {A} extra extra' items m rest (x : result (awaited A) ClientErrors * Srv) :
  receive_from items = (Ok (Ready m), rest) → keeps_draining m →
  (extra' ≤ extra + length (option_list (blob_id_of m)))%nat → wait_ends extra' rest x → wait_ends extra items x.
Proof.
  intros (_ & Hp & Hg)%receive_from_ready Hk He (H1 & H2 & H3). split_and!; [done|intros Hb%H2; lia|].
  intros [Hf Hi]%H3. split; [by apply Hg|done].
Qed.

Lemma drain_blobs_ends fuel privkey s :
  (length (s_in s) < fuel)%nat → wait_ends (length (s_events s)) (s_in s) (drain_blobs fuel privkey s).
Proof.
  revert s. induction fuel as [|fuel IH]; intros s Hf; [lia|]. cbn [drain_blobs]. unfold abind at 1, ebind at 1.
  rewrite receive_message_eq. destruct (receive_from (s_in s)) as [[[msg| | |]|e] rest] eqn:Hr; cbn [fst snd];
    [|by split_and!; [..|intros _; apply receive_from_silent in Hr as [? ->]]|
     by pose proof (receive_from_spec (s_in s)) as Hsp; rewrite Hr in Hsp..|by apply wait_ends_returned].
  pose proof (receive_from_ready _ _ _ Hr) as (Hlen & _ & _). set (s1 := mkSrv _ _ _ _ rest _ _).
  assert (Hnext : keeps_draining msg → wait_ends (length (s_events s)) (s_in s) (drain_blobs fuel privkey s1)).
  { intros Hk. eapply wait_ends_after; [exact Hr|done| |apply IH; cbn; lia]. cbn. lia. }
  unfold keeps_draining in Hnext. destruct (stc_payload msg) as [| |id blob bts| | | | | | | |] eqn:Hp;
    try (by apply wait_ends_returned); try (by apply Hnext).
  assert (Hid : blob_id_of msg = Some id) by (unfold blob_id_of; by rewrite Hp).
  assert (Hk : keeps_draining msg) by (unfold keeps_draining; by rewrite Hp).
  unfold sbind. destruct (process_blob_conn blob privkey s1) as [Hin _].
  destruct (process_blob_one_event blob privkey s1) as (new & Hev & Hn & _).
  destruct (process_blob blob privkey s1) as [r s2]. cbn [snd] in Hin, Hev. unfold events_stuck.
  assert (Hl : (length (s_events s2) ≤ length (s_events s) + 1)%nat) by (rewrite Hev, length_app; cbn; lia).
  assert (Hafter : ∀ x : result (awaited unit) ClientErrors * Srv, wait_ends (length (s_events s2)) rest x →
    wait_ends (length (s_events s)) (s_in s) x).
  { intros x. eapply wait_ends_after; [exact Hr|done|]. rewrite Hid. cbn. lia. }
  destruct (Nat.ltb_spec EVENT_CAPACITY (length (s_events s2))); [apply Hafter; split_and!; [done|cbn; lia|done]|].
  unfold ebind. pose proof (ack_blob_in id s2) as Ha. pose proof (ack_blob_events id s2) as He.
  destruct (ack_blob id s2) as [[u|e] s3]; [|by apply wait_ends_returned]. cbn [snd] in Ha, He. apply Hafter.
  rewrite <- He. assert (Hi3 : s_in s3 = rest) by (rewrite Ha, Hin; done). rewrite <- Hi3. apply IH. rewrite Hi3. lia.
Qed.

Lemma send_wrapped_ok m s b :
  ws_fault (s_sends s) = None → rmp_to_vec m = Ok b →
  send_wrapped m s = (Ok tt, mkSrv (s_world s) (s_peers s) (s_address s) (s_events s) (s_in s)
                               (S (s_sends s)) (s_wire s ++ [b])).
Proof. intros Hf Hb. unfold send_wrapped, ws_send. run. by rewrite Hb, Hf. Qed.

Lemma ack_blob_ok id s :
  (∀ n, ws_fault n = None) → (∀ m : ClientToServer, ∃ b, rmp_to_vec m = Ok b) → ∃ s', ack_blob id s = (Ok tt, s').
Proof.
  intros Hws Hser. unfold ack_blob, sbind. rewrite with_world_eq. edestruct Hser as [b Hb].
  eexists. erewrite send_wrapped_ok by (apply Hws || exact Hb). done.
Qed.

(** Over items none of which is an end, the drain waits for the server. *)
Lemma drain_blobs_waits fuel privkey s :
  (∀ n, ws_fault n = None) → (∀ m : ClientToServer, ∃ b, rmp_to_vec m = Ok b) →
  (length (s_in s) < fuel)%nat → Forall goes_on (s_in s) →
  (length (s_events s) + pending (s_in s) ≤ EVENT_CAPACITY)%nat →
  ∃ s', drain_blobs fuel privkey s = (Ok Silent, s').
Proof.
  intros Hws Hser. revert s. induction fuel as [|fuel IH]; intros s Hf Hg Hcap; [lia|]. cbn [drain_blobs].
  destruct (receive_from_goes_on _ Hg) as (r & rest & Hr & Hk). pose proof (receive_message_eq s) as Heq.
  rewrite Hr in Heq. cbn [fst snd] in Heq. set (s1 := mkSrv _ _ _ _ rest _ _) in Heq.
  destruct r as [m| | |]; [|by erewrite abind_silent by exact Heq; eexists|done..].
  erewrite abind_ready by exact Heq. destruct (receive_from_ready _ _ _ Hr) as (Hlen & Hp & Hgo).
  apply Hgo in Hg as [Hkd Hg]. assert (Hnext : blob_id_of m = None → ∃ s', drain_blobs fuel privkey s1 = (Ok Silent, s')).
  { intros Hn. rewrite Hn in Hp. cbn [option_list length Nat.add] in Hp. apply IH; cbn [s1 s_in s_events]; [lia|done|lia]. }
  unfold keeps_draining in Hkd. unfold blob_id_of in Hnext, Hp.
  destruct (stc_payload m) as [| |id blob bts| | | | | | | |]; try done; try (by apply Hnext). change (length (option_list (Some id))) with 1%nat in Hp.
  unfold sbind. destruct (process_blob_conn blob privkey s1) as (Hin & _).
  destruct (process_blob_one_event blob privkey s1) as (new & Hev & Hn & _).
  destruct (process_blob blob privkey s1) as [r s2]. cbn [snd] in Hin, Hev. unfold events_stuck.
  assert (Hl : (length (s_events s2) ≤ length (s_events s) + 1)%nat) by (rewrite Hev, length_app; cbn; lia).
  destruct (Nat.ltb_spec EVENT_CAPACITY (length (s_events s2))); [lia|].
  destruct (ack_blob_ok id s2 Hws Hser) as [s3 Ha]. erewrite ebind_step by exact Ha.
  pose proof (ack_blob_in id s2) as Hi3. pose proof (ack_blob_events id s2) as He3. rewrite Ha in Hi3, He3. cbn [snd] in Hi3, He3.
  assert (Hi : s_in s3 = rest) by (rewrite Hi3, Hin; done). apply IH; rewrite Hi, ?He3; [lia|done|lia].
Qed.

Lemma drain_blobs_acks `{!RmpLaws ServerToClient} privkey msgs bs end_b rest fuel s :
  (∀ n, ws_fault n = None) → (∀ m : ClientToServer, ∃ b, rmp_to_vec m = Ok b) →
  Forall keeps_draining msgs → Forall2 (λ m b, rmp_to_vec m = Ok b) msgs bs →
  (∃ ts, rmp_to_vec (mkServerToClient SM.PendingBlobsEnd ts) = Ok end_b) →
  s_in s = map WsBinary (bs ++ [end_b]) ++ rest → (length msgs < fuel)%nat →
  (length (s_events s) + length (omap blob_id_of msgs) ≤ EVENT_CAPACITY)%nat →
  ∃ s' acks frames, drain_blobs fuel privkey s = (Ok (Ready tt), s') ∧ s_in s' = rest ∧
    s_wire s' = s_wire s ++ frames ∧ Forall2 (λ m b, rmp_to_vec m = Ok b) acks frames ∧
    map cts_payload acks = map CM.AckBlob (omap blob_id_of msgs).
Proof.
  intros Hws Hser Hok Henc [ts Hend]. revert fuel s.
  induction Henc as [|m b msgs bs Hm Henc IH]; intros fuel s Hin Hfuel Hcap;
    (destruct fuel as [|fuel]; [simpl in Hfuel; lia|]); cbn [drain_blobs].
  { unfold abind, ebind, receive_message. run. rewrite Hin. cbn [app map receive_from].
    unfold parse_server_message. rewrite (rmp_roundtrip _ _ Hend). simpl.
    eexists _, [], []. split_and!; [done|done|by rewrite app_nil_r|constructor|done]. }
  inversion Hok as [|? ? Hk Hok']; subst. specialize (IH Hok').
  set (s1 := mkSrv (s_world s) (s_peers s) (s_address s) (s_events s)
    (map WsBinary (bs ++ [end_b]) ++ rest) (s_sends s) (s_wire s)).
  assert (Hrecv : receive_message s = (Ok (Ready m), s1)).
  { unfold receive_message. run. rewrite Hin. cbn [app map receive_from].
    unfold parse_server_message. by rewrite (rmp_roundtrip _ _ Hm). }
  erewrite abind_ready by exact Hrecv. simpl in Hfuel.
  assert (Hskip : blob_id_of m = None → ∃ s' acks frames,
    drain_blobs fuel privkey s1 = (Ok (Ready tt), s') ∧ s_in s' = rest ∧ s_wire s' = s_wire s ++ frames ∧
    Forall2 (λ m b, rmp_to_vec m = Ok b) acks frames ∧
    map cts_payload acks = map CM.AckBlob (omap blob_id_of (m :: msgs))).
  { intros Hn. rewrite omap_cons, Hn in Hcap. destruct (IH fuel s1 ltac:(done) ltac:(lia) Hcap) as (s' & acks & frames & ? & ? & ? & ? & ?).
    exists s', acks, frames. split_and!; try done. by rewrite omap_cons, Hn. }
  unfold keeps_draining in Hk. unfold blob_id_of in Hskip at 1.
  destruct (stc_payload m) as [| |id blob bts| | | | | | | |] eqn:Hp; try done; try (by apply Hskip).
  assert (Hid : blob_id_of m = Some id) by (unfold blob_id_of; by rewrite Hp).
  rewrite omap_cons, Hid in Hcap. simpl in Hcap.
  unfold sbind at 1. destruct (process_blob_conn blob privkey s1) as (Hi & Hsd & Hw & _).
  destruct (process_blob_one_event blob privkey s1) as (new & Hev & Hn & _).
  destruct (process_blob blob privkey s1) as [r s2]. simpl in Hi, Hsd, Hw, Hev.
  unfold sbind at 1, events_stuck.
  destruct (Nat.ltb_spec EVENT_CAPACITY (length (s_events s2))); [rewrite Hev, length_app in *; lia|].
  unfold ack_blob, ebind, sbind. rewrite with_world_eq.
  set (ackm := (client_to_server_new (generate_ack_blob id) None (s_world s2)).1).
  destruct (Hser ackm) as [ab Hab]. erewrite send_wrapped_ok by (apply Hws || exact Hab).
  match goal with |- context [drain_blobs fuel privkey ?s3] => set (s3' := s3) end.
  destruct (IH fuel s3') as (s' & acks & frames & Hd & Hrest & Hwire & Hacks & Hids); [exact Hi|lia|cbn; rewrite Hev, length_app; lia|].
  exists s', (ackm :: acks), (ab :: frames). split_and!; [exact Hd|done| |by constructor|].
  - rewrite Hwire. simpl. rewrite Hw. simpl. by rewrite <- app_assoc.
  - rewrite omap_cons, Hid. simpl. by rewrite Hids.
Qed.
End ServerClient.

Section ServerTheorems.
Context `{Prim : Primitives} `{EnvI : !Env} `{SledI : Sled} `{SrvEnv : ServerEnv}.
Context `{MsgRmp : !Rmp Message} `{BlobRmp : !Rmp BlobPayload}.
Context `{StcRmp : !Rmp ServerToClient} `{CtsRmp : !Rmp ClientToServer}.

(** C23: A blob that cannot be processed does not wedge the account: during the
    connect-time drain every pending blob is acknowledged on the wire, in order
    and exactly once, whether or not it could be processed, and the drain ends
    at [PendingBlobsEnd], as long as there are no more blobs than the event
    channel has room for and the sends on the socket succeed; and a live
    [PendingBlob] is answered with its ack, whatever it contains. *)
Theorem blobs_always_acked `{!RmpLaws ServerToClient} privkey msgs bs end_b rest s :
  (∀ n, ws_fault n = None) → (∀ m : ClientToServer, ∃ b, rmp_to_vec m = Ok b) →
  Forall keeps_draining msgs → Forall2 (λ m b, rmp_to_vec m = Ok b) msgs bs →
  (∃ ts, rmp_to_vec (mkServerToClient SM.PendingBlobsEnd ts) = Ok end_b) →
  s_in s = map WsBinary (bs ++ [end_b]) ++ rest →
  (length (s_events s) + length (omap blob_id_of msgs) ≤ EVENT_CAPACITY)%nat →
  (∃ s' acks frames, drain_blobs (S (length (s_in s))) privkey s = (Ok (Ready tt), s') ∧ s_in s' = rest ∧
     s_wire s' = s_wire s ++ frames ∧ Forall2 (λ m b, rmp_to_vec m = Ok b) acks frames ∧
     map cts_payload acks = map CM.AckBlob (omap blob_id_of msgs)) ∧
  ∀ id blob bts ts s0, ∃ ack s', handle_message (mkServerToClient (SM.PendingBlob id blob bts) ts) privkey s0 =
     (Ok (Some ack), s') ∧ cts_payload ack = CM.AckBlob id.
Proof.
  intros Hws Hser Hok Henc Hend Hin Hcap. split.
  - eapply drain_blobs_acks; eauto. apply Forall2_length in Henc.
    rewrite Hin, length_app, length_map, length_app. simpl. lia.
  - intros id blob bts ts s0. unfold handle_message. cbn [stc_payload]. unfold sbind.
    destruct (process_blob blob privkey s0) as [r s1]. unfold respond, sbind. rewrite with_world_eq.
    eexists _, _. split; [reflexivity|done].
Qed.

Lemma auth_message_made public verif signing ts w :
  ∃ m w', generate_authenticate_message public verif signing ts w = (Ok m, w').
Proof. by eexists _, _. Qed.

(** The first message, if there is one, accepts the client. *)
Definition admits (items : list ws_item) : Prop :=
  match (receive_from items).1 with
  | Ok (Ready m) => match stc_payload m with SM.AuthOk _ => True | _ => False end
  | _ => True
  end.

(** C35: The connect-time handshake ends when the server ends it, and has no
    deadline of its own.  Whatever arrives on the socket, it returns an address
    or an error, with two exceptions: it waits for room in the event channel,
    which takes more pending blobs than the channel has free places; or it
    waits for the server, and then it has taken every item that arrived and
    none of them was a close, the end of the stream, an error, a message that
    does not parse, [AuthFailed], [Error] or [PendingBlobsEnd], so any of these
    makes it return.  Conversely, when the socket's sends succeed and nothing of
    that kind arrives (from a silent server, or from one that accepts the client
    and sends up to 99 blobs without the closing [PendingBlobsEnd]), it waits:
    no timer ends it. *)
Theorem handshake_ends_with_server public signing privkey udp_port ov s :
  let '(r, s') := server_initial_handshake public signing privkey udp_port ov s in
  r ≠ Ok NoFuel ∧
  (r = Ok Blocked → (EVENT_CAPACITY < length (s_events s) + 1 + pending (s_in s))%nat) ∧
  (r = Ok Silent → Forall goes_on (s_in s) ∧ s_in s' = []) ∧
  ((∀ n, ws_fault n = None) → (∀ m : ClientToServer, ∃ b, rmp_to_vec m = Ok b) →
   Forall goes_on (s_in s) → admits (s_in s) →
   (length (s_events s) + 1 + pending (s_in s) ≤ EVENT_CAPACITY)%nat → r = Ok Silent).
Proof.
  set (P := λ x : result (awaited rstring) ClientErrors * Srv,
    wait_ends (length (s_events s) + 1) (s_in s) x ∧
    ((∀ n, ws_fault n = None) → (∀ m : ClientToServer, ∃ b, rmp_to_vec m = Ok b) →
     Forall goes_on (s_in s) → admits (s_in s) →
     (length (s_events s) + 1 + pending (s_in s) ≤ EVENT_CAPACITY)%nat → x.1 = Ok Silent)).
  enough (HP : P (server_initial_handshake public signing privkey udp_port ov s)).
  { destruct (server_initial_handshake _ _ _ _ _ s). destruct HP as [(? & ? & ?) ?]. by split_and!. }
  unfold server_initial_handshake. unfold sbind at 1. rewrite with_world_eq.
  unfold ebind at 1, smap_err at 1. rewrite with_world_eq.
  destruct (auth_message_made (pk_bytes public) (vk_bytes (verifying_key signing)) signing (utc_now (s_world s)).1
    (s_world (put_world s (utc_now (s_world s)).2))) as (am & w1 & ->). cbn [fst snd map_err].
  unfold ebind at 1. match goal with |- context [send_wrapped am ?s0] =>
    pose proof (send_wrapped_in am s0) as Hi; pose proof (send_wrapped_events am s0) as He;
    pose proof (λ b, send_wrapped_ok am s0 b) as Hsend;
    destruct (send_wrapped am s0) as [[u|e] s1]; cbn [fst snd] in *; cycle 1 end.
  { split; [by apply wait_ends_returned|]. intros Hws Hser. destruct (Hser am) as [b Hb].
    discriminate (Hsend b (Hws _) Hb). }
  cbn in Hi, He. clear Hsend. unfold abind at 1, ebind at 1. rewrite receive_message_eq, Hi, He.
  destruct (receive_from (s_in s)) as [[[resp| | |]|e] rest] eqn:Hr; cbn [fst snd]; cycle 1.
  { split; [|done]. apply receive_from_silent in Hr as [? ->]. by split_and!. }
  1, 2: by pose proof (receive_from_spec (s_in s)) as Hsp; rewrite Hr in Hsp.
  { split; [by apply wait_ends_returned|]. intros _ _ (r & rest' & Hr' & _)%receive_from_goes_on. congruence. }
  assert (Ha : admits (s_in s) ↔ match stc_payload resp with SM.AuthOk _ => True | _ => False end)
    by (unfold admits; by rewrite Hr).
  apply receive_from_ready in Hr as Hrdy. destruct Hrdy as (_ & Hp & Hg).
  unfold ebind at 1, sret at 1. unfold blob_id_of in Hp. unfold keeps_draining in Hg.
  destruct (stc_payload resp) as [observed_address| | | | | | | | | |] eqn:Hpay;
    try (split; [by apply wait_ends_returned|intros _ _ _ Hadm; by apply Ha in Hadm]).
  change (length (option_list None) + pending rest)%nat with (pending rest) in Hp. clear Ha.
  unfold sbind at 1. cbn [get_or_set_my_address]. unfold sbind at 1, set_address, smodify, sret at 1.
  unfold sbind at 1, post, smodify. unfold sbind at 1, events_stuck. cbn [s_events s_in s_world s_peers s_address s_sends s_wire].
  rewrite length_app. cbn [length]. destruct (Nat.ltb_spec EVENT_CAPACITY (length (s_events s) + 1)).
  { split; [split_and!; [done|intros _; lia|done]|intros; lia]. }
  unfold sbind at 1, sget. unfold abind at 1, ebind at 1.
  match goal with |- context [drain_blobs ?f ?k ?s0] =>
    destruct (drain_blobs_ends f k s0) as (Hd & Hb & Hq); [cbn; lia|]; pose proof (drain_blobs_waits f k s0) as Hw;
    destruct (drain_blobs f k s0) as [r s3] end.
  cbn [s_events s_in fst snd] in Hd, Hb, Hq, Hw. rewrite length_app in Hb, Hw. cbn [length] in Hb, Hw.
  assert (Hconv : r ≠ Ok Silent → (∀ n, ws_fault n = None) → (∀ m : ClientToServer, ∃ b, rmp_to_vec m = Ok b) →
    Forall goes_on (s_in s) → (length (s_events s) + 1 + pending (s_in s) ≤ EVENT_CAPACITY)%nat → False).
  { intros Hn Hws Hser Hgo Hcap. destruct (Hw Hws Hser) as [s' [= -> _]]; [lia|by apply Hg|lia|done]. }
  destruct r as [[u'| | |]|e]; [| | |done|split; [by apply wait_ends_returned|intros; exfalso; by eapply Hconv]].
  - split; [|intros; exfalso; by eapply Hconv]. unfold ebind at 1, smap_err. rewrite with_world_eq.
    destruct (map_err _ _) as [peers|e]; [|by apply wait_ends_returned].
    unfold sbind at 1. rewrite with_world_eq. unfold ebind at 1.
    destruct (efor _ _ _) as [[]?]; by apply wait_ends_returned.
  - split; [|done]. split_and!; [done..|]. intros _. destruct (Hq eq_refl) as [Hgo Hin]. by split; [apply Hg|].
  - split; [|intros; exfalso; by eapply Hconv]. split_and!; [done|intros _; rewrite Hp; by apply Hb|done].
Qed.

(** The sender, the time, the signature and the signed bytes of a payload. *)
Definition blob_sender (b : BlobPayload) : hash :=
  match b with BP.OfflineMessage h _ _ _ | BP.Purge h _ _ => h end.
Definition blob_time (b : BlobPayload) : Z :=
  match b with BP.OfflineMessage _ t _ _ | BP.Purge _ _ t => t end.
Definition blob_signature (b : BlobPayload) : bytes :=
  match b with BP.OfflineMessage _ _ _ g | BP.Purge _ g _ => g end.
Definition blob_signed (b : BlobPayload) : bytes :=
  match b with BP.OfflineMessage _ t c _ => offline_data c t | BP.Purge _ _ t => purge_data t end.

(** A payload signed by the peer stored under its sender hash. *)
Definition blob_by_sender (w : World) (b : BlobPayload) : Prop :=
  ∃ peer sig, (load_peer_data (blob_sender b) (utc_now w).2).1 = Ok peer ∧
    sig_from_slice (blob_signature b) = Some sig ∧
    ed_verify (peer_verifying peer) (blob_signed b) sig = true.

(** The 30 days, exactly: for a clock between 1970 and 2^62 seconds a
    timestamp passes when it is at most that far from the clock, on either side,
    and for one more value, 2^63 seconds in the past, where the subtraction
    wraps. *)
Lemma blob_window now ts :
  0 ≤ now < 2 ^ 62 → i64_ok ts →
  blob_expired now ts = false ↔ Z.abs (now - ts) ≤ 30 * 86400 ∨ now - ts = two63.
Proof. intros Hn Ht. unfold blob_expired. rewrite Z.ltb_ge. by apply i64_distance. Qed.

(** The checks that both kinds of payload make first. *)
Lemma blob_checks {A} b (e1 : CryptoErrors → ClientErrors) (k : PeerPublic → St Srv (result A ClientErrors)) s r s' :
  (let! now := with_world utc_now in
   if blob_expired now (blob_time b) then sret (Err CE.ReplayDetected)
   else
     let? peer_data := smap_err e1 (with_world (load_peer_data (blob_sender b))) in
     let? sig := sret (ok_or CE.InvalidSignature (sig_from_slice (blob_signature b))) in
     let? _ := sret (map_err (λ _, CE.InvalidSignature)
       (verify_challenge (peer_verifying peer_data) (blob_signed b) sig)) in
     k peer_data) s = (r, s') →
  (w_fs (s_world s') = w_fs (s_world s) ∧ s_events s' = s_events s) ∨
  (blob_expired (clock (w_clock (s_world s))) (blob_time b) = false ∧ blob_by_sender (s_world s) b).
Proof.
  unfold sbind. rewrite with_world_eq. cbn [utc_now fst snd].
  destruct (blob_expired _ _) eqn:He; [intros [= _ <-]; by left|]. unfold ebind at 1, smap_err.
  match goal with |- context [with_world ?m ?s0] => set (s1 := s0); rewrite (with_world_eq m s1) end.
  pose proof (load_peer_data_fs (blob_sender b) (s_world s1)) as Hfs.
  destruct (load_peer_data (blob_sender b) (s_world s1)) as [[peer|e] w1] eqn:Hl; cbn [map_err fst snd];
    [|intros [= _ <-]; by left].
  unfold ebind at 1, sret at 1. destruct (sig_from_slice _) as [sig|] eqn:Hs; [|intros [= _ <-]; by left].
  cbn [ok_or]. unfold ebind, sret, verify_challenge.
  destruct (ed_verify _ _ sig) eqn:Hv; [|intros [= _ <-]; by left].
  intros _. right. split; [done|]. exists peer, sig. change (utc_now (s_world s)).2 with (s_world s1). rewrite Hl. done.
Qed.

(** C8: Only the known sender can touch the store, and only within 30 days:
    if handling a blob payload changes the file system or reports a stored
    message, then the payload carries a signature, over its content and
    timestamp, that verifies under the key of the peer stored for its sender
    hash, and its timestamp is at most 2592000 seconds from the reading of the
    clock the handler took; the one exception is the timestamp exactly 2^63
    seconds before it, where the [i64] subtraction wraps.  This holds under any
    file-system faults, for a clock between 1970 and 2^62 seconds. *)
Theorem blob_effects_authentic blob priv s r s' :
  let now := clock (w_clock (s_world s)) in
  0 ≤ now < 2 ^ 62 → i64_ok (blob_time blob) →
  handle_blob blob priv s = (r, s') →
  w_fs (s_world s') ≠ w_fs (s_world s) ∨ s_events s' ≠ s_events s →
  blob_by_sender (s_world s) blob ∧
  (Z.abs (now - blob_time blob) ≤ 2592000 ∨ blob_time blob = now - two63).
Proof.
  intros now Hn Ht Hr Hch. assert (Hok : blob_expired now (blob_time blob) = false ∧ blob_by_sender (s_world s) blob).
  { destruct blob as [h t c g|h g t]; unfold handle_blob in Hr.
    - apply (blob_checks (BP.OfflineMessage h t c g)) in Hr as [[]|]; tauto.
    - apply (blob_checks (BP.Purge h g t)) in Hr as [[]|]; tauto. }
  destruct Hok as [He Hs]. split; [done|]. apply blob_window in He as [He|He]; [by left|right; lia|done..].
Qed.

(** The client core is never told that a peer went online or offline:
    handling a server message only appends to the events, and never a
    [PeerOnline] or a [PeerOffline], whatever the message. *)
Theorem no_presence_events msg priv s :
  ∃ new, s_events (handle_message msg priv s).2 = s_events s ++ new ∧
    Forall (λ e, match e with SE.PeerOnline _ _ | SE.PeerOffline _ => False | _ => True end) new.
Proof.
  destruct (handle_message_one_event msg priv s) as (new & Hnew & _ & Hall). exists new. split; [done|].
  eapply Forall_impl; [exact Hall|]. by intros [].
Qed.
End ServerTheorems.

(** ** The online table *)

Section OnlineTable.
Context `{Prim : Primitives} `{EnvI : !Env} `{SledI : Sled} `{SrvEnv : ServerEnv}.

Definition online_hash (p : OnlinePeer) : hash := generate_peer_hash (op_keys p).

Lemma update_online_spec h a now l :
  match update_online h a now l with
  | Some l' => map online_hash l' = map online_hash l ∧
      ∃ p, p ∈ l' ∧ online_hash p = h ∧ op_address p = a ∧ op_last_seen p = now
  | None => h ∉ map online_hash l
  end.
Proof.
  induction l as [|p l IH]; simpl; [apply not_elem_of_nil|].
  case_decide as Hh; simpl.
  - split; [done|]. eexists. split; [apply list_elem_of_here|done].
  - destruct (update_online h a now l) as [l'|]; simpl.
    + destruct IH as [Hm (q & Hq & Hrest)]. rewrite Hm. split; [done|].
      exists q. split; [by apply list_elem_of_further|done].
    + apply not_elem_of_cons. split; [|done]. intros ->. by apply Hh.
Qed.

Lemma filter_hashes_NoDup (P : OnlinePeer → Prop) `{∀ p, Decision (P p)} l :
  NoDup (map online_hash l) → NoDup (map online_hash (filter P l)).
Proof.
  induction l as [|p l IH]; simpl; [done|]. intros [Hn Hd]%NoDup_cons. rewrite filter_cons.
  destruct (decide (P p)); [|by apply IH]. simpl. apply NoDup_cons. split; [|by apply IH].
  intros (q & Hq & Hin)%list_elem_of_fmap. apply list_elem_of_filter in Hin as [_ Hin].
  apply Hn. rewrite Hq. by apply list_elem_of_fmap_2.
Qed.

(** The online table stays a map from identities to addresses: with a
    consistent peer directory, no operation ever creates two entries for one
    identity, under any fault; a successful [append_online_peer] leaves an
    entry for exactly that identity with the given address and the time of the
    call; [remove_online_peer] leaves none; and [load_online_peers] keeps and
    returns exactly the entries seen at most 35 seconds before. *)
Theorem online_table_invariant (s : Srv) :
  store_wf (w_fs (s_world s)) → NoDup (map online_hash (s_peers s)) →
  (∀ h a, let '(r, s') := append_online_peer h a s in NoDup (map online_hash (s_peers s')) ∧
     (r = Ok tt → ∃ p i, p ∈ s_peers s' ∧ online_hash p = h ∧ op_address p = a ∧ op_last_seen p = clock i)) ∧
  (∀ h, let '(r, s') := remove_online_peer h s in NoDup (map online_hash (s_peers s')) ∧
     h ∉ map online_hash (s_peers s')) ∧
  (let '(l, s') := load_online_peers s in NoDup (map online_hash (s_peers s')) ∧ s_peers s' = l ∧
     ∀ p, p ∈ l ↔ p ∈ s_peers s ∧ i64_sub (clock (w_clock (s_world s))) (op_last_seen p) ≤ 35).
Proof.
  intros Hwf Hnd. split_and!.
  - intros h a. unfold append_online_peer, ebind, smap_err. rewrite with_world_eq.
    destruct (load_peer_data h (s_world s)) as [[peer|e] w1] eqn:Hl; cbn [map_err fst snd]; [|done].
    apply load_peer_data_inv in Hl as (_ & buf & Hf & Hlen & Hp).
    assert (Hhash : online_hash (mkOnlinePeer peer a (clock (w_clock w1))) = h) by (by eapply Hwf).
    unfold sbind. rewrite with_world_eq. unfold sget, set_peers, smodify, sret. cbn [utc_now fst snd put_world s_peers s_world].
    pose proof (update_online_spec h a (clock (w_clock w1)) (s_peers s)) as Hu.
    destruct (update_online _ _ _ _) as [l'|].
    + destruct Hu as [Hm (q & Hq & Hqs)]. rewrite Hm. split; [done|]. intros _. by exists q, (w_clock w1).
    + split.
      * rewrite map_app. apply NoDup_app. split_and!; [done| |apply NoDup_singleton].
        intros x Hx Hin. apply list_elem_of_singleton in Hin. simpl in Hin. subst x. apply Hu.
        by rewrite <- Hhash.
      * intros _. eexists _, (w_clock w1). split; [apply elem_of_app; right; apply list_elem_of_here|done].
  - intros h. cbn. split; [by apply filter_hashes_NoDup|].
    intros (q & Hq & Hin)%list_elem_of_fmap. apply list_elem_of_filter in Hin as [Hne _]. by apply Hne.
  - unfold load_online_peers, sbind. rewrite with_world_eq. cbn. split_and!; [by apply filter_hashes_NoDup|done|].
    intros p. rewrite list_elem_of_filter. unfold ONLINE_TTL_SECS. tauto.
Qed.
End OnlineTable.

(** ** Offline delivery, end to end *)

Section Offline.
Context `{Prim : Primitives} (EA EB : Env) `{SledI : Sled} `{SrvEnv : ServerEnv}.
Context `{MsgRmp : !Rmp Message} `{BlobRmp : !Rmp BlobPayload}.
Context `{!SigLaws, !DhLaws, !KeyLaws, !AeadLaws, !KdfLaws, !RmpLaws Message, !RmpLaws BlobPayload}.
Context (privA privB : StaticSecret) (skA : SigningKey) (vB : VerifyingKey).

Let pubA := public_of privA.
Let idA := identity_hash pubA (verifying_key skA).
Let viewA := mkPeerPublic pubA (verifying_key skA).
Let viewB := mkPeerPublic (public_of privB) vB.

(** What A's offline message is, inside its envelope. *)
Lemma offline_envelope text wA m wA' :
  @generate_offline_message _ EA _ _ _ viewB pubA privA text skA wA = (Ok m, wA') →
  ∃ blob payload cipher key b, cts_payload m = CM.SendBlob (generate_peer_hash viewB) blob ∧
    decrypt_blob blob privB = Ok payload ∧
    rmp_from_slice payload = Ok (BP.OfflineMessage idA (@clock _ EA (w_clock wA)) cipher
      (arr_data (sign_challenge skA (offline_data cipher (@clock _ EA (w_clock wA)))))) ∧
    load_storage_key pubA privB = Ok key ∧ decrypt_message_stored cipher key = Ok b ∧
    rmp_from_slice b = Ok (from_parts text You (@clock _ EA (w_clock wA))).
Proof.
  unfold generate_offline_message. erewrite sbind_step by reflexivity. set (ts := clock (w_clock wA)).
  destruct (load_storage_key_total (peer_public viewB) privA) as [key Hkey]. rewrite Hkey.
  erewrite ebind_step by reflexivity. unfold ebind at 1, smap_err at 1.
  destruct (encrypt_message_stored _ _ _) as [[cipher|] w1] eqn:Henc; cbn [map_err]; [|done].
  apply encrypt_stored_opens in Henc as (b & Hb & Hdec). unfold ebind at 1, sret at 1.
  destruct (rmp_to_vec (BP.OfflineMessage _ _ _ _)) as [payload|] eqn:Hp; cbn [map_err]; [|done].
  unfold generate_blob. unfold ebind at 1, smap_err, ebind.
  destruct (encrypt_blob _ _ _) as [[blob|] w2] eqn:Hblob; cbn [map_err]; [|done].
  intros [= <- _]. apply encrypt_blob_opens in Hblob.
  exists blob, payload, cipher, key, b. split_and!; try done.
  - by rewrite (rmp_roundtrip _ _ Hp).
  - unfold pubA. rewrite load_storage_key_comm. exact Hkey.
  - by rewrite (rmp_roundtrip _ _ Hb).
Qed.

(** What B needs on its disk to store messages from A: A's record, and a log
    with [n] counters left. *)
Definition accepts (n : Z) (d : Db) (w : World) : Prop :=
  @peer_on_disk _ EB _ (w_fs w) idA viewA ∧ log_at (w_fs w) (@chat_path _ EB idA) d ∧
  clear_path (w_fs w) (@peer_dir _ EB idA) ∧ log_room n d.

(** Processing a blob that A made stores its text and keeps what B needs. *)
Lemma process_offline `{!@Quiet _ EB, !SledLaws} n text wA m wA' sB key d b :
  @generate_offline_message _ EA _ _ _ viewB pubA privA text skA wA = (Ok m, wA') →
  load_storage_key pubA privB = Ok key →
  blob_expired (@clock _ EB (w_clock (s_world sB))) (@clock _ EA (w_clock wA)) = false →
  accepts n d (s_world sB) → 1 ≤ n ≤ two64 →
  rmp_to_vec (from_parts text Peer (@clock _ EA (w_clock wA))) = Ok b → Z.of_nat (length b) < 2 ^ 36 →
  ∃ blob w' d', cts_payload m = CM.SendBlob (generate_peer_hash viewB) blob ∧
    @process_blob _ EB _ _ _ _ blob privB sB = (Ok tt, mkSrv w' (s_peers sB) (s_address sB)
      (s_events sB ++ [SE.BlobStored idA]) (s_in sB) (s_sends sB) (s_wire sB)) ∧
    w_fs w' !! @chat_path _ EB idA = Some (NDb d') ∧ accepts (n - 1) d' w' ∧
    w_clock w' = S (w_clock (s_world sB)) ∧
    log_messages key d' = log_messages key d ++ [from_parts text Peer (@clock _ EA (w_clock wA))].
Proof.
  intros Hgen Hkey Hexp (Hdisk & Hlog & Hclear & Hwf) Hn Hb Hl.
  destruct (offline_envelope _ _ _ _ Hgen) as
    (blob & payload & cipher & key' & mb & Hm & Hdec & Hpay & Hk' & Hst & Hmsg).
  rewrite Hkey in Hk'. injection Hk' as <-. set (ts := @clock _ EA (w_clock wA)) in *.
  set (w1 := mkWorld (w_fs (s_world sB)) (S (w_clock (s_world sB))) (w_rng (s_world sB)) (w_io (s_world sB))).
  set (w2 := mkWorld (w_fs w1) (w_clock w1) (w_rng w1) (S (S (S (w_io w1))))).
  destruct (@open_insert_quiet _ EB _ _ _ _ _ _ n (from_parts text Peer ts) key idA b d w2)
    as (w3 & d' & w4 & Hopen & Hins & Hchat & Hclk & Hmsgs & Hroom & Hfr); [done..|].
  exists blob, w4, d'. split_and!; [done| |exact Hchat| |exact Hclk|exact Hmsgs].
  - unfold process_blob. erewrite ebind_step by (unfold sret; by rewrite Hdec).
    erewrite ebind_step by (unfold sret; by rewrite Hpay). unfold handle_blob.
    erewrite sbind_step by (apply with_world_step; reflexivity). rewrite Hexp.
    erewrite ebind_step by (apply smap_err_step, with_world_step, (load_peer_data_quiet idA viewA w1 Hdisk)).
    erewrite ebind_step by (unfold sret; by rewrite sig_slice).
    erewrite ebind_step by (unfold sret; cbn [peer_verifying viewA]; by rewrite verify_sign).
    erewrite ebind_step by (unfold sret; cbn [peer_public viewA]; by rewrite Hkey).
    erewrite ebind_step by (unfold sret; by rewrite Hst).
    erewrite ebind_step by (unfold sret; by rewrite Hmsg). cbn [msg_text from_parts].
    erewrite ebind_step by (apply smap_err_step, with_world_step, Hopen).
    erewrite ebind_step by (apply smap_err_step, with_world_step, Hins). reflexivity.
  - split_and!; [by eapply only_db_peer|unfold log_at; by rewrite Hchat|by eapply only_db_clear|done].
Qed.

(** C7: An offline message arrives: if A seals a text for B, and B, who has A
    as a peer, gets the blob from the server within 30 days, then B stores
    exactly that text as a message from the peer with A's timestamp at the end
    of its log, reports it once, and acknowledges the blob. *)
Theorem offline_message_delivered `{!@Quiet _ EB, !SledLaws} text wA m wA' sB bid bts sts key d b :
  @generate_offline_message _ EA _ _ _ viewB pubA privA text skA wA = (Ok m, wA') →
  load_storage_key pubA privB = Ok key →
  blob_expired (@clock _ EB (w_clock (s_world sB))) (@clock _ EA (w_clock wA)) = false →
  @peer_on_disk _ EB _ (w_fs (s_world sB)) idA viewA →
  log_at (w_fs (s_world sB)) (@chat_path _ EB idA) d →
  clear_path (w_fs (s_world sB)) (@peer_dir _ EB idA) → log_wf d →
  rmp_to_vec (from_parts text Peer (@clock _ EA (w_clock wA))) = Ok b → Z.of_nat (length b) < 2 ^ 36 →
  ∃ blob ack sB' d', cts_payload m = CM.SendBlob (generate_peer_hash viewB) blob ∧
    @handle_message _ EB _ _ _ _ (mkServerToClient (SM.PendingBlob bid blob bts) sts) privB sB =
      (Ok (Some ack), sB') ∧ cts_payload ack = CM.AckBlob bid ∧
    s_events sB' = s_events sB ++ [SE.BlobStored idA] ∧
    w_fs (s_world sB') !! @chat_path _ EB idA = Some (NDb d') ∧
    log_messages key d' = log_messages key d ++ [from_parts text Peer (@clock _ EA (w_clock wA))].
Proof.
  intros Hgen Hkey Hexp Hdisk Hlog Hclear Hwf Hb Hl. pose proof two64_pos.
  destruct (process_offline 1 text wA m wA' sB key d b) as (blob & w' & d' & Hm & Hpb & Hchat & _ & _ & Hmsgs);
    [done..|lia|done|done|].
  exists blob. unfold handle_message. cbn [stc_payload]. unfold sbind at 1. rewrite Hpb.
  unfold respond, sbind. rewrite with_world_eq.
  eexists _, _, d'. split_and!; [done|reflexivity|done|done|exact Hchat|exact Hmsgs].
Qed.

Lemma purge_envelope wA m wA' :
  @generate_purge_message _ EA _ _ viewB pubA skA wA = (Ok m, wA') →
  ∃ blob payload, cts_payload m = CM.SendBlob (generate_peer_hash viewB) blob ∧
    decrypt_blob blob privB = Ok payload ∧
    rmp_from_slice payload = Ok (BP.Purge idA
      (arr_data (sign_challenge skA (purge_data (@clock _ EA (w_clock wA))))) (@clock _ EA (w_clock wA))).
Proof.
  unfold generate_purge_message. erewrite sbind_step by reflexivity. set (ts := clock (w_clock wA)).
  unfold ebind at 1, sret at 1.
  destruct (rmp_to_vec (BP.Purge _ _ _)) as [payload|] eqn:Hp; cbn [map_err]; [|done].
  unfold generate_blob. unfold ebind at 1, smap_err, ebind.
  destruct (encrypt_blob _ _ _) as [[blob|] w2] eqn:Hblob; cbn [map_err]; [|done].
  intros [= <- _]. apply encrypt_blob_opens in Hblob.
  exists blob, payload. split_and!; [done..|]. by rewrite (rmp_roundtrip _ _ Hp).
Qed.

(** C28: A purge takes effect for its recipient, and for anyone else: a purge
    that A makes for B opens for B; and whoever can open an envelope with the
    same payload within 30 days, B or any other peer of A to whom B seals it
    again, deletes its whole log with A and nothing else. The signed bytes name
    no recipient. *)
Theorem purge_takes_effect `{!@Quiet _ EB} wA m wA' :
  @generate_purge_message _ EA _ _ viewB pubA skA wA = (Ok m, wA') →
  ∃ blob payload, cts_payload m = CM.SendBlob (generate_peer_hash viewB) blob ∧
    decrypt_blob blob privB = Ok payload ∧
    ∀ privC sC blobC, decrypt_blob blobC privC = Ok payload →
      blob_expired (@clock _ EB (w_clock (s_world sC))) (@clock _ EA (w_clock wA)) = false →
      @peer_on_disk _ EB _ (w_fs (s_world sC)) idA viewA →
      (∀ f, w_fs (s_world sC) !! @chat_path _ EB idA ≠ Some (NFile f)) →
      ∃ sC', @process_blob _ EB _ _ _ _ blobC privC sC = (Ok tt, sC') ∧
        w_fs (s_world sC') !! @chat_path _ EB idA = None ∧
        ∀ p, ¬ @chat_path _ EB idA `prefix_of` p → w_fs (s_world sC') !! p = w_fs (s_world sC) !! p.
Proof.
  intros Hgen. destruct (purge_envelope _ _ _ Hgen) as (blob & payload & Hm & Hdec & Hpay).
  exists blob, payload. split_and!; [done..|]. intros privC sC blobC HdecC Hexp Hdisk Hfile.
  set (ts := @clock _ EA (w_clock wA)) in *.
  set (w1 := mkWorld (w_fs (s_world sC)) (S (w_clock (s_world sC))) (w_rng (s_world sC)) (w_io (s_world sC))).
  set (w2 := mkWorld (w_fs w1) (w_clock w1) (w_rng w1) (S (S (S (w_io w1))))).
  destruct (@remove_if_exists_quiet _ EB _ _ (@chat_path _ EB idA) w2 Hfile) as [n Hrm].
  eexists. split.
  { unfold process_blob. erewrite ebind_step by (unfold sret; by rewrite HdecC).
    erewrite ebind_step by (unfold sret; by rewrite Hpay). unfold handle_blob.
    erewrite sbind_step by (apply with_world_step; reflexivity). rewrite Hexp.
    erewrite ebind_step by (apply smap_err_step, with_world_step, (load_peer_data_quiet idA viewA w1 Hdisk)).
    erewrite ebind_step by (unfold sret; by rewrite sig_slice).
    erewrite ebind_step by (unfold sret; cbn [peer_verifying viewA]; by rewrite verify_sign).
    erewrite ebind_step by (apply smap_err_step, with_world_step; exact Hrm). reflexivity. }
  cbn [s_world put_world w_fs w2 w1]. split.
  - destruct (decide (is_Some _)) as [|Hn]; [by apply lookup_remove_tree_in|].
    by apply eq_None_not_Some.
  - intros p Hp. destruct (decide (is_Some _)); [by apply lookup_remove_tree_out|done].
Qed.
End Offline.

Module ServerWitness.
#[local] Existing Instances toy_prims toy_env list_sled.
#[local] Existing Instance ChatDbWitness.toy_rmp_message.

Abbreviation blob_sum := (hash * Z * bytes * bytes + hash * bytes * Z)%type.
Definition blob_to (b : BlobPayload) : blob_sum :=
  match b with BP.OfflineMessage h t c g => inl (h, t, c, g) | BP.Purge h g t => inr (h, g, t) end.
Definition blob_of (x : blob_sum) : option BlobPayload :=
  Some match x with inl (h, t, c, g) => BP.OfflineMessage h t c g | inr (h, g, t) => BP.Purge h g t end.
Lemma blob_of_to b : blob_of (blob_to b) = Some b.
Proof. by destruct b. Qed.
Definition blob_codec : Codec BlobPayload := retract_codec blob_to blob_of blob_of_to.
Definition toy_rmp_blob : Rmp BlobPayload := codec_rmp blob_codec.
Definition toy_rmp_blob_laws : @RmpLaws BlobPayload toy_rmp_blob := codec_rmp_laws blob_codec.

Abbreviation stc_sum := (rstring + rstring + rstring * bytes * Z + KeyType * rstring + KeyType
  + KeyType * KeyType * rstring * Z + rstring + unit + KeyType * KeyType + KeyType * KeyType * (unit + unit)
  + KeyType * bytes)%type.
Definition stc_to (m : ServerToClient) : stc_sum * Z :=
  (match stc_payload m with
   | SM.AuthOk a => inl (inl (inl (inl (inl (inl (inl (inl (inl (inl a)))))))))
   | SM.AuthFailed r => inl (inl (inl (inl (inl (inl (inl (inl (inl (inr r)))))))))
   | SM.PendingBlob i b t => inl (inl (inl (inl (inl (inl (inl (inl (inr (i, b, t)))))))))
   | SM.PeerOnline h a => inl (inl (inl (inl (inl (inl (inl (inr (h, a))))))))
   | SM.PeerOffline h => inl (inl (inl (inl (inl (inl (inr h))))))
   | SM.PunchHole k h a t => inl (inl (inl (inl (inl (inr (k, h, a, t))))))
   | SM.Error r => inl (inl (inl (inl (inr r))))
   | SM.PendingBlobsEnd => inl (inl (inl (inr tt)))
   | SM.RequestHolePunch k h => inl (inl (inr (k, h)))
   | SM.RequestDenied k h PeerDeclined => inl (inr (k, h, inl tt))
   | SM.RequestDenied k h DeniedTimeout => inl (inr (k, h, inr tt))
   | SM.RelayData h p => inr (h, p)
   end, stc_timestamp m).
Definition stc_of (x : stc_sum * Z) : option ServerToClient :=
  Some (mkServerToClient match x.1 with
   | inl (inl (inl (inl (inl (inl (inl (inl (inl (inl a))))))))) => SM.AuthOk a
   | inl (inl (inl (inl (inl (inl (inl (inl (inl (inr r))))))))) => SM.AuthFailed r
   | inl (inl (inl (inl (inl (inl (inl (inl (inr (i, b, t))))))))) => SM.PendingBlob i b t
   | inl (inl (inl (inl (inl (inl (inl (inr (h, a)))))))) => SM.PeerOnline h a
   | inl (inl (inl (inl (inl (inl (inr h)))))) => SM.PeerOffline h
   | inl (inl (inl (inl (inl (inr (k, h, a, t)))))) => SM.PunchHole k h a t
   | inl (inl (inl (inl (inr r)))) => SM.Error r
   | inl (inl (inl (inr _))) => SM.PendingBlobsEnd
   | inl (inl (inr (k, h))) => SM.RequestHolePunch k h
   | inl (inr (k, h, inl _)) => SM.RequestDenied k h PeerDeclined
   | inl (inr (k, h, inr _)) => SM.RequestDenied k h DeniedTimeout
   | inr (h, p) => SM.RelayData h p
   end x.2).
Lemma stc_of_to m : stc_of (stc_to m) = Some m.
Proof. by destruct m as [[| | | | | | | | |? ? []|] ?]. Qed.
Definition stc_codec : Codec ServerToClient := retract_codec stc_to stc_of stc_of_to.
Definition toy_rmp_stc : Rmp ServerToClient := codec_rmp stc_codec.
Definition toy_rmp_stc_laws : @RmpLaws ServerToClient toy_rmp_stc := codec_rmp_laws stc_codec.

(** The witnesses only need that client messages serialize. *)
Definition toy_rmp_cts : Rmp ClientToServer := {|
  rmp_to_vec m := Ok (to_le_bytes (cts_timestamp m));
  rmp_from_slice _ := Err (str "not needed")
|}.
Definition toy_server : ServerEnv := {| dev_insecure := false; ws_fault _ := None; crypto_debug _ := str "error" |}.
#[local] Existing Instances toy_rmp_blob toy_rmp_stc toy_rmp_cts toy_server.

Definition alice : KeyType := PeerStoreWitness.alice.
Definition bob : KeyType := PeerStoreWitness.bob.
Definition aliceX : @StaticSecret toy_prims := alice.
Definition aliceP : @PublicKey toy_prims := alice.
Definition aliceS : @SigningKey toy_prims := alice.
Definition bobX : @StaticSecret toy_prims := bob.
Definition bobS : @SigningKey toy_prims := bob.
Definition viewB : PeerPublic := mkPeerPublic (public_of bobX) (verifying_key bobS).

Definition chatty : World := set_fs (<[chat_path ChatDbWitness.id := NDb db_empty]> (w_fs ChatDbWitness.w1)) ChatDbWitness.w1.
Definition srv (w : World) (items : list ws_item) : Srv := mkSrv w [] None [] items 0 [].

Definition poison : ServerToClient := mkServerToClient (SM.PendingBlob (str "b1") [x00; x01] 5) 5.
Definition ending : ServerToClient := mkServerToClient SM.PendingBlobsEnd 6.
Definition items0 : list ws_item :=
  map WsBinary ([enc (Codec := stc_codec) poison] ++ [enc (Codec := stc_codec) ending]) ++ [].

Lemma blobs_always_acked_witness :
  (∃ s' acks frames, drain_blobs (S (length (s_in (srv chatty items0)))) bobX (srv chatty items0) = (Ok (Ready tt), s') ∧
     s_in s' = [] ∧ s_wire s' = s_wire (srv chatty items0) ++ frames ∧
     Forall2 (λ m b, rmp_to_vec m = Ok b) acks frames ∧
     map cts_payload acks = map CM.AckBlob (omap blob_id_of [poison])) ∧
  ∀ id blob bts ts s0, ∃ ack s', handle_message (mkServerToClient (SM.PendingBlob id blob bts) ts) bobX s0 =
     (Ok (Some ack), s') ∧ cts_payload ack = CM.AckBlob id.
Proof.
  apply (@blobs_always_acked toy_prims toy_env list_sled toy_server _ _ _ _ toy_rmp_stc_laws bobX [poison]
    [enc (Codec := stc_codec) poison] (enc (Codec := stc_codec) ending) [] (srv chatty items0)).
  - done.
  - intros m. by eexists.
  - repeat constructor.
  - repeat constructor.
  - by exists 6.
  - reflexivity.
  - vm_compute. lia.
Defined.

(** A server that accepts the client and hands out a blob, then falls silent. *)
Definition accepted : ServerToClient := mkServerToClient (SM.AuthOk (str "1.2.3.4:5")) 5.
Definition then_silent : list ws_item :=
  [WsOther; WsBinary (enc (Codec := stc_codec) accepted); WsBinary (enc (Codec := stc_codec) poison)].
Lemma handshake_ends_with_server_witness :
  (server_initial_handshake aliceP aliceS bobX 4000 None (srv chatty then_silent)).1 = Ok Silent.
Proof.
  pose proof (handshake_ends_with_server aliceP aliceS bobX 4000 None (srv chatty then_silent)) as H.
  destruct (server_initial_handshake aliceP aliceS bobX 4000 None (srv chatty then_silent)) as [r s'].
  apply H; [reflexivity|by eexists|repeat constructor; vm_compute; exact I|vm_compute; exact I|vm_compute; lia].
Defined.

Definition purge_blob : BlobPayload :=
  BP.Purge ChatDbWitness.id (arr_data (sign_challenge aliceS (purge_data 1000000))) 1000000.
Definition purge_run : result unit ClientErrors * Srv := handle_blob purge_blob bobX (srv chatty []).
Lemma blob_effects_authentic_witness :
  blob_by_sender chatty purge_blob ∧
  (Z.abs (clock (w_clock chatty) - 1000000) ≤ 2592000 ∨ 1000000 = clock (w_clock chatty) - two63).
Proof.
  apply (blob_effects_authentic purge_blob bobX (srv chatty []) purge_run.1 purge_run.2);
    [vm_compute; split; [discriminate|reflexivity]|vm_compute; split; [discriminate|reflexivity]|exact (surjective_pairing purge_run)|].
  left. intros Heq. apply (f_equal (λ fs, bool_decide (is_Some (fs !! chat_path ChatDbWitness.id)))) in Heq.
  vm_compute in Heq. discriminate.
Defined.

Definition gen_offline : result ClientToServer ClientErrors * World :=
  generate_offline_message viewB (public_of aliceX) aliceX (str "hello") aliceS CryptoWitness.w0.
Lemma gen_offline_ok : ∃ m w', gen_offline = (Ok m, w').
Proof.
  assert (H : is_ok gen_offline.1 = true) by (vm_compute; reflexivity).
  destruct gen_offline as [[m|e] w']; [eauto|done].
Qed.

Lemma offline_message_delivered_witness :
  ∃ m w' key, gen_offline = (Ok m, w') ∧ load_storage_key (public_of aliceX) bobX = Ok key ∧
  ∃ blob ack sB' d', cts_payload m = CM.SendBlob (generate_peer_hash viewB) blob ∧
    handle_message (mkServerToClient (SM.PendingBlob (str "b1") blob 7) 7) bobX (srv ChatDbWitness.w1 []) =
      (Ok (Some ack), sB') ∧ cts_payload ack = CM.AckBlob (str "b1") ∧
    s_events sB' = [] ++ [SE.BlobStored ChatDbWitness.id] ∧
    w_fs (s_world sB') !! chat_path ChatDbWitness.id = Some (NDb d') ∧
    log_messages key d' = log_messages key db_empty ++ [from_parts (str "hello") Peer 1000000].
Proof.
  destruct gen_offline_ok as (m & w' & Hgen).
  destruct (@load_storage_key_total toy_prims toy_kdf_laws (public_of aliceX) bobX) as [key Hkey].
  exists m, w', key. split; [exact Hgen|]. split; [exact Hkey|].
  apply (@offline_message_delivered toy_prims toy_env toy_env list_sled toy_server _ _ toy_sig_laws toy_dh_laws
    toy_key_laws toy_aead_laws toy_kdf_laws ChatDbWitness.toy_rmp_message_laws toy_rmp_blob_laws aliceX bobX aliceS
    (verifying_key bobS) KeyFileWitness.toy_quiet list_sled_laws (str "hello") CryptoWitness.w0 m w'
    (srv ChatDbWitness.w1 []) (str "b1") 7 7 key db_empty
    (enc (Codec := ChatDbWitness.message_codec) (from_parts (str "hello") Peer 1000000))).
  - exact Hgen.
  - exact Hkey.
  - vm_compute. reflexivity.
  - exact ChatDbWitness.w1_peer.
  - vm_compute. reflexivity.
  - exact ChatDbWitness.w1_clear.
  - constructor.
  - reflexivity.
  - vm_compute. reflexivity.
Defined.

Definition gen_purge : result ClientToServer ClientErrors * World :=
  generate_purge_message viewB (public_of aliceX) aliceS CryptoWitness.w0.
Lemma gen_purge_ok : ∃ m w', gen_purge = (Ok m, w').
Proof.
  assert (H : is_ok gen_purge.1 = true) by (vm_compute; reflexivity).
  destruct gen_purge as [[m|e] w']; [eauto|done].
Qed.

Lemma purge_takes_effect_witness :
  ∃ m blob payload sB', cts_payload m = CM.SendBlob (generate_peer_hash viewB) blob ∧
    decrypt_blob blob bobX = Ok payload ∧ process_blob blob bobX (srv chatty []) = (Ok tt, sB') ∧
    w_fs (s_world sB') !! chat_path ChatDbWitness.id = None.
Proof.
  destruct gen_purge_ok as (m & w' & Hgen).
  destruct (@purge_takes_effect toy_prims toy_env toy_env list_sled toy_server _ _ toy_sig_laws toy_dh_laws
    toy_key_laws toy_aead_laws toy_rmp_blob_laws aliceX bobX aliceS (verifying_key bobS)
    KeyFileWitness.toy_quiet CryptoWitness.w0 m w' Hgen) as (blob & payload & Hm & Hdec & Hall).
  destruct (Hall bobX (srv chatty []) blob Hdec) as (sB' & Hrun & Hgone & _).
  - vm_compute. reflexivity.
  - destruct ChatDbWitness.w1_peer as [Hd (buf & Hf & Hl & Hp)]. split; [vm_compute; reflexivity|].
    exists buf. split; [|split; [exact Hl|exact Hp]].
    unfold srv, chatty, set_fs. cbn [s_world w_fs]. rewrite lookup_insert_ne; [exact Hf|].
    unfold chat_path, peer_pub_path. apply snoc_ne. str_ne.
  - intros f. unfold srv, chatty, set_fs. cbn [s_world w_fs]. rewrite lookup_insert_eq. discriminate.
  - exists m, blob, payload, sB'. split; [exact Hm|split; [exact Hdec|split; [exact Hrun|exact Hgone]]].
Defined.

(** Alice comes online at a client that has her on disk. *)
Definition alice_known : Srv := srv PeerStoreWitness.w1 [].
Definition alice_online : result unit ClientErrors * Srv :=
  append_online_peer PeerStoreWitness.alice_id (str "1.2.3.4:5") alice_known.

Lemma alice_known_wf : store_wf (w_fs (s_world alice_known)).
Proof.
  set (data := arr_data PeerStoreWitness.alice ++ arr_data PeerStoreWitness.alice).
  assert (Hwf : store_wf (<[peer_pub_path PeerStoreWitness.alice_id := NFile data]> ∅)).
  { apply (@store_wf_insert toy_prims toy_env list_sled toy_hex_laws toy_key_laws ∅
      PeerStoreWitness.alice PeerStoreWitness.alice 64). apply PeerStoreWitness.w0_wf. }
  revert Hwf. apply store_wf_files. intros q buf Hq.
  change (w_fs (s_world alice_known)) with (w_fs PeerStoreWitness.w1) in Hq. unfold PeerStoreWitness.w1 in Hq.
  cbn [w_fs] in Hq. fold data in Hq.
  apply lookup_insert_Some in Hq as [[_ Hq]|[_ Hq]]; [discriminate|].
  apply lookup_insert_Some in Hq as [[_ Hq]|[_ Hq]]; [discriminate|].
  apply lookup_insert_Some in Hq as [[<- Hq]|[_ Hq]]; [rewrite lookup_insert_eq; by f_equal|].
  apply lookup_singleton_Some in Hq as [_ Hq]. discriminate.
Qed.

Lemma alice_online_ok : ∃ s', alice_online = (Ok tt, s').
Proof.
  assert (H : is_ok alice_online.1 = true) by (vm_compute; reflexivity).
  destruct alice_online as [[[]|e] s']; [eauto|done].
Qed.

Lemma online_table_invariant_witness :
  ∃ s', alice_online = (Ok tt, s') ∧ NoDup (map online_hash (s_peers s')) ∧
  ∃ p, p ∈ s_peers s' ∧ online_hash p = PeerStoreWitness.alice_id.
Proof.
  destruct alice_online_ok as [s' Hs]. exists s'.
  pose proof (online_table_invariant alice_known alice_known_wf NoDup_nil_2) as [Happ _].
  specialize (Happ PeerStoreWitness.alice_id (str "1.2.3.4:5")). unfold alice_online in Hs. rewrite Hs in Happ.
  destruct Happ as [Hnd Hp]. destruct (Hp eq_refl) as (p & i & Hin & Hh & _).
  split; [exact Hs|split; [exact Hnd|exists p; split; [exact Hin|exact Hh]]].
Defined.
End ServerWitness.
