(* ===== verification/Tasks.v ===== *)
(** * The tasks of a connection

    What [run_client] of src/crates/serverclient/src/lib.rs leaves running: the
    reader, the dispatcher, the presence loop, the writer and the supervisor,
    joined by three channels of 100 places, and the client at the other end.
    A step runs one task from one await to the next; which task moves is free,
    so the runs are the interleavings.  A task that awaits a full channel has
    no step; one whose channel lost its other end sees the error.  The fields
    [k_seen] to [k_read] are histories that no step reads. *)

From Stdlib Require Import Strings.Byte.
From S2P Require Import Prelude Bytes Text Primitives Instances World Crypto KeyFile PeerStore ChatDb ServerProto ServerClient.

(** Where each task waits. *)
Inductive read_pc := RdNext | RdSend (m : ServerToClient) | RdDone.
Inductive dispatch_pc :=
| DpRecv
| DpPost (e : ServerEvent) (r : option ClientToServer)
| DpSend (m : ClientToServer)
| DpDone.
Inductive presence_pc `{Primitives} :=
| PrTick
| PrPeers (timestamp : Z) (address : rstring) (peers : list PeerPublic)
| PrSend (m : ClientToServer) (timestamp : Z) (address : rstring) (peers : list PeerPublic)
| PrDone.
Inductive write_pc := WrRecv | WrDone.
Inductive super_pc := SuWait | SuPost | SuDone.

(** Who put a message into the outgoing channel. *)
Inductive source := FromDispatch | FromPresence | FromClient.

Definition CHANNEL_CAPACITY : nat := 100.
Definition room {A} (q : list A) : bool := (length q <? CHANNEL_CAPACITY)%nat.

Section Tasks.
Context `{Prim : Primitives} `{EnvI : !Env} `{SledI : Sled} `{SrvEnv : ServerEnv}.
Context `{MsgRmp : !Rmp Message} `{BlobRmp : !Rmp BlobPayload}.
Context `{StcRmp : !Rmp ServerToClient} `{CtsRmp : !Rmp ClientToServer}.

Record Link := mkLink {
  k_srv : Srv;
  k_rd : read_pc;
  k_dp : dispatch_pc;
  k_pr : presence_pc;
  k_wr : write_pc;
  k_su : super_pc;
  k_in : list ServerToClient;
  k_out : list (source * ClientToServer);
  k_ev : list ServerEvent;
  k_client : bool;
  k_seen : list ws_item;
  k_handled : list ServerToClient;
  k_pushed : list (source * ClientToServer);
  k_popped : list (source * ClientToServer);
  k_posted : list ServerEvent;
  k_read : list ServerEvent
}.

(** ** The steps *)

Definition at_rd (pc : read_pc) (c : Link) : Link :=
  mkLink (k_srv c) pc (k_dp c) (k_pr c) (k_wr c) (k_su c) (k_in c) (k_out c) (k_ev c) (k_client c)
    (k_seen c) (k_handled c) (k_pushed c) (k_popped c) (k_posted c) (k_read c).
Definition at_dp (pc : dispatch_pc) (c : Link) : Link :=
  mkLink (k_srv c) (k_rd c) pc (k_pr c) (k_wr c) (k_su c) (k_in c) (k_out c) (k_ev c) (k_client c)
    (k_seen c) (k_handled c) (k_pushed c) (k_popped c) (k_posted c) (k_read c).
Definition at_pr (pc : presence_pc) (c : Link) : Link :=
  mkLink (k_srv c) (k_rd c) (k_dp c) pc (k_wr c) (k_su c) (k_in c) (k_out c) (k_ev c) (k_client c)
    (k_seen c) (k_handled c) (k_pushed c) (k_popped c) (k_posted c) (k_read c).
Definition at_wr (pc : write_pc) (c : Link) : Link :=
  mkLink (k_srv c) (k_rd c) (k_dp c) (k_pr c) pc (k_su c) (k_in c) (k_out c) (k_ev c) (k_client c)
    (k_seen c) (k_handled c) (k_pushed c) (k_popped c) (k_posted c) (k_read c).
Definition at_su (pc : super_pc) (c : Link) : Link :=
  mkLink (k_srv c) (k_rd c) (k_dp c) (k_pr c) (k_wr c) pc (k_in c) (k_out c) (k_ev c) (k_client c)
    (k_seen c) (k_handled c) (k_pushed c) (k_popped c) (k_posted c) (k_read c).
Definition with_srv (s : Srv) (c : Link) : Link :=
  mkLink s (k_rd c) (k_dp c) (k_pr c) (k_wr c) (k_su c) (k_in c) (k_out c) (k_ev c) (k_client c)
    (k_seen c) (k_handled c) (k_pushed c) (k_popped c) (k_posted c) (k_read c).
(** The reader takes an item off the socket. *)
Definition take_item (i : ws_item) (rest : list ws_item) (c : Link) : Link :=
  mkLink (set_in rest (k_srv c)).2 (k_rd c) (k_dp c) (k_pr c) (k_wr c) (k_su c) (k_in c) (k_out c) (k_ev c) (k_client c)
    (k_seen c ++ [i]) (k_handled c) (k_pushed c) (k_popped c) (k_posted c) (k_read c).
Definition push_in (m : ServerToClient) (c : Link) : Link :=
  mkLink (k_srv c) (k_rd c) (k_dp c) (k_pr c) (k_wr c) (k_su c) (k_in c ++ [m]) (k_out c) (k_ev c) (k_client c)
    (k_seen c) (k_handled c) (k_pushed c) (k_popped c) (k_posted c) (k_read c).
Definition pop_in (m : ServerToClient) (rest : list ServerToClient) (c : Link) : Link :=
  mkLink (k_srv c) (k_rd c) (k_dp c) (k_pr c) (k_wr c) (k_su c) rest (k_out c) (k_ev c) (k_client c)
    (k_seen c) (k_handled c ++ [m]) (k_pushed c) (k_popped c) (k_posted c) (k_read c).
Definition push_out (who : source) (m : ClientToServer) (c : Link) : Link :=
  mkLink (k_srv c) (k_rd c) (k_dp c) (k_pr c) (k_wr c) (k_su c) (k_in c) (k_out c ++ [(who, m)]) (k_ev c) (k_client c)
    (k_seen c) (k_handled c) (k_pushed c ++ [(who, m)]) (k_popped c) (k_posted c) (k_read c).
Definition pop_out (x : source * ClientToServer) (rest : list (source * ClientToServer)) (c : Link) : Link :=
  mkLink (k_srv c) (k_rd c) (k_dp c) (k_pr c) (k_wr c) (k_su c) (k_in c) rest (k_ev c) (k_client c)
    (k_seen c) (k_handled c) (k_pushed c) (k_popped c ++ [x]) (k_posted c) (k_read c).
Definition push_ev (e : ServerEvent) (c : Link) : Link :=
  mkLink (k_srv c) (k_rd c) (k_dp c) (k_pr c) (k_wr c) (k_su c) (k_in c) (k_out c) (k_ev c ++ [e]) (k_client c)
    (k_seen c) (k_handled c) (k_pushed c) (k_popped c) (k_posted c ++ [e]) (k_read c).
Definition pop_ev (e : ServerEvent) (rest : list ServerEvent) (c : Link) : Link :=
  mkLink (k_srv c) (k_rd c) (k_dp c) (k_pr c) (k_wr c) (k_su c) (k_in c) (k_out c) rest (k_client c)
    (k_seen c) (k_handled c) (k_pushed c) (k_popped c) (k_posted c) (k_read c ++ [e]).
(** The client leaves its loop: its ends of the channels are dropped. *)
Definition drop_client (c : Link) : Link :=
  mkLink (k_srv c) (k_rd c) (k_dp c) (k_pr c) (k_wr c) (k_su c) (k_in c) (k_out c) [] false
    (k_seen c) (k_handled c) (k_pushed c) (k_popped c) (k_posted c) (k_read c).

Definition rd_done (c : Link) : bool := match k_rd c with RdDone => true | _ => false end.
Definition dp_done (c : Link) : bool := match k_dp c with DpDone => true | _ => false end.
Definition pr_done (c : Link) : bool := match k_pr c with PrDone => true | _ => false end.
Definition wr_done (c : Link) : bool := match k_wr c with WrDone => true | _ => false end.

Section Steps.
Context (privkey : StaticSecret).

(** [read_loop]; on an open silent socket it has no step. *)
Definition read_step (c : Link) : option Link :=
  match k_rd c with
  | RdNext =>
      match s_in (k_srv c) with
      | [] => None
      | i :: rest =>
          let c1 := take_item i rest c in
          Some match i with
               | WsBinary data =>
                   match parse_server_message data with
                   | Ok parsed_msg => at_rd (RdSend parsed_msg) c1
                   | Err _ => c1
                   end
               | WsClose | WsError _ | WsEnd => at_rd RdDone c1
               | WsOther => c1
               end
      end
  | RdSend m =>
      if dp_done c then Some (at_rd RdDone c)
      else if room (k_in c) then Some (at_rd RdNext (push_in m c)) else None
  | RdDone => None
  end.

(** [main_dispatch_loop]; after [handle_message], its response is queued. *)
Definition dispatch_next (r : option ClientToServer) : dispatch_pc :=
  match r with Some response => DpSend response | None => DpRecv end.

(** [handle_message] up to the event it waits to post, and its response. *)
Definition run_handler (m : ServerToClient) (s : Srv) : option ServerEvent * option ClientToServer * Srv :=
  let s0 := mkSrv (s_world s) (s_peers s) (s_address s) [] (s_in s) (s_sends s) (s_wire s) in
  let '(r, s1) := handle_message m privkey s0 in
  (head (s_events s1), match r with Ok r => r | Err _ => None end,
   mkSrv (s_world s1) (s_peers s1) (s_address s1) (s_events s) (s_in s1) (s_sends s1) (s_wire s1)).

Definition dispatch_step (c : Link) : option Link :=
  match k_dp c with
  | DpRecv =>
      match k_in c with
      | m :: rest =>
          let '(e, r, s) := run_handler m (k_srv c) in
          let c1 := with_srv s (pop_in m rest c) in
          Some match e with
               | Some e => at_dp (DpPost e r) c1
               | None => at_dp (dispatch_next r) c1
               end
      | [] => if rd_done c then Some (at_dp DpDone c) else None
      end
  | DpPost e r =>
      if negb (k_client c) then Some (at_dp (dispatch_next r) c)
      else if room (k_ev c) then Some (at_dp (dispatch_next r) (push_ev e c)) else None
  | DpSend m =>
      if wr_done c then Some (at_dp DpDone c)
      else if room (k_out c) then Some (at_dp DpRecv (push_out FromDispatch m c)) else None
  | DpDone => None
  end.

(** [presence_refresh_loop] *)
Definition presence_step (c : Link) : option Link :=
  match k_pr c with
  | PrTick =>
      match s_address (k_srv c) with
      | None => Some c
      | Some address =>
          let '(peers, s1) := with_world load_peers (k_srv c) in
          match peers with
          | Err _ => Some (with_srv s1 c)
          | Ok peers =>
              let '(timestamp, s2) := with_world utc_now s1 in
              Some (at_pr (PrPeers timestamp address peers) (with_srv s2 c))
          end
      end
  | PrPeers _ _ [] => Some (at_pr PrTick c)
  | PrPeers timestamp address (peer :: peers) =>
      match generate_announce_message privkey (peer_public peer) timestamp address with
      | Err _ => Some (at_pr (PrPeers timestamp address peers) c)
      | Ok msg =>
          let '(m, s1) := with_world (client_to_server_new msg None) (k_srv c) in
          Some (at_pr (PrSend m timestamp address peers) (with_srv s1 c))
      end
  | PrSend m timestamp address peers =>
      if wr_done c then Some (at_pr PrDone c)
      else if room (k_out c)
           then Some (at_pr (PrPeers timestamp address peers) (push_out FromPresence m c)) else None
  | PrDone => None
  end.

(** [write_loop]; the channel is closed when all its senders are gone. *)
Definition write_step (c : Link) : option Link :=
  match k_wr c with
  | WrRecv =>
      match k_out c with
      | x :: rest =>
          let c1 := pop_out x rest c in
          Some match rmp_to_vec x.2 with
               | Err _ => c1
               | Ok b =>
                   let '(r, s) := ws_send b (k_srv c) in
                   match r with
                   | Ok _ => with_srv s c1
                   | Err _ => at_wr WrDone (with_srv s c1)
                   end
               end
      | [] => if dp_done c && pr_done c && negb (k_client c) then Some (at_wr WrDone c) else None
      end
  | WrDone => None
  end.

(** The supervising task: one [Disconnected] after the first task that ended. *)
Definition super_step (c : Link) : option Link :=
  match k_su c with
  | SuWait => if wr_done c || rd_done c || pr_done c || dp_done c then Some (at_su SuPost c) else None
  | SuPost =>
      if negb (k_client c) then Some (at_su SuDone c)
      else if room (k_ev c) then Some (at_su SuDone (push_ev SE.Disconnected c)) else None
  | SuDone => None
  end.

(** The client: reads an event, queues a message, or is gone. *)
Definition client_recv (c : Link) : option Link :=
  if k_client c then match k_ev c with e :: rest => Some (pop_ev e rest c) | [] => None end else None.
Definition client_send (m : ClientToServer) (c : Link) : option Link :=
  if k_client c && negb (wr_done c) && room (k_out c) then Some (push_out FromClient m c) else None.

Inductive action := Reader | Dispatcher | Presence | Writer | Supervisor
  | ClientRecv | ClientSend (m : ClientToServer) | ClientDrop.

Definition tstep (a : action) (c : Link) : option Link :=
  match a with
  | Reader => read_step c
  | Dispatcher => dispatch_step c
  | Presence => presence_step c
  | Writer => write_step c
  | Supervisor => super_step c
  | ClientRecv => client_recv c
  | ClientSend m => client_send m c
  | ClientDrop => if k_client c then Some (drop_client c) else None
  end.

Fixpoint trun (l : list action) (c : Link) : option Link :=
  match l with
  | [] => Some c
  | a :: l' => c' ← tstep a c; trun l' c'
  end.

(** When [run_client] returns: the rest of the stream, the events so far. *)
Definition conn_start (s : Srv) : Link :=
  mkLink (mkSrv (s_world s) (s_peers s) (s_address s) [] (s_in s) (s_sends s) (s_wire s))
    RdNext DpRecv PrTick WrRecv SuWait [] [] (s_events s) true [] [] [] [] (s_events s) [].
End Steps.

(** ** What a handler does to the connection *)

Definition ack_id (m : ClientToServer) : option rstring :=
  match cts_payload m with CM.AckBlob id => Some id | _ => None end.

(** Handling touches the socket in no way. *)
Definition same_socket (s s' : Srv) : Prop :=
  s_in s' = s_in s ∧ s_sends s' = s_sends s ∧ s_wire s' = s_wire s.
#[local] Instance same_socket_preorder : PreOrder same_socket.
Proof. split; [done|]. unfold same_socket. intros ??? (?&?&?) (?&?&?). split_and!; congruence. Qed.

Lemma with_world_socket {A} (m : St World A) : respects same_socket (with_world m).
Proof. intros s. by rewrite with_world_eq. Qed.

Lemma handle_message_socket m privkey : respects same_socket (handle_message m privkey).
Proof.
  unfold handle_message. destruct (stc_payload m); unfold append_online_peer, remove_online_peer,
    get_or_set_my_address, respond; repeat respects_step;
    first [apply with_world_socket | by intros ? | intros s; destruct (process_blob_conn blob privkey s) as (?&?&?&_); by split_and!].
Qed.

(** A blob is answered with its ack, and nothing else is. *)
Lemma handle_message_ack m privkey s :
  option_list (match (handle_message m privkey s).1 with Ok (Some r) => ack_id r | _ => None end)
  = option_list (blob_id_of m).
Proof.
  unfold blob_id_of, handle_message. destruct (stc_payload m); try done; unfold respond.
  - unfold sbind. destruct (process_blob _ _ _) as [r s1]. by rewrite with_world_eq.
  - unfold ebind. by destruct (append_online_peer _ _ _) as [[] ?].
  - unfold sbind. rewrite with_world_eq. cbn [fst snd]. destruct (is_ok _); done.
Qed.

Lemma run_handler_spec privkey m s :
  let '(e, r, s') := run_handler privkey m s in
  s_in s' = s_in s ∧ s_sends s' = s_sends s ∧ s_wire s' = s_wire s ∧
  omap ack_id (option_list r) = option_list (blob_id_of m) ∧ (∀ e', e = Some e' → handler_event e').
Proof.
  unfold run_handler. set (s0 := mkSrv _ _ _ [] _ _ _).
  destruct (handle_message_socket m privkey s0) as (Hi & Hs & Hw).
  destruct (handle_message_one_event m privkey s0) as (new & Hn & _ & Hall). pose proof (handle_message_ack m privkey s0) as Ha.
  destruct (handle_message m privkey s0) as [r s1]. cbn [fst snd] in *. cbn. split_and!; [done..| |].
  - destruct r as [[r|]|]; cbn in *; [|done..]. by destruct (ack_id r).
  - intros e' He. rewrite Hn in He. cbn in He. destruct Hall; [done|]. by injection He as <-.
Qed.

(** ** The invariant of a connection *)

Definition item_msg (i : ws_item) : option ServerToClient :=
  match i with WsBinary data => to_option (parse_server_message data) | _ => None end.
Definition rd_held (c : Link) : list ServerToClient := match k_rd c with RdSend m => [m] | _ => [] end.
Definition dp_held (c : Link) : list ClientToServer :=
  match k_dp c with DpPost _ r => option_list r | DpSend r => [r] | _ => [] end.
Definition responses (l : list (source * ClientToServer)) : list ClientToServer :=
  omap (λ x, match x.1 with FromDispatch => Some x.2 | _ => None end) l.
Definition frames (l : list (source * ClientToServer)) : list bytes := omap (λ x, to_option (rmp_to_vec x.2)) l.

Definition caps_ok (c : Link) : Prop :=
  (length (k_in c) ≤ CHANNEL_CAPACITY ∧ length (k_out c) ≤ CHANNEL_CAPACITY ∧ length (k_ev c) ≤ CHANNEL_CAPACITY)%nat.
(** What the reader parsed is handled, queued or in its hand, in order. *)
Definition in_fifo (c : Link) : Prop :=
  ∃ lost, omap item_msg (k_seen c) = k_handled c ++ k_in c ++ rd_held c ++ lost ∧ (rd_done c = false → lost = []).
(** What was queued was taken by the writer or is still queued, in order. *)
Definition out_fifo (c : Link) : Prop := k_pushed c = k_popped c ++ k_out c.
(** What the writer took is on the wire; the last message may have failed. *)
Definition on_wire (wire0 : list bytes) (c : Link) : Prop :=
  ∃ sent failed, k_popped c = sent ++ failed ∧ s_wire (k_srv c) = wire0 ++ frames sent ∧
    (wr_done c = false → failed = []).
(** The acks queued are those of the blobs handled, in order. *)
Definition acks_ok (c : Link) : Prop :=
  ∃ lost, omap blob_id_of (k_handled c) = omap ack_id (responses (k_pushed c) ++ dp_held c) ++ lost ∧
    (dp_done c = false → lost = []).
Definition disconnects (l : list ServerEvent) : nat :=
  length (omap (λ e, match e with SE.Disconnected => Some tt | _ => None end) l).
(** The events posted were read or are waiting; one [Disconnected] at most. *)
Definition events_ok (c : Link) : Prop :=
  (k_client c = true → k_posted c = k_read c ++ k_ev c) ∧
  (match k_su c with
   | SuDone => disconnects (k_posted c) ≤ 1
   | _ => disconnects (k_posted c) = 0
   end)%nat ∧
  (k_su c ≠ SuWait → wr_done c || rd_done c || pr_done c || dp_done c = true) ∧
  match k_dp c with DpPost e _ => handler_event e | _ => True end.

Lemma disconnects_app l k : disconnects (l ++ k) = (disconnects l + disconnects k)%nat.
Proof. unfold disconnects. by rewrite omap_app, length_app. Qed.
Lemma handler_event_disc e : handler_event e → disconnects [e] = 0%nat.
Proof. by destruct e. Qed.

Lemma handler_events_disc l : Forall handler_event l → disconnects l = 0%nat.
Proof.
  induction 1 as [|e l He _ IH]; [done|]. change (e :: l) with ([e] ++ l). by rewrite disconnects_app, handler_event_disc.
Qed.

Definition conn_inv (wire0 : list bytes) (c : Link) : Prop :=
  caps_ok c ∧ in_fifo c ∧ out_fifo c ∧ on_wire wire0 c ∧ acks_ok c ∧ events_ok c.

Lemma conn_start_inv s :
  (length (s_events s) ≤ CHANNEL_CAPACITY)%nat → disconnects (s_events s) = 0%nat → conn_inv (s_wire s) (conn_start s).
Proof.
  intros Hl Hd. unfold conn_inv, caps_ok, in_fifo, out_fifo, on_wire, acks_ok, events_ok. cbn. split_and!; try done; try lia.
  - by exists [].
  - exists [], []. cbn. by rewrite app_nil_r.
  - by exists [].
Qed.

(** The parts of the invariant that a step does not touch. *)
Ltac untouched :=
  unfold conn_inv; split_and!;
  try match goal with H : ?P |- ?Q => unify P Q; exact H end.

Lemma room_le {A} (q : list A) : room q = true → (S (length q) ≤ CHANNEL_CAPACITY)%nat.
Proof. unfold room. intros H%Nat.ltb_lt. lia. Qed.

(** Events stay in order when a task ends or moves on. *)
Lemma events_move c c' :
  k_client c' = k_client c → k_posted c' = k_posted c → k_read c' = k_read c → k_ev c' = k_ev c → k_su c' = k_su c →
  (wr_done c || rd_done c || pr_done c || dp_done c = true → wr_done c' || rd_done c' || pr_done c' || dp_done c' = true) →
  match k_dp c' with DpPost e _ => handler_event e | _ => True end →
  events_ok c → events_ok c'.
Proof.
  intros H1 H2 H3 H4 H5 H6 H7 (E1 & E2 & E3 & _). unfold events_ok. rewrite H1, H2, H3, H4, H5. split_and!; auto.
Qed.

Lemma rd_end w0 c : conn_inv w0 c → rd_held c = [] → conn_inv w0 (at_rd RdDone c).
Proof.
  intros (Hcap & Hin & Hout & Hw & Ha & He) Hh. untouched.
  - destruct Hin as (lost & Hl & _). exists lost. rewrite Hh in Hl. by split.
  - eapply events_move, He; try done; [|apply He]. cbn. by rewrite orb_true_r.
Qed.

Lemma take_junk w0 c i rest : conn_inv w0 c → k_rd c = RdNext → item_msg i = None → conn_inv w0 (take_item i rest c).
Proof.
  intros (Hcap & Hin & Hout & Hw & Ha & He) Hpc Hn. untouched. destruct Hin as (lost & Hl & Hc).
  exists lost. cbn. rewrite omap_app, Hl. cbn. by rewrite Hn, app_nil_r.
Qed.

Lemma read_step_inv w0 c c' : conn_inv w0 c → read_step c = Some c' → conn_inv w0 c'.
Proof.
  intros Hinv Hs. unfold read_step in Hs. destruct (k_rd c) as [|m|] eqn:Hpc; [| |done].
  - assert (Hh : rd_held c = []) by (unfold rd_held; by rewrite Hpc).
    destruct (s_in (k_srv c)) as [|i rest] eqn:Hi; [done|]. injection Hs as <-.
    destruct i as [data| | |e|]; try (by apply take_junk); try (apply rd_end; [by apply take_junk|done]).
    destruct (parse_server_message data) as [m|] eqn:Hp; [|apply take_junk; cbn; by rewrite ?Hp].
    destruct Hinv as (Hcap & Hin & Hout & Hw & Ha & He). untouched.
    + destruct Hin as (lost & Hl & Hc). exists []. unfold rd_done in Hc. rewrite Hpc in Hc. rewrite Hc in Hl by done.
      split; [|done]. cbn. rewrite omap_app, Hl, Hh. cbn. rewrite Hp. cbn. by rewrite !app_nil_r, <- app_assoc.
    + eapply events_move, He; try done; [|apply He]. unfold rd_done. by rewrite Hpc.
  - destruct Hinv as (Hcap & Hin & Hout & Hw & Ha & He). destruct (dp_done c) eqn:Hd; [|destruct (room (k_in c)) eqn:Hr; [|done]];
      injection Hs as <-; untouched.
    + destruct Hin as (lost & Hl & _). exists (rd_held c ++ lost). cbn. by rewrite Hl.
    + eapply events_move, He; try done; [|apply He]. cbn. by rewrite orb_true_r.
    + apply room_le in Hr. unfold caps_ok in *. cbn. rewrite length_app. cbn. lia.
    + destruct Hin as (lost & Hl & Hc). exists lost. cbn. rewrite Hl. unfold rd_held, rd_done in *. rewrite Hpc in *. cbn.
      by rewrite <- !app_assoc.
    + eapply events_move, He; try done; [|apply He]. unfold rd_done. by rewrite Hpc.
Qed.

Lemma dp_held_next r c : dp_held (at_dp (dispatch_next r) c) = option_list r.
Proof. by destruct r. Qed.
Lemma dispatch_next_event r : match dispatch_next r with DpPost e _ => handler_event e | _ => True end.
Proof. by destruct r. Qed.
Lemma dispatch_next_done r c : dp_done (at_dp (dispatch_next r) c) = false.
Proof. by destruct r. Qed.

(** The dispatcher takes a message and runs its handler. *)
Lemma handle_inv w0 c m rest pc r s :
  conn_inv w0 c → k_dp c = DpRecv → k_in c = m :: rest →
  s_wire s = s_wire (k_srv c) → omap ack_id (option_list r) = option_list (blob_id_of m) →
  (∀ c1, dp_held (at_dp pc c1) = option_list r) → pc ≠ DpDone →
  match pc with DpPost e _ => handler_event e | _ => True end →
  conn_inv w0 (at_dp pc (with_srv s (pop_in m rest c))).
Proof.
  intros (Hcap & Hin & Hout & Hw & Ha & He) Hpc Hi Hwire Hack Hheld Hnd Hev. untouched.
  - unfold caps_ok in *. cbn. rewrite Hi in Hcap. cbn in Hcap. lia.
  - destruct Hin as (lost & Hl & Hc). exists lost. cbn. rewrite Hl, Hi. by rewrite <- !app_assoc.
  - unfold on_wire. cbn. rewrite Hwire. exact Hw.
  - destruct Ha as (lost & Hl & Hc). unfold dp_done in Hc. rewrite Hpc in Hc. rewrite Hc in Hl by done. exists [].
    split; [|done]. rewrite Hheld. cbn. rewrite omap_app, Hl. unfold dp_held. rewrite Hpc. rewrite !omap_app, Hack.
    cbn. rewrite !app_nil_r. by destruct (blob_id_of m).
  - eapply events_move, He; try done. unfold dp_done at 1. rewrite Hpc, orb_false_r. intros H. apply orb_true_iff. by left.
Qed.

Lemma dispatch_step_inv w0 privkey c c' : conn_inv w0 c → dispatch_step privkey c = Some c' → conn_inv w0 c'.
Proof.
  intros Hinv Hs. unfold dispatch_step in Hs. destruct (k_dp c) as [|e r|m|] eqn:Hpc; [| | |done].
  - destruct (k_in c) as [|m rest] eqn:Hi.
    + destruct (rd_done c); [|done]. injection Hs as <-. destruct Hinv as (Hcap & Hin & Hout & Hw & Ha & He). untouched.
      * destruct Ha as (lost & Hl & _). exists lost. split; [|done]. cbn [at_dp k_handled k_pushed]. rewrite Hl. unfold dp_held. by rewrite Hpc.
      * eapply events_move, He; try done. cbn. by rewrite orb_true_r.
    + pose proof (run_handler_spec privkey m (k_srv c)) as Hspec.
      destruct (run_handler privkey m (k_srv c)) as [[e r] s]. destruct Hspec as (_ & _ & Hwire & Hack & Hev).
      injection Hs as <-. destruct e as [e|]; eapply handle_inv; try done; [by apply Hev|by apply dp_held_next| |].
      * by destruct r.
      * apply dispatch_next_event.
  - destruct Hinv as (Hcap & Hin & Hout & Hw & Ha & He).
    assert (Ha' : ∀ c1, k_handled c1 = k_handled c → k_pushed c1 = k_pushed c → acks_ok (at_dp (dispatch_next r) c1)).
    { intros c1 E1 E2. destruct Ha as (lost & Hl & Hc). exists lost. rewrite dp_held_next, dispatch_next_done. cbn.
      rewrite E1, E2, Hl. unfold dp_held, dp_done in *. by rewrite Hpc in *. }
    assert (Hm : wr_done c || rd_done c || pr_done c || dp_done c = true →
      wr_done c || rd_done c || pr_done c || false = true) by (unfold dp_done at 1; by rewrite Hpc).
    destruct (k_client c) eqn:Hcl; cbn [negb] in Hs; [destruct (room (k_ev c)) eqn:Hr; [|done]|]; injection Hs as <-; untouched.
    + apply room_le in Hr. unfold caps_ok in *. cbn. rewrite length_app. cbn. lia.
    + by apply Ha'.
    + destruct He as (E1 & E2 & E3 & E4). rewrite Hpc in E4. unfold events_ok. rewrite dispatch_next_done. cbn [at_dp push_ev k_client k_posted k_read k_ev k_su k_dp].
      rewrite disconnects_app, (handler_event_disc e E4). split_and!; [|by rewrite Nat.add_0_r|auto|apply dispatch_next_event].
      intros H. by rewrite E1, app_assoc.
    + by apply Ha'.
    + eapply events_move, He; try done; [|apply dispatch_next_event]. by rewrite dispatch_next_done.
  - destruct Hinv as (Hcap & Hin & Hout & Hw & Ha & He). destruct (wr_done c) eqn:Hwd; [|destruct (room (k_out c)) eqn:Hr; [|done]];
      injection Hs as <-; untouched.
    + destruct Ha as (lost & Hl & _). exists (omap ack_id (dp_held c) ++ lost). split; [|done]. cbn.
      by rewrite Hl, !omap_app, app_nil_r, <- app_assoc.
    + eapply events_move, He; try done. cbn. by rewrite orb_true_r.
    + apply room_le in Hr. unfold caps_ok in *. cbn. rewrite length_app. cbn. lia.
    + unfold out_fifo in *. cbn. by rewrite Hout, <- app_assoc.
    + destruct Ha as (lost & Hl & Hc). exists lost. unfold dp_held, dp_done, responses in *. rewrite Hpc in *.
      cbn [at_dp push_out k_handled k_pushed k_dp]. split; [|done]. by rewrite Hl, (omap_app _ (k_pushed c)), app_nil_r.
    + eapply events_move, He; try done. cbn. unfold dp_done. by rewrite Hpc.
Qed.

(** A message queued by anyone but the dispatcher. *)
Lemma push_out_inv w0 who m c :
  conn_inv w0 c → who ≠ FromDispatch → room (k_out c) = true → conn_inv w0 (push_out who m c).
Proof.
  intros (Hcap & Hin & Hout & Hw & Ha & He) Hwho Hr. untouched.
  - apply room_le in Hr. unfold caps_ok in *. cbn. rewrite length_app. cbn. lia.
  - unfold out_fifo in *. cbn. by rewrite Hout, <- app_assoc.
  - destruct Ha as (lost & Hl & Hc). exists lost. unfold responses in *. cbn [push_out k_handled k_pushed].
    rewrite (omap_app _ (k_pushed c)). destruct who; [done|..]; cbn [omap list_omap fst snd]; by rewrite app_nil_r.
Qed.

Lemma pr_move_inv w0 pc c : conn_inv w0 c → pr_done c = false → conn_inv w0 (at_pr pc c).
Proof.
  intros (Hcap & Hin & Hout & Hw & Ha & He) Hp. untouched. eapply events_move, He; try done; [|apply He].
  rewrite Hp. cbn. intros H. destruct pc; cbn; rewrite ?orb_true_r; done.
Qed.

Lemma with_srv_inv w0 s c : conn_inv w0 c → s_wire s = s_wire (k_srv c) → conn_inv w0 (with_srv s c).
Proof. intros (Hcap & Hin & Hout & Hw & Ha & He) Hs. untouched. unfold on_wire. cbn. rewrite Hs. exact Hw. Qed.

Lemma presence_step_inv w0 privkey c c' : conn_inv w0 c → presence_step privkey c = Some c' → conn_inv w0 c'.
Proof.
  intros Hinv Hs. unfold presence_step in Hs.
  assert (Hd : pr_done c = match k_pr c with PrDone => true | _ => false end) by done.
  destruct (k_pr c) as [|ts addr [|p peers]|m ts addr peers|]; [| | | |done].
  - destruct (s_address (k_srv c)); [|by injection Hs as <-]. rewrite with_world_eq in Hs.
    destruct (load_peers _) as [[peers|] w]; cbn [fst snd] in Hs; [|injection Hs as <-; by apply with_srv_inv].
    rewrite with_world_eq in Hs. injection Hs as <-. apply pr_move_inv; [by apply with_srv_inv|done].
  - injection Hs as <-. by apply pr_move_inv.
  - destruct (generate_announce_message _ _ _ _) as [msg|].
    + rewrite with_world_eq in Hs. injection Hs as <-. apply pr_move_inv; [by apply with_srv_inv|done].
    + injection Hs as <-. by apply pr_move_inv.
  - destruct (wr_done c); [injection Hs as <-; by apply pr_move_inv|].
    destruct (room (k_out c)) eqn:Hr; [|done]. injection Hs as <-. apply pr_move_inv; [by apply push_out_inv|done].
Qed.

Lemma ws_send_ok b s : (ws_send b s).1 = Ok tt → s_wire (ws_send b s).2 = s_wire s ++ [b].
Proof. unfold ws_send. by destruct (ws_fault _). Qed.
Lemma ws_send_err b s e : (ws_send b s).1 = Err e → s_wire (ws_send b s).2 = s_wire s.
Proof. unfold ws_send. by destruct (ws_fault _). Qed.

(** The writer takes a message; [sent] says whether it is accounted for. *)
Lemma pop_out_inv w0 c x rest s pc :
  conn_inv w0 c → k_wr c = WrRecv → k_out c = x :: rest →
  s_wire s = s_wire (k_srv c) ++ frames [x] ∨ (s_wire s = s_wire (k_srv c) ∧ pc = WrDone) →
  conn_inv w0 (at_wr pc (with_srv s (pop_out x rest c))).
Proof.
  intros (Hcap & Hin & Hout & Hw & Ha & He) Hpc Ho Hs. untouched.
  - unfold caps_ok in *. cbn. rewrite Ho in Hcap. cbn in Hcap. lia.
  - unfold out_fifo in *. cbn. by rewrite Hout, Ho, <- app_assoc.
  - destruct Hw as (sent & failed & Hp & Hwire & Hf). unfold wr_done in Hf. rewrite Hpc in Hf. rewrite Hf, app_nil_r in Hp by done.
    destruct Hs as [Hs|[Hs ->]].
    + exists (sent ++ [x]), []. cbn. rewrite Hs, Hwire, Hp, app_nil_r. split_and!; [done| |done].
      unfold frames. by rewrite omap_app, app_assoc.
    + exists sent, [x]. cbn. by rewrite Hs, Hwire, Hp.
  - eapply events_move, He; try done; [|apply He]. unfold wr_done at 1. rewrite Hpc. cbn. intros H.
    by destruct pc.
Qed.

Lemma write_step_inv w0 c c' : conn_inv w0 c → write_step c = Some c' → conn_inv w0 c'.
Proof.
  intros Hinv Hs. unfold write_step in Hs. destruct (k_wr c) eqn:Hpc; [|done].
  destruct (k_out c) as [|x rest] eqn:Ho.
  - destruct (_ && _); [|done]. injection Hs as <-. destruct Hinv as (Hcap & Hin & Hout & Hw & Ha & He). untouched.
    + destruct Hw as (sent & failed & Hp & Hwire & _). by exists sent, failed.
    + eapply events_move, He; try done; apply He.
  - injection Hs as <-. assert (Hmv : ∀ s, at_wr WrRecv (with_srv s (pop_out x rest c)) = with_srv s (pop_out x rest c))
      by (intros s; unfold at_wr; cbn; by rewrite <- Hpc).
    destruct (rmp_to_vec x.2) as [b|] eqn:Hb.
    + pose proof (ws_send_ok b (k_srv c)) as H1. pose proof (ws_send_err b (k_srv c)) as H2.
      destruct (ws_send b (k_srv c)) as [[[]|e] s]; cbn in H1, H2.
      * rewrite <- Hmv. apply pop_out_inv; [done..|]. left. rewrite H1 by done. unfold frames. cbn. by rewrite Hb.
      * apply pop_out_inv; [done..|]. right. split; [by eapply H2|done].
    + replace (pop_out x rest c) with (at_wr WrRecv (with_srv (k_srv c) (pop_out x rest c)))
        by (unfold at_wr, with_srv, pop_out; cbn; by rewrite <- Hpc).
      apply pop_out_inv; [done..|]. left. unfold frames. cbn. by rewrite Hb, app_nil_r.
Qed.

Lemma super_step_inv w0 c c' : conn_inv w0 c → super_step c = Some c' → conn_inv w0 c'.
Proof.
  intros (Hcap & Hin & Hout & Hw & Ha & (E1 & E2 & E3 & E4)) Hs. unfold super_step in Hs.
  destruct (k_su c) eqn:Hpc; [|destruct (k_client c) eqn:Hcl; cbn [negb] in Hs; [destruct (room (k_ev c)) eqn:Hr; [|done]|]|done].
  - destruct (_ || _ || _ || _) eqn:Hd; [|done]. injection Hs as <-. untouched. unfold events_ok. by split_and!.
  - injection Hs as <-. untouched.
    + apply room_le in Hr. unfold caps_ok in *. cbn. rewrite length_app. cbn. lia.
    + unfold events_ok. cbn [at_su push_ev k_client k_posted k_read k_ev k_su k_dp]. rewrite disconnects_app, E2.
      split_and!; [|cbn; lia|by intros _; apply E3|done]. intros _. by rewrite E1, app_assoc.
  - injection Hs as <-. untouched. unfold events_ok. cbn [at_su k_client k_posted k_read k_ev k_su k_dp].
    split_and!; [congruence|lia|by intros _; apply E3|done].
Qed.

Lemma tstep_inv w0 privkey a c c' : conn_inv w0 c → tstep privkey a c = Some c' → conn_inv w0 c'.
Proof.
  intros Hinv. destruct a as [| | | | | |m|]; cbn [tstep]; intros Hs.
  - by eapply read_step_inv.
  - by eapply dispatch_step_inv.
  - by eapply presence_step_inv.
  - by eapply write_step_inv.
  - by eapply super_step_inv.
  - unfold client_recv in Hs. destruct (k_client c) eqn:Hcl; [|done]. destruct (k_ev c) as [|e rest] eqn:He; [done|].
    injection Hs as <-. destruct Hinv as (Hcap & Hin & Hout & Hw & Ha & E1 & E2 & E3 & E4). untouched.
    + unfold caps_ok in *. cbn. rewrite He in Hcap. cbn in Hcap. lia.
    + unfold events_ok. cbn. split_and!; try done. intros _. by rewrite E1, He, <- app_assoc.
  - unfold client_send in Hs. destruct (k_client c && negb (wr_done c)); [|done]. cbn [andb] in Hs.
    destruct (room (k_out c)) eqn:Hr; [|done]. injection Hs as <-. by apply push_out_inv.
  - destruct (k_client c) eqn:Hcl; [|done]. injection Hs as <-.
    destruct Hinv as (Hcap & Hin & Hout & Hw & Ha & E1 & E2 & E3 & E4). untouched.
    + unfold caps_ok in *. cbn. lia.
    + unfold events_ok. by split_and!.
Qed.

Lemma trun_inv (P : Link → Prop) privkey :
  (∀ a c c', P c → tstep privkey a c = Some c' → P c') → ∀ l c c', P c → trun privkey l c = Some c' → P c'.
Proof.
  intros Hstep l. induction l as [|a l IH]; intros c c' Hc; cbn [trun]; [by intros [= <-]|].
  intros (c1 & H1 & H2)%bind_Some. eauto.
Qed.

Lemma trun_conn_inv privkey l s c :
  (length (s_events s) ≤ CHANNEL_CAPACITY)%nat → disconnects (s_events s) = 0%nat →
  trun privkey l (conn_start s) = Some c → conn_inv (s_wire s) c.
Proof.
  intros Hl Hd. apply trun_inv; [intros a c1 c2; apply tstep_inv|by apply conn_start_inv].
Qed.

(** The reader takes the items of the socket in order. *)
Lemma tstep_stream privkey a c c' :
  tstep privkey a c = Some c' → k_seen c' ++ s_in (k_srv c') = k_seen c ++ s_in (k_srv c).
Proof.
  destruct a as [| | | | | |m|]; cbn [tstep]; intros Hs.
  - unfold read_step in Hs. destruct (k_rd c); [|repeat case_match; by simplify_eq|done].
    destruct (s_in (k_srv c)) as [|i rest] eqn:Hi; [done|]. injection Hs as <-.
    assert (Ht : k_seen (take_item i rest c) ++ s_in (k_srv (take_item i rest c)) = k_seen c ++ i :: rest)
      by (cbn; by rewrite <- app_assoc).
    destruct i; try exact Ht. by destruct (parse_server_message data).
  - unfold dispatch_step in Hs. destruct (k_dp c) as [|e r|m|]; [|repeat case_match; by simplify_eq..|done].
    destruct (k_in c) as [|m rest]; [case_match; by simplify_eq|].
    pose proof (run_handler_spec privkey m (k_srv c)) as Hspec.
    destruct (run_handler privkey m (k_srv c)) as [[e r] s]. destruct Hspec as (Hi & _). injection Hs as <-.
    destruct e; cbn; by rewrite Hi.
  - unfold presence_step, with_world in Hs. repeat case_match; simplify_eq; done.
  - unfold write_step, ws_send in Hs. repeat case_match; by simplify_eq.
  - unfold super_step in Hs. repeat case_match; by simplify_eq.
  - unfold client_recv in Hs. repeat case_match; by simplify_eq.
  - unfold client_send in Hs. repeat case_match; by simplify_eq.
  - repeat case_match; by simplify_eq.
Qed.

(** ** Settling *)

(** Steps that need neither the network nor the clock: a task that holds or
    finds work, and the client reading its events. *)
Definition internal (a : action) (c : Link) : bool :=
  match a with
  | Reader => match k_rd c with RdSend _ => true | _ => false end
  | Presence => match k_pr c with PrTick => false | _ => true end
  | Dispatcher | Writer | Supervisor | ClientRecv => true
  | ClientSend _ | ClientDrop => false
  end.

Definition work (c : Link) : nat :=
  match k_rd c with RdSend _ => 7 | _ => 0 end +
  match k_dp c with DpRecv => 1 | DpPost _ _ => 5 | DpSend _ => 3 | DpDone => 0 end +
  match k_pr c with PrPeers _ _ ps => 3 * length ps + 1 | PrSend _ _ _ ps => 3 * length ps + 3 | _ => 0 end +
  match k_wr c with WrRecv => 1 | WrDone => 0 end +
  match k_su c with SuWait => 3 | SuPost => 2 | SuDone => 0 end +
  6 * length (k_in c) + length (k_out c) + length (k_ev c).

(** Nobody has anything to do. *)
Definition idle (c : Link) : Prop :=
  rd_held c = [] ∧
  (dp_done c = true ∨ (k_dp c = DpRecv ∧ k_in c = [] ∧ rd_done c = false)) ∧
  match k_pr c with PrTick | PrDone => True | _ => False end ∧
  (wr_done c = true ∨ k_out c = []) ∧ (k_client c = true → k_ev c = []) ∧
  (k_su c = SuDone ∨ wr_done c || rd_done c || pr_done c || dp_done c = false).

Lemma internal_decreases privkey a c c' :
  internal a c = true → tstep privkey a c = Some c' → (work c' < work c)%nat.
Proof.
  intros Hi Hs. destruct a as [| | | | | |m|]; cbn [tstep internal] in *; try done.
  - unfold read_step in Hs. destruct (k_rd c) eqn:Hpc; [done| |done].
    repeat case_match; simplify_eq; unfold work; cbn; rewrite ?Hpc, ?length_app; cbn; lia.
  - unfold dispatch_step in Hs. destruct (k_dp c) as [|e r|m|] eqn:Hpc; [| | |done].
    + destruct (k_in c) as [|m rest] eqn:Hin; [case_match; simplify_eq; unfold work; cbn; rewrite ?Hpc; cbn; lia|].
      destruct (run_handler privkey m (k_srv c)) as [[[e|] r] s]; injection Hs as <-; unfold work; cbn; rewrite ?Hpc, ?Hin;
        [|destruct r]; cbn; lia.
    + repeat case_match; simplify_eq; unfold work; destruct r; cbn; rewrite ?Hpc, ?length_app; cbn; lia.
    + repeat case_match; simplify_eq; unfold work; cbn; rewrite ?Hpc, ?length_app; cbn; lia.
  - unfold presence_step in Hs. destruct (k_pr c) as [|ts addr [|p ps]|m ts addr ps|] eqn:Hpc; [done| | | |done];
      unfold with_world in Hs; repeat case_match; simplify_eq; unfold work; cbn; rewrite ?Hpc, ?length_app; cbn; lia.
  - unfold write_step in Hs. destruct (k_wr c) eqn:Hpc; [|done].
    destruct (k_out c) as [|x rest] eqn:Ho; [case_match; simplify_eq; unfold work; cbn; rewrite ?Hpc, ?Ho; cbn; lia|].
    injection Hs as <-. destruct (rmp_to_vec x.2); [destruct (ws_send _ _) as [[] ?]|]; unfold work; cbn; rewrite ?Hpc, ?Ho; cbn; lia.
  - unfold super_step in Hs. destruct (k_su c) eqn:Hpc; repeat case_match; simplify_eq; unfold work; cbn;
      rewrite ?Hpc, ?length_app; cbn; lia.
  - unfold client_recv in Hs. repeat case_match; simplify_eq. unfold work. cbn.
    match goal with H : k_ev c = _ |- _ => rewrite H end. cbn. lia.
Qed.

Lemma room_nil {A} (q : list A) : q = [] → room q = true.
Proof. by intros ->. Qed.

(** A connection that is not idle has an internal step: the tasks never wait
    for each other in a circle while the client reads its events. *)
Lemma progress privkey c : idle c ∨ ∃ a c', internal a c = true ∧ tstep privkey a c = Some c'.
Proof.
  destruct (tstep privkey ClientRecv c) as [c'|] eqn:Hcr; [right; by exists ClientRecv, c'|].
  destruct (tstep privkey Writer c) as [c'|] eqn:Hw; [right; by exists Writer, c'|].
  destruct (tstep privkey Dispatcher c) as [c'|] eqn:Hd; [right; by exists Dispatcher, c'|].
  destruct (tstep privkey Supervisor c) as [c'|] eqn:Hsu; [right; by exists Supervisor, c'|].
  cbn [tstep] in *.
  assert (Hev : k_client c = true → k_ev c = []).
  { intros Hc. unfold client_recv in Hcr. rewrite Hc in Hcr. by destruct (k_ev c). }
  assert (Hout : wr_done c = true ∨ k_out c = []).
  { unfold write_step in Hw. unfold wr_done. destruct (k_wr c); [|by left]. right. by destruct (k_out c). }
  assert (Hdp : dp_done c = true ∨ (k_dp c = DpRecv ∧ k_in c = [] ∧ rd_done c = false)).
  { unfold dispatch_step in Hd. unfold dp_done. destruct (k_dp c) as [|e r|m|]; [right|exfalso..|by left].
    - destruct (k_in c) as [|m q]; [by destruct (rd_done c)|]. by destruct (run_handler privkey m (k_srv c)) as [[e r] s'].
    - destruct (k_client c); [|done]. cbn [negb] in Hd. by rewrite room_nil in Hd by auto.
    - destruct Hout as [Ho|Ho]; [by rewrite Ho in Hd|]. destruct (wr_done c); [done|]. by rewrite room_nil in Hd. }
  destruct (k_pr c) as [|ts addr ps|m ts addr ps|] eqn:Hpr.
  2: { right. exists Presence. cbn. rewrite Hpr. unfold presence_step. rewrite Hpr. destruct ps as [|p ps]; [by eexists|].
       destruct (generate_announce_message _ _ _ _); [rewrite with_world_eq|]; by eexists. }
  2: { right. exists Presence. cbn. rewrite Hpr. unfold presence_step. rewrite Hpr.
       destruct Hout as [Ho|Ho]; [rewrite Ho; by eexists|]. rewrite (room_nil _ Ho). destruct (wr_done c); by eexists. }
  all: destruct (k_rd c) as [|m|] eqn:Hrd;
    [|right; exists Reader; cbn; rewrite Hrd; unfold read_step; rewrite Hrd;
      destruct Hdp as [Hdp|(_ & Hq & _)]; [rewrite Hdp; by eexists|rewrite (room_nil _ Hq); destruct (dp_done c); by eexists]|].
  all: left; unfold idle, rd_held; rewrite Hpr, Hrd; split_and!; try done.
  all: unfold super_step in Hsu; destruct (k_su c); [right; by destruct (_ || _ || _ || _)| |by left].
  all: exfalso; destruct (k_client c); [|done]; cbn [negb] in Hsu; by rewrite room_nil in Hsu by auto.
Qed.

Inductive internal_run (privkey : StaticSecret) : Link → Link → Prop :=
| irun_refl c : internal_run privkey c c
| irun_step a c c' c'' : internal a c = true → tstep privkey a c = Some c' →
    internal_run privkey c' c'' → internal_run privkey c c''.

Lemma internal_run_trun privkey c c' : internal_run privkey c c' → ∃ l, trun privkey l c = Some c'.
Proof.
  induction 1 as [c|a c c' c'' _ Hs _ [l Hl]]; [by exists []|]. exists (a :: l). cbn [trun]. by rewrite Hs.
Qed.

Lemma settle privkey c : ∃ c', internal_run privkey c c' ∧ idle c'.
Proof.
  remember (work c) as n eqn:Hn. revert c Hn. induction (lt_wf n) as [n _ IH]; intros c ->.
  destruct (progress privkey c) as [Hi|(a & c1 & Ha & Hs)]; [exists c; by split; [constructor|]|].
  destruct (IH (work c1) (internal_decreases _ _ _ _ Ha Hs) c1 eq_refl) as (c' & Hr & Hi).
  exists c'. split; [by econstructor|done].
Qed.

(** ** A connection whose sends succeed *)

Section Healthy.
Hypothesis Hws : ∀ n, ws_fault n = None.

Lemma tstep_rd_done privkey a c c' : tstep privkey a c = Some c' → rd_done c = true → rd_done c' = true.
Proof.
  intros Hs Hr. unfold rd_done in *. destruct (k_rd c) eqn:Hpc; try done.
  destruct a as [| | | | | |m|]; cbn [tstep] in Hs; unfold read_step, dispatch_step, presence_step, write_step, super_step,
    client_recv, client_send, with_world in Hs; rewrite ?Hpc in Hs; repeat case_match; simplify_eq; cbn; rewrite ?Hpc; repeat case_match; cbn in *; congruence.
Qed.

(** While the reader runs, every task does, and nothing was reported. *)
Definition all_running (c : Link) : Prop :=
  rd_done c = false → wr_done c = false ∧ pr_done c = false ∧ dp_done c = false ∧ k_su c = SuWait.

Lemma tstep_running privkey a c c' : all_running c → tstep privkey a c = Some c' → all_running c'.
Proof.
  intros Hc Hs Hr'. assert (Hr : rd_done c = false).
  { destruct (rd_done c) eqn:E; [|done]. by rewrite (tstep_rd_done _ _ _ _ Hs E) in Hr'. }
  destruct (Hc Hr) as (Hw & Hp & Hd & Hsu). clear Hc.
  destruct a as [| | | | | |m|]; cbn [tstep] in Hs.
  - unfold read_step in Hs. repeat case_match; simplify_eq; done.
  - unfold dispatch_step in Hs. rewrite Hr, Hw in Hs. destruct (k_dp c) as [|e r|m|]; [| | |done].
    + destruct (k_in c); [done|]. destruct (run_handler _ _ _) as [[e r] s']. injection Hs as <-.
      destruct e; [done|]. by destruct r.
    + repeat case_match; simplify_eq; by destruct r.
    + repeat case_match; by simplify_eq.
  - unfold presence_step, with_world in Hs. rewrite Hw in Hs. repeat case_match; simplify_eq; cbn; try done;
      unfold pr_done in Hp; try (by split_and!).
  - unfold write_step, ws_send in Hs. rewrite Hws, Hd in Hs. repeat case_match; simplify_eq; done.
  - unfold super_step in Hs. rewrite Hsu, Hw, Hr, Hp, Hd in Hs. done.
  - unfold client_recv in Hs. repeat case_match; by simplify_eq.
  - unfold client_send in Hs. repeat case_match; by simplify_eq.
  - repeat case_match; by simplify_eq.
Qed.

(** Announcing to the peers of a tick, when nobody else moves. *)
Lemma announce_run privkey ts addr peers c :
  (∀ p, ∃ t, presence_token privkey p ts = Ok t) → (∀ m : ClientToServer, ∃ b, rmp_to_vec m = Ok b) →
  k_pr c = PrPeers ts addr peers → k_out c = [] → wr_done c = false →
  ∃ l c' msgs bs, trun privkey l c = Some c' ∧ s_wire (k_srv c') = s_wire (k_srv c) ++ bs ∧
    Forall2 (λ m b, rmp_to_vec m = Ok b) msgs bs ∧
    Forall2 (λ p m, ∃ t, presence_token privkey (peer_public p) ts = Ok t ∧ cts_payload m = CM.Announce t addr) peers msgs ∧
    k_pr c' = PrTick ∧ k_client c' = k_client c ∧ rd_done c' = rd_done c.
Proof.
  intros Htok Hser. revert c. induction peers as [|p peers IH]; intros c Hpr Hout Hw.
  - exists [Presence], (at_pr PrTick c), [], []. cbn [trun tstep]. unfold presence_step. rewrite Hpr, app_nil_r.
    split_and!; try done; constructor.
  - destruct (Htok (peer_public p)) as [t Ht].
    destruct (with_world (client_to_server_new (CM.Announce t addr) None) (k_srv c)) as [m s1] eqn:Hnew.
    destruct (Hser m) as [b Hb]. pose proof Hnew as Hm. rewrite with_world_eq in Hm. injection Hm as Hm Hs1.
    set (c1 := at_pr (PrSend m ts addr peers) (with_srv s1 c)).
    set (c2 := at_pr (PrPeers ts addr peers) (push_out FromPresence m c1)).
    set (c3 := with_srv (ws_send b s1).2 (pop_out (FromPresence, m) [] c2)).
    assert (H1 : presence_step privkey c = Some c1).
    { unfold presence_step. rewrite Hpr. unfold generate_announce_message. rewrite Ht. cbn [rbind].
      by rewrite Hnew. }
    assert (H2 : presence_step privkey c1 = Some c2).
    { unfold presence_step. cbn [k_pr c1 at_pr]. change (wr_done c1) with (wr_done c). rewrite Hw.
      change (k_out c1) with (k_out c). by rewrite Hout. }
    assert (H3 : write_step c2 = Some c3).
    { unfold write_step. change (k_wr c2) with (k_wr c). unfold wr_done in Hw. destruct (k_wr c); [|done].
      change (k_out c2) with (k_out c ++ [(FromPresence, m)]). rewrite Hout. cbn [app snd]. rewrite Hb.
      change (k_srv c2) with s1. unfold c3, ws_send. by rewrite Hws. }
    destruct (IH c3) as (l & c' & msgs & bs & Hl & Hwire & Hf & Hall & Hrest); [done|done|exact Hw|].
    exists (Presence :: Presence :: Writer :: l), c', (m :: msgs), (b :: bs). split_and!.
    + cbn [trun tstep]. rewrite H1. cbn [mbind option_bind]. rewrite H2. cbn [mbind option_bind]. rewrite H3. exact Hl.
    + rewrite Hwire. change (k_srv c3) with (ws_send b s1).2. unfold ws_send. rewrite Hws. cbn. rewrite <- Hs1. cbn.
      by rewrite <- app_assoc.
    + by constructor.
    + constructor; [|done]. exists t. split; [done|]. by rewrite <- Hm.
    + apply Hrest.
    + apply Hrest.
    + apply Hrest.
Qed.

(** Steps of the writer and of a client that queues messages; the messages. *)
Definition writing (a : action) : bool := match a with Writer | ClientSend _ => true | _ => false end.
Definition client_sent (a : action) : option ClientToServer := match a with ClientSend m => Some m | _ => None end.

Lemma trun_app privkey l l' c c1 : trun privkey l c = Some c1 → trun privkey (l ++ l') c = trun privkey l' c1.
Proof.
  revert c. induction l as [|a l IH]; intros c; cbn [trun app]; [by intros [= <-]|].
  intros (c2 & H1 & H2)%bind_Some. rewrite H1. cbn [mbind option_bind]. by apply IH.
Qed.

(** The writer empties the channel. *)
Lemma write_out privkey c :
  (∀ m : ClientToServer, ∃ b, rmp_to_vec m = Ok b) → wr_done c = false →
  ∃ l c', trun privkey l c = Some c' ∧ forallb writing l = true ∧ omap client_sent l = [] ∧
    s_wire (k_srv c') = s_wire (k_srv c) ++ frames (k_out c) ∧ k_out c' = [] ∧
    k_client c' = k_client c ∧ wr_done c' = false.
Proof.
  intros Hser. remember (k_out c) as q eqn:Hq. revert c Hq. induction q as [|x q IH]; intros c Hq Hw.
  { exists [], c. by rewrite app_nil_r. }
  destruct (Hser x.2) as [b Hb]. set (c1 := with_srv (ws_send b (k_srv c)).2 (pop_out x q c)).
  assert (H1 : write_step c = Some c1).
  { unfold write_step, c1. unfold wr_done in Hw. destruct (k_wr c); [|done]. rewrite <- Hq, Hb. unfold ws_send. by rewrite Hws. }
  destruct (IH c1 eq_refl Hw) as (l & c' & Hl & Hall & Hno & Hwire & Hrest).
  exists (Writer :: l), c'. split_and!; [|done|done| |apply Hrest..].
  - cbn [trun tstep]. by rewrite H1.
  - rewrite Hwire. unfold c1, ws_send. rewrite Hws. cbn. rewrite Hb. cbn. by rewrite <- app_assoc.
Qed.

(** What the client queues is written, after what was queued before it: each
    message finds room, because the writer empties the channel. *)
Lemma client_messages_written privkey msgs c :
  (∀ m : ClientToServer, ∃ b, rmp_to_vec m = Ok b) → wr_done c = false → k_client c = true →
  ∃ l c' bs, trun privkey l c = Some c' ∧ forallb writing l = true ∧ omap client_sent l = msgs ∧
    Forall2 (λ m b, rmp_to_vec m = Ok b) msgs bs ∧ s_wire (k_srv c') = s_wire (k_srv c) ++ frames (k_out c) ++ bs.
Proof.
  intros Hser. revert c. induction msgs as [|m msgs IH]; intros c Hw Hcl.
  { destruct (write_out privkey c Hser Hw) as (l & c' & Hl & Hall & Hno & Hwire & _). exists l, c', [].
    rewrite app_nil_r. split_and!; [done..|constructor|done]. }
  destruct (write_out privkey c Hser Hw) as (l & c1 & Hl & Hall & Hno & Hwire & Ho & Hc1 & Hw1).
  set (c2 := push_out FromClient m c1).
  assert (H2 : tstep privkey (ClientSend m) c1 = Some c2).
  { cbn [tstep]. unfold client_send. by rewrite Hc1, Hcl, Hw1, Ho. }
  destruct (IH c2 Hw1 ltac:(cbn; by rewrite Hc1)) as (l' & c' & bs & Hl' & Hall' & Hs' & Hf & Hwire').
  destruct (Hser m) as [b Hb]. exists (l ++ ClientSend m :: l'), c', (b :: bs). split_and!.
  - rewrite (trun_app _ _ _ _ _ Hl). cbn [trun]. by rewrite H2.
  - by rewrite forallb_app, Hall.
  - rewrite omap_app, Hno. cbn. by f_equal.
  - by constructor.
  - rewrite Hwire'. cbn. rewrite Ho, Hwire. cbn. rewrite Hb. cbn. by rewrite <- !app_assoc.
Qed.
End Healthy.
End Tasks.

Section TasksTheorems.
Context `{Prim : Primitives} `{EnvI : !Env} `{SledI : Sled} `{SrvEnv : ServerEnv}.
Context `{MsgRmp : !Rmp Message} `{BlobRmp : !Rmp BlobPayload}.
Context `{StcRmp : !Rmp ServerToClient} `{CtsRmp : !Rmp ClientToServer}.

(** What a connection starts with: room in the event channel, and no
    [Disconnected] in it. *)
Definition fresh_events (s : Srv) : Prop :=
  (length (s_events s) ≤ CHANNEL_CAPACITY)%nat ∧ disconnects (s_events s) = 0%nat.

(** The handshake leaves such a channel when it returns. *)
Lemma drain_blobs_fresh fuel privkey s s' :
  fresh_events s → drain_blobs fuel privkey s = (Ok (Ready tt), s') → fresh_events s'.
Proof.
  revert s. induction fuel as [|fuel IH]; intros s Hf; [done|]. cbn [drain_blobs]. unfold abind at 1, ebind at 1.
  rewrite receive_message_eq. destruct (receive_from (s_in s)) as [[[msg| | |]|e] rest]; cbn [fst snd]; [|done..].
  set (s1 := mkSrv _ _ _ _ rest _ _). assert (Hf1 : fresh_events s1) by exact Hf.
  destruct (stc_payload msg) as [| |id blob bts| | | | | | | |]; try done; try (by apply IH); [|by intros [= <-]].
  unfold sbind. destruct (process_blob_one_event blob privkey s1) as (new & Hev & _ & Hall).
  destruct (process_blob blob privkey s1) as [r s2]. cbn [snd] in Hev. unfold events_stuck.
  destruct (Nat.ltb_spec EVENT_CAPACITY (length (s_events s2))) as [|Hle]; [done|]. unfold ebind.
  pose proof (ack_blob_events id s2) as He. destruct (ack_blob id s2) as [[u|e] s3]; [|done]. cbn [snd] in He. apply IH.
  unfold fresh_events. rewrite He. split; [exact Hle|]. rewrite Hev, disconnects_app. destruct Hf1 as [_ ->]. by apply handler_events_disc.
Qed.

Lemma handshake_fresh public signing privkey port ov s a s' :
  s_events s = [] → server_initial_handshake public signing privkey port ov s = (Ok (Ready a), s') → fresh_events s'.
Proof.
  intros Hev. unfold server_initial_handshake. unfold sbind at 1. rewrite with_world_eq.
  unfold ebind at 1, smap_err at 1. rewrite with_world_eq. cbn [map_err fst generate_authenticate_message sbind].
  match goal with |- context [map_err ?f ?r] => destruct (map_err f r) as [am|e]; [|done] end.
  unfold ebind at 1. match goal with |- context [send_wrapped am ?s0] =>
    pose proof (send_wrapped_events am s0) as He; destruct (send_wrapped am s0) as [[u|e] s1]; [|done] end.
  cbn in He. rewrite Hev in He. unfold abind at 1, ebind at 1. rewrite receive_message_eq, He.
  destruct (receive_from (s_in s1)) as [[[resp| | |]|e] rest]; [|done..]. cbn [fst snd]. unfold ebind at 1, sret at 1.
  destruct (stc_payload resp) as [observed| | | | | | | | | |]; try done.
  unfold sbind at 1. cbn [get_or_set_my_address]. unfold sbind at 1, set_address, smodify, sret at 1.
  unfold sbind at 1, post, smodify. unfold sbind at 1, events_stuck. cbn [s_events s_in s_world s_peers s_address s_sends s_wire app length].
  change (EVENT_CAPACITY <? 1)%nat with false. cbv iota. unfold sbind at 1, sget. unfold abind at 1, ebind at 1.
  match goal with |- context [drain_blobs ?f ?k ?s0] => pose proof (drain_blobs_fresh f k s0) as Hd;
    destruct (drain_blobs f k s0) as [[[[]| | |]|e] s3]; [|done..] end.
  specialize (Hd s3 ltac:(split; [cbn; unfold CHANNEL_CAPACITY; lia|done]) eq_refl).
  assert (Hs : ∀ (m : St Srv (result (awaited rstring) ClientErrors)) r s4,
    respects silent m → m s3 = (r, s4) → fresh_events s4).
  { intros m r s4 Hm E. specialize (Hm s3). rewrite E in Hm. unfold silent in Hm. cbn [snd] in Hm. unfold fresh_events in *. by rewrite Hm. }
  apply Hs. repeat respects_step; first [apply with_world_silent | intros s4; apply send_wrapped_events].
Qed.

Lemma run_client_fresh connect public signing privkey addr port ov s s' :
  s_events s = [] → run_client connect public signing privkey addr port ov s = (Ok (Ready tt), s') → fresh_events s'.
Proof.
  intros Hev. unfold run_client, ebind at 1, sret at 1. destruct (connect_to_server connect addr) as [items|]; [|done].
  unfold sbind at 1, set_in, smodify, abind, ebind.
  match goal with |- context [server_initial_handshake ?a ?b ?c ?d ?e ?s0] =>
    pose proof (handshake_fresh a b c d e s0) as Hh; destruct (server_initial_handshake a b c d e s0) as [[[]|] s1] end; try done.
  intros [= <-]. by eapply Hh.
Qed.

(** C11: The tasks of a connection keep order and lose nothing while they run,
    whatever their interleaving: the channels never hold more than 100 entries;
    the items come off the socket in order, and what is parsed is handled in
    that order, or waits in it; the frames written are those of the messages
    queued by the dispatcher, the presence loop and the client, in the order of
    queueing, without gaps; and the acknowledgements queued are, in order, those
    of the blobs handled. *)
Theorem connection_fifo privkey l s c :
  fresh_events s → trun privkey l (conn_start s) = Some c →
  caps_ok c ∧ k_seen c ++ s_in (k_srv c) = s_in s ∧
  (∃ rest, omap item_msg (k_seen c) = k_handled c ++ rest ∧ (rd_done c = false → rest = k_in c ++ rd_held c)) ∧
  (∃ sent rest, k_pushed c = sent ++ rest ∧ s_wire (k_srv c) = s_wire s ++ frames sent ∧
     (wr_done c = false → rest = k_out c)) ∧
  (∃ rest, omap blob_id_of (k_handled c) = omap ack_id (responses (k_pushed c)) ++ rest ∧
     (dp_done c = false → rest = omap ack_id (dp_held c))).
Proof.
  intros [Hl Hd] Hrun.
  pose proof (trun_conn_inv privkey l s c Hl Hd Hrun) as Hinv.
  assert (Hst : k_seen c ++ s_in (k_srv c) = s_in s).
  { apply (trun_inv (λ c, k_seen c ++ s_in (k_srv c) = s_in s) privkey) with l (conn_start s); [|done|done].
    intros a c1 c2 <-. apply tstep_stream. }
  destruct Hinv as (Hcap & (lost & Hin & Hlin) & Hout & (sent & failed & Hp & Hw & Hf) & (lost' & Ha & Hla) & He).
  split_and!; [done|done|..].
  - exists (k_in c ++ rd_held c ++ lost). split; [done|]. intros H. by rewrite Hlin, app_nil_r.
  - exists sent, (failed ++ k_out c). split_and!; [by rewrite Hout, Hp, <- app_assoc|done|]. intros H. by rewrite Hf.
  - exists (omap ack_id (dp_held c) ++ lost'). split; [by rewrite Ha, omap_app, <- app_assoc|].
    intros H. by rewrite Hla, app_nil_r.
Qed.

(** The end of a connection is reported once: in every run the client is
    sent at most one [Disconnected], only after one of the four tasks ended, and
    it reads the events in the order they were posted. *)
Theorem disconnected_once privkey l s c :
  fresh_events s → trun privkey l (conn_start s) = Some c →
  (disconnects (k_posted c) ≤ 1)%nat ∧
  (disconnects (k_posted c) = 1%nat → wr_done c || rd_done c || pr_done c || dp_done c = true) ∧
  (k_client c = true → k_posted c = k_read c ++ k_ev c).
Proof.
  intros [Hl Hd] Hrun.
  pose proof (trun_conn_inv privkey l s c Hl Hd Hrun) as Hinv.
  destruct Hinv as (_ & _ & _ & _ & _ & E1 & E2 & E3 & _). split_and!; [..|done].
  - destruct (k_su c); lia.
  - intros H. apply E3. intros Hsu. rewrite Hsu in E2. lia.
Qed.

Lemma internal_run_inv (P : Link → Prop) privkey c c' :
  (∀ a c1 c2, P c1 → tstep privkey a c1 = Some c2 → P c2) → P c → internal_run privkey c c' → P c'.
Proof. intros Hstep Hc Hr. induction Hr; eauto. Qed.

(** C24: A connection never gets stuck while the client reads its events: from
    every state of every run, the tasks can finish what they hold without any
    help from the network or the clock. Each such step uses up a bounded amount
    of work, a state without one is idle, and an idle state is reached; there,
    if the socket is still open and its sends succeed, every message taken off
    the socket has been handled, every queued message is on the wire, and
    every blob that arrived is acknowledged. *)
Theorem connection_settles privkey l s c :
  (∀ n, ws_fault n = None) → fresh_events s → trun privkey l (conn_start s) = Some c →
  (∀ c1 a c2, internal a c1 = true → tstep privkey a c1 = Some c2 → (work c2 < work c1)%nat) ∧
  (∃ c', internal_run privkey c c' ∧ idle c') ∧
  ∀ c', internal_run privkey c c' →
    (idle c' ∨ ∃ a c'', internal a c' = true ∧ tstep privkey a c' = Some c'') ∧
    (idle c' → rd_done c' = false →
       k_handled c' = omap item_msg (k_seen c') ∧ s_wire (k_srv c') = s_wire s ++ frames (k_pushed c') ∧
       omap ack_id (responses (k_pushed c')) = omap blob_id_of (omap item_msg (k_seen c'))).
Proof.
  intros Hws [Hl Hd] Hrun. split_and!; [intros c1 a c2; apply internal_decreases|apply settle|].
  intros c' Hr. split; [apply progress|]. intros (Hh & Hdp & _ & Ho & _) Hrd.
  assert (Hinv : conn_inv (s_wire s) c').
  { eapply internal_run_inv; [|by eapply trun_conn_inv|exact Hr]. intros a c1 c2. apply tstep_inv. }
  assert (Hall : all_running c').
  { apply internal_run_inv with privkey c; [intros a c1 c2; by apply tstep_running| |done].
    apply (trun_inv all_running privkey) with l (conn_start s); [intros a c1 c2; by apply tstep_running| |done].
    by intros _. }
  destruct (Hall Hrd) as (Hw & _ & Hnd & _).
  destruct Hinv as (_ & (lost & Hin & Hlin) & Hout & (sent & failed & Hp & Hwire & Hf) & (lost' & Ha & Hla) & _).
  rewrite Hlin, Hh, app_nil_r in Hin by done. rewrite Hla, app_nil_r in Ha by done. rewrite Hf, app_nil_r in Hp by done.
  destruct Hdp as [?|(Hpc & Hq & _)]; [congruence|]. destruct Ho as [?|Ho]; [congruence|].
  rewrite Hq, app_nil_r in Hin. unfold out_fifo in Hout. rewrite Ho, app_nil_r, Hp in Hout.
  unfold dp_held in Ha. rewrite Hpc, app_nil_r in Ha. split_and!; [done|by rewrite Hwire, Hout|]. by rewrite Hin, Ha.
Qed.

(** C36: Changing the server does not end the old connection: nothing aborts the
    tasks when the client drops its ends of the channels. In every run in which
    the socket's sends succeed and the server has not closed it, all four tasks
    are still running and no [Disconnected] was posted, client or no client;
    and the next tick announces the user to every peer at the old server
    again. *)
Theorem old_connection_survives `{!KdfLaws} privkey l s c :
  (∀ n, ws_fault n = None) → (∀ m : ClientToServer, ∃ b, rmp_to_vec m = Ok b) → fresh_events s →
  trun privkey l (conn_start s) = Some c → rd_done c = false →
  (wr_done c = false ∧ pr_done c = false ∧ dp_done c = false ∧ disconnects (k_posted c) = 0%nat) ∧
  ∀ addr peers, idle c → s_address (k_srv c) = Some addr → (load_peers (s_world (k_srv c))).1 = Ok peers →
    ∃ l' c' ts msgs bs, trun privkey l' c = Some c' ∧ rd_done c' = false ∧ k_client c' = k_client c ∧
      k_pr c' = PrTick ∧ s_wire (k_srv c') = s_wire (k_srv c) ++ bs ∧ Forall2 (λ m b, rmp_to_vec m = Ok b) msgs bs ∧
      Forall2 (λ p m, ∃ t, presence_token privkey (peer_public p) ts = Ok t ∧
                           cts_payload m = CM.Announce t addr) peers msgs.
Proof.
  intros Hws Hser [Hl Hd] Hrun Hrd.
  assert (Hall : all_running c).
  { apply (trun_inv all_running privkey) with l (conn_start s); [intros a c1 c2; by apply tstep_running| |done].
    by intros _. }
  destruct (Hall Hrd) as (Hw & Hp & Hnd & Hsu). split.
  { pose proof (trun_conn_inv privkey l s c Hl Hd Hrun) as (_ & _ & _ & _ & _ & _ & E2 & _).
    rewrite Hsu in E2. done. }
  intros addr peers (_ & _ & Hpr & Ho & _) Haddr Hload. destruct Ho as [?|Ho]; [congruence|].
  assert (Htick : k_pr c = PrTick) by (unfold pr_done in Hp; by destruct (k_pr c)).
  destruct (load_peers (s_world (k_srv c))) as [r w1] eqn:Hlp. cbn in Hload. subst r.
  set (ts := clock (w_clock w1)).
  set (c1 := at_pr (PrPeers ts addr peers) (with_srv (put_world (put_world (k_srv c) w1) (utc_now w1).2) c)).
  assert (H1 : presence_step privkey c = Some c1).
  { unfold presence_step. rewrite Htick, Haddr. rewrite with_world_eq, Hlp. cbn [fst snd]. by rewrite with_world_eq. }
  destruct (announce_run Hws privkey ts addr peers c1) as (l' & c' & msgs & bs & Hl' & Hwire & Hf & Hm & Hpr' & Hcl & Hr');
    [intros p; apply presence_token_total|done|done|exact Ho|exact Hw|].
  exists (Presence :: l'), c', ts, msgs, bs. split_and!; try done.
  - cbn [trun tstep]. by rewrite H1.
  - by rewrite Hr'.
Qed.
End TasksTheorems.

Module TasksWitness.
#[local] Existing Instances toy_prims toy_env list_sled.
#[local] Existing Instances ChatDbWitness.toy_rmp_message ServerWitness.toy_rmp_blob ServerWitness.toy_server
  ServerWitness.toy_rmp_stc ServerWitness.toy_rmp_cts.
Import ServerWitness.

(** A connection on which a junk blob arrives, and then the end of the stream. *)
Definition items1 : list ws_item := items0 ++ [WsEnd].
Definition srv1 : Srv := mkSrv ChatDbWitness.w1 [] (Some (str "1.2.3.4:5")) [SE.Authenticated (str "1.2.3.4:5")] items1 0 [].
Definition blob_run : list action := [Reader; Reader; Presence; Dispatcher; ClientRecv; Presence; Dispatcher; Writer].
Definition ran (l : list action) : bool := match trun bobX l (conn_start srv1) with Some _ => true | None => false end.

Lemma blob_run_ok l : ran l = true → ∃ c, trun bobX l (conn_start srv1) = Some c.
Proof. unfold ran. destruct (trun bobX l (conn_start srv1)) as [c|]; [eauto|done]. Qed.
Lemma no_faults n : @ws_fault toy_server n = None.
Proof. done. Qed.
Lemma srv1_fresh : fresh_events srv1.
Proof. split; [vm_compute; lia|reflexivity]. Qed.

Lemma connection_fifo_witness :
  ∃ c, trun bobX blob_run (conn_start srv1) = Some c ∧ k_seen c ++ s_in (k_srv c) = items1.
Proof.
  destruct (blob_run_ok blob_run) as [c Hc]; [vm_compute; reflexivity|]. exists c. split; [exact Hc|].
  apply (connection_fifo bobX blob_run srv1 c srv1_fresh Hc).
Defined.

(** The stream ends: the reader stops, and the client is told. *)
Definition end_run : list action :=
  [Reader; Reader; Dispatcher; Dispatcher; Writer; Reader; Reader; Reader; Supervisor; Supervisor; ClientRecv; ClientRecv].
Lemma disconnected_once_witness :
  ∃ c, trun bobX end_run (conn_start srv1) = Some c ∧ (disconnects (k_posted c) ≤ 1)%nat.
Proof.
  destruct (blob_run_ok end_run) as [c Hc]; [vm_compute; reflexivity|]. exists c. split; [exact Hc|].
  apply (disconnected_once bobX end_run srv1 c srv1_fresh Hc).
Defined.

Lemma connection_settles_witness :
  ∃ c c', trun bobX [Reader] (conn_start srv1) = Some c ∧ internal_run bobX c c' ∧ idle c'.
Proof.
  destruct (blob_run_ok [Reader]) as [c Hc]; [vm_compute; reflexivity|].
  destruct (connection_settles bobX [Reader] srv1 c no_faults srv1_fresh Hc) as (_ & (c' & Hr & Hi) & _).
  exists c, c'. split; [exact Hc|split; [exact Hr|exact Hi]].
Defined.

Lemma old_connection_survives_witness :
  ∃ c c' bs, trun bobX [ClientDrop] (conn_start srv1) = Some c ∧ k_client c = false ∧
    (∃ l', trun bobX l' c = Some c') ∧ s_wire (k_srv c') = bs ∧ length bs = 1%nat.
Proof.
  set (c := drop_client (conn_start srv1)).
  assert (Hser : ∀ m : ClientToServer, ∃ b, rmp_to_vec m = Ok b) by (intros m; by eexists).
  destruct (@old_connection_survives toy_prims toy_env list_sled toy_server _ _ _ _ toy_kdf_laws bobX [ClientDrop] srv1 c
    no_faults Hser srv1_fresh eq_refl eq_refl) as [_ Htick].
  assert (Hb : match (load_peers (s_world (k_srv c))).1 with Ok ps => length ps | Err _ => 0%nat end = 1%nat)
    by (vm_compute; reflexivity).
  destruct (load_peers (s_world (k_srv c))).1 as [ps|e] eqn:Hps; [|discriminate].
  destruct (Htick (str "1.2.3.4:5") ps) as (l' & c' & ts & msgs & bs & Hl & _ & _ & _ & Hw & Hf & Hm).
  - split_and!; [reflexivity|right; split_and!; reflexivity|exact I|right; reflexivity|discriminate|right; reflexivity].
  - reflexivity.
  - reflexivity.
  - exists c, c', bs. split_and!; [reflexivity|reflexivity|by exists l'|exact Hw|].
    apply Forall2_length in Hf. apply Forall2_length in Hm. congruence.
Defined.
End TasksWitness.
