(* ===== verification/ClientFiles.v ===== *)
(** * The client's own files, names and contacts

    From src/crates/client/src/lib.rs: the relay address file, the alias file
    ([load_aliases], [set_alias], [alias_of], [remove_alias]), the contact
    list, name resolution and the default STUN address.  A [HashMap] is a
    [gmap]; the order in which it is iterated is a parameter. *)

From Stdlib Require Import Strings.Byte.
From S2P Require Import Prelude Bytes Text Primitives Instances World Crypto KeyFile PeerStore ChatDb ServerProto ServerClient.

(** The process environment and the iteration order of a [HashMap]. *)
Class ClientEnv := {
  env_var : rstring → option rstring;
  hash_order : ∀ A : Type, list (hash * A) → list (hash * A)
}.
Class ClientEnvLaws `{ClientEnv} : Prop := {
  hash_order_perm : ∀ A (l : list (hash * A)), hash_order A l ≡ₚ l
}.
Arguments hash_order {_ A}.

(** [&map] in a [for] loop *)
Definition iter_map `{ClientEnv} {A} (m : gmap hash A) : list (hash * A) := hash_order (map_to_list m).

Record Contact := mkContact {
  ct_id : hash;
  ct_fingerprint : rstring;
  ct_online : bool;
  ct_address : option rstring;
  ct_alias : option rstring
}.

(** [Contact::label] *)
Definition contact_label (c : Contact) : rstring := default (ct_fingerprint c) (ct_alias c).

(** [default_stun_addr] *)
Definition default_stun_addr (server_address : rstring) : rstring :=
  let host := match rsplit_once colon server_address with
              | Some (h, _) => h
              | None => server_address
              end in
  let host := match strip_prefix (str "relay.") host with
              | Some rest => str "stun." ++ rest
              | None => host
              end in
  host ++ str ":3478".

(** [resolve_query] *)
Definition resolve_query (contacts : list Contact) (query : rstring) : option hash :=
  let q := trim query in
  if is_empty q then None
  else
    ct_id <$>
      match List.find (λ c, bool_decide (ct_alias c = Some q)) contacts with
      | Some c => Some c
      | None =>
          match List.find (λ c, match ct_alias c with Some a => starts_with q a | None => false end) contacts with
          | Some c => Some c
          | None => List.find (λ c, starts_with q (ct_fingerprint c)) contacts
          end
      end.

Section ClientFiles.
Context `{Prim : Primitives} `{EnvI : !Env} `{SledI : Sled} `{CliEnv : ClientEnv}.

Definition fingerprint (id : hash) : rstring := hex_encode (take 6 (arr_data id)).

Definition server_config_path : path := sechat_dir ++ [str "server"].

Definition load_server : St World (option rstring) :=
  let! r := read_to_string server_config_path in
  sret (s ← to_option r; let s := trim s in if is_empty s then None else Some s).

Definition save_server (addr : rstring) : St World (result unit rstring) :=
  let? _ := smap_err io_display (create_dir_all sechat_dir) in
  let? _ := smap_err io_display (fs_write server_config_path (as_bytes (trim addr))) in
  sret (Ok tt).

Definition resolve_server : St World (option rstring) :=
  match (s ← env_var (str "SECHAT_SERVER"); if is_empty s then None else Some s) with
  | Some s => sret (Some s)
  | None => load_server
  end.

Definition aliases_path : path := sechat_dir ++ [str "aliases"].

(** One line of the alias file. *)
Definition parse_alias (line : rstring) : option (hash * rstring) :=
  '(hex_id, name) ← split_once tab_char line;
  b ← to_option (hex_decode hex_id);
  id ← try_into 32 b;
  Some (id, name).

Definition add_line (m : gmap hash rstring) (line : rstring) : gmap hash rstring :=
  match parse_alias line with Some (id, name) => <[id := name]> m | None => m end.

Definition parse_aliases (content : rstring) : gmap hash rstring := foldl add_line ∅ (lines content).

Definition load_aliases : St World (gmap hash rstring) :=
  let! r := read_to_string aliases_path in
  sret match r with Ok content => parse_aliases content | Err _ => ∅ end.

Definition alias_line (kv : hash * rstring) : rstring :=
  hex_encode (arr_data kv.1) ++ [tab_char] ++ kv.2 ++ [newline].

(** [for (k, v) in &map { .. }] *)
Definition print_aliases (m : gmap hash rstring) : rstring := mjoin (alias_line <$> iter_map m).

Definition set_alias (id : hash) (name : rstring) : St World (result unit rstring) :=
  let name := trim name in
  if is_empty name || (32 <? length name)%nat
  then sret (Err (str "alias must be 1-32 characters"))
  else
    let! m := load_aliases in
    let m := <[id := name]> m in
    let? _ := smap_err io_display (create_dir_all sechat_dir) in
    let? _ := smap_err io_display (fs_write aliases_path (as_bytes (print_aliases m))) in
    sret (Ok tt).

Definition alias_of (id : hash) : St World (option rstring) :=
  let! m := load_aliases in sret (m !! id).

Definition remove_alias (id : hash) : St World (result unit rstring) :=
  let! m := load_aliases in
  match m !! id with
  | None => sret (Ok tt)
  | Some _ =>
      let? _ := smap_err io_display (fs_write aliases_path (as_bytes (print_aliases (delete id m)))) in
      sret (Ok tt)
  end.

(** ** Lemmas *)

(** A name that survives a line of the file. *)
Definition name_ok (n : rstring) : Prop := (newline ∉ n) ∧ last n ≠ Some carriage.

Lemma parse_alias_line `{!HexLaws} id n :
  name_ok n → parse_alias (strip_cr (hex_encode (arr_data id) ++ [tab_char] ++ n)) = Some (id, n).
Proof.
  intros [Hn Hcr]. rewrite strip_cr_id.
  - unfold parse_alias. simpl. rewrite split_once_app by (by apply hex_char_not). simpl.
    rewrite hex_roundtrip. simpl. by rewrite try_into_data.
  - rewrite last_app. destruct n as [|c n]; [done|]. rewrite last_app_cons. simpl in *.
    destruct (last (c :: n)) eqn:E; [done|]. by apply last_None in E.
Qed.

Lemma foldl_insert_lookup {A} (l : list (hash * A)) (m : gmap hash A) k :
  NoDup l.*1 →
  foldl (λ m kv, <[kv.1 := kv.2]> m) m l !! k =
  match (list_to_map l : gmap hash A) !! k with Some v => Some v | None => m !! k end.
Proof.
  revert m. induction l as [|[a b] l IH]; intros m Hnd; [done|].
  apply NoDup_cons in Hnd as [Ha Hnd]. simpl. rewrite IH by done.
  destruct (decide (a = k)) as [->|Hne].
  - rewrite not_elem_of_list_to_map_1 by done. by rewrite !lookup_insert_eq.
  - by rewrite !lookup_insert_ne.
Qed.

Lemma lines_print (l : list (hash * rstring)) `{!HexLaws} :
  Forall (λ kv, name_ok kv.2) l →
  lines (mjoin (alias_line <$> l)) =
  (λ kv, strip_cr (hex_encode (arr_data kv.1) ++ [tab_char] ++ kv.2)) <$> l.
Proof.
  induction 1 as [|[id n] l Hn Hl IH]; [done|].
  change (mjoin (alias_line <$> (id, n) :: l)) with (alias_line (id, n) ++ mjoin (alias_line <$> l)).
  unfold alias_line at 1. cbn [fst snd].
  assert (Hline : ∀ r, (hex_encode (arr_data id) ++ [tab_char] ++ n ++ [newline]) ++ r =
    (hex_encode (arr_data id) ++ [tab_char] ++ n) ++ newline :: r).
  { intros r. by rewrite <- !app_assoc. }
  rewrite Hline, lines_app, IH; [done|].
  rewrite !not_elem_of_app. split_and!; [by apply hex_char_not|by intros ?%list_elem_of_singleton|apply Hn].
Qed.

(** The alias file reads back, in whatever order it was written. *)
Lemma parse_print `{!HexLaws, !ClientEnvLaws} (m : gmap hash rstring) :
  map_Forall (λ _ n, name_ok n) m → parse_aliases (print_aliases m) = m.
Proof.
  intros Hm. unfold parse_aliases, print_aliases. set (l := iter_map m).
  assert (Hp : l ≡ₚ map_to_list m) by apply hash_order_perm.
  assert (Hl : Forall (λ kv, name_ok kv.2) l).
  { rewrite Hp. apply Forall_forall. intros [k n] Hin%elem_of_map_to_list. by apply (Hm k n). }
  assert (Hnd : NoDup l.*1) by (rewrite Hp; apply NoDup_fst_map_to_list).
  rewrite lines_print by done.
  assert (Hf : ∀ m0 : gmap hash rstring,
    foldl add_line m0 ((λ kv, strip_cr (hex_encode (arr_data kv.1) ++ [tab_char] ++ kv.2)) <$> l) =
    foldl (λ m kv, <[kv.1 := kv.2]> m) m0 l).
  { clear Hp Hnd. induction Hl as [|[k n] l' Hn Hl IH]; intros m0; [done|].
    cbn [fmap list_fmap foldl fst snd]. unfold add_line at 2. rewrite parse_alias_line by done. apply IH. }
  rewrite Hf. apply map_eq. intros k. rewrite foldl_insert_lookup by done. rewrite lookup_empty.
  rewrite (list_to_map_proper l (map_to_list m) Hnd Hp), list_to_map_to_list. by destruct (m !! k).
Qed.

(** What the alias file holds. *)
Definition alias_file (fs : gmap path node) : gmap hash rstring :=
  match fs !! aliases_path with
  | Some (NFile d) => match from_utf8 d with Some s => parse_aliases s | None => ∅ end
  | _ => ∅
  end.

Lemma load_aliases_quiet `{!Quiet} w :
  load_aliases w = (alias_file (w_fs w), mkWorld (w_fs w) (w_clock w) (w_rng w) (S (w_io w))).
Proof.
  unfold load_aliases, sbind, read_to_string, alias_file. rewrite syscall_quiet.
  destruct (w_fs w !! aliases_path) as [[|d|]|]; simpl; try done. by destruct (from_utf8 d).
Qed.

(** Names are stored trimmed, so a stored name is one the file can hold
    unless it has a line break inside. *)
Lemma trimmed_name_ok n : newline ∉ n → name_ok (trim n).
Proof. intros Hn. split; [intros Hin; by apply Hn, trim_elem|apply trim_not_cr]. Qed.
End ClientFiles.

Section ClientFilesTheorems.
Context `{Prim : Primitives} `{EnvI : !Env} `{SledI : Sled} `{CliEnv : ClientEnv}.

Definition aliases_wf (m : gmap hash rstring) : Prop := map_Forall (λ _ n, name_ok n) m.

Lemma write_aliases_file `{!HexLaws, !ClientEnvLaws} m fs :
  aliases_wf m → alias_file (<[aliases_path := NFile (as_bytes (print_aliases m))]> fs) = m.
Proof.
  intros Hm. unfold alias_file. rewrite lookup_insert_eq, from_utf8_as_bytes. by apply parse_print.
Qed.

(** A saved server address reads back trimmed. *)
Lemma save_server_quiet `{!Quiet} addr w :
  clear_path (w_fs w) sechat_dir → not_a_dir (w_fs w) server_config_path →
  ∃ w', save_server addr w = (Ok tt, w') ∧
    (load_server w').1 = (if is_empty (trim addr) then None else Some (trim addr)) ∧ w_rng w' = w_rng w ∧
    (∀ q, q ≠ server_config_path → is_Some (w_fs w !! q) → w_fs w' !! q = w_fs w !! q).
Proof.
  intros Hclear Hfile. unfold save_server.
  destruct (create_dir_quiet sechat_dir w Hclear) as (fs1 & Hm & Hd).
  erewrite ebind_step by (apply smap_err_step, Hd).
  erewrite ebind_step by (apply smap_err_step, fs_write_quiet; cbn [w_fs];
    [unfold server_config_path; rewrite parent_snoc; by eapply mkdirs_target|
     eapply mkdirs_not_a_dir; [|exact Hm|exact Hfile]; intros [r Hr]; apply (f_equal length) in Hr;
     unfold server_config_path in Hr; rewrite !length_app in Hr; simpl in Hr; lia]).
  eexists. split; [reflexivity|]. split; [|split; [done|]].
  - unfold load_server, sbind, read_to_string. rewrite syscall_quiet. cbn [w_fs].
    rewrite lookup_insert_eq, from_utf8_as_bytes. cbn. by rewrite trim_idemp.
  - intros q Hq Hs. cbn [w_fs]. rewrite lookup_insert_ne by done.
    pose proof (mkdirs_mono [] sechat_dir (w_fs w) q Hs) as Hk. by rewrite Hm in Hk.
Qed.

Lemma set_alias_quiet `{!Quiet, !HexLaws, !ClientEnvLaws} id name w :
  clear_path (w_fs w) sechat_dir → not_a_dir (w_fs w) aliases_path →
  aliases_wf (alias_file (w_fs w)) → newline ∉ name → (0 < length (trim name) ≤ 32)%nat →
  ∃ w', set_alias id name w = (Ok tt, w') ∧
    alias_file (w_fs w') = <[id := trim name]> (alias_file (w_fs w)) ∧
    aliases_wf (alias_file (w_fs w')) ∧ is_dir_node (w_fs w') sechat_dir = true ∧
    not_a_dir (w_fs w') aliases_path.
Proof.
  intros Hclear Hfile Hwf Hnl Hlen. unfold set_alias.
  assert (Hc : is_empty (trim name) || (32 <? length (trim name))%nat = false).
  { destruct (trim name) as [|c n]; simpl in *; [lia|]. apply Nat.ltb_ge. lia. }
  rewrite Hc. erewrite sbind_step by apply load_aliases_quiet. set (m := <[id := trim name]> _).
  destruct (create_dir_quiet sechat_dir (mkWorld (w_fs w) (w_clock w) (w_rng w) (S (w_io w))) Hclear)
    as (fs1 & Hm & Hd).
  assert (Hnd : not_a_dir fs1 aliases_path).
  { eapply mkdirs_not_a_dir; [|exact Hm|exact Hfile]. intros [r Hr]. apply (f_equal length) in Hr.
    unfold aliases_path in Hr. rewrite !length_app in Hr. simpl in Hr. lia. }
  assert (Hdir : is_dir_node fs1 sechat_dir = true) by (by eapply mkdirs_target).
  assert (Hmwf : aliases_wf m) by (apply map_Forall_insert_2; [by apply trimmed_name_ok|done]).
  erewrite ebind_step by (apply smap_err_step, Hd).
  erewrite ebind_step by (apply smap_err_step, fs_write_quiet;
    [unfold aliases_path; by rewrite parent_snoc|done]).
  eexists. split; [reflexivity|]. cbn [w_fs]. rewrite write_aliases_file by done. split_and!; [done|done| |].
  - apply is_dir_insert_file; [done|]. unfold aliases_path. intros Heq. apply (f_equal length) in Heq.
    rewrite length_app in Heq. simpl in Heq. lia.
  - unfold not_a_dir. by rewrite lookup_insert_eq.
Qed.

(** Aliases are remembered exactly: setting an alias of 1 to 32 characters
    without a line break stores it trimmed, keeps every other alias, whatever
    order the map is written in, and the file stays readable; removing it then
    gives back the aliases without that peer. *)
Theorem alias_roundtrip `{!Quiet, !HexLaws, !ClientEnvLaws} id name w :
  clear_path (w_fs w) sechat_dir → not_a_dir (w_fs w) aliases_path →
  aliases_wf (alias_file (w_fs w)) → newline ∉ name → (0 < length (trim name) ≤ 32)%nat →
  ∃ w' w'', set_alias id name w = (Ok tt, w') ∧
    (alias_of id w').1 = Some (trim name) ∧
    (∀ id', id' ≠ id → (alias_of id' w').1 = alias_file (w_fs w) !! id') ∧
    aliases_wf (alias_file (w_fs w')) ∧
    remove_alias id w' = (Ok tt, w'') ∧ alias_file (w_fs w'') = delete id (alias_file (w_fs w)).
Proof.
  intros Hclear Hfile Hwf Hnl Hlen.
  destruct (set_alias_quiet id name w Hclear Hfile Hwf Hnl Hlen) as (w' & Hs & Ha & Hwf' & Hdir & Hnd).
  assert (Hof : ∀ id', (alias_of id' w').1 = <[id := trim name]> (alias_file (w_fs w)) !! id').
  { intros id'. unfold alias_of, sbind. rewrite load_aliases_quiet. cbn. by rewrite Ha. }
  eexists w', _. split; [exact Hs|]. split_and!.
  - by rewrite Hof, lookup_insert_eq.
  - intros id' Hne. by rewrite Hof, lookup_insert_ne.
  - done.
  - unfold remove_alias. erewrite sbind_step by apply load_aliases_quiet. rewrite Ha, lookup_insert_eq.
    erewrite ebind_step by (apply smap_err_step, fs_write_quiet;
      [unfold aliases_path; by rewrite parent_snoc|done]). reflexivity.
  - cbn [w_fs]. rewrite write_aliases_file; [by rewrite delete_insert_eq|].
    rewrite delete_insert_eq. by apply map_Forall_delete.
Qed.

(** How well a contact matches a query: alias, alias prefix, fingerprint prefix. *)
Definition match_rank (q : rstring) (c : Contact) : option nat :=
  if bool_decide (ct_alias c = Some q) then Some 0%nat
  else if match ct_alias c with Some a => starts_with q a | None => false end then Some 1%nat
  else if starts_with q (ct_fingerprint c) then Some 2%nat
  else None.

(** Name resolution picks a best match: a query resolves to the id of a
    listed contact whose rank (exact alias, then alias prefix, then fingerprint
    prefix) no other contact beats, and it fails exactly when it is blank or
    matches no contact. *)
Theorem resolve_query_ranked (contacts : list Contact) (query : rstring) :
  match resolve_query contacts query with
  | Some id => ∃ c r, c ∈ contacts ∧ ct_id c = id ∧ match_rank (trim query) c = Some r ∧
      ∀ c' r', c' ∈ contacts → match_rank (trim query) c' = Some r' → (r ≤ r')%nat
  | None => trim query = [] ∨ ∀ c, c ∈ contacts → match_rank (trim query) c = None
  end.
Proof.
  unfold resolve_query. destruct (trim query) as [|x q0] eqn:Hq; cbn [is_empty]; [by left|].
  set (q := x :: q0).
  assert (Hsome : ∀ f c, List.find f contacts = Some c → c ∈ contacts ∧ f c = true)
    by (intros f c Hf; apply List.find_some in Hf as [?%list_elem_of_In ?]; done).
  assert (Hnone : ∀ f c, List.find f contacts = None → c ∈ contacts → f c = false)
    by (intros f c Hf Hin; eapply List.find_none; [exact Hf|by apply list_elem_of_In]).
  destruct (List.find _ contacts) as [c|] eqn:H0; cbn [fmap option_fmap option_map].
  { apply Hsome in H0 as [Hin Hc]. exists c, 0%nat. unfold match_rank at 1. rewrite Hc. split_and!; [done..|lia]. }
  destruct (List.find (λ c, match ct_alias c with Some a => starts_with q a | None => false end) contacts)
    as [c|] eqn:H1; cbn [fmap option_fmap option_map].
  { apply Hsome in H1 as [Hin Hc]. exists c, 1%nat. unfold match_rank at 1.
    rewrite (Hnone _ c H0 Hin), Hc. split_and!; [done..|]. intros c' r' Hin'. unfold match_rank.
    rewrite (Hnone _ c' H0 Hin'). repeat case_match; intros [= <-]; lia. }
  destruct (List.find (λ c, starts_with q (ct_fingerprint c)) contacts) as [c|] eqn:H2;
    cbn [fmap option_fmap option_map].
  { apply Hsome in H2 as [Hin Hc]. exists c, 2%nat. unfold match_rank at 1.
    rewrite (Hnone _ c H0 Hin), (Hnone _ c H1 Hin), Hc. split_and!; [done..|]. intros c' r' Hin'.
    unfold match_rank. rewrite (Hnone _ c' H0 Hin'), (Hnone _ c' H1 Hin').
    case_match; [intros [= <-]; lia|done]. }
  right. intros c Hin. unfold match_rank. by rewrite (Hnone _ c H0 Hin), (Hnone _ c H1 Hin), (Hnone _ c H2 Hin).
Qed.
End ClientFilesTheorems.

Module ClientFilesWitness.
#[local] Existing Instances toy_prims toy_env list_sled.
Definition toy_client : ClientEnv := {| env_var _ := None; hash_order _ l := rev l |}.
Lemma toy_client_laws : @ClientEnvLaws toy_client.
Proof. constructor. intros A l. cbn. symmetry. apply Permutation_rev. Qed.
#[local] Existing Instance toy_client.

Lemma alias_roundtrip_witness :
  ∃ w' w'', set_alias PeerStoreWitness.alice_id (str " Alice ") PeerStoreWitness.w0 = (Ok tt, w') ∧
    (alias_of PeerStoreWitness.alice_id w').1 = Some (trim (str " Alice ")) ∧
    (∀ id', id' ≠ PeerStoreWitness.alice_id → (alias_of id' w').1 = alias_file (w_fs PeerStoreWitness.w0) !! id') ∧
    aliases_wf (alias_file (w_fs w')) ∧
    remove_alias PeerStoreWitness.alice_id w' = (Ok tt, w'') ∧
    alias_file (w_fs w'') = delete PeerStoreWitness.alice_id (alias_file (w_fs PeerStoreWitness.w0)).
Proof.
  apply (@alias_roundtrip toy_prims toy_env list_sled toy_client KeyFileWitness.toy_quiet toy_hex_laws toy_client_laws
    PeerStoreWitness.alice_id (str " Alice ") PeerStoreWitness.w0).
  - intros k d. change (w_fs PeerStoreWitness.w0) with (∅ : gmap path node). by rewrite lookup_empty.
  - exact I.
  - apply map_Forall_empty.
  - refine (bool_decide_unpack _ _). vm_compute. exact I.
  - vm_compute. lia.
Defined.
End ClientFilesWitness.
