(* ===== verification/ClientCore.v ===== *)
(** * The client core: commands, server events and connect retries

    From src/crates/client/src/lib.rs: [ConnectIntent], [next_retry_action],
    [bump_backoff], [peer_is_online], [send_punch_request], [drive_retries],
    [Client::add_peer], [Client::contacts], [handle_server_event],
    [handle_command] and the branches of [orchestrate].  Instants are
    milliseconds; a channel is known by a number, and what is sent into it is
    recorded. *)

From Stdlib Require Import Strings.Byte.
From S2P Require Import Prelude Bytes Text Primitives Instances World Crypto KeyFile PeerStore ChatDb ServerProto ServerClient ClientFiles.

Local Open Scope Z_scope.

Module AE.
Inductive AppEvent :=
| Connected (observed_address : rstring)
| PeerOnline (id : hash)
| PeerOffline (id : hash)
| MessageArrived (peer : hash) (from_me : bool)
| HolePunchDenied (peer : hash) (reason : rstring)
| SessionUp (peer : hash) (direct : bool)
| SessionDown (peer : hash)
| ConnectRetrying (peer : hash) (attempt delay_secs : Z)
| ConnectGaveUp (peer : hash)
| Disconnected
| Error (s : rstring).
End AE.
Export AE(AppEvent).

Module Cmd.
Inductive Command :=
| Send (peer : hash) (text : rstring)
| Connect (peer : hash)
| Purge (peer : hash)
| RemovePeer (peer : hash)
| AnnounceNow
| SetServer (addr : rstring)
| Shutdown.
End Cmd.
Export Cmd(Command).

(** ** The retry ladder *)

Definition MAX_CONNECT_ATTEMPTS : Z := 5.
Definition RETRY_BACKOFF_CAP_SECS : Z := 30.
Definition RETRY_TICK_MS : Z := 500.

Record ConnectIntent := mkIntent {
  in_attempts : Z;
  in_backoff : Z;
  in_due : Z;
  in_online : bool
}.

(** [ConnectIntent::armed] and [rearm] at an instant *)
Definition armed (online : bool) (now : Z) : ConnectIntent := mkIntent 0 1 now online.
Definition rearm (i : ConnectIntent) (now : Z) : ConnectIntent := mkIntent 0 1 now (in_online i).

Inductive RetryAction := Punch | GiveUp | Wait | Done.

Definition next_retry_action (intent : ConnectIntent) (has_session : bool) (now : Z) : RetryAction :=
  if has_session then Done
  else if negb (in_online intent) then Wait
  else if in_attempts intent >? MAX_CONNECT_ATTEMPTS then Wait
  else if in_attempts intent =? MAX_CONNECT_ATTEMPTS then GiveUp
  else if now <? in_due intent then Wait
  else Punch.

Definition bump_backoff (current : Z) : Z := Z.min (current * 2) RETRY_BACKOFF_CAP_SECS.

(** ** The state *)

(** A session as the map holds it: the number of its outbound channel, and of
    its relay inbox when it runs over the relay. *)
Record SessionEntry := mkEntry { se_outbound : nat; se_relay_in : option nat }.

(** Outcomes of the surroundings, numbered by use: the instants, and whether
    the receiving end of a channel is still there. *)
Class CoreEnv := {
  instant : nat → Z;
  server_ok : nat → bool;
  outbound_ok : nat → nat → bool
}.

Section ClientCore.
Context `{Prim : Primitives} `{EnvI : !Env} `{SledI : Sled} `{SrvEnv : ServerEnv} `{CliEnv : ClientEnv}.
Context `{CorEnv : CoreEnv} `{MsgRmp : !Rmp Message} `{BlobRmp : !Rmp BlobPayload}.

Record Core := mkCore {
  c_srv : Srv;
  c_intents : gmap hash ConnectIntent;
  c_sessions : gmap hash SessionEntry;
  c_connecting : gset hash;
  c_app : list AppEvent;
  c_out : list ClientToServer;
  c_texts : list (nat * rstring);
  c_relayed : list (nat * bytes);
  c_spawned : list (PeerPublic * rstring * Z);
  c_uses : nat
}.

Definition on_srv {A} (m : St Srv A) : St Core A :=
  λ c, let '(a, s) := m (c_srv c) in
       (a, mkCore s (c_intents c) (c_sessions c) (c_connecting c) (c_app c) (c_out c) (c_texts c)
             (c_relayed c) (c_spawned c) (c_uses c)).
Definition on_disk {A} (m : St World A) : St Core A := on_srv (with_world m).
Definition set_intents (f : gmap hash ConnectIntent → gmap hash ConnectIntent) : St Core unit :=
  smodify (λ c, mkCore (c_srv c) (f (c_intents c)) (c_sessions c) (c_connecting c) (c_app c) (c_out c)
                  (c_texts c) (c_relayed c) (c_spawned c) (c_uses c)).
Definition set_sessions (f : gmap hash SessionEntry → gmap hash SessionEntry) : St Core unit :=
  smodify (λ c, mkCore (c_srv c) (c_intents c) (f (c_sessions c)) (c_connecting c) (c_app c) (c_out c)
                  (c_texts c) (c_relayed c) (c_spawned c) (c_uses c)).
(** [let _ = app_tx.send(e)] *)
Definition notify (e : AppEvent) : St Core unit :=
  smodify (λ c, mkCore (c_srv c) (c_intents c) (c_sessions c) (c_connecting c) (c_app c ++ [e]) (c_out c)
                  (c_texts c) (c_relayed c) (c_spawned c) (c_uses c)).
Definition use : St Core nat :=
  λ c, (c_uses c, mkCore (c_srv c) (c_intents c) (c_sessions c) (c_connecting c) (c_app c) (c_out c)
                    (c_texts c) (c_relayed c) (c_spawned c) (S (c_uses c))).
Definition instant_now : St Core Z := let! n := use in sret (instant n).
(** [server_tx.send(m).await.is_ok()]: the message is in the channel to the
    connection's writer. *)
Definition server_send (m : ClientToServer) : St Core bool :=
  let! n := use in
  if server_ok n
  then let! _ := smodify (λ c, mkCore (c_srv c) (c_intents c) (c_sessions c) (c_connecting c) (c_app c)
         (c_out c ++ [m]) (c_texts c) (c_relayed c) (c_spawned c) (c_uses c)) in sret true
  else sret false.
(** [tx.send(text).await.is_ok()] on the outbound channel of a session *)
Definition outbound_send (chan : nat) (text : rstring) : St Core bool :=
  let! n := use in
  if outbound_ok chan n
  then let! _ := smodify (λ c, mkCore (c_srv c) (c_intents c) (c_sessions c) (c_connecting c) (c_app c)
         (c_out c) (c_texts c ++ [(chan, text)]) (c_relayed c) (c_spawned c) (c_uses c)) in sret true
  else sret false.
Definition relay_deliver (chan : nat) (payload : bytes) : St Core unit :=
  smodify (λ c, mkCore (c_srv c) (c_intents c) (c_sessions c) (c_connecting c) (c_app c) (c_out c)
                  (c_texts c) (c_relayed c ++ [(chan, payload)]) (c_spawned c) (c_uses c)).
(** [tokio::spawn(connect_session(.., peer, ip_port, punchtimestamp, ..))] *)
Definition spawn_connect (peer : PeerPublic) (ip_port : rstring) (punchtimestamp : Z) : St Core unit :=
  smodify (λ c, mkCore (c_srv c) (c_intents c) (c_sessions c) (c_connecting c) (c_app c) (c_out c)
                  (c_texts c) (c_relayed c) (c_spawned c ++ [(peer, ip_port, punchtimestamp)]) (c_uses c)).

(** ** Retries *)

Definition peer_is_online (peer : hash) : St Core bool :=
  let! peers := on_srv load_online_peers in
  sret (existsb (λ p, bool_decide (online_hash p = peer)) peers).

Definition send_punch_request (peer : hash) (keys : Keys) : St Core bool :=
  let! r := on_disk (load_peer_data peer) in
  match r with
  | Err e => let! _ := notify (AE.Error (str "unknown peer: " ++ display_crypto e)) in sret false
  | Ok peer_pub =>
      let! r := on_disk (generate_p2p_request (peer_public peer_pub) (x25519_priv keys)) in
      match r with
      | Ok msg =>
          let! m := on_disk (client_to_server_new msg None) in
          let! sent := server_send m in
          if sent : bool then sret true
          else let! _ := notify (AE.Error (str "not connected to relay")) in sret false
      | Err e => let! _ := notify (AE.Error (str "connect request failed: " ++ display_client e)) in sret false
      end
  end.

(** The body of the loop for one intent: its new value. *)
Definition drive_one (now : Z) (live in_flight : gset hash) (keys : Keys) (peer : hash) (intent : ConnectIntent) :
    St Core ConnectIntent :=
  let has_session := bool_decide (peer ∈ live) || bool_decide (peer ∈ in_flight) in
  match next_retry_action intent has_session now with
  | Done =>
      if negb (in_attempts intent =? 0) || negb (in_backoff intent =? 1)
      then let! t := instant_now in sret (rearm intent t)
      else sret intent
  | Punch =>
      let! sent := send_punch_request peer keys in
      if sent : bool then
        let attempts := in_attempts intent + 1 in
        let! _ := notify (AE.ConnectRetrying peer attempts (in_backoff intent)) in
        sret (mkIntent attempts (bump_backoff (in_backoff intent)) (now + 1000 * in_backoff intent) (in_online intent))
      else
        sret (mkIntent (in_attempts intent) (bump_backoff (in_backoff intent))
                (now + 1000 * Z.max (in_backoff intent) 1) (in_online intent))
  | GiveUp =>
      let! _ := notify (AE.ConnectGaveUp peer) in
      sret (mkIntent (MAX_CONNECT_ATTEMPTS + 1) (in_backoff intent) (in_due intent) (in_online intent))
  | Wait => sret intent
  end.

Definition drive_retries (keys : Keys) : St Core unit :=
  let! now := instant_now in
  let! c := sget in
  let live := dom (c_sessions c) in
  let in_flight := c_connecting c in
  sfor (iter_map (c_intents c)) (λ '(peer, intent),
    let! i' := drive_one now live in_flight keys peer intent in
    set_intents (insert peer i')).

(** ** The client's requests *)

(** [Client::add_peer]; the flag is [AnnounceNow] queued. *)
Definition add_peer (keys : Keys) (x25519 verifying : KeyType) : St Core (result hash rstring * bool) :=
  match vk_from_bytes verifying with
  | None => sret (Err (str "invalid ed25519 key"), false)
  | Some peer_verifying =>
      let peer_pub := pk_from x25519 in
      let! r := on_disk (initialize_peer peer_pub peer_verifying (x25519_priv keys)) in
      match r with
      | Err e => sret (Err (str "failed to add peer: " ++ display_crypto e), false)
      | Ok _ => sret (Ok (identity_hash peer_pub peer_verifying), true)
      end
  end.

(** [Client::contacts] *)
Definition contacts : St Core (list Contact) :=
  let! all := on_disk load_peers in
  let! online_peers := on_srv load_online_peers in
  let online : gmap hash rstring := foldl (λ m p, <[online_hash p := op_address p]> m) ∅ online_peers in
  let! aliases := on_disk load_aliases in
  sret (map (λ p, let id := identity_hash (peer_public p) (peer_verifying p) in
                  let address := online !! id in
                  mkContact id (fingerprint id) (bool_decide (is_Some address)) address (aliases !! id))
            (unwrap_or [] all)).

(** [Client::resolve_peer] *)
Definition resolve_peer (query : rstring) : St Core (option hash) :=
  let! cs := contacts in sret (resolve_query cs query).

(** [for peer in peers { if let Ok(msg) = gen(peer) { let _ = server_tx.send(..) } }] *)
Definition tell_peers (peers : list PeerPublic) (gen : PeerPublic → result ClientMessage CryptoErrors) : St Core unit :=
  sfor peers (λ peer,
    match gen peer with
    | Ok msg => let! m := on_disk (client_to_server_new msg None) in
                let! _ := server_send m in sret tt
    | Err _ => sret tt
    end).

Definition handle_command (command : Command) (keys : Keys) : St Core unit :=
  match command with
  | Cmd.Connect peer =>
      let! r := on_disk (load_peer_data peer) in
      if negb (is_ok r) then notify (AE.Error (str "unknown peer"))
      else
        let! c := sget in
        if bool_decide (is_Some (c_sessions c !! peer)) then sret tt
        else
          let! online := peer_is_online peer in
          let! now := instant_now in
          set_intents (insert peer (armed online now))
  | Cmd.SetServer _ | Cmd.Shutdown => sret tt
  | Cmd.RemovePeer peer =>
      let! _ := set_intents (delete peer) in
      let! _ := set_sessions (delete peer) in
      let! r := on_disk (delete_peer peer) in
      match r with
      | Err e => notify (AE.Error (str "remove peer failed: " ++ display_crypto e))
      | Ok _ => let! _ := on_disk (remove_alias peer) in sret tt
      end
  | Cmd.AnnounceNow =>
      let! a := on_srv (get_or_set_my_address None) in
      match a with
      | None => sret tt
      | Some address =>
          let! peers := on_disk load_peers in
          let! ts := on_disk utc_now in
          tell_peers (unwrap_or [] peers) (λ peer,
            generate_announce_message (x25519_priv keys) (peer_public peer) ts address)
      end
  | Cmd.Purge peer =>
      let! _ := set_intents (delete peer) in
      let! _ := set_sessions (delete peer) in
      let! r := on_disk (load_peer_data peer) in
      match r with
      | Err e => notify (AE.Error (str "unknown peer: " ++ display_crypto e))
      | Ok peer_pub =>
          let! r := on_disk (generate_purge_message peer_pub (x25519_pub keys) (ed25519_signing keys)) in
          let! _ := match r with
                    | Ok blob => let! _ := server_send blob in sret tt
                    | Err e => notify (AE.Error (str "purge send failed: " ++ display_client e))
                    end in
          let! r := on_disk (purge_peer_chat peer) in
          match r with
          | Err e => notify (AE.Error (str "local purge failed: " ++ display_crypto e))
          | Ok _ => notify (AE.MessageArrived peer true)
          end
      end
  | Cmd.Send peer text =>
      let! r := on_disk (load_peer_data peer) in
      match r with
      | Err e => notify (AE.Error (str "unknown peer: " ++ display_crypto e))
      | Ok peer_pub =>
          let! c := sget in
          let live := se_outbound <$> c_sessions c !! peer in
          let! now := on_disk utc_now in
          let! go := match live with
            | Some tx =>
                let! sent := outbound_send tx text in
                if sent : bool then sret true else let! _ := set_sessions (delete peer) in sret true
            | None =>
                let! r := on_disk (generate_offline_message peer_pub (x25519_pub keys) (x25519_priv keys) text
                            (ed25519_signing keys)) in
                match r with
                | Ok blob => let! _ := server_send blob in sret true
                | Err e => let! _ := notify (AE.Error (str "send failed: " ++ display_client e)) in sret false
                end
            end in
          if go : bool then
            let! r := on_disk (persist_message keys peer_pub peer text You now) in
            match r with
            | Ok _ => notify (AE.MessageArrived peer true)
            | Err _ => sret tt
            end
          else sret tt
      end
  end.

Definition handle_server_event (event : ServerEvent) : St Core unit :=
  match event with
  | SE.Authenticated observed_address => notify (AE.Connected observed_address)
  | SE.RelayData sender_hash payload =>
      let! c := sget in
      match (e ← c_sessions c !! sender_hash; se_relay_in e) with
      | Some tx => relay_deliver tx payload
      | None => sret tt
      end
  | SE.PeerOnline h _ =>
      let! c := sget in
      let! _ := match c_intents c !! h with
        | Some intent =>
            let intent := mkIntent (in_attempts intent) (in_backoff intent) (in_due intent) true in
            if in_attempts intent >? MAX_CONNECT_ATTEMPTS
            then let! t := instant_now in set_intents (insert h (rearm intent t))
            else set_intents (insert h intent)
        | None => sret tt
        end in
      notify (AE.PeerOnline h)
  | SE.PeerOffline h =>
      let! c := sget in
      let! _ := match c_intents c !! h with
        | Some intent => set_intents (insert h (mkIntent (in_attempts intent) (in_backoff intent) (in_due intent) false))
        | None => sret tt
        end in
      notify (AE.PeerOffline h)
  | SE.BlobStored sender_hash => notify (AE.MessageArrived sender_hash false)
  | SE.HolePunchDenied peer reason => notify (AE.HolePunchDenied peer reason)
  | SE.PunchHole _ peer_hash ip_port punchtimestamp =>
      let! r := on_disk (load_peer_data peer_hash) in
      let! peer := match r with
        | Ok p => sret (Some p)
        | Err _ =>
            let! online := on_srv load_online_peers in
            sret (op_keys <$> List.find (λ p, bool_decide (op_address p = ip_port)) online)
        end in
      match peer with
      | Some peer => spawn_connect peer ip_port punchtimestamp
      | None => sret tt
      end
  | SE.Disconnected => sret tt
  end.

(** ** The branches of [orchestrate]'s inner [select!]

    What one branch does, and whether the loop goes on with this connection,
    reconnects, or the task returns. *)

Inductive select_event :=
| RetryTick
| ServerEv (ev : option ServerEvent)
| CmdEv (cmd : option Command).
Inductive flow := Continue | Reconnect (server : option rstring) | Return.

Definition orchestrate_step (keys : Keys) (ev : select_event) : St Core flow :=
  match ev with
  | RetryTick => let! _ := drive_retries keys in sret Continue
  | ServerEv (Some SE.Disconnected) | ServerEv None =>
      let! _ := notify AE.Disconnected in sret (Reconnect None)
  | ServerEv (Some event) => let! _ := handle_server_event event in sret Continue
  | CmdEv None => sret Return
  | CmdEv (Some (Cmd.SetServer addr)) =>
      let! _ := on_disk (save_server addr) in sret (Reconnect (Some addr))
  | CmdEv (Some Cmd.Shutdown) =>
      let! ts := on_disk utc_now in
      let! peers := on_disk load_peers in
      let! _ := match peers with
        | Ok peers => tell_peers peers (λ peer,
            generate_unannounce_message (x25519_priv keys) (peer_public peer) ts)
        | Err _ => sret tt
        end in
      let! _ := set_sessions (λ _, ∅) in
      sret Return
  | CmdEv (Some command) => let! _ := handle_command command keys in sret Continue
  end.

(** The reconnect delay of [orchestrate]: [(backoff_secs * 2).min(30)]. *)
Definition next_reconnect_backoff (backoff_secs : Z) : Z := Z.min (backoff_secs * 2) 30.

(** ** Lemmas: one tick of the ladder *)

Definition gave_up (p : hash) (e : AppEvent) : bool :=
  match e with AE.ConnectGaveUp q => bool_decide (q = p) | _ => false end.
(** The events of the ladder of a peer. *)
Definition ladder_event (p : hash) (e : AppEvent) : bool :=
  match e with AE.ConnectRetrying q _ _ | AE.ConnectGaveUp q => bool_decide (q = p) | _ => false end.
Definition count (f : AppEvent → bool) (l : list AppEvent) : Z := Z.of_nat (length (filter f l)).

Lemma count_app f l k : count f (l ++ k) = count f l + count f k.
Proof. unfold count. rewrite filter_app, length_app. lia. Qed.

Lemma count_one f e : count f [e] = if f e then 1 else 0.
Proof. unfold count. cbn. destruct (f e); by repeat case_decide. Qed.

(** The retry bookkeeping stays; new app events are not of any ladder. *)
Definition off_ladder (c c' : Core) : Prop :=
  c_intents c' = c_intents c ∧ c_sessions c' = c_sessions c ∧ c_connecting c' = c_connecting c ∧
  ∃ new, c_app c' = c_app c ++ new ∧ ∀ p, count (ladder_event p) new = 0 ∧ count (gave_up p) new = 0.

#[export] Instance off_ladder_preorder : PreOrder off_ladder.
Proof.
  split.
  - intros c. split_and!; try done. exists []. by rewrite app_nil_r.
  - intros c1 c2 c3 (I1 & S1 & C1 & l & A1 & N1) (I2 & S2 & C2 & k & A2 & N2).
    split_and!; [congruence..|]. exists (l ++ k). rewrite A2, A1, app_assoc. split; [done|].
    intros p. rewrite !count_app. destruct (N1 p), (N2 p). lia.
Qed.

Lemma same_off_ladder {A} (m : St Core A) :
  (∀ c, c_intents (m c).2 = c_intents c ∧ c_sessions (m c).2 = c_sessions c ∧
        c_connecting (m c).2 = c_connecting c ∧ c_app (m c).2 = c_app c) → respects off_ladder m.
Proof.
  intros Hm c. destruct (Hm c) as (? & ? & ? & Ha). split_and!; try done.
  exists []. by rewrite Ha, app_nil_r.
Qed.

Lemma on_disk_off_ladder {A} (m : St World A) : respects off_ladder (on_disk m).
Proof.
  apply same_off_ladder. intros c. unfold on_disk, on_srv. rewrite with_world_eq. done.
Qed.

Lemma error_off_ladder t : respects off_ladder (notify (AE.Error t)).
Proof. intros c. split_and!; try done. by exists [AE.Error t]. Qed.

Lemma server_send_off_ladder m : respects off_ladder (server_send m).
Proof.
  apply same_off_ladder. intros c. unfold server_send, use. run. by destruct (server_ok (c_uses c)).
Qed.

Lemma instant_now_off_ladder : respects off_ladder instant_now.
Proof. by apply same_off_ladder. Qed.

Lemma punch_off_ladder peer keys : respects off_ladder (send_punch_request peer keys).
Proof.
  unfold send_punch_request. repeat respects_step;
    first [apply on_disk_off_ladder | apply error_off_ladder | apply server_send_off_ladder].
Qed.

(** An intent in good shape. *)
Definition intent_ok (i : ConnectIntent) : Prop :=
  0 ≤ in_attempts i ≤ MAX_CONNECT_ATTEMPTS + 1 ∧ 1 ≤ in_backoff i ≤ RETRY_BACKOFF_CAP_SECS.

(** What one tick does to an intent [i] that became [i'], reporting [new]. *)
Definition tick_ok (p : hash) (i i' : ConnectIntent) (new : list AppEvent) : Prop :=
  intent_ok i' ∧ in_attempts i' = in_attempts i + count (ladder_event p) new ∧
  count (gave_up p) new = (if in_attempts i' =? 6 then 1 else 0) - (if in_attempts i =? 6 then 1 else 0).

Lemma tick_ok_trans p i1 i2 i3 l k :
  tick_ok p i1 i2 l → tick_ok p i2 i3 k → tick_ok p i1 i3 (l ++ k).
Proof. intros (H1 & H2 & H3) (K1 & K2 & K3). unfold tick_ok. rewrite !count_app. split_and!; [done|lia..]. Qed.

Lemma bump_backoff_bounds b : 1 ≤ b ≤ RETRY_BACKOFF_CAP_SECS → 1 ≤ bump_backoff b ≤ RETRY_BACKOFF_CAP_SECS.
Proof. unfold bump_backoff, RETRY_BACKOFF_CAP_SECS. lia. Qed.

Lemma drive_one_spec now live in_flight keys p i c :
  intent_ok i → p ∉ live → p ∉ in_flight →
  let '(i', c') := drive_one now live in_flight keys p i c in
  c_intents c' = c_intents c ∧ c_sessions c' = c_sessions c ∧ c_connecting c' = c_connecting c ∧
  ∃ new, c_app c' = c_app c ++ new ∧ tick_ok p i i' new ∧
    ∀ q, q ≠ p → count (ladder_event q) new = 0 ∧ count (gave_up q) new = 0.
Proof.
  intros [Ha Hb] Hl Hf. unfold drive_one. rewrite !bool_decide_false by done. cbn [orb].
  unfold next_retry_action, MAX_CONNECT_ATTEMPTS in *.
  assert (Hsame : c_intents c = c_intents c ∧ c_sessions c = c_sessions c ∧ c_connecting c = c_connecting c ∧
    ∃ new, c_app c = c_app c ++ new ∧ tick_ok p i i new ∧
    ∀ q, q ≠ p → count (ladder_event q) new = 0 ∧ count (gave_up q) new = 0).
  { split_and!; try done. exists []. rewrite app_nil_r. split_and!; try done. unfold tick_ok, count; cbn.
    split_and!; [done|lia|lia]. }
  destruct (in_online i); cbn [negb]; [|exact Hsame].
  rewrite Z.gtb_ltb. destruct (Z.ltb_spec 5 (in_attempts i)) as [H5|H5]; [exact Hsame|].
  destruct (Z.eqb_spec (in_attempts i) 5) as [E|E].
  { unfold sbind, notify, smodify, sret. cbn. split_and!; try done. exists [AE.ConnectGaveUp p].
    split; [done|]. split.
    - unfold tick_ok, intent_ok, MAX_CONNECT_ATTEMPTS. rewrite !count_one. cbn. rewrite bool_decide_true by done.
      rewrite E. cbn. split_and!; try done; try lia; apply Hb.
    - intros q Hq. rewrite !count_one. cbn. by rewrite bool_decide_false by done. }
  destruct (Z.ltb_spec now (in_due i)); [exact Hsame|]. unfold sbind.
  pose proof (punch_off_ladder p keys c) as (Hi & Hs & Hc & new & Hnew & Hz).
  destruct (send_punch_request p keys c) as [[|] c1]; cbn [fst snd] in *; unfold notify, smodify, sret; cbn.
  - split_and!; try done. exists (new ++ [AE.ConnectRetrying p (in_attempts i + 1) (in_backoff i)]).
    rewrite Hnew, app_assoc. split; [done|]. destruct (Hz p) as [Z1 Z2]. split.
    + unfold tick_ok, intent_ok. rewrite !count_app, Z1, Z2, !count_one. unfold MAX_CONNECT_ATTEMPTS. cbn.
      rewrite bool_decide_true by done. cbn.
      destruct (Z.eqb_spec (in_attempts i + 1) 6), (Z.eqb_spec (in_attempts i) 6);
        (split_and!; try lia; by apply bump_backoff_bounds).
    + intros q Hq. rewrite !count_app. destruct (Hz q) as [-> ->]. rewrite !count_one. cbn.
      by rewrite bool_decide_false by done.
  - split_and!; try done. exists new. split; [done|]. destruct (Hz p) as [Z1 Z2]. split.
    + unfold tick_ok, intent_ok. rewrite Z1, Z2. unfold MAX_CONNECT_ATTEMPTS. cbn.
      split_and!; try lia; try (by apply bump_backoff_bounds).
    + intros q Hq. apply Hz.
Qed.

(** The same for a peer that may be connected or connecting. *)
Lemma drive_one_frame now live in_flight keys p i c :
  intent_ok i →
  let '(i', c') := drive_one now live in_flight keys p i c in
  c_intents c' = c_intents c ∧ c_sessions c' = c_sessions c ∧ c_connecting c' = c_connecting c ∧
  intent_ok i' ∧ ∃ new, c_app c' = c_app c ++ new ∧
    (p ∉ live → p ∉ in_flight → tick_ok p i i' new) ∧
    ∀ q, q ≠ p → count (ladder_event q) new = 0 ∧ count (gave_up q) new = 0.
Proof.
  intros Hi. destruct (decide (p ∈ live ∪ in_flight)) as [Hin|Hout].
  - unfold drive_one. assert (Hs : bool_decide (p ∈ live) || bool_decide (p ∈ in_flight) = true).
    { apply orb_true_iff. rewrite !bool_decide_eq_true. set_solver. }
    rewrite Hs. cbn [next_retry_action].
    destruct (negb _ || negb _); unfold sbind, instant_now, use, sbind, sret; cbn; split_and!; try done;
      try (unfold intent_ok, MAX_CONNECT_ATTEMPTS, RETRY_BACKOFF_CAP_SECS; cbn; lia);
      exists []; rewrite app_nil_r; (split_and!; [done|set_solver|done]).
  - pose proof (drive_one_spec now live in_flight keys p i c Hi) as Hd.
    destruct (drive_one _ _ _ _ _ _ _) as [i' c']. destruct Hd as (? & ? & ? & new & ? & Ht & ?); [set_solver..|].
    split_and!; try done; [apply Ht|]. by exists new.
Qed.

Definition retry_body (now : Z) (live in_flight : gset hash) (keys : Keys) : hash * ConnectIntent → St Core unit :=
  λ '(peer, intent), let! i' := drive_one now live in_flight keys peer intent in set_intents (insert peer i').

Lemma drive_loop now live in_flight keys p l c :
  NoDup l.*1 → Forall (λ pi, intent_ok pi.2) l → p ∉ live → p ∉ in_flight →
  map_Forall (λ _, intent_ok) (c_intents c) →
  let '(_, c') := sfor l (retry_body now live in_flight keys) c in
  c_sessions c' = c_sessions c ∧ c_connecting c' = c_connecting c ∧
  map_Forall (λ _, intent_ok) (c_intents c') ∧ ∃ new, c_app c' = c_app c ++ new ∧
    (∀ i, (p, i) ∈ l → ∃ i', c_intents c' !! p = Some i' ∧ tick_ok p i i' new) ∧
    (p ∉ l.*1 → c_intents c' !! p = c_intents c !! p ∧
       count (ladder_event p) new = 0 ∧ count (gave_up p) new = 0).
Proof.
  intros Hnd Hok Hl Hf. revert c. induction l as [|[q j] l IH]; intros c Hc; cbn [sfor].
  { split_and!; try done. exists []. rewrite app_nil_r. split_and!; try done. by intros i ?%not_elem_of_nil. }
  apply NoDup_cons in Hnd as [Hq Hnd]. inversion Hok as [|? ? Hj Hok']; subst. cbn [fst snd] in *.
  specialize (IH Hnd Hok'). unfold sbind at 1. unfold retry_body at 1. unfold sbind at 1.
  pose proof (drive_one_frame now live in_flight keys q j c Hj) as Hd.
  destruct (drive_one now live in_flight keys q j c) as [j' c1].
  destruct Hd as (Hi1 & Hs1 & Hc1 & Hj' & new1 & Ha1 & Ht1 & Hz1).
  unfold set_intents at 1, smodify at 1.
  match goal with |- context [sfor l _ ?c0] => set (c2 := c0); specialize (IH c2) end.
  destruct (sfor l _ c2) as [u c'] eqn:E. cbn [c_intents c_sessions c_connecting c_app c2] in IH.
  destruct IH as (Hs2 & Hc2 & Hmf & new2 & Ha2 & Hin2 & Hout2).
  { rewrite Hi1. by apply map_Forall_insert_2. }
  split_and!; [congruence|congruence|done|]. exists (new1 ++ new2). rewrite Ha2, Ha1, app_assoc.
  split; [done|]. split.
  - intros i [Heq|Hin]%elem_of_cons.
    + injection Heq as <- <-. destruct (Hout2 Hq) as (Hlk & Z1 & Z2). rewrite lookup_insert_eq in Hlk.
      exists j'. split; [done|]. destruct (Ht1 Hl Hf) as (K1 & K2 & K3). unfold tick_ok. rewrite !count_app.
      split_and!; [done|lia|lia].
    + destruct (Hin2 i Hin) as (i' & Hlk & Ht). exists i'. split; [done|].
      assert (Hne : p ≠ q). { intros ->. apply Hq. by apply (list_elem_of_fmap_2 fst _ (q, i)). }
      destruct (Hz1 p Hne) as [Z1 Z2]. destruct Ht as (K1 & K2 & K3). unfold tick_ok. rewrite !count_app.
      split_and!; [done|lia|lia].
  - intros [Hne Hnl]%not_elem_of_cons. destruct (Hout2 Hnl) as (Hlk & Z1 & Z2).
    rewrite lookup_insert_ne, Hi1 in Hlk by done. destruct (Hz1 p Hne) as [Z3 Z4]. rewrite !count_app.
    split_and!; [done|lia|lia].
Qed.

(** One tick of the whole table, for a peer that is not connected. *)
Lemma drive_retries_tick `{!ClientEnvLaws} keys p i c :
  c_intents c !! p = Some i → map_Forall (λ _, intent_ok) (c_intents c) →
  c_sessions c !! p = None → p ∉ c_connecting c →
  let '(_, c') := drive_retries keys c in
  c_sessions c' = c_sessions c ∧ c_connecting c' = c_connecting c ∧
  map_Forall (λ _, intent_ok) (c_intents c') ∧
  ∃ i' new, c_intents c' !! p = Some i' ∧ c_app c' = c_app c ++ new ∧ tick_ok p i i' new.
Proof.
  intros Hp Hok Hs Hc. unfold drive_retries, instant_now, use, sget. unfold sbind at 1 2 3, sret.
  match goal with |- context [sfor (iter_map (c_intents ?c0)) _ _] => set (c1 := c0) end.
  assert (Hperm : iter_map (c_intents c) ≡ₚ map_to_list (c_intents c)) by apply hash_order_perm.
  assert (Hnd : NoDup (iter_map (c_intents c)).*1) by (rewrite Hperm; apply NoDup_fst_map_to_list).
  assert (Hall : Forall (λ pi, intent_ok pi.2) (iter_map (c_intents c))).
  { rewrite Hperm. apply Forall_forall. intros [q j] Hin%elem_of_map_to_list. by apply (Hok q j). }
  pose proof (drive_loop (instant (c_uses c)) (dom (c_sessions c)) (c_connecting c) keys p
    (iter_map (c_intents c)) c1 Hnd Hall) as Hloop.
  change (sfor (iter_map (c_intents c1)) _ c1) with
    (sfor (iter_map (c_intents c)) (retry_body (instant (c_uses c)) (dom (c_sessions c)) (c_connecting c) keys) c1).
  destruct (sfor _ _ c1) as [u c']. destruct Hloop as (? & ? & ? & new & Ha & Hin & _); [|done..|].
  { by apply not_elem_of_dom. }
  split_and!; try done. destruct (Hin i) as (i' & Hlk & Ht).
  { rewrite Hperm. by apply elem_of_map_to_list. }
  by exists i', new.
Qed.
End ClientCore.

Section CoreTheorems.
Context `{Prim : Primitives} `{EnvI : !Env} `{SledI : Sled} `{SrvEnv : ServerEnv} `{CliEnv : ClientEnv}.
Context `{CorEnv : CoreEnv} `{MsgRmp : !Rmp Message} `{BlobRmp : !Rmp BlobPayload}.

(** [n] retry ticks in a row. *)
Fixpoint retry_ticks (n : nat) (keys : Keys) (c : Core) : Core :=
  match n with O => c | S n' => retry_ticks n' keys (drive_retries keys c).2 end.

(** C26: Connecting is tried a bounded number of times: over any number of
    retry ticks without a session, whatever sends fail, in whatever order the
    table is visited, a peer's ladder reports at most six events, of which
    [ConnectGaveUp] comes exactly once, when the sixth step is taken, and never
    again while it stays parked; the attempt counter counts exactly these
    events and the delay stays between 1 and 30 seconds. *)
Theorem retry_bounded `{!ClientEnvLaws} keys p i n c :
  c_intents c !! p = Some i → map_Forall (λ _, intent_ok) (c_intents c) →
  c_sessions c !! p = None → p ∉ c_connecting c →
  ∃ i' new, c_intents (retry_ticks n keys c) !! p = Some i' ∧ c_app (retry_ticks n keys c) = c_app c ++ new ∧
    1 ≤ in_backoff i' ≤ 30 ∧
    in_attempts i' = in_attempts i + count (ladder_event p) new ∧ in_attempts i' ≤ 6 ∧
    count (gave_up p) new = (if in_attempts i' =? 6 then 1 else 0) - (if in_attempts i =? 6 then 1 else 0).
Proof.
  assert (Hgen : ∀ n c i, c_intents c !! p = Some i → map_Forall (λ _, intent_ok) (c_intents c) →
    c_sessions c !! p = None → p ∉ c_connecting c →
    ∃ i' new, c_intents (retry_ticks n keys c) !! p = Some i' ∧
      c_app (retry_ticks n keys c) = c_app c ++ new ∧ tick_ok p i i' new).
  { clear n c i. induction n as [|n IH]; intros c i Hp Hok Hs Hc; cbn [retry_ticks].
    - exists i, []. rewrite app_nil_r. split_and!; try done. unfold tick_ok, count. cbn.
      split_and!; [by apply (Hok p)|lia|lia].
    - pose proof (drive_retries_tick keys p i c Hp Hok Hs Hc) as Ht.
      destruct (drive_retries keys c) as [u c1]. destruct Ht as (Hs1 & Hc1 & Hok1 & i1 & new1 & Hp1 & Ha1 & Ht1).
      destruct (IH c1 i1) as (i' & new2 & Hp2 & Ha2 & Ht2); [done|done|congruence|by rewrite Hc1|].
      exists i', (new1 ++ new2). cbn [snd]. rewrite Ha2, Ha1, app_assoc. split_and!; try done.
      by eapply tick_ok_trans. }
  intros Hp Hok Hs Hc. destruct (Hgen n c i Hp Hok Hs Hc) as (i' & new & Hp' & Ha & (H1 & H2) & H3 & H4).
  exists i', new. unfold MAX_CONNECT_ATTEMPTS, RETRY_BACKOFF_CAP_SECS in *. split_and!; try done; lia.
Qed.

(** Sealing an offline message reads the clock and draws randomness only. *)
Lemma generate_offline_fs P my_pub my_priv text sk :
  respects same_fs (generate_offline_message P my_pub my_priv text sk).
Proof.
  unfold generate_offline_message, encrypt_message_stored, generate_blob, encrypt_blob, client_to_server_new.
  repeat respects_step; by intros w.
Qed.

(** What [handle_command (Send ..)] leaves behind once the text is on its way. *)
Definition sent_state (keys : Keys) (peer : hash) (text : rstring) (key : Key) (d : Db) (now : Z) (c c' : Core) : Prop :=
  (∃ d', w_fs (s_world (c_srv c')) !! chat_path peer = Some (NDb d') ∧
     log_messages key d' = log_messages key d ++ [from_parts text You now]) ∧
  c_app c' = c_app c ++ [AE.MessageArrived peer true].

(** The common end of every way to send. *)
Lemma persist_and_notify `{!Quiet, !SledLaws, !AeadLaws, !RmpLaws Message} keys P peer text key d b now c :
  load_storage_key (peer_public P) (x25519_priv keys) = Ok key →
  log_at (w_fs (s_world (c_srv c))) (chat_path peer) d → clear_path (w_fs (s_world (c_srv c))) (peer_dir peer) →
  log_wf d → rmp_to_vec (from_parts text You now) = Ok b → Z.of_nat (length b) < 2 ^ 36 →
  ∃ c', (let! r := on_disk (persist_message keys P peer text You now) in
         match r with Ok _ => notify (AE.MessageArrived peer true) | Err _ => sret tt end) c = (tt, c') ∧
    sent_state keys peer text key d now c c' ∧ c_texts c' = c_texts c ∧ c_out c' = c_out c ∧
    c_sessions c' = c_sessions c.
Proof.
  intros Hk Hlog Hclear Hwf Hb Hl.
  destruct (persist_quiet keys P peer text You now key b d (s_world (c_srv c)) Hk Hlog Hclear Hwf Hb Hl)
    as (d' & w' & Hp & Hchat & Hm & _).
  eexists. split.
  { unfold sbind, on_disk, on_srv. erewrite with_world_step by exact Hp. reflexivity. }
  cbn. split_and!; try done. split; [by exists d'|done].
Qed.

Section SendCommand.
Context `{!Quiet, !SledLaws, !AeadLaws, !RmpLaws Message}.
Context (keys : Keys) (peer : hash) (P : PeerPublic) (text : rstring) (key : Key) (d : Db) (b : bytes) (c : Core).
Let w0 := s_world (c_srv c).
Let now := clock (w_clock w0).
(** The world when the message is sealed. *)
Let w1 := mkWorld (w_fs w0) (S (w_clock w0)) (w_rng w0) (S (S (S (w_io w0)))).
Hypothesis Hkey : load_storage_key (peer_public P) (x25519_priv keys) = Ok key.
Hypothesis Hdisk : peer_on_disk (w_fs w0) peer P.
Hypothesis Hlog : log_at (w_fs w0) (chat_path peer) d.
Hypothesis Hclear : clear_path (w_fs w0) (peer_dir peer).
Hypothesis Hwf : log_wf d.
Hypothesis Hb : rmp_to_vec (from_parts text You now) = Ok b.
Hypothesis Hlen : Z.of_nat (length b) < 2 ^ 36.

(** The state after the peer was loaded and the clock read. *)
Let c1 : Core := mkCore (put_world (c_srv c) w1) (c_intents c) (c_sessions c) (c_connecting c) (c_app c) (c_out c)
  (c_texts c) (c_relayed c) (c_spawned c) (c_uses c).

Lemma send_prefix {A} (k : PeerPublic → Core → Z → St Core A) (bad : CryptoErrors → St Core A) :
  (let! r := on_disk (load_peer_data peer) in
   match r with
   | Err e => bad e
   | Ok peer_pub => let! c0 := sget in let! now := on_disk utc_now in k peer_pub c0 now
   end) c = k P (mkCore (put_world (c_srv c) (mkWorld (w_fs w0) (w_clock w0) (w_rng w0) (S (S (S (w_io w0)))))) (c_intents c)
                  (c_sessions c) (c_connecting c) (c_app c) (c_out c) (c_texts c) (c_relayed c) (c_spawned c)
                  (c_uses c)) now c1.
Proof using All - SrvEnv.
  unfold sbind at 1, on_disk at 1, on_srv at 1. rewrite (with_world_step _ _ _ _ (load_peer_data_quiet peer P w0 Hdisk)).
  reflexivity.
Qed.

(** C30: Sending works, live or offline: with a live session the text goes
    into its channel and nothing to the server; without one, exactly one sealed
    blob goes to the server; in both cases the message is appended to the
    stored conversation with the time of the command and the user interface is
    told once. *)
Theorem send_live_or_offline :
  match c_sessions c !! peer with
  | Some e => outbound_ok (se_outbound e) (c_uses c) = true
  | None => server_ok (c_uses c) = true ∧ is_ok (generate_offline_message P (x25519_pub keys) (x25519_priv keys)
              text (ed25519_signing keys) w1).1 = true
  end →
  ∃ c', handle_command (Cmd.Send peer text) keys c = (tt, c') ∧
    sent_state keys peer text key d now c c' ∧ c_sessions c' = c_sessions c ∧
    match c_sessions c !! peer with
    | Some e => c_texts c' = c_texts c ++ [(se_outbound e, text)] ∧ c_out c' = c_out c
    | None => c_texts c' = c_texts c ∧ ∃ blob, c_out c' = c_out c ++ [blob] ∧
        (generate_offline_message P (x25519_pub keys) (x25519_priv keys) text (ed25519_signing keys) w1).1 = Ok blob
    end.
Proof using All - SrvEnv.
  intros Hready. cbn [handle_command]. rewrite send_prefix. cbn [c_sessions].
  destruct (c_sessions c !! peer) as [e|] eqn:Hs; cbn [fmap option_fmap option_map].
  - unfold sbind at 1. unfold outbound_send, use. unfold sbind at 1 2. unfold c1 at 1; cbn [c_uses]. rewrite Hready.
    unfold smodify, sbind at 1, sret.
    edestruct (persist_and_notify keys P peer text key d b now) as (c' & -> & Hst & Ht & Ho & Hss);
      [..|exists c']; done.
  - destruct Hready as [Hok Hgen].
    pose proof (generate_offline_fs P (x25519_pub keys) (x25519_priv keys) text (ed25519_signing keys) w1) as Hfs.
    destruct (generate_offline_message _ _ _ _ _ w1) as [[blob|] w2] eqn:Hg; [|done]. unfold same_fs in Hfs. cbn in Hfs.
    unfold sbind at 1. unfold sbind at 1. unfold on_disk at 1, on_srv at 1.
    rewrite (with_world_step _ (c_srv c1) _ _ Hg). unfold server_send, use. unfold sbind at 1 2. cbn [c_uses c1].
    rewrite Hok. unfold smodify, sbind at 1, sret.
    edestruct (persist_and_notify keys P peer text key d b now) as (c' & -> & Hst & Ht & Ho & Hss);
      [..|exists c']; cbn [c_srv s_world put_world]; rewrite ?Hfs; try done.
    cbn in Ht, Ho, Hss |- *. split_and!; try done. exists blob. done.
Qed.

(** C40: A message sent into a session that has just died is lost, silently:
    when the outbound channel is closed, the text reaches neither a channel nor
    the server, only the dead entry is dropped, and yet the message is stored
    as sent and the user interface is told so. *)
Theorem send_on_dead_session_lost e :
  c_sessions c !! peer = Some e → outbound_ok (se_outbound e) (c_uses c) = false →
  ∃ c', handle_command (Cmd.Send peer text) keys c = (tt, c') ∧
    c_texts c' = c_texts c ∧ c_out c' = c_out c ∧ c_sessions c' = delete peer (c_sessions c) ∧
    sent_state keys peer text key d now c c'.
Proof using All - SrvEnv.
  intros Hs Hdead. cbn [handle_command]. rewrite send_prefix. cbn [c_sessions]. rewrite Hs.
  cbn [fmap option_fmap option_map]. unfold sbind at 1. unfold sbind at 1. unfold outbound_send, use.
  unfold sbind at 1. cbn [c_uses c1]. rewrite Hdead. unfold sret at 1. unfold set_sessions, smodify, sbind at 1, sret at 1.
  edestruct (persist_and_notify keys P peer text key d b now) as (c' & -> & Hst & Ht & Ho & Hss);
    [..|exists c']; done.
Qed.
End SendCommand.

(** Removing an alias from a well-formed file touches that file only. *)
Lemma remove_alias_quiet `{!Quiet, !HexLaws, !ClientEnvLaws} peer w :
  is_dir_node (w_fs w) sechat_dir = true → not_a_dir (w_fs w) aliases_path → aliases_wf (alias_file (w_fs w)) →
  ∃ w', remove_alias peer w = (Ok tt, w') ∧ alias_file (w_fs w') = delete peer (alias_file (w_fs w)) ∧
    ∀ q, q ≠ aliases_path → w_fs w' !! q = w_fs w !! q.
Proof.
  intros Hdir Hnd Hwf. unfold remove_alias. erewrite sbind_step by apply load_aliases_quiet.
  destruct (alias_file (w_fs w) !! peer) as [nm|] eqn:Hnm.
  - erewrite ebind_step by (apply smap_err_step, fs_write_quiet; cbn [w_fs];
      [unfold aliases_path; by rewrite parent_snoc|done]).
    eexists. split; [reflexivity|]. cbn [w_fs]. split.
    + apply write_aliases_file. by apply map_Forall_delete.
    + intros q Hq. by rewrite lookup_insert_ne.
  - eexists. split; [reflexivity|]. cbn [w_fs]. split; [|done]. by rewrite delete_id.
Qed.

Lemma remove_peer_quiet `{!Quiet, !HexLaws, !ClientEnvLaws} keys peer c :
  let fs := w_fs (s_world (c_srv c)) in
  (∀ f, fs !! peer_dir peer ≠ Some (NFile f)) →
  is_dir_node fs sechat_dir = true → not_a_dir fs aliases_path → aliases_wf (alias_file fs) →
  ∃ c', handle_command (Cmd.RemovePeer peer) keys c = (tt, c') ∧
    let fs' := w_fs (s_world (c_srv c')) in
    c_intents c' = delete peer (c_intents c) ∧ c_sessions c' = delete peer (c_sessions c) ∧ c_app c' = c_app c ∧
    ((fs !! peer_dir peer = None → ∀ q, peer_dir peer `prefix_of` q → fs !! q = None) →
     ∀ q, peer_dir peer `prefix_of` q → fs' !! q = None) ∧
    is_ok (load_peer_data peer (s_world (c_srv c'))).1 = false ∧
    alias_file fs' = delete peer (alias_file fs) ∧
    ∀ q, ¬ peer_dir peer `prefix_of` q → q ≠ aliases_path → fs' !! q = fs !! q.
Proof.
  intros fs Hfile Hdir Hnd Hwf. set (w := s_world (c_srv c)).
  destruct (remove_if_exists_quiet (peer_dir peer) w Hfile) as [n Hrm].
  change (remove_if_exists (peer_dir peer) w) with (delete_peer peer w) in Hrm.
  set (fs1 := if decide (is_Some (w_fs w !! peer_dir peer)) then remove_tree (peer_dir peer) (w_fs w) else w_fs w) in Hrm.
  assert (Hout : ∀ q, ¬ peer_dir peer `prefix_of` q → fs1 !! q = fs !! q).
  { intros q Hq. unfold fs1. case_decide; [by apply lookup_remove_tree_out|done]. }
  assert (Hgone : ∀ q, peer_dir peer `prefix_of` q → (fs !! peer_dir peer = None → fs !! q = None) → fs1 !! q = None).
  { intros q Hq Ht. unfold fs1. case_decide as Hd; [by apply lookup_remove_tree_in|]. by apply Ht, eq_None_not_Some. }
  assert (Hshort : ∀ q, (length q < length (peer_dir peer))%nat → ¬ peer_dir peer `prefix_of` q).
  { intros q Hl Hp. apply prefix_length in Hp. lia. }
  assert (Hlen : length (peer_dir peer) = S (S (length sechat_dir))).
  { rewrite peer_dir_length. unfold peers_dir. rewrite length_app. simpl. lia. }
  assert (Hal : fs1 !! aliases_path = fs !! aliases_path).
  { apply Hout, Hshort. unfold aliases_path. rewrite length_app, Hlen. simpl. lia. }
  assert (Haf : alias_file fs1 = alias_file fs) by (unfold alias_file; by rewrite Hal).
  assert (Hdir1 : is_dir_node fs1 sechat_dir = true).
  { unfold is_dir_node in *. destruct sechat_dir eqn:E; [done|]. rewrite <- E in *. rewrite Hout; [done|].
    apply Hshort. rewrite Hlen. lia. }
  set (w1 := mkWorld fs1 (w_clock w) (w_rng w) n) in Hrm.
  destruct (remove_alias_quiet peer w1) as (w2 & Hr2 & Ha2 & Hq2);
    unfold w1; cbn [w_fs];
    [done|unfold not_a_dir in *; by rewrite Hal|by rewrite Haf|].
  change (w_fs w1) with fs1 in *. rewrite Haf in Ha2.
  eexists. split.
  { cbn [handle_command]. unfold set_intents, set_sessions, smodify. unfold sbind at 1 2.
    unfold sbind at 1, on_disk at 1, on_srv at 1. cbn [c_srv].
    rewrite (with_world_step _ (c_srv c) _ _ Hrm). unfold sbind, on_disk, on_srv. cbn [c_srv].
    erewrite with_world_step by (cbn [s_world put_world]; exact Hr2). reflexivity. }
  assert (Hne : ∀ q, peer_dir peer `prefix_of` q → q ≠ aliases_path).
  { intros q Hp ->. revert Hp. apply Hshort. unfold aliases_path. rewrite length_app, Hlen. simpl. lia. }
  cbn. split_and!; try done.
  - intros Htree q Hq. rewrite Hq2 by (by apply Hne). apply Hgone; [done|]. intros Hn. by apply Htree.
  - assert (Hnl : is_dir_node (w_fs w2) (peer_dir peer) = false).
    { unfold is_dir_node. rewrite Hq2, Hgone; [by destruct (peer_dir peer)|done|done|by apply Hne]. }
    unfold load_peer_data, sbind, path_is_dir. rewrite syscall_quiet. cbn. by rewrite Hnl.
  - intros q Hq Hqa. rewrite Hq2 by done. by apply Hout.
Qed.

(** C31: Removing a peer removes all of it: its connect intent and session are
    dropped, nothing is left on the disk at or under its directory, neither its
    keys ([peer.pub]) nor the conversation ([chat.db]), so that it can no longer
    be loaded, its alias is deleted, and no other file changes.  The disk has
    no faults, and nothing lies under a peer directory that does not exist. *)
Theorem remove_peer_complete `{!Quiet, !HexLaws, !ClientEnvLaws} keys peer c :
  let fs := w_fs (s_world (c_srv c)) in
  (∀ f, fs !! peer_dir peer ≠ Some (NFile f)) →
  (fs !! peer_dir peer = None → ∀ q, peer_dir peer `prefix_of` q → fs !! q = None) →
  is_dir_node fs sechat_dir = true → not_a_dir fs aliases_path → aliases_wf (alias_file fs) →
  ∃ c', handle_command (Cmd.RemovePeer peer) keys c = (tt, c') ∧
    let fs' := w_fs (s_world (c_srv c')) in
    c_intents c' = delete peer (c_intents c) ∧ c_sessions c' = delete peer (c_sessions c) ∧ c_app c' = c_app c ∧
    (∀ q, peer_dir peer `prefix_of` q → fs' !! q = None) ∧
    is_ok (load_peer_data peer (s_world (c_srv c'))).1 = false ∧
    alias_file fs' = delete peer (alias_file fs) ∧
    ∀ q, ¬ peer_dir peer `prefix_of` q → q ≠ aliases_path → fs' !! q = fs !! q.
Proof.
  intros fs Hfile Htree Hdir Hnd Hwf.
  destruct (remove_peer_quiet keys peer c Hfile Hdir Hnd Hwf) as (c' & Hrun & Hi & Hs & Ha & Hgone & Hrest).
  exists c'. split; [done|]. cbv zeta. split_and!; try done; [by apply Hgone|apply Hrest..].
Qed.
End CoreTheorems.

Module CoreWitness.
#[local] Existing Instances toy_prims toy_env list_sled.
#[local] Existing Instances ChatDbWitness.toy_rmp_message ServerWitness.toy_rmp_blob ServerWitness.toy_server.
#[local] Existing Instance ClientFilesWitness.toy_client.
(** A minute between two readings; channel 9 is closed. *)
Definition toy_core : CoreEnv :=
  {| instant n := 60000 * Z.of_nat n; server_ok _ := true; outbound_ok chan _ := negb (chan =? 9)%nat |}.
#[local] Existing Instance toy_core.

Definition alice : hash := ChatDbWitness.id.
Definition core (sessions : gmap hash SessionEntry) (intents : gmap hash ConnectIntent) : Core :=
  mkCore (ServerWitness.srv ChatDbWitness.w1 []) intents sessions ∅ [] [] [] [] [] 0.
Definition seeking : Core := core ∅ {[ alice := armed true 0 ]}.

Lemma armed_ok online now : intent_ok (armed online now).
Proof. unfold intent_ok, MAX_CONNECT_ATTEMPTS, RETRY_BACKOFF_CAP_SECS. cbn. lia. Qed.

(** Seven ticks, a minute apart: five attempts, then giving up, then silence. *)
Definition rung (e : AppEvent) : Z * Z :=
  match e with AE.ConnectRetrying _ attempt delay => (attempt, delay) | AE.ConnectGaveUp _ => (6, 0) | _ => (0, 0) end.
Example seven_ticks : map rung (c_app (retry_ticks 7 ChatDbWitness.me seeking)) =
  [(1, 1); (2, 2); (3, 4); (4, 8); (5, 16); (6, 0)].
Proof. vm_compute. reflexivity. Qed.

Lemma retry_bounded_witness :
  ∃ i' new, c_intents (retry_ticks 7 ChatDbWitness.me seeking) !! alice = Some i' ∧
    c_app (retry_ticks 7 ChatDbWitness.me seeking) = c_app seeking ++ new ∧ 1 ≤ in_backoff i' ≤ 30 ∧
    in_attempts i' = in_attempts (armed true 0) + count (ladder_event alice) new ∧ in_attempts i' ≤ 6 ∧
    count (gave_up alice) new =
      (if in_attempts i' =? 6 then 1 else 0) - (if in_attempts (armed true 0) =? 6 then 1 else 0).
Proof.
  apply (@retry_bounded toy_prims toy_env list_sled _ _ ClientFilesWitness.toy_client_laws ChatDbWitness.me alice
    (armed true 0) 7 seeking).
  - apply lookup_singleton_eq.
  - apply map_Forall_singleton, armed_ok.
  - reflexivity.
  - apply not_elem_of_empty.
Defined.

Definition entry (chan : nat) : gmap hash SessionEntry := {[ alice := mkEntry chan None ]}.

Lemma send_live_or_offline_witness :
  ∃ key c', load_storage_key (peer_public ChatDbWitness.peer) (x25519_priv ChatDbWitness.me) = Ok key ∧
    handle_command (Cmd.Send alice (str "hi")) ChatDbWitness.me (core ∅ ∅) = (tt, c') ∧
    sent_state ChatDbWitness.me alice (str "hi") key db_empty 1000000 (core ∅ ∅) c' ∧ c_texts c' = [] ∧
    length (c_out c') = 1%nat.
Proof.
  destruct (@load_storage_key_total toy_prims toy_kdf_laws (peer_public ChatDbWitness.peer)
    (x25519_priv ChatDbWitness.me)) as [key Hkey].
  destruct (@send_live_or_offline toy_prims toy_env list_sled _ toy_core _ ServerWitness.toy_rmp_blob KeyFileWitness.toy_quiet list_sled_laws
    toy_aead_laws ChatDbWitness.toy_rmp_message_laws ChatDbWitness.me alice ChatDbWitness.peer (str "hi") key db_empty
    (enc (Codec := ChatDbWitness.message_codec) (from_parts (str "hi") You 1000000)) (core ∅ ∅) Hkey
    ChatDbWitness.w1_peer) as (c' & Hrun & Hst & _ & Ht & blob & Ho & _).
  - vm_compute. reflexivity.
  - exact ChatDbWitness.w1_clear.
  - constructor.
  - reflexivity.
  - vm_compute. reflexivity.
  - split; vm_compute; reflexivity.
  - exists key, c'. split; [exact Hkey|]. split; [exact Hrun|]. split; [exact Hst|]. split; [exact Ht|].
    rewrite Ho. reflexivity.
Defined.

Lemma send_on_dead_session_lost_witness :
  ∃ key c', load_storage_key (peer_public ChatDbWitness.peer) (x25519_priv ChatDbWitness.me) = Ok key ∧
    handle_command (Cmd.Send alice (str "hi")) ChatDbWitness.me (core (entry 9) ∅) = (tt, c') ∧
    c_texts c' = [] ∧ c_out c' = [] ∧
    sent_state ChatDbWitness.me alice (str "hi") key db_empty 1000000 (core (entry 9) ∅) c'.
Proof.
  destruct (@load_storage_key_total toy_prims toy_kdf_laws (peer_public ChatDbWitness.peer)
    (x25519_priv ChatDbWitness.me)) as [key Hkey].
  destruct (@send_on_dead_session_lost toy_prims toy_env list_sled _ toy_core _ ServerWitness.toy_rmp_blob KeyFileWitness.toy_quiet list_sled_laws
    toy_aead_laws ChatDbWitness.toy_rmp_message_laws ChatDbWitness.me alice ChatDbWitness.peer (str "hi") key db_empty
    (enc (Codec := ChatDbWitness.message_codec) (from_parts (str "hi") You 1000000)) (core (entry 9) ∅) Hkey
    ChatDbWitness.w1_peer) with (e := mkEntry 9 None) as (c' & Hrun & Ht & Ho & _ & Hst).
  - vm_compute. reflexivity.
  - exact ChatDbWitness.w1_clear.
  - constructor.
  - reflexivity.
  - vm_compute. reflexivity.
  - apply lookup_singleton_eq.
  - reflexivity.
  - exists key, c'. split; [exact Hkey|]. split; [exact Hrun|]. split; [exact Ht|]. split; [exact Ho|exact Hst].
Defined.

(** Alice's world with the application directory present. *)
Definition home : Core :=
  mkCore (ServerWitness.srv (set_fs (<[sechat_dir := NDir]> (w_fs ChatDbWitness.w1)) ChatDbWitness.w1) [])
    {[ alice := armed true 0 ]} (entry 1) ∅ [] [] [] [] [] 0.

Lemma remove_peer_complete_witness :
  ∃ c', handle_command (Cmd.RemovePeer alice) ChatDbWitness.me home = (tt, c') ∧
    c_intents c' = delete alice (c_intents home) ∧ c_sessions c' = delete alice (c_sessions home) ∧
    w_fs (s_world (c_srv c')) !! peer_pub_path alice = None ∧ w_fs (s_world (c_srv c')) !! chat_path alice = None ∧
    is_ok (load_peer_data alice (s_world (c_srv c'))).1 = false.
Proof.
  destruct (@remove_peer_complete toy_prims toy_env list_sled _ _ _ ServerWitness.toy_rmp_blob KeyFileWitness.toy_quiet toy_hex_laws
    ClientFilesWitness.toy_client_laws ChatDbWitness.me alice home) as (c' & Hrun & Hi & Hs & _ & Hg & Hl & _).
  - intros f Hf. apply (f_equal (λ o, match o with Some NDir => true | _ => false end)) in Hf.
    vm_compute in Hf. discriminate.
  - intros Hf. apply (f_equal (λ o, match o with Some NDir => true | _ => false end)) in Hf.
    vm_compute in Hf. discriminate.
  - vm_compute. reflexivity.
  - vm_compute. exact I.
  - assert (He : alias_file (w_fs (s_world (c_srv home))) = ∅) by (vm_compute; reflexivity).
    rewrite He. apply map_Forall_empty.
  - exists c'. split; [exact Hrun|]. split; [exact Hi|]. split; [exact Hs|].
    split; [apply Hg; by eexists|]. split; [apply Hg; by eexists|exact Hl].
Defined.
End CoreWitness.
