(* ===== verification/Connect.v ===== *)
(** * Establishing sessions: [connect_session] as a state machine

    [connect_session], [establish_relay], [make_relay], [ConnectingGuard] and
    the session map of src/crates/client/src/lib.rs.  Every [connect_session]
    runs as its own task, so the machine interleaves them: a label is one
    atomic piece of one task (what it does between two accesses to the shared
    state), and [cstep] is its effect.  The punch and the two handshakes are
    the functions of [Handshake.v], run on the events they see. *)

From Stdlib Require Import Strings.Byte.
From S2P Require Import Prelude Bytes Text Primitives Instances World Crypto Wire Handshake Session ClientCore.

Local Open Scope Z_scope.

(** Where a task is.  [chan] is the inbox that [make_relay] created. *)
Inductive phase :=
| Entered
| LiveRead (live : bool)
| Punching
| DirectShake (remote : SocketAddr)
| RelayShake (chan : nat) (seen : list relay_event)
| Established (tr : Transport) (session_key : KeyType) (relay_in : option nat)
| Inserted
| Ended.

Section ConnectTypes.
Context `{Prim : Primitives}.

(** The arguments of a [connect_session] that differ between calls. *)
Record target := mkTarget { tg_peer : PeerPublic; tg_ip_port : rstring; tg_stamp : Z }.
Definition target_id (a : target) : hash := identity_hash (peer_public (tg_peer a)) (peer_verifying (tg_peer a)).

Record ctask := mkTask { t_target : target; t_phase : phase }.

(** The shared state: [SessionMap], [Connecting], the tasks, the event pumps
    of the sessions that came up, and the relay inboxes. *)
Record Conn := mkConn {
  k_sessions : gmap hash SessionEntry;
  k_connecting : gset hash;
  k_tasks : gmap nat ctask;
  k_pumps : gmap nat hash;
  k_inbox : gmap nat (list bytes);
  k_fresh : nat
}.

Inductive clabel :=
| Spawn (a : target)                               (* a [PunchHole] event *)
| ReadLive (t : nat)                               (* [sessions.lock().await.contains_key] *)
| Reserve (t : nat)                                (* [in_flight.insert] under the lock *)
| RunPunch (t : nat) (evs : list punch_event)
| RunDirect (t : nat) (first_ok : bool) (evs : list hs_event)
| RelayStep (t : nat) (ev : relay_event)
| InsertSession (t : nat)
| DropGuard (t : nat)
| PumpEnds (k : nat)
| RelayDataIn (sender : hash) (payload : bytes)    (* [handle_server_event] *)
| RemoveSession (peer : hash).                     (* [handle_command] *)
End ConnectTypes.

Section Connect.
Context `{Prim : Primitives} `{EnvI : !Env} `{SledI : Sled}.
Context `{PmRmp : !Rmp PeerMessage} `{PingRmp : !Rmp Ping}.
(** The identity of this client; for each task its ephemeral key and the clock
    it reads. *)
Context (keys : Keys) (eph_priv : nat → StaticSecret) (net : nat → Net).

Definition set_phase (t : nat) (ph : phase) (k : Conn) : Conn :=
  mkConn (k_sessions k) (k_connecting k)
    (alter (λ x, mkTask (t_target x) ph) t (k_tasks k)) (k_pumps k) (k_inbox k) (k_fresh k).
(** A return of [connect_session] with the guard in scope: [Drop] runs. *)
Definition end_task (t : nat) (p : hash) (k : Conn) : Conn :=
  let k := set_phase t Ended k in
  mkConn (k_sessions k) (k_connecting k ∖ {[ p ]}) (k_tasks k) (k_pumps k) (k_inbox k) (k_fresh k).
(** [make_relay]: a fresh inbox, known to this task only. *)
Definition start_relay (t : nat) (k : Conn) : Conn :=
  let k' := set_phase t (RelayShake (k_fresh k) []) k in
  mkConn (k_sessions k') (k_connecting k') (k_tasks k') (k_pumps k') (<[k_fresh k := []]> (k_inbox k')) (S (k_fresh k)).

(** The outcome of [relay_handshake] after the events seen so far. *)
Definition relay_outcome (t : nat) (a : target) (seen : list relay_event) : option (result KeyType P2PError) :=
  (relay_handshake (x25519_pub keys) (eph_priv t) (pk_bytes (public_of (eph_priv t))) (tg_peer a)
     (ed25519_signing keys) seen (net t)).1.

(** [map.get(&sender_hash).and_then(|e| e.relay_in.clone())] *)
Definition relay_route (k : Conn) (sender : hash) : option nat :=
  e ← k_sessions k !! sender; se_relay_in e.

Definition cstep (l : clabel) (k : Conn) : option Conn :=
  match l with
  | Spawn a =>
      Some (mkConn (k_sessions k) (k_connecting k) (<[k_fresh k := mkTask a Entered]> (k_tasks k)) (k_pumps k)
              (k_inbox k) (S (k_fresh k)))
  | ReadLive t =>
      match k_tasks k !! t with
      | Some (mkTask a Entered) => Some (set_phase t (LiveRead (bool_decide (is_Some (k_sessions k !! target_id a)))) k)
      | _ => None
      end
  | Reserve t =>
      match k_tasks k !! t with
      | Some (mkTask a (LiveRead live)) =>
          if live || bool_decide (target_id a ∈ k_connecting k) then Some (set_phase t Ended k)
          else let k := set_phase t Punching k in
               Some (mkConn (k_sessions k) ({[ target_id a ]} ∪ k_connecting k) (k_tasks k) (k_pumps k) (k_inbox k) (k_fresh k))
      | _ => None
      end
  | RunPunch t evs =>
      match k_tasks k !! t with
      | Some (mkTask a Punching) =>
          match (punch_hole (as_u64 (tg_stamp a)) (x25519_pub keys) (peer_public (tg_peer a)) (tg_ip_port a) evs (net t)).1 with
          | Some (Ok remote) => Some (set_phase t (DirectShake remote) k)
          | Some (Err _) => Some (start_relay t k)
          | None => None
          end
      | _ => None
      end
  | RunDirect t first_ok evs =>
      match k_tasks k !! t with
      | Some (mkTask a (DirectShake remote)) =>
          match (initial_handshake (x25519_pub keys) (eph_priv t) (pk_bytes (public_of (eph_priv t))) (tg_peer a)
                   (ed25519_signing keys) remote first_ok evs (net t)).1 with
          | Some (Ok key) => Some (set_phase t (Established (Direct remote) key None) k)
          | Some (Err _) => Some (start_relay t k)
          | None => None
          end
      | _ => None
      end
  | RelayStep t ev =>
      match k_tasks k !! t with
      | Some (mkTask a (RelayShake chan seen)) =>
          (* a received frame comes out of the inbox; the inbox is not closed
             while the task holds its sender *)
          k' ← match ev with
               | RelayReceived (Some b) =>
                   match k_inbox k !! chan with
                   | Some (b' :: rest) =>
                       if decide (b' = b)
                       then Some (mkConn (k_sessions k) (k_connecting k) (k_tasks k) (k_pumps k)
                                    (<[chan := rest]> (k_inbox k)) (k_fresh k))
                       else None
                   | _ => None
                   end
               | RelayReceived None => None
               | _ => Some k
               end;
          Some match relay_outcome t a (seen ++ [ev]) with
               | None => set_phase t (RelayShake chan (seen ++ [ev])) k'
               | Some (Ok key) => set_phase t (Established Relay key (Some chan)) k'
               | Some (Err _) => end_task t (target_id a) k'
               end
      | _ => None
      end
  | InsertSession t =>
      match k_tasks k !! t with
      | Some (mkTask a (Established tr key relay_in)) =>
          let k := set_phase t Inserted k in
          Some (mkConn (<[target_id a := mkEntry (k_fresh k) relay_in]> (k_sessions k)) (k_connecting k) (k_tasks k)
                  (<[k_fresh k := target_id a]> (k_pumps k)) (k_inbox k) (S (k_fresh k)))
      | _ => None
      end
  | DropGuard t =>
      match k_tasks k !! t with
      | Some (mkTask a Inserted) => Some (end_task t (target_id a) k)
      | _ => None
      end
  | PumpEnds j =>
      match k_pumps k !! j with
      | Some p => Some (mkConn (delete p (k_sessions k)) (k_connecting k) (k_tasks k) (delete j (k_pumps k))
                          (k_inbox k) (k_fresh k))
      | None => None
      end
  | RelayDataIn sender payload =>
      match relay_route k sender with
      | Some chan => Some (mkConn (k_sessions k) (k_connecting k) (k_tasks k) (k_pumps k)
                             (alter (λ l, l ++ [payload]) chan (k_inbox k)) (k_fresh k))
      | None => Some k
      end
  | RemoveSession p =>
      Some (mkConn (delete p (k_sessions k)) (k_connecting k) (k_tasks k) (k_pumps k) (k_inbox k) (k_fresh k))
  end.

Definition conn0 : Conn := mkConn ∅ ∅ ∅ ∅ ∅ 0.

Inductive reachable : Conn → Prop :=
| reach_init : reachable conn0
| reach_step k l k' : reachable k → cstep l k = Some k' → reachable k'.

(** Run a schedule. *)
Fixpoint crun (ls : list clabel) (k : Conn) : option Conn :=
  match ls with [] => Some k | l :: ls' => k' ← cstep l k; crun ls' k' end.

Lemma crun_reachable ls k k' : reachable k → crun ls k = Some k' → reachable k'.
Proof.
  revert k. induction ls as [|l ls IH]; intros k Hk; simpl; [by intros [= <-]|].
  destruct (cstep l k) as [k1|] eqn:E; simpl; [|done]. apply IH. by eapply reach_step.
Qed.

Lemma crun_app ls1 ls2 k : crun (ls1 ++ ls2) k = k1 ← crun ls1 k; crun ls2 k1.
Proof. revert k. induction ls1 as [|l ls1 IH]; intros k; cbn; [done|]. destruct (cstep l k); cbn; [apply IH|done]. Qed.

(** ** Invariants *)

(** The task holds the reservation of its peer. *)
Definition holding (ph : phase) : bool :=
  match ph with
  | Punching | DirectShake _ | RelayShake _ _ | Established _ _ _ | Inserted => true
  | Entered | LiveRead _ | Ended => false
  end.

Definition holds (k : Conn) (t : nat) (p : hash) : Prop :=
  ∃ a ph, k_tasks k !! t = Some (mkTask a ph) ∧ target_id a = p ∧ holding ph = true.

(** A relay handshake has seen no frame; no relay session is up. *)
Definition phase_dry (ph : phase) : Prop :=
  match ph with
  | RelayShake _ seen => Forall (λ ev, match ev with RelayReceived _ => False | _ => True end) seen
  | Established _ _ relay_in => relay_in = None
  | _ => True
  end.

Record conn_inv (k : Conn) : Prop := {
  inv_reserved : ∀ p, p ∈ k_connecting k ↔ ∃ t, holds k t p;
  inv_single : ∀ t1 t2 p, holds k t1 p → holds k t2 p → t1 = t2;
  inv_fresh : ∀ t, is_Some (k_tasks k !! t) → (t < k_fresh k)%nat;
  inv_dry : ∀ t a ph, k_tasks k !! t = Some (mkTask a ph) → phase_dry ph;
  inv_direct : ∀ p e, k_sessions k !! p = Some e → se_relay_in e = None;
  inv_inbox : ∀ c l, k_inbox k !! c = Some l → l = [];
  inv_pumps : ∀ j, is_Some (k_pumps k !! j) → (j < k_fresh k)%nat;
  inv_backed : ∀ p e, k_sessions k !! p = Some e → k_pumps k !! se_outbound e = Some p
}.

(** ** Preservation *)

Definition dry (ev : relay_event) : Prop := match ev with RelayReceived _ => False | _ => True end.

Lemma relay_loop_dry my_pub priv epub remote sk evs n :
  Forall dry evs → ∀ key, (relay_loop my_pub priv epub remote sk evs n).1 ≠ Some (Ok key).
Proof.
  intros Hd. revert n. induction Hd as [|ev evs Hev Hd IH]; intros n key; cbn [relay_loop]; [done|].
  destruct ev as [|r|]; [|done|done]. unfold sbind. destruct (send_init _ _ _ n) as [u n1]. apply IH.
Qed.

(** Without a frame from the peer the relay handshake cannot succeed. *)
Lemma relay_outcome_dry t a seen : Forall dry seen → ∀ key, relay_outcome t a seen ≠ Some (Ok key).
Proof.
  intros Hd key. unfold relay_outcome, relay_handshake, sbind. destruct (send_init _ _ _ (net t)) as [u n1].
  by apply relay_loop_dry.
Qed.

Lemma holds_set_phase k t a ph0 ph t' p' :
  k_tasks k !! t = Some (mkTask a ph0) →
  holds (set_phase t ph k) t' p' ↔ (t' = t ∧ p' = target_id a ∧ holding ph = true) ∨ (t' ≠ t ∧ holds k t' p').
Proof.
  intros Ht. unfold holds, set_phase. cbn [k_tasks]. destruct (decide (t' = t)) as [->|Hne].
  - rewrite lookup_alter_eq, Ht. cbn. split; [intros (a' & ph' & [= <- <-] & <- & Hh); tauto|].
    intros [(_ & -> & Hh)|[]]; [eauto|done].
  - rewrite lookup_alter_ne by done. split; [by right|]. intros [(-> & _)|[_ H]]; done.
Qed.

(** What a change of phase does to the tasks. *)
Lemma set_phase_dom k t a ph0 ph t' :
  k_tasks k !! t = Some (mkTask a ph0) → is_Some (k_tasks (set_phase t ph k) !! t') → is_Some (k_tasks k !! t').
Proof.
  intros Ht Hs. cbn in Hs. destruct (decide (t' = t)) as [->|]; [by rewrite Ht|]. by rewrite lookup_alter_ne in Hs.
Qed.
Lemma set_phase_dry k t a ph0 ph :
  k_tasks k !! t = Some (mkTask a ph0) → (∀ t a ph, k_tasks k !! t = Some (mkTask a ph) → phase_dry ph) → phase_dry ph →
  ∀ t' a' ph', k_tasks (set_phase t ph k) !! t' = Some (mkTask a' ph') → phase_dry ph'.
Proof.
  intros Ht D Hd t' a' ph'. cbn. destruct (decide (t' = t)) as [->|].
  - rewrite lookup_alter_eq, Ht. cbn. by intros [= <- <-].
  - rewrite lookup_alter_ne by done. eauto.
Qed.

(** A task moves on without taking or giving back its reservation. *)
Lemma inv_move k t a ph0 ph :
  conn_inv k → k_tasks k !! t = Some (mkTask a ph0) → holding ph = holding ph0 → phase_dry ph →
  conn_inv (set_phase t ph k).
Proof.
  intros I Ht Hh Hd.
  assert (Hsame : ∀ t' p', holds (set_phase t ph k) t' p' ↔ holds k t' p').
  { intros t' p'. rewrite (holds_set_phase k t a ph0 ph) by done. destruct (decide (t' = t)) as [->|]; [|tauto].
    split; [intros [(_ & -> & H)|[]]; [|done]; exists a, ph0; by rewrite <- Hh|].
    intros (a' & ph' & Ht' & <- & H). rewrite Ht in Ht'. injection Ht' as <- <-. left. by rewrite Hh. }
  destruct I as [R S F D X B U K]. split; try done.
  - intros p'. cbn. rewrite R. split; intros [t' H]; exists t'; by apply Hsame.
  - intros t1 t2 p' H1%Hsame H2%Hsame. eauto.
  - intros t' Hs. by eapply F, (set_phase_dom _ _ _ _ _ _ Ht).
  - by eapply set_phase_dry.
Qed.

(** A task ends and gives back its reservation. *)
Lemma inv_end k t a ph0 :
  conn_inv k → k_tasks k !! t = Some (mkTask a ph0) → holding ph0 = true → conn_inv (end_task t (target_id a) k).
Proof.
  intros I Ht Hh. set (p := target_id a). assert (Hhold : holds k t p) by (by exists a, ph0).
  assert (Hnew : ∀ t' p', holds (end_task t p k) t' p' ↔ t' ≠ t ∧ holds k t' p').
  { intros t' p'. change (holds (end_task t p k) t' p') with (holds (set_phase t Ended k) t' p').
    rewrite (holds_set_phase k t a ph0 Ended) by done. naive_solver. }
  destruct I as [R S F D X B U K]. split; try done.
  - intros p'. cbn. rewrite elem_of_difference, not_elem_of_singleton, R. split.
    + intros [[t' H] Hne]. exists t'. apply Hnew. split; [|done]. intros ->.
      destruct H as (a' & ph & Ht' & E & _). rewrite Ht in Ht'. apply Hne. unfold p. congruence.
    + intros [t' [Hne H]%Hnew]. split; [by exists t'|]. intros ->. apply Hne. eauto.
  - intros t1 t2 p' [_ H1]%Hnew [_ H2]%Hnew. eauto.
  - intros t' Hs. eapply F, (set_phase_dom _ _ _ _ _ _ Ht), Hs.
  - by eapply (set_phase_dry k t a ph0 Ended).
Qed.

(** A task takes the reservation. *)
Lemma inv_reserve k t a live :
  conn_inv k → k_tasks k !! t = Some (mkTask a (LiveRead live)) → target_id a ∉ k_connecting k →
  let k1 := set_phase t Punching k in
  conn_inv (mkConn (k_sessions k1) ({[ target_id a ]} ∪ k_connecting k1) (k_tasks k1) (k_pumps k1) (k_inbox k1) (k_fresh k1)).
Proof.
  intros I Ht Hp k1. set (p := target_id a) in *.
  assert (Hnew : ∀ t' p', holds k1 t' p' ↔ (t' = t ∧ p' = p) ∨ (t' ≠ t ∧ holds k t' p')).
  { intros t' p'. unfold k1. rewrite (holds_set_phase k t a (LiveRead live) Punching) by done. naive_solver. }
  destruct I as [R S F D X B U K].
  assert (Hno : ∀ t', ¬ holds k t' p) by (intros t' H; apply Hp, R; eauto).
  split; try done.
  - intros p'. cbn. rewrite elem_of_union, elem_of_singleton, R. split.
    + intros [->|[t' H]]; [exists t; apply Hnew; by left|]. exists t'. apply Hnew. right. split; [|done].
      intros ->. destruct H as (a' & ph & Ht' & _ & Hh). rewrite Ht in Ht'. injection Ht' as <- <-. done.
    + intros [t' [[-> ->]|[_ H]]%Hnew]; [by left|right; eauto].
  - intros t1 t2 p' [[-> ->]|[N1 H1]]%Hnew [[-> E]|[N2 H2]]%Hnew; try done.
    + by destruct (Hno t2).
    + subst. by destruct (Hno t1).
    + eauto.
  - intros t' Hs. by eapply F, (set_phase_dom _ _ _ _ _ _ Ht).
  - by eapply (set_phase_dry k t a (LiveRead live) Punching).
Qed.

(** Changes outside the tasks and reservations. *)
Lemma inv_frame k k' :
  conn_inv k → k_tasks k' = k_tasks k → k_connecting k' = k_connecting k → (k_fresh k ≤ k_fresh k')%nat →
  (∀ p e, k_sessions k' !! p = Some e → se_relay_in e = None ∧ k_pumps k' !! se_outbound e = Some p) →
  (∀ c l, k_inbox k' !! c = Some l → l = []) → (∀ j, is_Some (k_pumps k' !! j) → (j < k_fresh k')%nat) → conn_inv k'.
Proof.
  intros [R S F D X B U K] Ht Hc Hf Hs Hi Hu. unfold holds in *.
  split; unfold holds; rewrite ?Ht, ?Hc; try done; [|intros p e H; by destruct (Hs p e H)..].
  intros t H. specialize (F t H). lia.
Qed.

(** A fresh relay inbox. *)
Lemma inv_start_relay k t a ph0 :
  conn_inv k → k_tasks k !! t = Some (mkTask a ph0) → holding ph0 = true → conn_inv (start_relay t k).
Proof.
  intros I Ht Hh.
  pose proof (inv_move k t a ph0 (RelayShake (k_fresh k) []) I Ht (eq_sym Hh) ltac:(constructor)) as I'.
  eapply inv_frame; [exact I'|try done..].
  - cbn. lia.
  - intros p e He. split; [by eapply inv_direct|by apply (inv_backed _ I')].
  - intros c l. cbn. rewrite lookup_insert. case_decide; [by intros [= <-]|]. apply I.
  - intros j Hj. cbn in *. pose proof (inv_pumps _ I _ Hj). lia.
Qed.

(** A new task. *)
Lemma inv_spawn k a :
  conn_inv k → conn_inv (mkConn (k_sessions k) (k_connecting k) (<[k_fresh k := mkTask a Entered]> (k_tasks k))
    (k_pumps k) (k_inbox k) (S (k_fresh k))).
Proof.
  intros [R S F D X B U K].
  assert (Hno : k_tasks k !! k_fresh k = None) by (apply eq_None_not_Some; intros H; specialize (F _ H); lia).
  assert (Hnew : ∀ t' p', holds (mkConn (k_sessions k) (k_connecting k) (<[k_fresh k := mkTask a Entered]> (k_tasks k))
    (k_pumps k) (k_inbox k) (Datatypes.S (k_fresh k))) t' p' ↔ holds k t' p').
  { intros t' p'. unfold holds. cbn. rewrite lookup_insert. case_decide as E; [|done]. subst t'. rewrite Hno.
    split; intros (a' & ph & H & _ & Hh); [|done]. by injection H as <- <-. }
  split; try done.
  - intros p'. cbn. rewrite R. split; intros [t' H]; exists t'; by apply Hnew.
  - intros t1 t2 p' H1%Hnew H2%Hnew. eauto.
  - intros t' Hs. cbn in *. rewrite lookup_insert in Hs. case_decide; [lia|]. specialize (F _ Hs). lia.
  - intros t' a' ph'. cbn. rewrite lookup_insert. case_decide; [by intros [= <- <-]|]. apply D.
  - intros j Hj. cbn in *. specialize (U j Hj). lia.
Qed.

(** A session comes up: its entry and its pump. *)
Lemma inv_insert k t a tr key relay_in :
  conn_inv k → k_tasks k !! t = Some (mkTask a (Established tr key relay_in)) →
  let k1 := set_phase t Inserted k in
  conn_inv (mkConn (<[target_id a := mkEntry (k_fresh k1) relay_in]> (k_sessions k1)) (k_connecting k1) (k_tasks k1)
    (<[k_fresh k1 := target_id a]> (k_pumps k1)) (k_inbox k1) (S (k_fresh k1))).
Proof.
  intros I Ht k1. assert (I' : conn_inv k1) by (by eapply inv_move).
  pose proof (inv_dry _ I _ _ _ Ht) as Hd. cbn in Hd.
  eapply inv_frame; [exact I'|reflexivity|reflexivity|cbn; lia| |apply I|].
  - intros q e. cbn. rewrite lookup_insert. case_decide as E.
    + intros [= <-]. cbn. by rewrite lookup_insert_eq, E.
    + intros He. split; [by eapply (inv_direct _ I)|]. pose proof (inv_backed _ I _ _ He) as Hb.
      rewrite lookup_insert_ne; [done|]. intros Hf. pose proof (inv_pumps _ I (se_outbound e)) as Hu.
      rewrite Hb in Hu. specialize (Hu ltac:(done)). lia.
  - intros j. cbn. rewrite lookup_insert. case_decide; [lia|]. intros Hj. pose proof (inv_pumps _ I _ Hj). lia.
Qed.

(** An entry goes, with a pump or without. *)
Lemma inv_remove k p : conn_inv k → conn_inv (mkConn (delete p (k_sessions k)) (k_connecting k) (k_tasks k) (k_pumps k) (k_inbox k) (k_fresh k)).
Proof.
  intros I. eapply inv_frame; [exact I|done..| |apply I|apply I].
  intros q e. cbn. rewrite lookup_delete. case_decide; [done|]. intros He.
  split; [by eapply (inv_direct _ I)|by apply (inv_backed _ I)].
Qed.
Lemma inv_pump_ends k j p :
  conn_inv k → k_pumps k !! j = Some p →
  conn_inv (mkConn (delete p (k_sessions k)) (k_connecting k) (k_tasks k) (delete j (k_pumps k)) (k_inbox k) (k_fresh k)).
Proof.
  intros I Hj. eapply inv_frame; [exact I|done..| |apply I|].
  - intros q e. cbn. rewrite lookup_delete. case_decide; [done|]. intros He.
    split; [by eapply (inv_direct _ I)|]. pose proof (inv_backed _ I _ _ He). rewrite lookup_delete_ne; [done|]. congruence.
  - intros i. cbn. rewrite lookup_delete. case_decide; [by intros [? ?]|apply I].
Qed.

(** A relay handshake sees a tick or its deadline: it cannot succeed. *)
Lemma inv_relay_dry k t a chan seen ev :
  conn_inv k → k_tasks k !! t = Some (mkTask a (RelayShake chan seen)) → dry ev →
  ∀ k', match relay_outcome t a (seen ++ [ev]) with
        | None => set_phase t (RelayShake chan (seen ++ [ev])) k
        | Some (Ok key) => set_phase t (Established Relay key (Some chan)) k
        | Some (Err _) => end_task t (target_id a) k
        end = k' → conn_inv k'.
Proof.
  intros I Ht Hev k'.
  assert (Hd : Forall dry (seen ++ [ev])).
  { apply Forall_app. split; [apply (inv_dry _ I _ _ _ Ht)|by repeat constructor]. }
  pose proof (relay_outcome_dry t a _ Hd) as Ho.
  destruct (relay_outcome _ _ _) as [[key|]|]; [by destruct (Ho key)|intros <-; by eapply inv_end|intros <-; by eapply inv_move].
Qed.

Lemma cstep_inv l k k' : conn_inv k → cstep l k = Some k' → conn_inv k'.
Proof.
  intros I. destruct l as [a|t|t|t evs|t ok evs|t ev|t|t|j|p b|p]; cbn [cstep];
    try (destruct (k_tasks k !! t) as [[a ph]|] eqn:Ht; [destruct ph; try done|done]).
  - intros [= <-]. by apply inv_spawn.
  - intros [= <-]. by eapply inv_move.
  - destruct (live || bool_decide (target_id a ∈ k_connecting k)) eqn:E; intros [= <-]; [by eapply inv_move|].
    apply orb_false_iff in E as [_ E%bool_decide_eq_false]. by eapply inv_reserve.
  - destruct (punch_hole _ _ _ _ _ _).1 as [[remote|]|];
      [intros [= <-]; by eapply inv_move|intros [= <-]; by eapply inv_start_relay|done].
  - destruct (initial_handshake _ _ _ _ _ _ _ _ _).1 as [[key|]|];
      [intros [= <-]; by eapply inv_move|intros [= <-]; by eapply inv_start_relay|done].
  - destruct ev as [|[b|]|]; cbn; [| |done|].
    + intros [= Hk]. by apply (inv_relay_dry k t a chan seen RelayResend I Ht Logic.I).
    + destruct (k_inbox k !! chan) as [[|b' rest]|] eqn:Hi; try done. by apply (inv_inbox _ I) in Hi.
    + intros [= Hk]. by apply (inv_relay_dry k t a chan seen RelayDeadline I Ht Logic.I).
  - intros [= <-]. by eapply inv_insert.
  - intros [= <-]. by eapply inv_end.
  - destruct (k_pumps k !! j) as [p|] eqn:Hj; intros [= <-]. by apply inv_pump_ends.
  - unfold relay_route. destruct (k_sessions k !! p) as [e|] eqn:Hs; cbn; [|by intros [= <-]].
    rewrite (inv_direct _ I _ _ Hs). by intros [= <-].
  - intros [= <-]. by apply inv_remove.
Qed.

Lemma reachable_inv k : reachable k → conn_inv k.
Proof.
  induction 1 as [|k l k' Hr IH Hs]; [|by eapply cstep_inv].
  assert (Hno : ∀ t p, ¬ holds conn0 t p) by (intros t p (a & ph & H & _); cbn in H; by rewrite lookup_empty in H).
  split; cbn.
  - intros p. split; [by intros ?%not_elem_of_empty|intros [t H]; by apply Hno in H].
  - intros t1 t2 p H. by apply Hno in H.
  - intros t [x H]. by rewrite lookup_empty in H.
  - intros t p ph H. by rewrite lookup_empty in H.
  - intros p e H. by rewrite lookup_empty in H.
  - intros c l H. by rewrite lookup_empty in H.
  - intros j [x H]. by rewrite lookup_empty in H.
  - intros p e H. by rewrite lookup_empty in H.
Qed.
End Connect.

Section ConnectTheorems.
Context `{Prim : Primitives} `{EnvI : !Env} `{SledI : Sled}.
Context `{PmRmp : !Rmp PeerMessage} `{PingRmp : !Rmp Ping}.
Context (keys : Keys) (eph_priv : nat → StaticSecret) (net : nat → Net).
Let reach := reachable keys eph_priv net.

(** C15: At most one connect attempt per peer is in flight: in every state
    that any interleaving of connect tasks, session ends, relayed data and
    commands can reach, two tasks past the reservation of the same peer are the
    same task, and a peer is marked as connecting exactly while such a task
    exists, so no reservation leaks on any return path. *)
Theorem connect_single_flight (k : Conn) :
  reach k →
  (∀ t1 t2 p, holds k t1 p → holds k t2 p → t1 = t2) ∧
  (∀ p, p ∈ k_connecting k ↔ ∃ t, holds k t p).
Proof.
  intros Hr%(reachable_inv keys eph_priv net). split; apply Hr.
Qed.

(** C19: The relay fallback can never come up: the inbox of a relay handshake
    is registered in the session map only after the handshake, while relayed
    frames are routed through that map alone; so in every reachable state each
    relay handshake has seen no frame, no task is established over the relay,
    and no session has a relay inbox. *)
Theorem relay_never_established (k : Conn) :
  reach k →
  (∀ p e, k_sessions k !! p = Some e → se_relay_in e = None) ∧
  (∀ t a tr key chan, k_tasks k !! t ≠ Some (mkTask a (Established tr key (Some chan)))) ∧
  (∀ t a chan seen ev, k_tasks k !! t = Some (mkTask a (RelayShake chan seen)) → ev ∈ seen → dry ev).
Proof.
  intros Hr%(reachable_inv keys eph_priv net). split_and!.
  - apply Hr.
  - intros t a tr key chan Ht. by apply (inv_dry _ Hr) in Ht.
  - intros t a chan seen ev Ht Hin. apply (inv_dry _ Hr) in Ht. cbn in Ht. rewrite Forall_forall in Ht. by apply Ht.
Qed.

(** What a direct attempt for [a] meets when it succeeds. *)
Definition goes_direct (t : nat) (a : target) (pu : list punch_event) (ok : bool) (hs : list hs_event)
    (remote : SocketAddr) (key : KeyType) : Prop :=
  (punch_hole (as_u64 (tg_stamp a)) (x25519_pub keys) (peer_public (tg_peer a)) (tg_ip_port a) pu (net t)).1 =
    Some (Ok remote) ∧
  (initial_handshake (x25519_pub keys) (eph_priv t) (pk_bytes (public_of (eph_priv t))) (tg_peer a)
     (ed25519_signing keys) remote ok hs (net t)).1 = Some (Ok key).
Definition attempt_labels (t : nat) (pu : list punch_event) (ok : bool) (hs : list hs_event) : list clabel :=
  [Reserve t; RunPunch t pu; RunDirect t ok hs; InsertSession t; DropGuard t].

(** Such an attempt, undisturbed after its live check: the session is up and
    the reservation given back. *)
Lemma attempt_run t a pu ok hs remote key k :
  goes_direct t a pu ok hs remote key →
  k_tasks k !! t = Some (mkTask a (LiveRead false)) → target_id a ∉ k_connecting k →
  ∃ k', crun keys eph_priv net (attempt_labels t pu ok hs) k = Some k' ∧
    k_sessions k' = <[target_id a := mkEntry (k_fresh k) None]> (k_sessions k) ∧
    k_connecting k' = k_connecting k ∧ k_pumps k' = <[k_fresh k := target_id a]> (k_pumps k) ∧
    k_fresh k' = S (k_fresh k) ∧ (∀ t', t' ≠ t → k_tasks k' !! t' = k_tasks k !! t').
Proof.
  intros [Hpu Hhs] Ht Hp. unfold attempt_labels. cbn [crun cstep]. rewrite Ht. cbn [orb].
  rewrite bool_decide_eq_false_2 by done. cbn [mbind option_bind set_phase k_tasks].
  rewrite lookup_alter_eq, Ht. cbn [fmap option_fmap option_map t_target]. rewrite Hpu.
  cbn [mbind option_bind set_phase k_tasks]. rewrite !lookup_alter_eq, Ht. cbn [fmap option_fmap option_map t_target].
  rewrite Hhs. cbn [mbind option_bind set_phase k_tasks]. rewrite !lookup_alter_eq, Ht. cbn.
  rewrite !lookup_alter_eq, Ht. cbn. eexists. split; [reflexivity|]. cbn. split_and!; try done.
  - apply leibniz_equiv. set_solver.
  - intros t' Hne. by rewrite !lookup_alter_ne by done.
Qed.

(** C22: The live check does not stop a second session: from every state in
    which a peer has neither a session nor an attempt, two tasks that
    look before either has its session can connect one after the other; the
    second session then replaces the first in the map while both run, and the
    end of the first removes the entry of the second, which still runs but is
    no longer in the map, where a message would look for it. *)
Theorem race_orphans_session a pu0 pu1 ok0 ok1 hs0 hs1 remote0 remote1 key0 key1 (k : Conn) :
  let n := k_fresh k in
  let p := target_id a in
  k_sessions k !! p = None → p ∉ k_connecting k →
  goes_direct n a pu0 ok0 hs0 remote0 key0 → goes_direct (S n) a pu1 ok1 hs1 remote1 key1 →
  let race := [Spawn a; Spawn a; ReadLive n; ReadLive (S n)] ++
    attempt_labels n pu0 ok0 hs0 ++ attempt_labels (S n) pu1 ok1 hs1 in
  ∃ k1 k2, crun keys eph_priv net race k = Some k1 ∧
    k_pumps k1 !! (2 + n)%nat = Some p ∧ k_pumps k1 !! (3 + n)%nat = Some p ∧
    k_sessions k1 !! p = Some (mkEntry (3 + n) None) ∧
    crun keys eph_priv net [PumpEnds (2 + n)] k1 = Some k2 ∧
    k_pumps k2 !! (3 + n)%nat = Some p ∧ k_sessions k2 !! p = None.
Proof.
  intros n p Hs Hc H0 H1 race.
  set (k' := mkConn (k_sessions k) (k_connecting k)
    (<[n := mkTask a (LiveRead false)]> (<[S n := mkTask a (LiveRead false)]> (k_tasks k))) (k_pumps k) (k_inbox k) (S (S n))).
  assert (Hstart : crun keys eph_priv net [Spawn a; Spawn a; ReadLive n; ReadLive (S n)] k = Some k').
  { cbn [crun cstep]. fold n. cbn [mbind option_bind k_tasks k_fresh]. rewrite lookup_insert_ne, lookup_insert_eq by lia.
    cbn [k_sessions set_phase k_tasks mbind option_bind]. fold p.
    rewrite bool_decide_eq_false_2 by (rewrite Hs; apply is_Some_None).
    rewrite lookup_alter_ne, lookup_insert_eq by lia. cbn [k_sessions set_phase k_tasks mbind option_bind]. fold p.
    rewrite bool_decide_eq_false_2 by (rewrite Hs; apply is_Some_None).
    unfold k'. f_equal. unfold set_phase. cbn [k_sessions k_connecting k_tasks k_pumps k_inbox k_fresh]. f_equal.
    apply (map_eq (M := gmap nat)). intros t.
    destruct (decide (t = n)) as [->|]; [|destruct (decide (t = S n)) as [->|]]; simplify_map_eq; done. }
  destruct (attempt_run n a pu0 ok0 hs0 remote0 key0 k' H0) as (ka & Ra & Sa & Ca & Pa & Fa & Ta);
    [cbn; by rewrite lookup_insert_eq|done|].
  destruct (attempt_run (S n) a pu1 ok1 hs1 remote1 key1 ka H1) as (kb & Rb & Sb & Cb & Pb & Fb & Tb).
  { rewrite Ta by lia. cbn. by rewrite lookup_insert_ne, lookup_insert_eq by lia. }
  { by rewrite Ca. }
  change (k_fresh k') with (S (S n)) in *. rewrite Fa in Sb, Pb. fold p in Pa, Pb, Sa, Sb.
  eexists kb, _. unfold race. rewrite crun_app, Hstart. cbn [mbind option_bind]. rewrite crun_app, Ra. cbn [mbind option_bind].
  rewrite Pb, Pa, Sb, Sa.
  assert (Hp2 : k_pumps kb !! (2 + n)%nat = Some p) by (rewrite Pb, Pa, lookup_insert_ne, lookup_insert_eq by lia; done).
  split_and!; [done|by rewrite lookup_insert_ne, lookup_insert_eq by lia|by rewrite lookup_insert_eq|by rewrite lookup_insert_eq| | |].
  - cbn [crun cstep]. rewrite Hp2. reflexivity.
  - cbn. rewrite lookup_delete_ne by lia. by rewrite Pb, lookup_insert_eq.
  - cbn. by rewrite lookup_delete_eq.
Qed.
End ConnectTheorems.

Module ConnectWitness.
#[local] Existing Instances toy_prims toy_env list_sled WireWitness.toy_rmp_pm WireWitness.toy_rmp_ping.
Definition me : Keys := mkKeys HandshakeWitness.ephA HandshakeWitness.pubA HandshakeWitness.skA HandshakeWitness.skA.
Definition bob : target := mkTarget (mkPeerPublic HandshakeWitness.pubB HandshakeWitness.skB) (str "10.0.0.2:4000") 7.
Definition net (t : nat) : Net := HandshakeWitness.net0.
Definition eph (n : nat) : @StaticSecret toy_prims := HandshakeWitness.ephA.
Abbreviation run ls := (crun me eph net ls conn0).

(** A failed punch: the task falls back to the relay, the peer's frame is
    dropped, a second attempt is refused, and the deadline ends it. *)
Definition schedule : list clabel :=
  [Spawn bob; ReadLive 0; Spawn bob; Reserve 0; ReadLive 1; Reserve 1; RunPunch 0 [PunchTick true; PunchDeadline];
   RelayDataIn (target_id bob) (HandshakeWitness.init_frame HandshakeWitness.ephB HandshakeWitness.pubB HandshakeWitness.skB);
   RelayStep 0 RelayResend].
Definition here : Conn := default conn0 (run schedule).

Lemma here_reachable : reachable me eph net here.
Proof.
  destruct (run schedule) as [k|] eqn:E.
  - unfold here. rewrite E. by eapply crun_reachable; [constructor|].
  - exfalso. apply (f_equal (λ o, match o with Some _ => true | None => false end)) in E. vm_compute in E. done.
Qed.

Lemma connect_single_flight_witness :
  (∀ t1 t2 p, holds here t1 p → holds here t2 p → t1 = t2) ∧ (∀ p, p ∈ k_connecting here ↔ ∃ t, holds here t p).
Proof. exact (connect_single_flight _ _ _ here here_reachable). Defined.

Lemma relay_never_established_witness :
  (∀ p e, k_sessions here !! p = Some e → se_relay_in e = None) ∧
  (∀ t a tr key chan, k_tasks here !! t ≠ Some (mkTask a (Established tr key (Some chan)))) ∧
  (∀ t a chan seen ev, k_tasks here !! t = Some (mkTask a (RelayShake chan seen)) → ev ∈ seen → dry ev).
Proof. exact (relay_never_established _ _ _ here here_reachable). Defined.

(** Two attempts that meet the peer. *)
Definition init_ok : list hs_event :=
  [Received (Some (HandshakeWitness.init_frame HandshakeWitness.ephB HandshakeWitness.pubB HandshakeWitness.skB,
                   HandshakeWitness.there))].
Lemma bob_direct : ∃ key, ∀ t, goes_direct me eph net t bob HandshakeWitness.evs2 true init_ok HandshakeWitness.there key.
Proof.
  destruct (@session_from_agree toy_prims toy_dh_laws toy_key_laws toy_kdf_laws HandshakeWitness.ephA HandshakeWitness.ephB)
    as (key & Hk & _).
  exists key. intros t. split; [vm_compute; reflexivity|].
  etrans; [|exact (f_equal Some Hk)].
  apply (@initial_handshake_accepts toy_prims toy_env list_sled _ toy_sig_laws HandshakeWitness.laws HandshakeWitness.pubA
    HandshakeWitness.ephA HandshakeWitness.ephA HandshakeWitness.pubB HandshakeWitness.skB 1000050 HandshakeWitness.ephB _ [] []);
    [reflexivity|vm_compute; lia|apply HandshakeWitness.toy_fresh|constructor].
Qed.

Lemma race_orphans_session_witness :
  ∃ k1 k2,
    crun me eph net ([Spawn bob; Spawn bob; ReadLive 0; ReadLive 1] ++
      attempt_labels 0 HandshakeWitness.evs2 true init_ok ++ attempt_labels 1 HandshakeWitness.evs2 true init_ok) conn0 =
      Some k1 ∧
    k_pumps k1 !! 2%nat = Some (target_id bob) ∧ k_pumps k1 !! 3%nat = Some (target_id bob) ∧
    k_sessions k1 !! target_id bob = Some (mkEntry 3 None) ∧
    crun me eph net [PumpEnds 2] k1 = Some k2 ∧ k_pumps k2 !! 3%nat = Some (target_id bob) ∧
    k_sessions k2 !! target_id bob = None.
Proof.
  destruct bob_direct as [key Hd].
  exact (race_orphans_session me eph net bob _ _ _ _ _ _ _ _ key key conn0 eq_refl (not_elem_of_empty _) (Hd 0%nat) (Hd 1%nat)).
Defined.
End ConnectWitness.
