(* ===== verification/Conversation.v ===== *)
(** * A conversation from end to end

    What [connect_session] of src/crates/client/src/lib.rs does once its peer
    is reserved, in sequence: punch, handshake, the relay fallback, the
    session; then the pump that stores what the session delivers, and the task
    of [make_relay] that forwards frames to the server.  [Connect.v] has the
    interleaving of several such tasks.  The theorem composes the hole punch,
    the handshake, the session and the conversation log: what one user types
    is what the other user reads. *)

From Stdlib Require Import Strings.Byte.
From S2P Require Import Prelude Bytes Text Primitives Instances World Crypto PeerStore ChatDb Wire Handshake Session.
From S2P Require Import KeyFile ServerProto ServerClient ClientFiles ClientCore.

Local Open Scope Z_scope.

(** What one attempt meets: the branches that fire in the punch, in the direct
    handshake and in the relay handshake. *)
Record attempt := mkAttempt {
  at_punch : list punch_event;
  at_first_ok : bool;
  at_shake : list hs_event;
  at_relay : list relay_event
}.

Section Conversation.
Context `{Prim : Primitives} `{EnvI : !Env} `{SledI : Sled}.
Context `{PmRmp : !Rmp PeerMessage} `{PingRmp : !Rmp Ping}.

(** What became of a [connect_session] past its reservation: still waiting,
    returned without a session, panicked, or a session is up. *)
Inductive connected :=
| Pending
| NoSession
| ConnectPanicked
| SessionStarted (tr : Transport) (session : SessionHandle tr).

(** [establish_relay]: the transport and the key, when the handshake is done. *)
Definition establish_relay (keys : Keys) (peer : PeerPublic) (eph_priv : StaticSecret) (eph_pub : PublicKey)
    (evs : list relay_event) : St Net (option (option (Transport * KeyType))) :=
  let! r := relay_handshake (x25519_pub keys) eph_priv (pk_bytes eph_pub) peer (ed25519_signing keys) evs in
  sret match r with
       | None => None
       | Some (Ok key) => Some (Some (Relay, key))
       | Some (Err _) => Some None
       end.

(** [let (transport, session_key, ..) = match punch { .. }] *)
Definition establish (keys : Keys) (peer : PeerPublic) (ip_port : rstring) (punchtimestamp : Z) (at' : attempt)
    (eph_priv : StaticSecret) (eph_pub : PublicKey) : St Net (option (option (Transport * KeyType))) :=
  let! punch := punch_hole (as_u64 punchtimestamp) (x25519_pub keys) (peer_public peer) ip_port (at_punch at') in
  match punch with
  | None => sret None
  | Some (Ok remote) =>
      let! r := initial_handshake (x25519_pub keys) eph_priv (pk_bytes eph_pub) peer (ed25519_signing keys) remote
        (at_first_ok at') (at_shake at') in
      match r with
      | None => sret None
      | Some (Ok k) => sret (Some (Some (Direct remote, k)))
      | Some (Err _) => establish_relay keys peer eph_priv eph_pub (at_relay at')
      end
  | Some (Err _) => establish_relay keys peer eph_priv eph_pub (at_relay at')
  end.

(** [connect_session] from the reservation to [start_session]. *)
Definition connect_session (keys : Keys) (peer : PeerPublic) (ip_port : rstring) (punchtimestamp : Z)
    (at' : attempt) : St Net connected :=
  let am_first := am_i_first (pk_bytes (x25519_pub keys)) (pk_bytes (peer_public peer)) in
  let! (eph_priv, eph_pub) := on_world generate_x25519 in
  let! r := establish keys peer ip_port punchtimestamp at' eph_priv eph_pub in
  sret match r with
       | None => Pending
       | Some None => NoSession
       | Some (Some (tr, session_key)) =>
           match start_session tr session_key (x25519_pub keys) (ed25519_signing keys) peer am_first with
           | None => ConnectPanicked
           | Some s => SessionStarted tr s
           end
       end.

(** The task of [make_relay]: each payload, and whether the server channel
    still takes it; the forwarded messages, and whether the task ended. *)
Fixpoint relay_forward (peer_id : hash) (outs : list (option bytes * bool)) : St World (list ClientToServer * bool) :=
  match outs with
  | [] => sret ([], false)
  | (None, _) :: _ => sret ([], true)
  | (Some payload, ok) :: outs' =>
      let! m := client_to_server_new (CM.RelayData peer_id payload) None in
      if ok : bool
      then let! (ms, ended) := relay_forward peer_id outs' in sret (m :: ms, ended)
      else sret ([], true)
  end.
End Conversation.
Arguments connected {_}.

Section Pump.
Context `{Prim : Primitives} `{EnvI : !Env} `{SledI : Sled} `{SrvEnv : ServerEnv} `{CliEnv : ClientEnv}.
Context `{CorEnv : CoreEnv} `{MsgRmp : !Rmp Message}.
Context (keys : Keys) (peer : PeerPublic) (peer_id : hash).

(** The spawned loop over the session's events: whether it has ended. *)
Fixpoint pump (evs : list (option SessionEvent)) : St Core bool :=
  match evs with
  | [] => sret false
  | Some (SessionMessage text timestamp) :: evs' =>
      let! _ := on_disk (persist_message keys peer peer_id text Peer timestamp) in
      let! _ := notify (AE.MessageArrived peer_id false) in
      pump evs'
  | Some Closed :: _ | None :: _ =>
      let! _ := set_sessions (delete peer_id) in
      let! _ := notify (AE.SessionDown peer_id) in
      sret true
  end.
End Pump.

(** ** One end *)

Section OneEnd.
Context `{Prim : Primitives} `{EnvI : !Env} `{SledI : Sled}.
Context `{PmRmp : !Rmp PeerMessage} `{PingRmp : !Rmp Ping}.

(** Pings of others, and junk. *)
Definition quiet_punch (remote_pub : KeyType) (timestamp : Z) (ev : punch_event) : Prop :=
  match ev with
  | PunchTick _ => True
  | PunchRecv (Some (d, _)) => rmp_from_slice (recv_buf 1024 d) ≠ Ok (mkPing remote_pub timestamp)
  | _ => False
  end.

Lemma punch_hole_finds `{!RmpLaws Ping} timestamp my_pub remote_pub name pre d post remote mine n :
  rmp_to_vec (mkPing (pk_bytes my_pub) timestamp) = Ok mine →
  rmp_to_vec (mkPing (pk_bytes remote_pub) timestamp) = Ok d → (length d ≤ 1024)%nat →
  Forall (quiet_punch (pk_bytes remote_pub) timestamp) pre →
  ∃ n', punch_hole timestamp my_pub remote_pub name (pre ++ PunchRecv (Some (d, remote)) :: post) n =
    (Some (Ok remote), n') ∧ n_world n' = n_world n.
Proof.
  intros Hm Hd Hl Hpre. unfold punch_hole. rewrite Hm. revert n.
  induction Hpre as [|ev pre Hev Hpre IH]; intros n; cbn [app punch_loop].
  - unfold recv_buf. rewrite take_ge by done. rewrite (rmp_roundtrip _ _ Hd). cbn [ping_pubkey ping_timestamp]. rewrite decide_True by done. by exists n.
  - destruct ev as [ok|[[d' src]|]|]; try done.
    + unfold sbind, emit. destruct ok; [|apply IH].
      exact (IH (mkNet (n_world n) (n_sent n ++ [(ToName name, mine)]))).
    + cbn in Hev. destruct (rmp_from_slice (recv_buf 1024 d')) as [[p ts]|]; [|apply IH]. cbn.
      rewrite decide_False; [apply IH|]. naive_solver.
Qed.

(** An attempt that meets the peer [pub], [sk]: its ping arrives from [remote],
    then its [Init] with the ephemeral key [e], each after any junk.  The
    handshake starts at reading [start] of the clock; it takes one for its first
    send and one for each resend, and the [Init] is fresh at the next. *)
Definition meets (start : nat) (pub : PublicKey) (sk : SigningKey) (punchtimestamp ts : Z) (e : KeyType) (remote : SocketAddr)
    (at' : attempt) : Prop :=
  ∃ pre ping post pre' f src post',
    at_punch at' = pre ++ PunchRecv (Some (ping, remote)) :: post ∧
    Forall (quiet_punch (pk_bytes pub) (as_u64 punchtimestamp)) pre ∧
    rmp_to_vec (mkPing (pk_bytes pub) (as_u64 punchtimestamp)) = Ok ping ∧ (length ping ≤ 1024)%nat ∧
    at_shake at' = pre' ++ Received (Some (f, src)) :: post' ∧
    Forall (quiet_event (mkPeerPublic pub (verifying_key sk))) pre' ∧
    rmp_to_vec (make_message ts (Init e) pub sk) = Ok f ∧ (length f ≤ 1024)%nat ∧
    frame_is_fresh ts (clock (start + 1 + resends pre')) = true.

(** Such an attempt is established directly, with the key of its ephemeral. *)
Lemma establish_meets `{!RmpLaws Ping, !SigLaws, !RmpLaws PeerMessage} keys pub sk name pts ts e remote at'
    eph_priv eph_pub k n :
  (∃ mine, rmp_to_vec (mkPing (pk_bytes (x25519_pub keys)) (as_u64 pts)) = Ok mine) →
  meets (w_clock (n_world n)) pub sk pts ts e remote at' → session_from eph_priv e = Ok k →
  (establish keys (mkPeerPublic pub (verifying_key sk)) name pts at' eph_priv eph_pub n).1 =
    Some (Some (Direct remote, k)).
Proof.
  intros [mine Hm] (pre & ping & post & pre' & f & src & post' & Hp & Hq & Hping & Hl & Hs & Hq' & Hf & Hl' & Hc) Hk.
  unfold establish. rewrite Hp, Hs. unfold sbind at 1. cbn [peer_public].
  destruct (punch_hole_finds (as_u64 pts) (x25519_pub keys) pub name pre ping post remote mine n Hm Hping Hl Hq)
    as (n1 & -> & Hn1). rewrite <- Hn1 in Hc.
  unfold sbind. pose proof (initial_handshake_accepts (x25519_pub keys) eph_priv (pk_bytes eph_pub) pub sk ts e f
    pre' post' src remote (ed25519_signing keys) (at_first_ok at') n1 Hf Hl' Hc Hq') as Hh.
  destruct (initial_handshake _ _ _ _ _ _ _ _ n1) as [r n2]. cbn in Hh. subst r. by rewrite Hk.
Qed.

Lemma connect_session_meets `{!RmpLaws Ping, !SigLaws, !RmpLaws PeerMessage} keys pub sk name pts ts e remote at'
    k s n :
  (∃ mine, rmp_to_vec (mkPing (pk_bytes (x25519_pub keys)) (as_u64 pts)) = Ok mine) →
  meets (w_clock (n_world n)) pub sk pts ts e remote at' → session_from (rng_secret (w_rng (n_world n))) e = Ok k →
  start_session (Direct remote) k (x25519_pub keys) (ed25519_signing keys) (mkPeerPublic pub (verifying_key sk))
    (am_i_first (pk_bytes (x25519_pub keys)) (pk_bytes pub)) = Some s →
  (connect_session keys (mkPeerPublic pub (verifying_key sk)) name pts at' n).1 = SessionStarted (Direct remote) s.
Proof.
  intros Hm Hat Hk Hs. unfold connect_session, on_world, generate_x25519, draw. unfold sbind at 1 2 3. cbn [sret n_world].
  unfold sbind. match goal with |- context [establish _ _ _ _ _ ?a ?b ?n1] =>
    pose proof (establish_meets keys pub sk name pts ts e remote at' a b k n1 Hm Hat Hk) as He;
    destruct (establish _ _ _ _ _ a b n1) as [r n2] end.
  cbn [fst] in He. subst r. cbn [sret fst peer_public]. by rewrite Hs.
Qed.
End OneEnd.

(** ** The pump *)

Section PumpLemmas.
Context `{Prim : Primitives} `{EnvI : !Env} `{SledI : Sled} `{SrvEnv : ServerEnv} `{CliEnv : ClientEnv}.
Context `{CorEnv : CoreEnv} `{MsgRmp : !Rmp Message}.
Context `{!Quiet, !SledLaws, !AeadLaws, !RmpLaws Message}.
Context (keys : Keys) (peer : PeerPublic) (peer_id : hash) (key : Key).
Hypothesis Hkey : load_storage_key (peer_public peer) (x25519_priv keys) = Ok key.
Let disk (c : Core) := w_fs (s_world (c_srv c)).

Definition event_messages (evs : list SessionEvent) : list Message :=
  omap (λ e, match e with SessionMessage t ts => Some (from_parts t Peer ts) | Closed => None end) evs.

(** Every text that arrives is appended to the log and announced, in order. *)
Lemma pump_stores evs n d c clocks :
  Forall (stamped clocks) evs →
  (∀ m, m ∈ event_messages evs → ∃ b, rmp_to_vec m = Ok b ∧ Z.of_nat (length b) < 2 ^ 36) →
  log_at (disk c) (chat_path peer_id) d → clear_path (disk c) (peer_dir peer_id) →
  Z.of_nat (length evs) ≤ n ≤ two64 → log_room n d → peer_on_disk (disk c) peer_id peer →
  ∃ c' d', pump keys peer peer_id (map Some evs) c = (false, c') ∧
    c_app c' = c_app c ++ replicate (length evs) (AE.MessageArrived peer_id false) ∧
    c_sessions c' = c_sessions c ∧
    log_at (disk c') (chat_path peer_id) d' ∧ clear_path (disk c') (peer_dir peer_id) ∧
    peer_on_disk (disk c') peer_id peer ∧
    log_messages key d' = log_messages key d ++ event_messages evs.
Proof.
  intros Hm. revert n d c. induction Hm as [|e evs He Hm IH]; intros n d c Hser Hlog Hclear Hn Hroom Hdisk.
  { exists c, d. cbn. rewrite !app_nil_r. by split_and!. }
  destruct He as (text & i & ->). set (ts := clocks i) in *. cbn [length event_messages omap list_omap] in *.
  destruct (Hser (from_parts text Peer ts)) as (b & Hb & Hl); [set_solver|].
  destruct (persist_room n keys peer peer_id text Peer ts key b d (s_world (c_srv c)))
    as (d1 & w1 & Hp & Hfs & Hd1 & Hr1 & Hfr); [done|done|done|lia|done..|].
  cbn [map pump]. unfold sbind, on_disk, on_srv. erewrite with_world_step by exact Hp.
  unfold notify, smodify. match goal with |- context [pump _ _ _ _ ?c1] => set (c1' := c1) end.
  edestruct (IH (n - 1) d1 c1') as (c' & d' & Hrun & Happ & Hses & K1 & K2 & K3 & K4).
  - intros m Hin. apply Hser. set_solver.
  - unfold log_at, disk, c1'. cbn. by rewrite Hfs.
  - eapply only_db_clear; [exact Hfr|done].
  - lia.
  - done.
  - eapply only_db_peer; [exact Hfr|done].
  - exists c', d'. split; [exact Hrun|]. split; [rewrite Happ; cbn; by rewrite <- app_assoc|].
    split_and!; [done..|]. by rewrite K4, Hd1, <- app_assoc.
Qed.
End PumpLemmas.

(** ** Both ends *)

Section BothEnds.
Context `{Prim : Primitives} (EA EB : Env) `{SledI : Sled} `{SrvEnv : ServerEnv} `{CliEnv : ClientEnv}.
Context `{CorEnv : CoreEnv} `{PmRmp : !Rmp PeerMessage} `{PingRmp : !Rmp Ping} `{MsgRmp : !Rmp Message}.
Context `{!KeyLaws, !DhLaws, !KdfLaws, !AeadLaws, !SigLaws, !SledLaws}.
Context `{!RmpLaws PeerMessage, !RmpLaws Ping, !RmpLaws Message} `{!Quiet (EnvI := EB)}.
Context (keysA keysB : Keys).
Let pubA := x25519_pub keysA.
Let pubB := x25519_pub keysB.
Let peerA := mkPeerPublic pubA (verifying_key (ed25519_signing keysA)).
Let peerB := mkPeerPublic pubB (verifying_key (ed25519_signing keysB)).
Let idA := identity_hash (peer_public peerA) (peer_verifying peerA).
Let disk (c : Core) := w_fs (s_world (c_srv c)).

(** The messages a pump stores are the texts of the events. *)
Lemma event_messages_texts evs :
  map msg_text (event_messages evs) = event_texts evs ∧
  Forall (λ m, msg_author m = Peer) (event_messages evs).
Proof.
  induction evs as [|[t ts|] evs [IH1 IH2]]; cbn; [repeat constructor| |done].
  split; [by f_equal|by constructor].
Qed.

Lemma event_messages_length clocks evs : Forall (stamped clocks) evs → length evs = length (event_texts evs).
Proof. induction 1 as [|e evs (t & i & ->) Hm IH]; cbn; by f_equal. Qed.

Lemma event_messages_stamped clocks evs : Forall (stamped clocks) evs →
  Forall (λ m, ∃ t i, m = from_parts t Peer (clocks i) ∧ t ∈ event_texts evs) (event_messages evs).
Proof.
  induction 1 as [|e evs (t & i & ->) Hm IH]; cbn; constructor; [exists t, i; set_solver|].
  eapply Forall_impl; [exact IH|]. cbn. intros m (t' & j & -> & Hin). exists t', j. set_solver.
Qed.

(** C3: A conversation works from end to end: two clients whose hole punches
    meet and whose [Init] frames reach each other (after any junk, each fresh
    at the reading of the receiver's clock taken when it arrives) both get a
    direct session from [connect_session]; when the frames that A's session
    emits for the typed texts reach B in order, each read at most 120 seconds
    on B's clock from the time A's clock put on it, B's pump stores every one
    of them and tells the interface once per text, and the history B then shows
    is the old one followed by exactly the texts A's user typed, in order, as
    the peer's.  The conversation may last as long as it likes: the clocks are
    compared frame by frame, and B's is between 1970 and 2^62 seconds.  All
    sends work, everything serialises, texts are shorter than 2^36 bytes and
    events fewer than 2^63, B's disk has no faults and its log has room. *)
Theorem conversation_end_to_end pts tsA tsB nameA nameB remoteA remoteB atA atB wA wB wA' wB' evs rd c d :
  pk_bytes pubA ≠ pk_bytes pubB →
  (∀ m : PeerMessage, ∃ b, rmp_to_vec m = Ok b) → (∀ p : Ping, ∃ b, rmp_to_vec p = Ok b) →
  clocks_in_step EA EB (w_clock wA') (w_clock wB') (length evs) →
  meets (EnvI := EA) (w_clock wA) pubB (ed25519_signing keysB) pts tsB
    (pk_bytes (public_of (@rng_secret _ EB (w_rng wB)))) remoteB atA →
  meets (EnvI := EB) (w_clock wB) pubA (ed25519_signing keysA) pts tsA
    (pk_bytes (public_of (@rng_secret _ EA (w_rng wA)))) remoteA atB →
  Z.of_nat (length evs) < two63 → Forall write_ok evs →
  (∀ t i, t ∈ out_texts evs →
    ∃ b, rmp_to_vec (from_parts t Peer (@clock _ EA i)) = Ok b ∧ Z.of_nat (length b) < 2 ^ 36) →
  peer_on_disk (EnvI := EB) (disk c) idA peerA → clear_path (disk c) (peer_dir (EnvI := EB) idA) →
  log_at (disk c) (chat_path (EnvI := EB) idA) d → log_room (Z.of_nat (length (out_texts evs))) d →
  ∃ sA sB nA,
    (connect_session (EnvI := EA) keysA peerB nameB pts atA (mkNet wA [])).1 = SessionStarted (Direct remoteB) sA ∧
    (connect_session (EnvI := EB) keysB peerA nameA pts atB (mkNet wB [])).1 = SessionStarted (Direct remoteA) sB ∧
    sh_writer sA evs (mkNet wA' []) = (Waiting, nA) ∧
    (view (Direct remoteA) rd = map (λ f, ReadOk f.2 true) (n_sent nA) →
     ∃ rB c' key lines w', sh_reader sB rd (reader0 wB') = (Waiting, rB) ∧
       pump (EnvI := EB) keysB peerA idA (map Some (r_events rB)) c = (false, c') ∧
       c_app c' = c_app c ++ replicate (length (out_texts evs)) (AE.MessageArrived idA false) ∧
       history (EnvI := EB) keysB idA (s_world (c_srv c')) = (Ok (map chat_line (log_messages key d) ++ lines), w') ∧
       map cl_text lines = out_texts evs ∧ Forall (λ l, cl_from_me l = false) lines).
Proof.
  intros Hne Hser Hping Hclk HmA HmB Hl Hok Hmsg Hdisk Hclear Hlog Hroom.
  destruct (session_from_agree (@rng_secret _ EA (w_rng wA)) (@rng_secret _ EB (w_rng wB))) as (k & HkA & HkB).
  destruct (session_pair_delivers EA EB k pubA pubB (ed25519_signing keysA) (ed25519_signing keysB)
    (Direct remoteB) (Direct remoteA) Hne evs wA' rd wB' Hser (in_step_accepted _ _ _ _ _ Hclk) Hl Hok) as (sA & sB & nA & HA & HB & Hw & Hrd).
  exists sA, sB, nA. split_and!; [..|done|].
  { eapply (connect_session_meets (EnvI := EA)); eauto. }
  { eapply (connect_session_meets (EnvI := EB)); eauto. }
  intros Hv. destruct (Hrd Hv) as (rB & Hr & Hmsgs & Htexts).
  destruct (event_messages_texts (r_events rB)) as [Hmt Hma].
  destruct (load_storage_key_total (peer_public peerA) (x25519_priv keysB)) as [key Hkey].
  destruct (pump_stores (EnvI := EB) keysB peerA idA key Hkey (r_events rB)
    (Z.of_nat (length (out_texts evs))) d c (@clock _ EA)) as (c' & d' & Hp & Happ & _ & Hlog' & Hclear' & Hdisk' & Hd'); try done.
  { intros m Hin. pose proof (event_messages_stamped _ _ Hmsgs) as Hst. rewrite Forall_forall in Hst.
    destruct (Hst m Hin) as (t & i & -> & Ht). rewrite Htexts in Ht. by apply Hmsg. }
  { rewrite (event_messages_length _ _ Hmsgs), Htexts. pose proof (out_texts_length evs).
    assert (two63 < two64) by done. lia. }
  destruct (history_quiet (EnvI := EB) keysB peerA key d' (s_world (c_srv c')) Hkey Hdisk' Hclear' Hlog') as [w' Hh].
  exists rB, c', key, (map chat_line (event_messages (r_events rB))), w'.
  split_and!; [done..|rewrite Happ, (event_messages_length _ _ Hmsgs); by rewrite Htexts| | |].
  - unfold idA. by rewrite Hh, Hd', map_app.
  - rewrite map_map. cbn. by rewrite <- Htexts, <- Hmt.
  - rewrite Forall_map. eapply Forall_impl; [exact Hma|]. intros m Hm. cbn. by rewrite Hm.
Qed.
End BothEnds.

(** A runs on a clock that advances by 100 seconds with every reading, B on one
    that is 30 seconds ahead; the handshakes take three readings, and the frames
    of the session follow 1000 seconds after its start and span 200 seconds. *)
Module ConversationWitness.
#[local] Existing Instances toy_prims toy_env list_sled WireWitness.toy_rmp_pm WireWitness.toy_rmp_ping.
#[local] Existing Instances ChatDbWitness.toy_rmp_message ServerWitness.toy_server ClientFilesWitness.toy_client
  CoreWitness.toy_core.
#[local] Existing Instances toy_key_laws toy_dh_laws toy_kdf_laws toy_aead_laws toy_sig_laws list_sled_laws
  WireWitness.toy_rmp_pm_laws ChatDbWitness.toy_rmp_message_laws.
Import HandshakeWitness.

Definition toy_ping_laws : RmpLaws Ping := codec_rmp_laws _.
#[local] Existing Instance toy_ping_laws.
Definition EA : Env := SessionWitness.slow_env 1000000.
Definition EB : Env := SessionWitness.slow_env 1000030.
Definition quietB : Quiet (EnvI := EB).
Proof. by constructor. Qed.
#[local] Existing Instance quietB.

Definition keysA : Keys :=
  mkKeys PeerStoreWitness.alice PeerStoreWitness.alice PeerStoreWitness.alice PeerStoreWitness.alice.
Definition keysB : Keys := ChatDbWitness.me.
Definition w0 : World := mkWorld ∅ 0 0 0.
Definition w10 : World := mkWorld ∅ 10 0 0.
Definition core0 : Core := CoreWitness.core ∅ ∅.
Definition eph : KeyType := rng_secret 0.
Definition bytes_of {A} {R : Rmp A} (x : A) : bytes := unwrap_or [] (rmp_to_vec x).
Definition ping_of (k : Keys) : bytes := bytes_of (A := Ping) (mkPing (pk_bytes (x25519_pub k)) (as_u64 1000000)).
Definition init_of (k : Keys) : bytes :=
  bytes_of (A := PeerMessage) (make_message 1000115 (Init (pk_bytes (public_of eph))) (x25519_pub k) (ed25519_signing k)).
(** What meets the peer [k]: a stray datagram, its ping, a stray datagram, its [Init]. *)
Definition attempt_of (k : Keys) (remote : SocketAddr) : attempt :=
  mkAttempt ([PunchTick true; PunchRecv (Some ([x00], remote))] ++ [PunchRecv (Some (ping_of k, remote))]) true
    ([Received (Some ([x00], remote)); Resend true] ++ [Received (Some (init_of k, remote))]) [].

Lemma attempt_meets (E : Env) k remote :
  frame_is_fresh 1000115 (clock (Env := E) 2) = true →
  (length (ping_of k) ≤ 1024)%nat → (length (init_of k) ≤ 1024)%nat →
  meets (EnvI := E) 0 (x25519_pub k) (ed25519_signing k) 1000000 1000115 (pk_bytes (public_of eph)) remote
    (attempt_of k remote).
Proof.
  intros Hc Hp Hi. eexists _, (ping_of k), _, _, (init_of k), _, _.
  split; [reflexivity|]. split; [repeat constructor; vm_compute; done|]. split; [reflexivity|]. split; [exact Hp|].
  split; [reflexivity|]. split; [repeat constructor|]. split; [reflexivity|]. split; [exact Hi|]. exact Hc.
Qed.

Definition typed : list write_event := SessionWitness.texts0.
Definition frames : list bytes :=
  match (connect_session (EnvI := EA) keysA (mkPeerPublic (x25519_pub keysB) (verifying_key (ed25519_signing keysB)))
           (str "b") 1000000 (attempt_of keysB there) (mkNet w0 [])).1 with
  | SessionStarted _ s => map snd (n_sent (sh_writer s typed (mkNet w10 [])).2)
  | _ => []
  end.
Definition arriving : list (read_event (input (Direct here))) := map (λ b, ReadOk (b, here) true) frames.

Lemma slow_clock_mod i : clock (Env := EA) i = clock (Env := EA) (i mod 100).
Proof. cbn -[Z.modulo Nat.modulo Z.mul]. by rewrite Nat2Z.inj_mod, Z.mod_mod. Qed.

Lemma typed_fits t i : t ∈ out_texts typed →
  Z.of_nat (length (bytes_of (from_parts t Peer (clock (Env := EA) i)))) < 2 ^ 36.
Proof.
  intros Hin. rewrite slow_clock_mod.
  assert (Hall : forallb (λ t, forallb (λ k, Z.of_nat (length (bytes_of (from_parts t Peer (clock (Env := EA) k)))) <? 2 ^ 36)
    (seq 0 100)) (out_texts typed) = true) by (vm_compute; reflexivity).
  rewrite forallb_forall in Hall. apply list_elem_of_In in Hin. specialize (Hall t Hin). rewrite forallb_forall in Hall.
  apply Z.ltb_lt, Hall, in_seq. pose proof (Nat.mod_upper_bound i 100 ltac:(lia)). lia.
Qed.

Lemma conversation_end_to_end_witness :
  ∃ rB c' key lines w',
    pump (EnvI := EB) keysB ChatDbWitness.peer ChatDbWitness.id (map Some (r_events rB)) core0 = (false, c') ∧
    c_app c' = replicate 2 (AE.MessageArrived ChatDbWitness.id false) ∧
    history (EnvI := EB) keysB ChatDbWitness.id (s_world (c_srv c')) =
      (Ok (map chat_line (log_messages key db_empty) ++ lines), w') ∧
    map cl_text lines = [str "one"; str "two"].
Proof.
  destruct (conversation_end_to_end EA EB keysA keysB 1000000 1000115 1000115 (str "a") (str "b") here there
    (attempt_of keysB there) (attempt_of keysA here) w0 w0 w10 w10 typed arriving core0 db_empty)
    as (sA & sB & nA & HA & HB & Hw & Hrd).
  - intros Heq. apply (f_equal (λ a, head (arr_data a))) in Heq. vm_compute in Heq. discriminate Heq.
  - exact SessionWitness.toy_total.
  - by eexists.
  - apply SessionWitness.slow_in_step.
  - apply attempt_meets; vm_compute; lia || reflexivity.
  - apply attempt_meets; vm_compute; lia || reflexivity.
  - vm_compute. reflexivity.
  - exact SessionWitness.texts0_ok.
  - intros t i Hin. eexists. split; [reflexivity|]. exact (typed_fits t i Hin).
  - exact ChatDbWitness.w1_peer.
  - exact ChatDbWitness.w1_clear.
  - vm_compute. reflexivity.
  - constructor.
  - destruct Hrd as (rB & c' & key & lines & w' & _ & Hp & Ha & Hh & Ht & _).
    + assert (Hf : map snd (n_sent nA) = frames).
      { unfold frames. cbn [keysB] in HA. rewrite HA, Hw. reflexivity. }
      assert (Hv : direct_view here arriving = map (λ b, ReadOk b true) frames) by (vm_compute; reflexivity).
      cbn [view]. rewrite Hv, <- Hf, map_map. reflexivity.
    + exists rB, c', key, lines, w'. split; [exact Hp|]. split; [exact Ha|]. split; [exact Hh|exact Ht].
Defined.
End ConversationWitness.
