(* ===== verification/Orchestrate.v ===== *)
(** * The reconnect loop

    [orchestrate] of src/crates/client/src/lib.rs as a whole: STUN discovery,
    [run_client], the inner [select!] loop (whose branches are
    [orchestrate_step] of [ClientCore.v]) and the back-off between
    connections.  A round is what one pass of the outer loop meets; sleeps and
    the addresses dialed are recorded. *)

From Stdlib Require Import Strings.Byte.
From S2P Require Import Prelude Bytes Text Primitives Instances World Crypto KeyFile PeerStore ChatDb Wire Handshake ServerProto ServerClient ClientFiles ClientCore.

Local Open Scope Z_scope.

Section Orchestrate.
Context `{Prim : Primitives} `{EnvI : !Env} `{SledI : Sled} `{SrvEnv : ServerEnv} `{CliEnv : ClientEnv}.
Context `{CorEnv : CoreEnv} `{MsgRmp : !Rmp Message} `{BlobRmp : !Rmp BlobPayload}.
Context `{StcRmp : !Rmp ServerToClient} `{CtsRmp : !Rmp ClientToServer}.
Context `{StunRmp : !Rmp StunPing} `{ReplyRmp : !Rmp StunReply}.

(** ** The loop *)

(** One pass: the STUN exchanges, how the network answers a websocket connect,
    and the branches of the inner loop. *)
Record round := mkRound {
  rd_stun : nat → stun_attempt;
  rd_connect : connector;
  rd_events : list select_event
}.

Record Orch := mkOrch {
  o_core : Core;
  o_server : rstring;
  o_backoff : Z;
  o_sleeps : list Z;
  o_dialed : list rstring;
  o_stun : list (dest * bytes)
}.

Definition on_core {A} (m : St Core A) : St Orch A :=
  λ o, let '(a, c) := m (o_core o) in
       (a, mkOrch c (o_server o) (o_backoff o) (o_sleeps o) (o_dialed o) (o_stun o)).
(** The UDP socket: the world it shares and the datagrams it sends. *)
Definition on_socket {A} (m : St Net A) : St Orch A :=
  λ o, let c := o_core o in
       let '(a, n) := m (mkNet (s_world (c_srv c)) (o_stun o)) in
       (a, mkOrch (mkCore (put_world (c_srv c) (n_world n)) (c_intents c) (c_sessions c) (c_connecting c)
                     (c_app c) (c_out c) (c_texts c) (c_relayed c) (c_spawned c) (c_uses c))
             (o_server o) (o_backoff o) (o_sleeps o) (o_dialed o) (n_sent n)).
Definition set_backoff (b : Z) : St Orch unit :=
  smodify (λ o, mkOrch (o_core o) (o_server o) b (o_sleeps o) (o_dialed o) (o_stun o)).
Definition set_server_address (a : rstring) : St Orch unit :=
  smodify (λ o, mkOrch (o_core o) a (o_backoff o) (o_sleeps o) (o_dialed o) (o_stun o)).
Definition dial : St Orch unit :=
  smodify (λ o, mkOrch (o_core o) (o_server o) (o_backoff o) (o_sleeps o) (o_dialed o ++ [o_server o]) (o_stun o)).
(** [sleep(backoff_secs)] and [backoff_secs = (backoff_secs * 2).min(30)] *)
Definition back_off : St Orch unit :=
  smodify (λ o, mkOrch (o_core o) (o_server o) (next_reconnect_backoff (o_backoff o))
                  (o_sleeps o ++ [o_backoff o]) (o_dialed o) (o_stun o)).
(** [mpsc::channel::<ServerEvent>(100)]: a new event channel. *)
Definition new_event_channel : St Srv unit :=
  smodify (λ s, mkSrv (s_world s) (s_peers s) (s_address s) [] (s_in s) (s_sends s) (s_wire s)).

Definition stun_address (server_address : rstring) : rstring :=
  match (s ← env_var (str "SECHAT_STUN"); if is_empty s then None else Some s) with
  | Some s => s
  | None => default_stun_addr server_address
  end.

Section Loop.
Context (keys : Keys) (udp_port : Z).

(** The event channel, STUN, then [run_client]. *)
Definition connect_phase (rd : round) : St Orch (result (awaited unit) ClientErrors) :=
  let! o := sget in
  let! _ := on_core (on_srv new_event_channel) in
  let! announce := on_socket (stun_discover (stun_address (o_server o)) (pk_bytes (x25519_pub keys))
                     (ed25519_signing keys) (rd_stun rd)) in
  let! _ := dial in
  on_core (on_srv (run_client (rd_connect rd) (x25519_pub keys) (ed25519_signing keys) (x25519_priv keys)
    (o_server o) udp_port announce)).

(** How a pass ends: the outer loop goes round again, the task still waits (the
    inner loop for a branch, [run_client] for the server or for room in the
    event channel), or it returns. *)
Inductive orch_status := Again | Running | Returned.

Fixpoint select_loop (evs : list select_event) : St Orch orch_status :=
  match evs with
  | [] => sret Running
  | ev :: evs' =>
      let! f := on_core (orchestrate_step keys ev) in
      match f with
      | Continue => select_loop evs'
      | Return => sret Returned
      | Reconnect server =>
          let! _ := match server with
                    | Some addr => let! _ := set_server_address addr in set_backoff 1
                    | None => sret tt
                    end in
          let! _ := back_off in sret Again
      end
  end.

Definition orchestrate_round (rd : round) : St Orch orch_status :=
  let! r := connect_phase rd in
  match r with
  | Err e =>
      let! _ := on_core (notify (AE.Error (str "connect failed: " ++ display_client e))) in
      let! _ := back_off in sret Again
  | Ok Silent | Ok Blocked | Ok NoFuel => sret Running
  | Ok (Ready _) => let! _ := set_backoff 1 in select_loop (rd_events rd)
  end.

Fixpoint orchestrate (rounds : list round) : St Orch orch_status :=
  match rounds with
  | [] => sret Running
  | rd :: rounds' =>
      let! st := orchestrate_round rd in
      match st with Again => orchestrate rounds' | st => sret st end
  end.
End Loop.

(** The state the task starts in. *)
Definition orchestrate_start (s : Srv) (server_address : rstring) : Orch :=
  mkOrch (mkCore s ∅ ∅ ∅ [] [] [] [] [] 0) server_address 1 [] [] [].

(** ** Lemmas *)

Lemma on_core_eq {A} (m : St Core A) o :
  on_core m o = ((m (o_core o)).1,
    mkOrch (m (o_core o)).2 (o_server o) (o_backoff o) (o_sleeps o) (o_dialed o) (o_stun o)).
Proof. unfold on_core. by destruct (m (o_core o)). Qed.

(** A refused connect: the address was dialed, and only the world (the clock
    read for STUN) and the recorded datagrams changed. *)
Definition refused_core (c c' : Core) : Prop :=
  c_intents c' = c_intents c ∧ c_sessions c' = c_sessions c ∧ c_connecting c' = c_connecting c ∧
  c_out c' = c_out c ∧ c_texts c' = c_texts c ∧ c_spawned c' = c_spawned c.

(** The network refuses every connection of a pass. *)
Definition unreachable (rd : round) : Prop := ∀ url config, ∃ e, rd_connect rd url config = Err e.

Lemma connect_phase_refused keys port rd o :
  unreachable rd →
  ∃ e o', connect_phase keys port rd o = (Err e, o') ∧ refused_core (o_core o) (o_core o') ∧
    c_app (o_core o') = c_app (o_core o) ∧ o_server o' = o_server o ∧ o_backoff o' = o_backoff o ∧
    o_sleeps o' = o_sleeps o ∧ o_dialed o' = o_dialed o ++ [o_server o].
Proof.
  intros He. unfold connect_phase, sbind at 1, sget. unfold sbind at 1. rewrite on_core_eq.
  unfold sbind at 1, on_socket at 1. cbn [o_core o_server o_backoff o_sleeps o_dialed o_stun].
  destruct (stun_discover _ _ _ _ _) as [a n]. unfold sbind at 1, dial, smodify. cbn [o_core o_server o_backoff
    o_sleeps o_dialed o_stun]. rewrite on_core_eq. cbn [o_core]. unfold on_srv, new_event_channel, smodify.
  unfold run_client, ebind at 1, sret, connect_to_server. destruct (He (ws_url (o_server o))
    (mkWebSocketConfig (Some (256 * 1024)) (Some (256 * 1024)))) as [e ->].
  eexists _, _. split; [reflexivity|]. done.
Qed.

Lemma connect_phase_frame keys port rd o :
  let o' := (connect_phase keys port rd o).2 in
  o_server o' = o_server o ∧ o_backoff o' = o_backoff o ∧ o_sleeps o' = o_sleeps o ∧
  o_dialed o' = o_dialed o ++ [o_server o].
Proof.
  destruct (connect_phase keys port rd o) as [r o'] eqn:E. cbn zeta. cbn [snd].
  unfold connect_phase, sbind at 1, sget in E. unfold sbind at 1 in E. rewrite on_core_eq in E.
  unfold sbind at 1, on_socket at 1 in E. cbn [o_core o_server o_backoff o_sleeps o_dialed o_stun] in E.
  destruct (stun_discover _ _ _ _ _) as [a n]. unfold sbind at 1, dial, smodify in E. rewrite on_core_eq in E.
  by injection E as _ <-.
Qed.

(** A branch that keeps the connection. *)
Definition stays (ev : select_event) : bool :=
  match ev with
  | RetryTick => true
  | ServerEv None | ServerEv (Some SE.Disconnected) => false
  | ServerEv (Some _) => true
  | CmdEv None | CmdEv (Some (Cmd.SetServer _)) | CmdEv (Some Cmd.Shutdown) => false
  | CmdEv (Some _) => true
  end.

Lemma stays_continue keys ev c : stays ev = true → (orchestrate_step keys ev c).1 = Continue.
Proof.
  destruct ev as [|[[]|]|[[]|]]; cbn [stays orchestrate_step]; intros H; try done;
    unfold sbind; match goal with |- context [let '(_, _) := ?x in _] => by destruct x end.
Qed.

Lemma select_loop_prefix keys pre evs o :
  forallb stays pre = true →
  ∃ c, select_loop keys (pre ++ evs) o =
    select_loop keys evs (mkOrch c (o_server o) (o_backoff o) (o_sleeps o) (o_dialed o) (o_stun o)).
Proof.
  revert o. induction pre as [|ev pre IH]; intros o; cbn [forallb app].
  - intros _. exists (o_core o). by destruct o.
  - intros [Hev Hpre]%andb_prop. cbn [select_loop]. unfold sbind at 1. rewrite on_core_eq.
    rewrite (stays_continue _ _ _ Hev). exact (IH (mkOrch _ _ _ _ _ _) Hpre).
Qed.

(** The delays a computation adds are between 1 and 30 seconds. *)
Definition delays_ok (o o' : Orch) : Prop :=
  1 ≤ o_backoff o ≤ 30 →
  1 ≤ o_backoff o' ≤ 30 ∧ ∃ new, o_sleeps o' = o_sleeps o ++ new ∧ Forall (λ d, 1 ≤ d ≤ 30) new.

#[export] Instance delays_ok_preorder : PreOrder delays_ok.
Proof.
  split.
  - intros o H. split; [done|]. exists []. by rewrite app_nil_r.
  - intros o1 o2 o3 H12 H23 H1. destruct (H12 H1) as [H2 (l & Hl & Fl)]. destruct (H23 H2) as [H3 (k & Hk & Fk)].
    split; [done|]. exists (l ++ k). rewrite Hk, Hl, app_assoc. split; [done|by apply Forall_app].
Qed.

Lemma on_core_delays {A} (m : St Core A) : respects delays_ok (on_core m).
Proof. intros o. rewrite on_core_eq. intros H. split; [done|]. exists []. by rewrite app_nil_r. Qed.

Lemma same_delays {A} (m : St Orch A) :
  (∀ o, o_backoff (m o).2 = o_backoff o ∧ o_sleeps (m o).2 = o_sleeps o) → respects delays_ok m.
Proof. intros Hm o H. destruct (Hm o) as [-> ->]. split; [done|]. exists []. by rewrite app_nil_r. Qed.

Lemma set_backoff_delays : respects delays_ok (set_backoff 1).
Proof. intros o H. cbn. split; [lia|]. exists []. by rewrite app_nil_r. Qed.

Lemma back_off_delays : respects delays_ok back_off.
Proof.
  intros o H. cbn. unfold next_reconnect_backoff. split; [lia|]. exists [o_backoff o]. split; [done|by constructor].
Qed.

Lemma connect_phase_delays keys port rd : respects delays_ok (connect_phase keys port rd).
Proof.
  unfold connect_phase. repeat respects_step.
  - apply on_core_delays.
  - apply same_delays. intros o. unfold on_socket. by destruct (stun_discover _ _ _ _ _).
  - by apply same_delays.
  - apply on_core_delays.
Qed.

Lemma select_loop_delays keys evs : respects delays_ok (select_loop keys evs).
Proof.
  induction evs as [|ev evs IH]; cbn [select_loop]; repeat respects_step;
    first [apply on_core_delays | exact IH | apply set_backoff_delays | apply back_off_delays | by apply same_delays].
Qed.

Lemma round_delays keys port rd : respects delays_ok (orchestrate_round keys port rd).
Proof.
  unfold orchestrate_round. repeat respects_step;
    first [apply connect_phase_delays | apply on_core_delays | apply back_off_delays | apply set_backoff_delays
          | apply select_loop_delays].
Qed.

(** Every peer gets its message. *)
Lemma tell_peers_all (peers : list PeerPublic) gen f c :
  (∀ n, server_ok n = true) → (∀ p, gen p = Ok (f p)) →
  ∃ c' msgs, tell_peers peers gen c = (tt, c') ∧ c_out c' = c_out c ++ msgs ∧
    map cts_payload msgs = map f peers ∧ w_fs (s_world (c_srv c')) = w_fs (s_world (c_srv c)) ∧
    c_app c' = c_app c ∧ c_intents c' = c_intents c.
Proof.
  intros Hok Hgen. revert c. induction peers as [|p peers IH]; intros c; unfold tell_peers in *; cbn [sfor].
  - exists c, []. by rewrite app_nil_r.
  - rewrite Hgen. unfold sbind at 1 2. unfold on_disk, on_srv. rewrite with_world_eq.
    unfold sbind at 1, server_send, use. unfold sbind at 1. rewrite Hok. unfold sbind at 1, smodify, sret.
    edestruct IH as (c' & msgs & -> & Ho & Hm & Hfs & Ha & Hi). eexists c', (_ :: msgs).
    rewrite Ho, Ha, Hi, Hfs. cbn. rewrite Hm. split_and!; [done|by rewrite <- app_assoc|done..].
Qed.

(** The delays of [n] failures in a row from a first delay [b]. *)
Definition ladder (b : Z) (n : nat) : list Z := map (λ k, Z.min (b * 2 ^ k) 30) (seqZ 0 (Z.of_nat n)).

Lemma ladder_cons b n : 1 ≤ b ≤ 30 → ladder b (S n) = b :: ladder (next_reconnect_backoff b) n.
Proof.
  intros Hb. unfold ladder. rewrite seqZ_cons by lia. cbn [map]. f_equal; [lia|].
  replace (Z.pred (Z.of_nat (S n))) with (Z.of_nat n) by lia. change (Z.succ 0) with (1 + 0).
  rewrite <- (fmap_add_seqZ 1 0 (Z.of_nat n)). unfold fmap. rewrite map_map.
  apply map_ext_in. intros k Hk%list_elem_of_In%elem_of_seqZ.
  unfold next_reconnect_backoff. rewrite Z.pow_add_r by lia. assert (1 ≤ 2 ^ k) by (apply (Z.pow_le_mono_r 2 0); lia). nia.
Qed.

Lemma refused_core_trans c1 c2 c3 : refused_core c1 c2 → refused_core c2 c3 → refused_core c1 c3.
Proof. unfold refused_core. intuition congruence. Qed.

(** An outage of any length. *)
Lemma orchestrate_outage keys port rounds o :
  Forall unreachable rounds → 1 ≤ o_backoff o ≤ 30 →
  ∃ o' new, orchestrate keys port rounds o = (Running, o') ∧
    o_dialed o' = o_dialed o ++ replicate (length rounds) (o_server o) ∧
    o_sleeps o' = o_sleeps o ++ ladder (o_backoff o) (length rounds) ∧
    c_app (o_core o') = c_app (o_core o) ++ new ∧ Forall (λ e, ∃ t, e = AE.Error t) new ∧
    length new = length rounds ∧ refused_core (o_core o) (o_core o').
Proof.
  intros Hrd. revert o. induction Hrd as [|rd rounds He _ IH]; intros o Hb; cbn [orchestrate].
  - exists o, []. by rewrite !app_nil_r.
  - destruct (connect_phase_refused keys port rd o He) as (e & o1 & Hc & Hcore & Happ & Hs & Hbk & Hsl & Hd).
    unfold sbind at 1, orchestrate_round. unfold sbind at 1. rewrite Hc. unfold sbind at 1. rewrite on_core_eq.
    unfold sbind at 1, notify, back_off, smodify, sret at 1.
    edestruct IH as (o' & new & -> & Hd' & Hsl' & Ha' & Hn & Hl & Hcore').
    2:{ exists o'. eexists (_ :: new). cbn [o_dialed o_sleeps o_server o_backoff o_core fst snd c_app] in *.
        rewrite Hd', Hsl', Ha', Hd, Hsl, Happ, Hbk, Hs. cbn [length].
        rewrite ladder_cons by done. rewrite <- !app_assoc. split_and!; try done.
        - constructor; [by eexists|done].
        - cbn. congruence.
        - eapply refused_core_trans; [exact Hcore|]. eapply refused_core_trans; [|exact Hcore']. done. }
    cbn. rewrite Hbk. unfold next_reconnect_backoff. lia.
Qed.

End Orchestrate.

Section OrchestrateTheorems.
Context `{Prim : Primitives} `{EnvI : !Env} `{SledI : Sled} `{SrvEnv : ServerEnv} `{CliEnv : ClientEnv}.
Context `{CorEnv : CoreEnv} `{MsgRmp : !Rmp Message} `{BlobRmp : !Rmp BlobPayload}.
Context `{StcRmp : !Rmp ServerToClient} `{CtsRmp : !Rmp ClientToServer}.
Context `{StunRmp : !Rmp StunPing} `{ReplyRmp : !Rmp StunReply}.

(** The delay between two connections is always between 1 and 30 seconds,
    in every run of the reconnect loop, whatever the server, the network and
    the user do. *)
Theorem reconnect_delay_bounded keys port rounds s server :
  let o := (orchestrate keys port rounds (orchestrate_start s server)).2 in
  Forall (λ d, 1 ≤ d ≤ 30) (o_sleeps o) ∧ 1 ≤ o_backoff o ≤ 30.
Proof.
  assert (Hr : respects delays_ok (orchestrate keys port rounds)).
  { induction rounds as [|rd rounds IH]; cbn [orchestrate]; repeat respects_step;
      first [apply round_delays | exact IH]. }
  cbv zeta. destruct (Hr (orchestrate_start s server)) as [Hb (new & Hs & Hn)]; [cbn; lia|]. cbn [o_sleeps orchestrate_start app] in Hs.
  by rewrite Hs.
Qed.

(** C27: While the server cannot be reached, from whatever state the outage
    begins in (its delay is between 1 and 30 seconds, as it always is), the loop dials the same address again and again and doubles its
    delay up to 30 seconds (1, 2, 4, 8, 16, 30, 30 ... when the last connection
    had succeeded), reports each failure, keeps the sessions, the connect
    intents and the reserved attempts as they were, sends nothing to the server
    or to a session, spawns nothing, and handles no command: whatever is
    waiting, a new server address included, stays unread. *)
Theorem outage_ladder keys port rounds o :
  Forall unreachable rounds → 1 ≤ o_backoff o ≤ 30 →
  ∃ o' errors, orchestrate keys port rounds o = (Running, o') ∧
    o_dialed o' = o_dialed o ++ replicate (length rounds) (o_server o) ∧
    o_sleeps o' = o_sleeps o ++ map (λ k, Z.min (o_backoff o * 2 ^ k) 30) (seqZ 0 (Z.of_nat (length rounds))) ∧
    c_app (o_core o') = c_app (o_core o) ++ errors ∧ Forall (λ e, ∃ t, e = AE.Error t) errors ∧
    length errors = length rounds ∧
    c_sessions (o_core o') = c_sessions (o_core o) ∧ c_intents (o_core o') = c_intents (o_core o) ∧
    c_connecting (o_core o') = c_connecting (o_core o) ∧ c_out (o_core o') = c_out (o_core o) ∧
    c_texts (o_core o') = c_texts (o_core o) ∧ c_spawned (o_core o') = c_spawned (o_core o).
Proof.
  intros Hrd Hb. destruct (orchestrate_outage keys port rounds o Hrd Hb) as
    (o' & new & Hrun & Hd & Hs & Ha & Hn & Hl & Hi & Hse & Hc & Ho & Ht & Hsp).
  exists o', new. by split_and!.
Qed.

(** Changing the server works while connected: after any branches that
    keep the connection, a [SetServer] ends it, the next pass dials the new
    address after one second, and the address is saved, so that the next start
    reads it back. *)
Theorem server_change_takes_effect `{!Quiet} keys port rd rd' pre post addr o :
  (connect_phase keys port rd o).1 = Ok (Ready tt) →
  rd_events rd = pre ++ CmdEv (Some (Cmd.SetServer addr)) :: post → forallb stays pre = true →
  (∃ o' o'', orchestrate_round keys port rd o = (Again, o') ∧ (connect_phase keys port rd' o').2 = o'' ∧
    o_dialed o'' = o_dialed o ++ [o_server o; addr] ∧ o_sleeps o' = o_sleeps o ++ [1]) ∧
  ∀ c, clear_path (w_fs (s_world (c_srv c))) sechat_dir → not_a_dir (w_fs (s_world (c_srv c))) server_config_path →
    let '(f, c') := orchestrate_step keys (CmdEv (Some (Cmd.SetServer addr))) c in
    f = Reconnect (Some addr) ∧
    (load_server (s_world (c_srv c'))).1 = if is_empty (trim addr) then None else Some (trim addr).
Proof.
  intros Hok Hev Hpre. split.
  - unfold orchestrate_round, sbind at 1. pose proof (connect_phase_frame keys port rd o) as (_ & _ & Hsl & Hd).
    destruct (connect_phase keys port rd o) as [r o1]. cbn in Hok, Hsl, Hd. subst r. rewrite Hev.
    unfold sbind at 1, set_backoff, smodify.
    edestruct (select_loop_prefix keys pre (CmdEv (Some (Cmd.SetServer addr)) :: post)) as [c ->]; [done|].
    cbn [o_server o_backoff o_sleeps o_dialed o_stun select_loop]. unfold sbind at 1. rewrite on_core_eq.
    cbn [orchestrate_step o_core]. unfold sbind at 1, on_disk, on_srv at 1. rewrite with_world_eq. cbn [fst].
    eexists _, _. split; [reflexivity|]. split; [reflexivity|]. split; [|cbn; by rewrite Hsl].
    pose proof (connect_phase_frame keys port rd') as Hf. edestruct Hf as (_ & _ & _ & ->).
    cbn. by rewrite Hd, <- app_assoc.
  - intros c Hclear Hfile. cbn [orchestrate_step].
    destruct (save_server_quiet addr (s_world (c_srv c)) Hclear Hfile) as (w' & Hsave & Hload & _).
    unfold sbind, on_disk, on_srv. rewrite (with_world_step _ _ _ _ Hsave). done.
Qed.

(** A graceful shutdown takes the user offline everywhere: for every known
    peer an [Unannounce] with the presence token for that peer is queued for the
    server, in the order of the peer list, all sessions are closed, and the
    task returns. *)
Theorem shutdown_unannounces `{!KdfLaws} keys ps post o :
  let w := s_world (c_srv (o_core o)) in
  (∀ n, server_ok n = true) → (load_peers (utc_now w).2).1 = Ok ps →
  let '(st, o') := select_loop keys (CmdEv (Some Cmd.Shutdown) :: post) o in
  st = Returned ∧ c_sessions (o_core o') = ∅ ∧
  ∃ msgs, c_out (o_core o') = c_out (o_core o) ++ msgs ∧
    Forall2 (λ p m, ∃ token, presence_token (x25519_priv keys) (peer_public p) (clock (w_clock w)) = Ok token ∧
      cts_payload m = CM.Unannounce token) ps msgs.
Proof.
  intros w Hok Hps. set (ts := clock (w_clock w)). cbn [select_loop]. unfold sbind at 1, on_core.
  set (c := o_core o) in *. cbn [orchestrate_step]. unfold sbind at 1, on_disk at 1, on_srv at 1. rewrite with_world_eq.
  unfold sbind at 1, on_disk at 1, on_srv at 1. rewrite with_world_eq. cbn [c_srv s_world put_world].
  change (s_world (c_srv c)) with w. rewrite Hps. cbn [fst]. set (c1 := mkCore _ _ _ _ _ _ _ _ _ _).
  set (tok := λ p, unwrap_or (pad_array 32 []) (presence_token (x25519_priv keys) (peer_public p) ts)).
  assert (Htok : ∀ p, presence_token (x25519_priv keys) (peer_public p) ts = Ok (tok p)).
  { intros p. unfold tok. destruct (presence_token_total (x25519_priv keys) (peer_public p) ts) as [t Ht]. by rewrite Ht. }
  destruct (tell_peers_all ps (λ p, generate_unannounce_message (x25519_priv keys) (peer_public p) ts)
    (λ p, CM.Unannounce (tok p)) c1 Hok) as (c2 & msgs & Htell & Hout & Hm & _).
  { intros p. unfold generate_unannounce_message. by rewrite Htok. }
  unfold sbind at 1. change (utc_now w).1 with ts. rewrite Htell.
  unfold set_sessions, smodify, sbind, sret. split_and!; [done..|]. exists msgs. split; [done|].
  clear -Hm Htok. revert msgs Hm. induction ps as [|p ps IH]; intros [|m msgs] [=]; constructor; [by exists (tok p)|by apply IH].
Qed.
End OrchestrateTheorems.

Module OrchestrateWitness.
#[local] Existing Instances toy_prims toy_env list_sled.
#[local] Existing Instances ChatDbWitness.toy_rmp_message ServerWitness.toy_rmp_blob ServerWitness.toy_server
  ServerWitness.toy_rmp_stc ServerWitness.toy_rmp_cts ClientFilesWitness.toy_client CoreWitness.toy_core.

Definition stun_ping_to (p : StunPing) : KeyType * KeyType * Z * bytes :=
  (stun_pub_key p, stun_verif p, stun_timestamp p, stun_signature p).
Definition stun_ping_of (x : KeyType * KeyType * Z * bytes) : option StunPing :=
  let '(k, v, t, g) := x in Some (mkStunPing k v t g).
Lemma stun_ping_of_to p : stun_ping_of (stun_ping_to p) = Some p.
Proof. by destruct p. Qed.
Definition toy_rmp_stun : Rmp StunPing := codec_rmp (retract_codec stun_ping_to stun_ping_of stun_ping_of_to).
Definition reply_codec : Codec StunReply := retract_codec observed (λ a, Some (mkStunReply a)) (λ '(mkStunReply _), eq_refl).
Definition toy_rmp_reply : Rmp StunReply := codec_rmp reply_codec.
#[local] Existing Instances toy_rmp_stun toy_rmp_reply.

Definition stun (i : nat) : stun_attempt :=
  (true, if (i =? 1)%nat then Some (enc (Codec := reply_codec) (mkStunReply (str "9.9.9.9:1")), HandshakeWitness.there)
         else None).
Definition home : rstring := str "relay.home:3000".
Definition start0 : Orch := orchestrate_start (ServerWitness.srv ChatDbWitness.w1 []) home.
Definition refused : round := mkRound stun (λ _ _, Err (str "refused")) [CmdEv (Some (Cmd.SetServer (str "other")))].
Definition accepted (evs : list select_event) : round :=
  mkRound stun (λ _ _, Ok
    (map (λ p, WsBinary (enc (Codec := ServerWitness.stc_codec) (mkServerToClient p 3)))
       [SM.AuthOk (str "1.2.3.4:5"); SM.PendingBlobsEnd])) evs.

(** The outage begins with a session up and a connect intent armed. *)
Definition busy : Orch :=
  mkOrch (CoreWitness.core {[ ChatDbWitness.id := mkEntry 1 None ]} {[ ChatDbWitness.id := armed true 0 ]})
    home 1 [] [] [].
Lemma outage_ladder_witness :
  ∃ o, orchestrate ChatDbWitness.me 4000 (replicate 7 refused) busy = (Running, o) ∧
    o_dialed o = replicate 7 home ∧ o_sleeps o = [1; 2; 4; 8; 16; 30; 30] ∧
    c_sessions (o_core o) !! ChatDbWitness.id = Some (mkEntry 1 None) ∧
    c_intents (o_core o) !! ChatDbWitness.id = Some (armed true 0).
Proof.
  destruct (outage_ladder ChatDbWitness.me 4000 (replicate 7 refused) busy)
    as (o & new & Hrun & Hd & Hs & _ & _ & _ & Hse & Hi & _).
  - apply Forall_replicate. intros url config. by eexists.
  - vm_compute. split; discriminate.
  - exists o. split; [exact Hrun|split; [exact Hd|split; [rewrite Hs; reflexivity|]]].
    rewrite Hse, Hi. split; apply lookup_singleton_eq.
Defined.

Definition switching : round := accepted [RetryTick; CmdEv (Some (Cmd.SetServer (str "new:1")))].

Lemma server_change_takes_effect_witness :
  ∃ o' o'', orchestrate_round ChatDbWitness.me 4000 switching start0 = (Again, o') ∧
    (connect_phase ChatDbWitness.me 4000 refused o').2 = o'' ∧
    o_dialed o'' = [home; str "new:1"] ∧ o_sleeps o' = [1].
Proof.
  destruct (@server_change_takes_effect toy_prims toy_env list_sled _ _ _ _ _ _ _ _ _ KeyFileWitness.toy_quiet
    ChatDbWitness.me 4000 switching refused [RetryTick] [] (str "new:1") start0) as [H _].
  - assert (Hb : match (connect_phase ChatDbWitness.me 4000 switching start0).1 with Ok (Ready _) => true | _ => false end = true)
      by (vm_compute; reflexivity).
    destruct (connect_phase ChatDbWitness.me 4000 switching start0).1 as [[[]| | |]|]; [reflexivity|discriminate..].
  - reflexivity.
  - reflexivity.
  - exact H.
Defined.

Lemma shutdown_unannounces_witness :
  ∃ ps msgs o', length ps = 1%nat ∧
    select_loop ChatDbWitness.me [CmdEv (Some Cmd.Shutdown)] start0 = (Returned, o') ∧
    c_out (o_core o') = msgs ∧
    Forall2 (λ p m, ∃ token, presence_token (x25519_priv ChatDbWitness.me) (peer_public p) 1000000 = Ok token ∧
      cts_payload m = CM.Unannounce token) ps msgs.
Proof.
  set (w := s_world (c_srv (o_core start0))).
  assert (Hb : match (load_peers (utc_now w).2).1 with Ok ps => length ps | Err _ => 0%nat end = 1%nat)
    by (vm_compute; reflexivity).
  destruct (load_peers _).1 as [ps|e] eqn:Hps; [|discriminate].
  pose proof (@shutdown_unannounces toy_prims toy_env list_sled _ _ _ _ toy_kdf_laws ChatDbWitness.me ps [] start0
    (λ _, eq_refl) Hps) as H.
  destruct (select_loop ChatDbWitness.me [CmdEv (Some Cmd.Shutdown)] start0) as [st o'] eqn:Hstep.
  destruct H as (-> & _ & msgs & Hout & Hall).
  exists ps, msgs, o'. split; [exact Hb|split; [reflexivity|split; [exact Hout|exact Hall]]].
Defined.
End OrchestrateWitness.
