(* ===== verification/System.v ===== *)
(** * The whole client: one machine over one shared state

    [orchestrate] of src/crates/client/src/lib.rs and everything it spawns, as
    one transition system: the reconnect loop ([Orchestrate.v], with the
    branches of [ClientCore.v]), the [connect_session] tasks ([Connect.v]) and
    the pumps of the sessions that came up ([Conversation.v]), interleaved in
    any order over the session map, the set of reservations, the disk and the
    events for the front-end.  A step is what a task does between two points
    where it waits for another task or the outside.

    [system_refines_connect] relates the machine to the one of [Connect.v],
    so that what holds there holds in the whole client. *)

From Stdlib Require Import Strings.Byte.
From S2P Require Import Prelude Bytes Text Primitives Instances World Crypto KeyFile PeerStore ChatDb Wire Handshake Session.
From S2P Require Import ServerProto ServerClient ClientFiles ClientCore Connect Conversation Orchestrate.

Local Open Scope Z_scope.

(** Where the loop is: before a connection, in the inner [select!], waiting
    for room in the event channel, or returned. *)
Inductive mode := Dialing | Selecting | Stuck | Stopped.

Create HintDb moves.

Section System.
Context `{Prim : Primitives} `{EnvI : !Env} `{SledI : Sled} `{SrvEnv : ServerEnv} `{CliEnv : ClientEnv}.
Context `{CorEnv : CoreEnv} `{MsgRmp : !Rmp Message} `{BlobRmp : !Rmp BlobPayload}.
Context `{StcRmp : !Rmp ServerToClient} `{CtsRmp : !Rmp ClientToServer}.
Context `{StunRmp : !Rmp StunPing} `{ReplyRmp : !Rmp StunReply}.
Context `{PmRmp : !Rmp PeerMessage} `{PingRmp : !Rmp Ping}.
Context (keys : Keys) (udp_port : Z) (eph_priv : nat → StaticSecret) (net : nat → Net).

(** The state of the loop, the tasks, the pumps with the peer each serves, the
    relay inboxes, and the next unused number. *)
Record Sys := mkSys {
  y_mode : mode;
  y_orch : Orch;
  y_tasks : gmap nat ctask;
  y_pumps : gmap nat target;
  y_inbox : gmap nat (list bytes);
  y_fresh : nat
}.

Definition core_of (y : Sys) : Core := o_core (y_orch y).
Definition put_orch (m : mode) (o : Orch) (y : Sys) : Sys :=
  mkSys m o (y_tasks y) (y_pumps y) (y_inbox y) (y_fresh y).
Definition put_core (c : Core) (y : Sys) : Sys :=
  let o := y_orch y in
  put_orch (y_mode y) (mkOrch c (o_server o) (o_backoff o) (o_sleeps o) (o_dialed o) (o_stun o)) y.

(** The part of the state the connect tasks share. *)
Definition conn_of (y : Sys) : Conn :=
  mkConn (c_sessions (core_of y)) (c_connecting (core_of y)) (y_tasks y) (target_id <$> y_pumps y) (y_inbox y) (y_fresh y).
Definition with_maps (k : Conn) (c : Core) : Core :=
  mkCore (c_srv c) (c_intents c) (k_sessions k) (k_connecting k) (c_app c) (c_out c) (c_texts c) (c_relayed c)
    (c_spawned c) (c_uses c).
Definition put_conn (k : Conn) (y : Sys) : Sys :=
  let y := put_core (with_maps k (core_of y)) y in
  mkSys (y_mode y) (y_orch y) (k_tasks k) (y_pumps y) (k_inbox k) (k_fresh k).

(** What the loop handed to other tasks: [tokio::spawn(connect_session(..))],
    and a payload for a relay inbox. *)
Definition spawn_task (y : Sys) (x : PeerPublic * rstring * Z) : Sys :=
  let '(peer, ip_port, punchtimestamp) := x in
  mkSys (y_mode y) (y_orch y) (<[y_fresh y := mkTask (mkTarget peer ip_port punchtimestamp) Entered]> (y_tasks y))
    (y_pumps y) (y_inbox y) (S (y_fresh y)).
Definition deliver (y : Sys) (x : nat * bytes) : Sys :=
  mkSys (y_mode y) (y_orch y) (y_tasks y) (y_pumps y) (alter (λ l, l ++ [x.2]) x.1 (y_inbox y)) (y_fresh y).
Definition hand_over (old : Core) (y : Sys) : Sys :=
  let c := core_of y in
  foldl spawn_task (foldl deliver y (drop (length (c_relayed old)) (c_relayed c)))
    (drop (length (c_spawned old)) (c_spawned c)).

Inductive slabel :=
| Dial (rd : round)                               (* STUN and [run_client] *)
| Branch (ev : select_event)                      (* a branch of the inner [select!] *)
| TaskStep (l : clabel)                           (* a [connect_session] task *)
| BringUp (t : nat)                               (* its session goes into the map *)
| PumpEvent (j : nat) (ev : option SessionEvent). (* [events.recv()] of a pump *)

(** The labels of [Connect.v] that are steps of a task. *)
Definition task_label (l : clabel) : bool :=
  match l with
  | ReadLive _ | Reserve _ | RunPunch _ _ | RunDirect _ _ _ | RelayStep _ _ | DropGuard _ => true
  | Spawn _ | InsertSession _ | PumpEnds _ | RelayDataIn _ _ | RemoveSession _ => false
  end.
Definition is_direct (tr : Transport) : bool := match tr with Direct _ => true | Relay => false end.

Definition sys_step (l : slabel) (y : Sys) : option Sys :=
  match l with
  | Dial rd =>
      match y_mode y with
      | Dialing =>
          let '(r, o) := connect_phase keys udp_port rd (y_orch y) in
          Some match r with
               | Err e => put_orch Dialing
                   ((let! _ := on_core (notify (AE.Error (str "connect failed: " ++ display_client e))) in back_off) o).2 y
               | Ok (Ready _) => put_orch Selecting (set_backoff 1 o).2 y
               | Ok Silent | Ok Blocked | Ok NoFuel => put_orch Stuck o y
               end
      | _ => None
      end
  | Branch ev =>
      match y_mode y with
      | Selecting =>
          let '(st, o) := select_loop keys [ev] (y_orch y) in
          Some (hand_over (core_of y)
            (put_orch match st with Running => Selecting | Again => Dialing | Returned => Stopped end o y))
      | _ => None
      end
  | TaskStep l =>
      if task_label l then k ← cstep keys eph_priv net l (conn_of y); Some (put_conn k y) else None
  | BringUp t =>
      match y_tasks y !! t with
      | Some (mkTask a (Established tr _ _)) =>
          k ← cstep keys eph_priv net (InsertSession t) (conn_of y);
          let y' := put_conn k y in
          let y' := put_core (notify (AE.SessionUp (target_id a) (is_direct tr)) (core_of y')).2 y' in
          Some (mkSys (y_mode y') (y_orch y') (y_tasks y') (<[y_fresh y := a]> (y_pumps y)) (y_inbox y') (y_fresh y'))
      | _ => None
      end
  | PumpEvent j ev =>
      match y_pumps y !! j with
      | Some a =>
          let '(ended, c) := pump keys (tg_peer a) (target_id a) [ev] (core_of y) in
          let y' := put_core c y in
          Some (mkSys (y_mode y') (y_orch y') (y_tasks y') (if ended : bool then delete j (y_pumps y) else y_pumps y)
                  (y_inbox y') (y_fresh y'))
      | None => None
      end
  end.

Fixpoint srun (ls : list slabel) (y : Sys) : option Sys :=
  match ls with [] => Some y | l :: ls' => y' ← sys_step l y; srun ls' y' end.

(** The client as it starts. *)
Definition sys_start (s : Srv) (server_address : rstring) : Sys :=
  mkSys Dialing (orchestrate_start s server_address) ∅ ∅ ∅ 0.

(** ** What the loop can do to the shared state *)

Definition session_event (e : AppEvent) : bool :=
  match e with AE.SessionUp _ _ | AE.SessionDown _ => true | _ => false end.

(** It gives up session entries, hands out tasks and relayed payloads, the
    latter only to the inbox of a session, and reports no session. *)
Definition loop_move (c c' : Core) : Prop :=
  c_connecting c' = c_connecting c ∧ c_sessions c' ⊆ c_sessions c ∧
  (∃ sp, c_spawned c' = c_spawned c ++ sp) ∧
  (∃ rl, c_relayed c' = c_relayed c ++ rl ∧
     Forall (λ x, ∃ p e, c_sessions c !! p = Some e ∧ se_relay_in e = Some x.1) rl) ∧
  (∃ new, c_app c' = c_app c ++ new ∧ Forall (λ e, session_event e = false) new).

#[local] Instance loop_move_preorder : PreOrder loop_move.
Proof.
  split.
  - intros c. split_and!; [done|done|exists []|exists []|exists []]; by rewrite app_nil_r.
  - intros c1 c2 c3 (C1 & S1 & [sp1 P1] & (rl1 & R1 & F1) & (n1 & A1 & N1))
      (C2 & S2 & [sp2 P2] & (rl2 & R2 & F2) & (n2 & A2 & N2)).
    split_and!; [congruence|by etrans|exists (sp1 ++ sp2)|exists (rl1 ++ rl2)|exists (n1 ++ n2)].
    + by rewrite P2, P1, app_assoc.
    + split; [by rewrite R2, R1, app_assoc|]. apply Forall_app. split; [done|].
      eapply Forall_impl; [exact F2|]. intros x (p & e & He & Hx). exists p, e. split; [|done].
      by eapply lookup_weaken.
    + split; [by rewrite A2, A1, app_assoc|by apply Forall_app].
Qed.

(** Operations that touch none of it. *)
Lemma still_moves {A} (m : St Core A) :
  (∀ c, c_sessions (m c).2 = c_sessions c ∧ c_connecting (m c).2 = c_connecting c ∧
        c_spawned (m c).2 = c_spawned c ∧ c_relayed (m c).2 = c_relayed c ∧ c_app (m c).2 = c_app c) →
  respects loop_move m.
Proof.
  intros Hm c. destruct (Hm c) as (Hs & Hc & Hp & Hr & Ha). unfold loop_move. rewrite Hs, Hc, Hp, Hr, Ha.
  change (loop_move c c). reflexivity.
Qed.

Lemma on_srv_moves {A} (m : St Srv A) : respects loop_move (on_srv m).
Proof. apply still_moves. intros c. unfold on_srv. by destruct (m (c_srv c)). Qed.
Lemma on_disk_moves {A} (m : St World A) : respects loop_move (on_disk m).
Proof. apply on_srv_moves. Qed.
Lemma set_intents_moves f : respects loop_move (set_intents f).
Proof. by apply still_moves. Qed.
Lemma instant_moves : respects loop_move instant_now.
Proof. by apply still_moves. Qed.
Lemma server_send_moves m : respects loop_move (server_send m).
Proof. apply still_moves. intros c. unfold server_send, use. run. by destruct (server_ok (c_uses c)). Qed.
Lemma outbound_send_moves ch t : respects loop_move (outbound_send ch t).
Proof. apply still_moves. intros c. unfold outbound_send, use. run. by destruct (outbound_ok ch (c_uses c)). Qed.

Lemma notify_moves e : session_event e = false → respects loop_move (notify e).
Proof.
  intros He c. split_and!; [done|done|exists []; by rewrite app_nil_r|exists []; by rewrite app_nil_r|].
  exists [e]. split; [done|by constructor].
Qed.

Lemma set_sessions_moves f : (∀ m, f m ⊆ m) → respects loop_move (set_sessions f).
Proof.
  intros Hf c. split_and!; [done|apply Hf|exists []|exists []|exists []]; by rewrite app_nil_r.
Qed.

Lemma spawn_moves P ip ts : respects loop_move (spawn_connect P ip ts).
Proof.
  intros c. split_and!; [done|done|by eexists|exists []|exists []]; by rewrite app_nil_r.
Qed.

(** A relayed payload goes to the inbox of the sender's session. *)
Lemma relay_data_moves h b : respects loop_move (handle_server_event (SE.RelayData h b)).
Proof.
  intros c. cbn [handle_server_event]. unfold sbind, sget.
  destruct (c_sessions c !! h) as [e|] eqn:He; cbn; [|change (loop_move c c); reflexivity].
  destruct (se_relay_in e) as [ch|] eqn:Hr; [|change (loop_move c c); reflexivity].
  split_and!; [done|done|exists []; by rewrite app_nil_r| |exists []; by rewrite app_nil_r].
  exists [(ch, b)]. split; [done|]. constructor; [by exists h, e|done].
Qed.

#[local] Hint Resolve on_srv_moves on_disk_moves set_intents_moves instant_moves server_send_moves outbound_send_moves
  spawn_moves : moves.
#[local] Hint Extern 1 (respects loop_move (notify _)) => apply notify_moves; reflexivity : moves.
#[local] Hint Extern 1 (respects loop_move (set_sessions (delete _))) =>
  apply set_sessions_moves; intros; apply delete_subseteq : moves.
Ltac moves := repeat respects_step; eauto with moves.

Lemma peer_is_online_moves p : respects loop_move (peer_is_online p).
Proof. unfold peer_is_online. moves. Qed.
Lemma send_punch_moves p : respects loop_move (send_punch_request p keys).
Proof. unfold send_punch_request. moves. Qed.
#[local] Hint Resolve peer_is_online_moves send_punch_moves : moves.

Lemma drive_one_moves now live fl p i : respects loop_move (drive_one now live fl keys p i).
Proof. unfold drive_one. moves. Qed.
#[local] Hint Resolve drive_one_moves : moves.

Lemma drive_retries_moves : respects loop_move (drive_retries keys).
Proof. unfold drive_retries. moves. Qed.

Lemma tell_peers_moves ps gen : respects loop_move (tell_peers ps gen).
Proof. unfold tell_peers. moves. Qed.
#[local] Hint Resolve drive_retries_moves tell_peers_moves : moves.

Lemma handle_command_moves cmd : respects loop_move (handle_command cmd keys).
Proof. unfold handle_command. moves. Qed.
Lemma handle_server_event_moves ev : respects loop_move (handle_server_event ev).
Proof. destruct ev; try apply relay_data_moves; unfold handle_server_event; moves. Qed.
#[local] Hint Resolve handle_command_moves handle_server_event_moves : moves.

Lemma orchestrate_step_moves ev : respects loop_move (orchestrate_step keys ev).
Proof.
  unfold orchestrate_step. moves. apply set_sessions_moves. intros m. apply map_empty_subseteq.
Qed.

(** Dialing touches the connection and the disk only. *)
Lemma on_socket_moves {A} (m : St Net A) o : loop_move (o_core o) (o_core (on_socket m o).2).
Proof.
  unfold on_socket. destruct (m _) as [a n]. cbn.
  split_and!; [done|done|exists []|exists []|exists []]; by rewrite app_nil_r.
Qed.
Lemma connect_phase_moves rd o : loop_move (o_core o) (o_core (connect_phase keys udp_port rd o).2).
Proof.
  unfold connect_phase. unfold sbind at 1, sget. unfold sbind at 1. rewrite on_core_eq. cbn [snd fst].
  set (o1 := mkOrch _ _ _ _ _ _). unfold sbind at 1.
  match goal with |- context [on_socket ?m o1] => pose proof (on_socket_moves m o1) as Hs; destruct (on_socket m o1) as [a o2] end.
  cbn [snd] in Hs. unfold sbind, dial, smodify. rewrite on_core_eq. cbn [snd o_core].
  etrans; [|etrans; [exact Hs|apply on_srv_moves]]. apply (on_srv_moves new_event_channel).
Qed.

Lemma select_one_moves ev o : loop_move (o_core o) (o_core (select_loop keys [ev] o).2).
Proof.
  cbn [select_loop]. unfold sbind. rewrite on_core_eq. pose proof (orchestrate_step_moves ev (o_core o)) as Hm.
  destruct (orchestrate_step keys ev (o_core o)) as [[|srv|] c]; cbn in *; [done| |done].
  by destruct srv.
Qed.

(** ** The connect machine follows *)

Let cruns := crun keys eph_priv net.

Lemma spawn_follows y x :
  cstep keys eph_priv net (Spawn (mkTarget x.1.1 x.1.2 x.2)) (conn_of y) = Some (conn_of (spawn_task y x)).
Proof. by destruct x as [[P ip] ts]. Qed.

Lemma spawns_follow xs y : ∃ ls, cruns ls (conn_of y) = Some (conn_of (foldl spawn_task y xs)).
Proof.
  revert y. induction xs as [|x xs IH]; intros y; [by exists []|]. destruct (IH (spawn_task y x)) as [ls Hls].
  exists (Spawn (mkTarget x.1.1 x.1.2 x.2) :: ls). unfold cruns. cbn [crun foldl]. by rewrite spawn_follows.
Qed.

Lemma delivers_follow xs y :
  Forall (λ x, ∃ p e, c_sessions (core_of y) !! p = Some e ∧ se_relay_in e = Some x.1) xs →
  ∃ ls, cruns ls (conn_of y) = Some (conn_of (foldl deliver y xs)).
Proof.
  intros Hx. revert y Hx. induction xs as [|x xs IH]; intros y Hx; [by exists []|].
  inv Hx as [|?? (p & e & He & Hr) Hxs]. destruct (IH (deliver y x) Hxs) as [ls Hls].
  exists (RelayDataIn p x.2 :: ls). unfold cruns in *. cbn [crun cstep foldl]. unfold relay_route.
  change (k_sessions (conn_of y)) with (c_sessions (core_of y)). rewrite He. cbn [mbind option_bind]. rewrite Hr. exact Hls.
Qed.

Lemma lookup_foldl_delete (ps : list hash) (m : gmap hash SessionEntry) q :
  foldl (λ m p, delete p m) m ps !! q = if decide (q ∈ ps) then None else m !! q.
Proof.
  revert m. induction ps as [|p ps IH]; intros m; cbn; [done|]. rewrite IH, lookup_delete.
  repeat case_decide; set_solver.
Qed.

Lemma removes_follow m' k :
  m' ⊆ k_sessions k →
  ∃ ls, cruns ls k = Some (mkConn m' (k_connecting k) (k_tasks k) (k_pumps k) (k_inbox k) (k_fresh k)).
Proof.
  intros Hsub. set (ps := elements (dom (k_sessions k) ∖ dom m')).
  assert (Hrun : ∀ qs k, cruns (map RemoveSession qs) k =
    Some (mkConn (foldl (λ m p, delete p m) (k_sessions k) qs) (k_connecting k) (k_tasks k) (k_pumps k) (k_inbox k) (k_fresh k))).
  { intros qs. unfold cruns. induction qs as [|q qs IH]; intros k0; [by destruct k0|]. cbn [map crun cstep mbind option_bind].
    by rewrite IH. }
  exists (map RemoveSession ps). rewrite Hrun. do 2 f_equal. apply map_eq. intros q. rewrite lookup_foldl_delete.
  case_decide as Hq; unfold ps in Hq; rewrite elem_of_elements, elem_of_difference, !elem_of_dom in Hq.
  - destruct Hq as [_ Hn]. by apply eq_None_not_Some in Hn.
  - destruct (m' !! q) as [e|] eqn:E; [by eapply lookup_weaken|]. destruct (k_sessions k !! q) eqn:E'; [|done].
    destruct Hq. split; [done|]. by intros [? ?].
Qed.

(** Handing over depends on the tasks only. *)
Lemma spawns_orch m o xs y : foldl spawn_task (put_orch m o y) xs = put_orch m o (foldl spawn_task y xs).
Proof. revert y. induction xs as [|[[P ip] ts] xs IH]; intros y; [done|]. cbn [foldl]. by rewrite <- IH. Qed.
Lemma delivers_orch m o xs y : foldl deliver (put_orch m o y) xs = put_orch m o (foldl deliver y xs).
Proof. revert y. induction xs as [|x xs IH]; intros y; [done|]. cbn [foldl]. by rewrite <- IH. Qed.
Lemma spawns_core xs y : y_orch (foldl spawn_task y xs) = y_orch y ∧ y_pumps (foldl spawn_task y xs) = y_pumps y.
Proof. revert y. induction xs as [|[[P ip] ts] xs IH]; intros y; [done|]. cbn [foldl]. by destruct (IH (spawn_task y (P, ip, ts))) as [-> ->]. Qed.
Lemma delivers_core xs y : y_orch (foldl deliver y xs) = y_orch y ∧ y_pumps (foldl deliver y xs) = y_pumps y.
Proof. revert y. induction xs as [|x xs IH]; intros y; [done|]. cbn [foldl]. by destruct (IH (deliver y x)) as [-> ->]. Qed.

Lemma hand_over_follows m o y :
  loop_move (core_of y) (o_core o) →
  ∃ ls, cruns ls (conn_of y) = Some (conn_of (hand_over (core_of y) (put_orch m o y))).
Proof.
  intros (Hc & Hs & [sp Hsp] & (rl & Hrl & Hroute) & _). unfold hand_over.
  change (core_of (put_orch m o y)) with (o_core o). rewrite Hsp, Hrl, !drop_app_length.
  rewrite delivers_orch, spawns_orch. set (y1 := foldl deliver y rl). set (y2 := foldl spawn_task y1 sp).
  destruct (delivers_follow rl y Hroute) as [l1 H1]. destruct (spawns_follow sp y1) as [l2 H2].
  assert (Hy : core_of y2 = core_of y).
  { unfold core_of, y2, y1. destruct (spawns_core sp (foldl deliver y rl)) as [-> _].
    by destruct (delivers_core rl y) as [-> _]. }
  destruct (removes_follow (c_sessions (o_core o)) (conn_of y2)) as [l3 H3]; [cbn; by rewrite Hy|].
  fold y1 in H1. fold y2 in H2. exists (l1 ++ l2 ++ l3). unfold cruns in *. rewrite crun_app, H1. cbn [mbind option_bind]. rewrite crun_app, H2.
  cbn [mbind option_bind]. rewrite H3. f_equal. unfold conn_of. cbn [k_connecting k_tasks k_pumps k_inbox k_fresh].
  change (core_of (put_orch m o y2)) with (o_core o). by rewrite Hc, <- Hy.
Qed.

Lemma task_pumps l k k' : task_label l = true → cstep keys eph_priv net l k = Some k' → k_pumps k' = k_pumps k.
Proof.
  destruct l; try done; intros _; cbn [cstep]; (destruct (k_tasks k !! t) as [[a ph]|]; [destruct ph; try done|done]);
    repeat case_match; try done; try (intros [= <-]; done).
  all: destruct ev as [|[b|]|]; cbn; repeat case_match; try done; cbn; intros [= <-]; repeat case_match; done.
Qed.

(** One event of a pump: a message changes the disk and the reports only; the
    end removes the entry of the peer. *)
Lemma pump_message a text ts c :
  ∃ c', pump keys (tg_peer a) (target_id a) [Some (SessionMessage text ts)] c = (false, c') ∧
    c_sessions c' = c_sessions c ∧ c_connecting c' = c_connecting c ∧
    c_app c' = c_app c ++ [AE.MessageArrived (target_id a) false].
Proof.
  cbn [pump]. unfold sbind, on_disk, on_srv. rewrite with_world_eq. eexists. split; [reflexivity|]. by split_and!.
Qed.
Lemma pump_end a c ev :
  ev = None ∨ ev = Some Closed →
  ∃ c', pump keys (tg_peer a) (target_id a) [ev] c = (true, c') ∧
    c_sessions c' = delete (target_id a) (c_sessions c) ∧ c_connecting c' = c_connecting c ∧
    c_app c' = c_app c ++ [AE.SessionDown (target_id a)].
Proof. intros [-> | ->]; eexists; (split; [reflexivity|]); by split_and!. Qed.

(** Every step of the client is a few steps of the connect machine. *)
Lemma sys_step_follows l y y' :
  sys_step l y = Some y' → ∃ ls, cruns ls (conn_of y) = Some (conn_of y').
Proof.
  unfold cruns. destruct l as [rd|ev|l|t|j ev]; cbn [sys_step].
  - destruct (y_mode y); try done. pose proof (connect_phase_moves rd (y_orch y)) as Hm.
    destruct (connect_phase keys udp_port rd (y_orch y)) as [r o]. cbn [snd] in Hm.
    assert (Hsub : ∀ m o', c_sessions (o_core o') = c_sessions (o_core o) → c_connecting (o_core o') = c_connecting (o_core o) →
      ∃ ls, crun keys eph_priv net ls (conn_of y) = Some (conn_of (put_orch m o' y))).
    { intros m o' E1 E2. destruct Hm as (Hc & Hs & _).
      destruct (removes_follow (c_sessions (o_core o)) (conn_of y) Hs) as [ls Hls]. exists ls. unfold cruns in Hls. rewrite Hls. f_equal.
      unfold conn_of. cbn [k_connecting k_tasks k_pumps k_inbox k_fresh]. change (core_of (put_orch m o' y)) with (o_core o').
      by rewrite E1, E2, Hc. }
    destruct r as [[u| | |]|e]; intros [= <-]; by apply Hsub.
  - destruct (y_mode y); try done. pose proof (select_one_moves ev (y_orch y)) as Hm.
    destruct (select_loop keys [ev] (y_orch y)) as [st o]. intros [= <-]. by apply hand_over_follows.
  - destruct (task_label l) eqn:Hl; [|done]. destruct (cstep _ _ _ l (conn_of y)) as [k|] eqn:Hk; [|done]. intros [= <-].
    exists [l]. cbn [crun]. rewrite Hk. cbn [mbind option_bind]. f_equal. pose proof (task_pumps _ _ _ Hl Hk) as Hp.
    destruct k. cbn in Hp. by subst.
  - destruct (y_tasks y !! t) as [[a [| | | | |tr key rin| |]]|] eqn:Ht; try done.
    intros Hy. exists [InsertSession t]. cbn [crun cstep] in *. cbn [conn_of k_tasks] in *. rewrite Ht in *.
    injection Hy as <-. cbn [mbind option_bind]. f_equal. unfold conn_of. cbn. by rewrite fmap_insert.
  - destruct (y_pumps y !! j) as [a|] eqn:Hj; [|done]. destruct ev as [[text ts|]|].
    + destruct (pump_message a text ts (core_of y)) as (c' & -> & Hs & Hc & _). intros [= <-]. exists []. cbn [crun].
      f_equal. unfold conn_of. cbn. by rewrite Hs, Hc.
    + destruct (pump_end a (core_of y) (Some Closed)) as (c' & -> & Hs & Hc & _); [by right|]. intros [= <-].
      exists [PumpEnds j]. cbn [crun cstep]. cbn [conn_of k_pumps]. rewrite lookup_fmap, Hj. cbn. f_equal. unfold conn_of.
      cbn. by rewrite fmap_delete, Hs, Hc.
    + destruct (pump_end a (core_of y) None) as (c' & -> & Hs & Hc & _); [by left|]. intros [= <-].
      exists [PumpEnds j]. cbn [crun cstep]. cbn [conn_of k_pumps]. rewrite lookup_fmap, Hj. cbn. f_equal. unfold conn_of.
      cbn. by rewrite fmap_delete, Hs, Hc.
Qed.

Lemma srun_follows ls y y' : srun ls y = Some y' → ∃ ls', cruns ls' (conn_of y) = Some (conn_of y').
Proof.
  revert y. induction ls as [|l ls IH]; intros y; cbn [srun]; [intros [= <-]; by exists []|].
  destruct (sys_step l y) as [y1|] eqn:E; [|done]. cbn. intros H. destruct (sys_step_follows l y y1 E) as [l1 H1].
  destruct (IH y1 H) as [l2 H2]. exists (l1 ++ l2). unfold cruns in *. rewrite crun_app, H1. exact H2.
Qed.

Lemma srun_inv ls s addr y : srun ls (sys_start s addr) = Some y → conn_inv (conn_of y).
Proof.
  intros H. destruct (srun_follows _ _ _ H) as [ls' H']. unfold cruns in *.
  apply (reachable_inv keys eph_priv net), (crun_reachable keys eph_priv net ls' conn0); [constructor|].
  by rewrite <- H'.
Qed.

(** ** Reports and pumps *)

Definition up_event (p : hash) (e : AppEvent) : bool :=
  match e with AE.SessionUp q _ => bool_decide (q = p) | _ => false end.
Definition down_event (p : hash) (e : AppEvent) : bool :=
  match e with AE.SessionDown q => bool_decide (q = p) | _ => false end.
(** The sessions with [p] whose pump runs. *)
Definition running (p : hash) (pumps : gmap nat target) : Z :=
  Z.of_nat (size (filter (λ x, target_id x.2 = p) pumps)).

Lemma running_insert p (m : gmap nat target) j a :
  m !! j = None → running p (<[j := a]> m) = running p m + (if bool_decide (target_id a = p) then 1 else 0).
Proof.
  intros Hj. unfold running. rewrite map_filter_insert. cbn. case_decide as E.
  - rewrite bool_decide_eq_true_2 by done. rewrite map_size_insert_None; [lia|]. apply map_lookup_filter_None. by left.
  - rewrite bool_decide_eq_false_2 by done. rewrite delete_id by done. lia.
Qed.
Lemma running_delete p (m : gmap nat target) j a :
  m !! j = Some a → running p m = running p (delete j m) + (if bool_decide (target_id a = p) then 1 else 0).
Proof.
  intros Hj. rewrite <- (insert_delete_id m j a) at 1 by done. apply running_insert, lookup_delete_eq.
Qed.

Definition balanced (p : hash) (y : Sys) : Prop :=
  count (up_event p) (c_app (core_of y)) = count (down_event p) (c_app (core_of y)) + running p (y_pumps y).

Lemma silent_counts p new :
  Forall (λ e, session_event e = false) new → count (up_event p) new = 0 ∧ count (down_event p) new = 0.
Proof.
  unfold count. induction 1 as [|e new He Hn [IH1 IH2]]; [done|].
  rewrite !filter_cons. destruct e; try done; cbn; repeat case_decide; try done; lia.
Qed.

Lemma balanced_moves p y y' :
  loop_move (core_of y) (core_of y') → y_pumps y' = y_pumps y → balanced p y → balanced p y'.
Proof.
  intros (_ & _ & _ & _ & new & Ha & Hn) Hp. unfold balanced. rewrite Ha, Hp, !count_app.
  destruct (silent_counts p new Hn) as [-> ->]. lia.
Qed.

Lemma sys_step_balanced p l y y' : conn_inv (conn_of y) → sys_step l y = Some y' → balanced p y → balanced p y'.
Proof.
  intros I. destruct l as [rd|ev|l|t|j ev]; cbn [sys_step].
  - destruct (y_mode y); try done. pose proof (connect_phase_moves rd (y_orch y)) as Hm.
    destruct (connect_phase keys udp_port rd (y_orch y)) as [r o]. cbn [snd] in Hm.
    destruct r as [[u| | |]|e]; intros [= <-]; apply balanced_moves; try done.
    etrans; [exact Hm|]. exact (notify_moves (AE.Error _) eq_refl (o_core o)).
  - destruct (y_mode y); try done. pose proof (select_one_moves ev (y_orch y)) as Hm.
    destruct (select_loop keys [ev] (y_orch y)) as [st o]. intros [= <-]. unfold hand_over.
    rewrite delivers_orch, spawns_orch. apply balanced_moves; [exact Hm|]. cbn.
    destruct (spawns_core (drop (length (c_spawned (core_of y))) (c_spawned (o_core o)))
      (foldl deliver y (drop (length (c_relayed (core_of y))) (c_relayed (o_core o))))) as [_ E].
    etrans; [exact E|apply delivers_core].
  - destruct (task_label l); [|done]. destruct (cstep _ _ _ l (conn_of y)) as [k|]; [|done]. by intros [= <-].
  - destruct (y_tasks y !! t) as [[a [| | | | |tr key rin| |]]|] eqn:Ht; try done.
    destruct (cstep _ _ _ (InsertSession t) (conn_of y)) as [k|]; [|done]. intros [= <-]. unfold balanced. cbn.
    rewrite !count_app, !count_one. cbn. assert (Hno : y_pumps y !! y_fresh y = None).
    { apply eq_None_not_Some. intros [b Hb]. pose proof (inv_pumps _ I (y_fresh y)) as Hu. cbn in Hu.
      rewrite lookup_fmap, Hb in Hu. specialize (Hu ltac:(by eexists)). lia. }
    rewrite running_insert by done. unfold core_of. lia.
  - destruct (y_pumps y !! j) as [a|] eqn:Hj; [|done]. unfold balanced.
    assert (Hend : ∀ c', c_app c' = c_app (core_of y) ++ [AE.SessionDown (target_id a)] →
      count (up_event p) (c_app (core_of y)) = count (down_event p) (c_app (core_of y)) + running p (y_pumps y) →
      count (up_event p) (c_app c') = count (down_event p) (c_app c') + running p (delete j (y_pumps y))).
    { intros c' ->. rewrite !count_app, !count_one, (running_delete p _ j a Hj). cbn. lia. }
    destruct ev as [[text ts|]|].
    + destruct (pump_message a text ts (core_of y)) as (c' & -> & _ & _ & Ha). intros [= <-]. cbn [core_of put_core put_orch y_orch o_core y_pumps].
      rewrite Ha, !count_app, !count_one. cbn. unfold core_of. lia.
    + destruct (pump_end a (core_of y) (Some Closed)) as (c' & -> & _ & _ & Ha); [by right|]. intros [= <-]. by apply Hend.
    + destruct (pump_end a (core_of y) None) as (c' & -> & _ & _ & Ha); [by left|]. intros [= <-]. by apply Hend.
Qed.

(** ** A run of the loop alone is a run of the client *)

Lemma srun_app ls1 ls2 y : srun (ls1 ++ ls2) y = y1 ← srun ls1 y; srun ls2 y1.
Proof. revert y. induction ls1 as [|l ls1 IH]; intros y; cbn; [done|]. destruct (sys_step l y); cbn; [apply IH|done]. Qed.

Lemma hand_over_orch old y : y_orch (hand_over old y) = y_orch y ∧ y_mode (hand_over old y) = y_mode y.
Proof.
  unfold hand_over. generalize (drop (length (c_spawned old)) (c_spawned (core_of y))) as sp.
  generalize (drop (length (c_relayed old)) (c_relayed (core_of y))) as rl. intros rl sp. split.
  - destruct (spawns_core sp (foldl deliver y rl)) as [-> _]. apply delivers_core.
  - assert (H1 : ∀ y, y_mode (foldl deliver y rl) = y_mode y).
    { induction rl as [|x rl IH]; intros y0; [done|]. cbn [foldl]. by rewrite IH. }
    rewrite <- (H1 y). generalize (foldl deliver y rl). induction sp as [|[[P ip] ts] sp IH]; intros y0; [done|]. cbn [foldl].
    by rewrite IH.
Qed.

Definition mode_of (st : orch_status) : mode :=
  match st with Running => Selecting | Again => Dialing | Returned => Stopped end.

Lemma select_embeds evs y st o :
  y_mode y = Selecting → select_loop keys evs (y_orch y) = (st, o) →
  ∃ ls y', srun ls y = Some y' ∧ y_orch y' = o ∧ y_mode y' = mode_of st.
Proof.
  revert y. induction evs as [|ev evs IH]; intros y Hm Hrun.
  { injection Hrun as <- <-. by exists [], y. }
  assert (Hone : ∃ st1 o1, select_loop keys [ev] (y_orch y) = (st1, o1) ∧
    select_loop keys (ev :: evs) (y_orch y) = match st1 with Running => select_loop keys evs o1 | _ => (st1, o1) end).
  { cbn [select_loop]. unfold sbind. destruct (on_core _ _) as [f o1]. destruct f as [|srv|]; cbn; [eauto| |eauto].
    destruct srv; cbn; eauto. }
  destruct Hone as (st1 & o1 & H1 & H2). rewrite H2 in Hrun.
  destruct (hand_over_orch (core_of y) (put_orch (mode_of st1) o1 y)) as [Ho Hmo].
  set (y1 := hand_over (core_of y) (put_orch (mode_of st1) o1 y)) in *.
  assert (Hs : sys_step (Branch ev) y = Some y1) by (cbn [sys_step]; rewrite Hm, H1; done).
  destruct st1.
  - injection Hrun as <- <-. exists [Branch ev], y1. cbn [srun]. rewrite Hs. by split_and!.
  - destruct (IH y1) as (ls & y' & Hr & Ho' & Hm'); [done|by rewrite Ho|].
    exists (Branch ev :: ls), y'. cbn [srun]. rewrite Hs. by split_and!.
  - injection Hrun as <- <-. exists [Branch ev], y1. cbn [srun]. rewrite Hs. by split_and!.
Qed.

Lemma orchestrate_embeds rounds y st o :
  y_mode y = Dialing → orchestrate keys udp_port rounds (y_orch y) = (st, o) →
  ∃ ls y', srun ls y = Some y' ∧ y_orch y' = o.
Proof.
  revert y. induction rounds as [|rd rounds IH]; intros y Hm Hrun; cbn [orchestrate] in Hrun.
  { injection Hrun as <- <-. by exists [], y. }
  unfold sbind at 1 in Hrun. unfold orchestrate_round in Hrun. unfold sbind at 1 in Hrun.
  destruct (connect_phase keys udp_port rd (y_orch y)) as [r o1] eqn:Hc.
  assert (Hd : ∀ y1, sys_step (Dial rd) y = Some y1 → ∀ ls y', srun ls y1 = Some y' → srun (Dial rd :: ls) y = Some y').
  { intros y1 H1 ls y' H2. cbn [srun]. by rewrite H1. }
  cbn [sys_step] in Hd. rewrite Hm, Hc in Hd. destruct r as [[u| | |]|e].
  - unfold sbind at 1 in Hrun. destruct (select_loop keys (rd_events rd) (set_backoff 1 o1).2) as [st1 o2] eqn:Hsel.
    destruct (select_embeds (rd_events rd) (put_orch Selecting (set_backoff 1 o1).2 y) st1 o2 eq_refl Hsel) as (ls & y2 & Hr & Ho & Hm2).
    unfold set_backoff, smodify in Hrun, Hsel. cbn [snd] in Hsel. rewrite Hsel in Hrun. destruct st1.
    + destruct (IH y2 Hm2) as (ls' & y' & Hr' & Ho'); [by rewrite Ho|]. exists (Dial rd :: ls ++ ls'), y'. split; [|done].
      eapply Hd; [reflexivity|]. by rewrite srun_app, Hr.
    + injection Hrun as <- <-. exists (Dial rd :: ls), y2. split; [|done]. by eapply Hd.
    + injection Hrun as <- <-. exists (Dial rd :: ls), y2. split; [|done]. by eapply Hd.
  - injection Hrun as <- <-. eexists [Dial rd], _. split; [by eapply Hd|done].
  - injection Hrun as <- <-. eexists [Dial rd], _. split; [by eapply Hd|done].
  - injection Hrun as <- <-. eexists [Dial rd], _. split; [by eapply Hd|done].
  - edestruct (IH (put_orch Dialing ((let! _ := on_core (notify (AE.Error (str "connect failed: " ++ display_client e))) in
      back_off) o1).2 y)) as (ls & y' & Hr & Ho); [done| |].
    { revert Hrun. unfold sbind at 1. rewrite on_core_eq. cbn [put_orch y_orch]. unfold sbind. rewrite on_core_eq. cbn. exact id. }
    exists (Dial rd :: ls), y'. split; [|done]. by eapply Hd.
Qed.
End System.

Section SystemTheorems.
Context `{Prim : Primitives} `{EnvI : !Env} `{SledI : Sled} `{SrvEnv : ServerEnv} `{CliEnv : ClientEnv}.
Context `{CorEnv : CoreEnv} `{MsgRmp : !Rmp Message} `{BlobRmp : !Rmp BlobPayload}.
Context `{StcRmp : !Rmp ServerToClient} `{CtsRmp : !Rmp ClientToServer}.
Context `{StunRmp : !Rmp StunPing} `{ReplyRmp : !Rmp StunReply}.
Context `{PmRmp : !Rmp PeerMessage} `{PingRmp : !Rmp Ping}.
Context (keys : Keys) (udp_port : Z) (eph_priv : nat → StaticSecret) (net : nat → Net).
Let runs := srun keys udp_port eph_priv net.

(** C12: The whole client refines the connect machine: in every interleaving of
    the reconnect loop, its commands, server events and retries, the connect
    tasks and the pumps, the session map, the reservations and the tasks move
    as that machine allows; so, besides what is proved of it, every entry of
    the session map belongs to a session with that very peer whose pump still
    runs, and none of them is a relay session. *)
Theorem system_refines_connect ls s addr y :
  runs ls (sys_start s addr) = Some y →
  (∃ ls', crun keys eph_priv net ls' conn0 = Some (conn_of y)) ∧
  ∀ p e, c_sessions (core_of y) !! p = Some e →
    se_relay_in e = None ∧ ∃ a, y_pumps y !! se_outbound e = Some a ∧ target_id a = p.
Proof.
  intros H. split; [exact (srun_follows keys udp_port eph_priv net _ _ _ H)|].
  pose proof (srun_inv keys udp_port eph_priv net _ _ _ _ H) as I. intros p e He. split; [by eapply (inv_direct _ I)|].
  pose proof (inv_backed _ I p e He) as Hb. cbn in Hb. rewrite lookup_fmap in Hb.
  destruct (y_pumps y !! se_outbound e) as [a|]; [|done]. exists a. by injection Hb as <-.
Qed.

(** C13: The front-end is told the truth about sessions: in every interleaving,
    the number of [SessionUp] reports for a peer is the number of its
    [SessionDown] reports plus the number of its sessions whose pump runs. *)
Theorem session_events_balance ls s addr y p :
  runs ls (sys_start s addr) = Some y →
  count (up_event p) (c_app (core_of y)) = count (down_event p) (c_app (core_of y)) + running p (y_pumps y).
Proof.
  assert (Hgen : ∀ ls y0 y1, conn_inv (conn_of y0) → balanced p y0 → runs ls y0 = Some y1 → balanced p y1).
  { clear ls s addr y. intros ls. unfold runs. induction ls as [|l ls IH]; intros y0 y1 I B; cbn [srun]; [by intros [= <-]|].
    destruct (sys_step _ _ _ _ l y0) as [y2|] eqn:E; [|done]. cbn. intros H. eapply IH; [..|exact H].
    - destruct (sys_step_follows keys udp_port eph_priv net _ _ _ E) as [ls' Hls].
      clear -I Hls. revert Hls. generalize (conn_of y0), I. induction ls' as [|l ls' IH]; intros k Hk; cbn; [by intros [= <-]|].
      destruct (cstep _ _ _ l k) as [k1|] eqn:E; [|done]. cbn. apply IH. by eapply cstep_inv.
    - by eapply sys_step_balanced. }
  apply Hgen; [by apply (srun_inv keys udp_port eph_priv net [] s addr)|reflexivity].
Qed.

(** The loop by itself is part of the client: a run of [orchestrate] on rounds
    of events is a run of the machine in which no other task moves. *)
Theorem orchestrate_is_system rounds s addr st o :
  orchestrate keys udp_port rounds (orchestrate_start s addr) = (st, o) →
  ∃ ls y, runs ls (sys_start s addr) = Some y ∧ y_orch y = o.
Proof. by apply (orchestrate_embeds keys udp_port eph_priv net rounds (sys_start s addr)). Qed.

(** Only a live send hands a text to a session. *)
Definition keeps_texts (c c' : Core) : Prop := c_texts c' = c_texts c.
#[local] Instance keeps_texts_preorder : PreOrder keeps_texts.
Proof. split; [by intros c|]. unfold keeps_texts. intros ???. congruence. Qed.
Lemma on_disk_texts {A} (m : St World A) : respects keeps_texts (on_disk m).
Proof. intros c. unfold on_disk, on_srv. by rewrite with_world_eq. Qed.
Lemma server_send_texts m : respects keeps_texts (server_send m).
Proof. intros c. unfold server_send, use. run. by destruct (server_ok (c_uses c)). Qed.

Lemma send_live_texts (k : bool → St Core unit) tx text peer c :
  (∀ go, respects keeps_texts (k go)) →
  ∃ new, c_texts ((let! go := (let! sent := outbound_send tx text in
                      if sent : bool then sret true else let! _ := set_sessions (delete peer) in sret true) in k go) c).2 =
      c_texts c ++ new ∧ Forall (λ x, x = (tx, text)) new.
Proof.
  intros Hk. unfold sbind, outbound_send, use, set_sessions, smodify, sret. unfold sbind at 1.
  destruct (outbound_ok tx (c_uses c)).
  - exists [(tx, text)]. split; [refine (Hk true _)|by constructor].
  - exists []. split; [rewrite app_nil_r; refine (Hk true _)|constructor].
Qed.

Lemma send_texts peer text c :
  ∃ new, c_texts (handle_command (Cmd.Send peer text) keys c).2 = c_texts c ++ new ∧
    Forall (λ x, x.2 = text ∧ ∃ e, c_sessions c !! peer = Some e ∧ x.1 = se_outbound e) new.
Proof.
  cbn [handle_command]. unfold sbind at 1.
  assert (Hd : ∀ (m : St World (result PeerPublic CryptoErrors)), c_texts (on_disk m c).2 = c_texts c ∧
    c_sessions (on_disk m c).2 = c_sessions c).
  { intros m. unfold on_disk, on_srv. by rewrite with_world_eq. }
  destruct (Hd (load_peer_data peer)) as [Ht Hs]. destruct (on_disk (load_peer_data peer) c) as [r c1]. cbn [snd] in Ht, Hs.
  assert (Hnone : ∀ c', keeps_texts c1 c' → ∃ new, c_texts c' = c_texts c ++ new ∧
    Forall (λ x, x.2 = text ∧ ∃ e, c_sessions c !! peer = Some e ∧ x.1 = se_outbound e) new).
  { intros c' H. exists []. by rewrite H, Ht, app_nil_r. }
  destruct r as [P|e]; [|apply Hnone; by cbn]. unfold sbind at 1, sget. unfold sbind at 1.
  assert (Hn : c_texts (on_disk utc_now c1).2 = c_texts c1) by apply on_disk_texts.
  destruct (on_disk utc_now c1) as [now c2]. cbn [snd] in Hn. rewrite Hs.
  assert (Htail : ∀ go : bool, respects keeps_texts (if go then
      let! r := on_disk (persist_message keys P peer text You now) in
      match r with Ok _ => notify (AE.MessageArrived peer true) | Err _ => sret tt end else sret tt)).
  { intros go. repeat respects_step; try apply on_disk_texts; by intros ?. }
  destruct (c_sessions c !! peer) as [e|] eqn:He; cbn [fmap option_fmap option_map].
  - destruct (send_live_texts _ (se_outbound e) text peer c2 Htail) as (new & Hnew & Hall). exists new.
    split; [by rewrite <- Ht, <- Hn|]. eapply Forall_impl; [exact Hall|]. intros x ->. eauto.
  - apply Hnone. etrans; [exact Hn|]. revert c2 Hn.
    assert (H : respects keeps_texts (let! go := let! r := on_disk (generate_offline_message P (x25519_pub keys)
        (x25519_priv keys) text (ed25519_signing keys)) in match r with
        | Ok blob => let! _ := server_send blob in sret true
        | Err e => let! _ := notify (AE.Error (str "send failed: " ++ display_client e)) in sret false end in
      if go : bool then let! r := on_disk (persist_message keys P peer text You now) in
        match r with Ok _ => notify (AE.MessageArrived peer true) | Err _ => sret tt end else sret tt)).
    { repeat respects_step; try apply on_disk_texts; try apply server_send_texts; by intros ?. }
    intros c2 _. apply H.
Qed.

(** C14: A text only ever goes to a session with the peer it is meant for: in
    every reachable state of the client, whatever a [Send] command hands to a
    session is the text itself, and the session is one with that peer, made
    from keys that hash to the peer's identity, whose pump runs. *)
Theorem text_goes_to_peer ls s addr y y' p text :
  runs ls (sys_start s addr) = Some y →
  sys_step keys udp_port eph_priv net (Branch (CmdEv (Some (Cmd.Send p text)))) y = Some y' →
  ∃ new, c_texts (core_of y') = c_texts (core_of y) ++ new ∧
    Forall (λ x, x.2 = text ∧ ∃ a, y_pumps y !! x.1 = Some a ∧
      identity_hash (peer_public (tg_peer a)) (peer_verifying (tg_peer a)) = p) new.
Proof.
  intros Hr. pose proof (srun_inv keys udp_port eph_priv net _ _ _ _ Hr) as I.
  cbn [sys_step]. destruct (y_mode y); try done. cbn [select_loop orchestrate_step]. unfold sbind at 1. rewrite on_core_eq.
  unfold sbind. destruct (send_texts p text (core_of y)) as (new & Hn & Hall). unfold core_of in Hn, Hall.
  destruct (handle_command _ keys _) as [[] c']. cbn [snd fst sret] in *. intros [= <-].
  exists new. split.
  - unfold core_of. by destruct (hand_over_orch (o_core (y_orch y))
      (put_orch Selecting (mkOrch c' (o_server (y_orch y)) (o_backoff (y_orch y)) (o_sleeps (y_orch y)) (o_dialed (y_orch y))
        (o_stun (y_orch y))) y)) as [-> _].
  - eapply Forall_impl; [exact Hall|]. intros x (-> & e & He & ->). split; [done|].
    pose proof (inv_backed _ I p e He) as Hb. cbn in Hb. rewrite lookup_fmap in Hb.
    destruct (y_pumps y !! se_outbound e) as [a|]; [|done]. exists a. by injection Hb as <-.
Qed.
End SystemTheorems.

Module SystemWitness.
#[local] Existing Instances toy_prims toy_env list_sled.
#[local] Existing Instances ChatDbWitness.toy_rmp_message ServerWitness.toy_rmp_blob ServerWitness.toy_server
  ServerWitness.toy_rmp_stc ServerWitness.toy_rmp_cts ClientFilesWitness.toy_client CoreWitness.toy_core
  OrchestrateWitness.toy_rmp_stun OrchestrateWitness.toy_rmp_reply WireWitness.toy_rmp_pm WireWitness.toy_rmp_ping.

Definition me : Keys := ConversationWitness.keysB.
Definition alice : hash := ChatDbWitness.id.
Definition met : attempt := ConversationWitness.attempt_of ConversationWitness.keysA HandshakeWitness.here.
Definition eph (t : nat) : @StaticSecret toy_prims := rng_secret t.
Definition net (t : nat) : Net := mkNet ConversationWitness.w0 [].
Definition start : Sys := sys_start (ServerWitness.srv ChatDbWitness.w1 []) OrchestrateWitness.home.

(** The server answers, brokers a connection to Alice; her session comes up
    and delivers a text. *)
Definition schedule : list slabel :=
  [Dial (OrchestrateWitness.accepted []);
   Branch (ServerEv (Some (SE.PunchHole alice alice (str "10.0.0.1:4000") 1000000)));
   TaskStep (ReadLive 0); Branch RetryTick; TaskStep (Reserve 0); TaskStep (RunPunch 0 (at_punch met));
   TaskStep (RunDirect 0 true (at_shake met)); BringUp 0; TaskStep (DropGuard 0);
   PumpEvent 1 (Some (SessionMessage (str "hi") 1000000))].
Abbreviation run ls := (srun me 4000 eph net ls start).
Definition here : Sys := default start (run schedule).

Lemma ran {A} (o : option A) d : (if o is Some _ then true else false) = true → o = Some (default d o).
Proof. by destruct o. Qed.
Lemma here_runs : run schedule = Some here.
Proof. apply ran. vm_compute. reflexivity. Qed.

Lemma system_refines_connect_witness :
  ∃ ls', crun me eph net ls' conn0 = Some (conn_of here) ∧ size (c_sessions (core_of here)) = 1%nat.
Proof.
  destruct (system_refines_connect me 4000 eph net schedule _ _ here here_runs) as [[ls' H] _].
  exists ls'. split; [exact H|vm_compute; reflexivity].
Defined.

Lemma session_events_balance_witness :
  count (up_event alice) (c_app (core_of here)) =
    count (down_event alice) (c_app (core_of here)) + running alice (y_pumps here) ∧
  count (up_event alice) (c_app (core_of here)) = 1.
Proof.
  split; [exact (session_events_balance me 4000 eph net schedule _ _ here alice here_runs)|vm_compute; reflexivity].
Defined.

Definition say : slabel := Branch (CmdEv (Some (Cmd.Send alice (str "yo")))).
Definition after : Sys := default start (sys_step me 4000 eph net say here).
Lemma after_steps : sys_step me 4000 eph net say here = Some after.
Proof. apply ran. vm_compute. reflexivity. Qed.
Lemma text_goes_to_peer_witness :
  ∃ new, c_texts (core_of after) = c_texts (core_of here) ++ new ∧
    Forall (λ x, x.2 = str "yo" ∧ ∃ a, y_pumps here !! x.1 = Some a ∧
      identity_hash (peer_public (tg_peer a)) (peer_verifying (tg_peer a)) = alice) new ∧
    length (c_texts (core_of after)) = 1%nat.
Proof.
  destruct (text_goes_to_peer me 4000 eph net schedule _ _ here after alice (str "yo") here_runs after_steps) as (new & Hn & Hall).
  exists new. split; [exact Hn|split; [exact Hall|vm_compute; reflexivity]].
Defined.
End SystemWitness.
