(* ===== verification/EventChannel.v ===== *)
(** * The event channel fills during the connect-time handshake

    [orchestrate] makes a channel of 100 places for server events and awaits
    [run_client] before it reads from it; [server_initial_handshake] posts one
    event for the authentication and one for every offline message it stores.
    This file follows a reconnect with 100 stored offline messages through
    [drain_blobs], the handshake, [run_client] and [orchestrate]: the task waits
    for ever. *)

From Stdlib Require Import Strings.Byte.
From S2P Require Import Prelude Bytes Text Primitives Instances World Crypto KeyFile PeerStore ChatDb Wire Handshake ServerProto ServerClient ClientFiles ClientCore Orchestrate.

Local Open Scope Z_scope.

Section EventChannel.
Context `{Prim : Primitives} (EA : Env) `{EB : !Env} `{SledI : Sled} `{SrvEnv : ServerEnv}.
Context `{CliEnv : ClientEnv} `{CorEnv : CoreEnv} `{MsgRmp : !Rmp Message} `{BlobRmp : !Rmp BlobPayload}.
Context `{StcRmp : !Rmp ServerToClient} `{CtsRmp : !Rmp ClientToServer}.
Context `{StunRmp : !Rmp StunPing} `{ReplyRmp : !Rmp StunReply}.
Context `{!SigLaws, !DhLaws, !KeyLaws, !AeadLaws, !KdfLaws, !RmpLaws Message, !RmpLaws BlobPayload}.
Context `{!RmpLaws ServerToClient, !SledLaws, !Quiet}.
Context (privA : StaticSecret) (skA : SigningKey) (vB : VerifyingKey) (keys : Keys).

Let pubA := public_of privA.
Let idA := identity_hash pubA (verifying_key skA).
Let privB := x25519_priv keys.
Let viewB := mkPeerPublic (public_of privB) vB.

(** An offline message that A sealed for B. *)
Record sealed := mkSealed { sl_text : rstring; sl_time : Z; sl_blob : bytes }.

Definition received (x : sealed) : Message := from_parts (sl_text x) Peer (sl_time x).

Definition sealed_by_A (x : sealed) : Prop :=
  ∃ wA m wA', @generate_offline_message _ EA _ _ _ viewB pubA privA (sl_text x) skA wA = (Ok m, wA') ∧
    cts_payload m = CM.SendBlob (generate_peer_hash viewB) (sl_blob x) ∧ sl_time x = @clock _ EA (w_clock wA).

(** It is not older than 30 days at the first [K] clock readings, and its text
    fits the cipher. *)
Definition storable (K : nat) (x : sealed) : Prop :=
  (∀ k, (k < K)%nat → blob_expired (clock k) (sl_time x) = false) ∧
  ∃ b, rmp_to_vec (received x) = Ok b ∧ Z.of_nat (length b) < 2 ^ 36.

Definition carries (m : ServerToClient) (x : sealed) : Prop :=
  ∃ id t, stc_payload m = SM.PendingBlob id (sl_blob x) t.

Context (key : Key).
Hypothesis Hkey : load_storage_key pubA privB = Ok key.
Hypothesis Hws : ∀ n, ws_fault n = None.
Hypothesis Hser : ∀ m : ClientToServer, ∃ b, rmp_to_vec m = Ok b.

(** Processing one of them, as a step of the drain loop. *)
Lemma process_sealed K n x s d :
  sealed_by_A x → storable K x → (w_clock (s_world s) < K)%nat → accepts EB privA skA n d (s_world s) → 1 ≤ n ≤ two64 →
  ∃ w' d', process_blob (sl_blob x) privB s =
      (Ok tt, mkSrv w' (s_peers s) (s_address s) (s_events s ++ [SE.BlobStored idA]) (s_in s) (s_sends s) (s_wire s)) ∧
    w_fs w' !! chat_path idA = Some (NDb d') ∧ accepts EB privA skA (n - 1) d' w' ∧
    w_clock w' = S (w_clock (s_world s)) ∧ log_messages key d' = log_messages key d ++ [received x].
Proof.
  intros (wA & m & wA' & Hgen & Hm & Ht) (Hexp & b & Hb & Hl) Hk Hacc Hn.
  specialize (Hexp _ Hk). unfold received in *. rewrite Ht in *.
  destruct (process_offline EA EB privA privB skA vB n (sl_text x) wA m wA' s key d b) as
    (blob & w' & d' & Hm' & Hp & Hrest); [done..|].
  rewrite Hm in Hm'. injection Hm' as <-. by exists w', d'.
Qed.

(** One received message of the stream. *)
Lemma receive_next (s : Srv) m b bs rest :
  rmp_to_vec m = Ok b → s_in s = map WsBinary (b :: bs) ++ rest →
  receive_message s = (Ok (Ready m), mkSrv (s_world s) (s_peers s) (s_address s) (s_events s)
    (map WsBinary bs ++ rest) (s_sends s) (s_wire s)).
Proof.
  intros Hm Hin. rewrite receive_message_eq, Hin. cbn [map app receive_from fst snd].
  unfold parse_server_message. by rewrite (rmp_roundtrip _ _ Hm).
Qed.

(** An ack, when sends succeed. *)
Lemma ack_blob_sent id s :
  ∃ ack b w, ack_blob id s = (Ok tt, mkSrv w (s_peers s) (s_address s) (s_events s) (s_in s) (S (s_sends s))
      (s_wire s ++ [b])) ∧
    rmp_to_vec ack = Ok b ∧ cts_payload ack = CM.AckBlob id ∧ w_fs w = w_fs (s_world s) ∧
    w_clock w = S (w_clock (s_world s)).
Proof.
  unfold ack_blob, sbind. rewrite with_world_eq.
  set (ack := (client_to_server_new (generate_ack_blob id) None (s_world s)).1). destruct (Hser ack) as [b Hb].
  erewrite send_wrapped_ok by (apply Hws || exact Hb). exists ack, b. eexists. by split_and!.
Qed.

(** Every message of a backlog has an id. *)
Lemma carried_ids msgs xs : Forall2 carries msgs xs → xs ≠ [] →
  S (length (omap blob_id_of (removelast msgs))) = length xs.
Proof.
  induction 1 as [|m x msgs xs (id & t & Hm) Hc IH]; [done|]. intros _. destruct Hc as [|m' x' msgs xs ? ?]; [done|].
  change (removelast (m :: m' :: msgs)) with (m :: removelast (m' :: msgs)). rewrite omap_cons.
  unfold blob_id_of at 1. rewrite Hm. cbn [length]. by rewrite IH.
Qed.

(** The drain stores every message, acks all but the last one, and waits. *)
Lemma drain_fills K msgs xs bs rest fuel n d s :
  Forall2 carries msgs xs → Forall2 (λ m b, rmp_to_vec m = Ok b) msgs bs →
  Forall sealed_by_A xs → Forall (storable K) xs → xs ≠ [] →
  (w_clock (s_world s) + 2 * length xs ≤ K)%nat → s_in s = map WsBinary bs ++ rest → (length xs ≤ fuel)%nat →
  (length (s_events s) + length xs = S EVENT_CAPACITY)%nat →
  accepts EB privA skA n d (s_world s) → Z.of_nat (length xs) ≤ n ≤ two64 →
  ∃ s' d' acks frames, drain_blobs fuel privB s = (Ok Blocked, s') ∧
    s_wire s' = s_wire s ++ frames ∧ Forall2 (λ m b, rmp_to_vec m = Ok b) acks frames ∧
    map cts_payload acks = map CM.AckBlob (omap blob_id_of (removelast msgs)) ∧
    w_fs (s_world s') !! chat_path idA = Some (NDb d') ∧
    log_messages key d' = log_messages key d ++ map received xs.
Proof.
  intros Hc. revert bs fuel n d s. induction Hc as [|m x msgs xs (id & t & Hm) Hc IH]; [done|].
  intros bs fuel n d s Henc Hseal Hst _ HK Hin Hfuel Hcap Hacc Hn.
  inversion Henc as [|? b ? bs' Hb Henc']; subst. apply Forall_cons in Hseal as [Hx Hseal].
  apply Forall_cons in Hst as [Hsx Hst]. destruct fuel as [|fuel]; [simpl in Hfuel; lia|]. cbn [drain_blobs].
  erewrite abind_ready by (by eapply receive_next). rewrite Hm. set (s1 := mkSrv _ _ _ _ _ _ _). simpl length in *.
  destruct (process_sealed K n x s1 d Hx Hsx ltac:(cbn; lia) Hacc ltac:(lia)) as (w' & d' & Hp & Hchat & Hacc' & Hclk & Hlog).
  unfold sbind at 1. rewrite Hp. unfold sbind at 1, events_stuck.
  cbn [s_events s_peers s_address s_in s_sends s_wire s1]. rewrite length_app. cbn [length].
  destruct Hc as [|m' x' msgs' xs' Hm' Hc].
  - destruct (Nat.ltb_spec EVENT_CAPACITY (length (s_events s) + 1)); [|cbn [length] in Hcap; lia].
    eexists _, d', [], []. rewrite app_nil_r. split_and!; [reflexivity|done|constructor|done|exact Hchat|exact Hlog].
  - destruct (Nat.ltb_spec EVENT_CAPACITY (length (s_events s) + 1)); [cbn [length] in Hcap; lia|].
    match goal with |- context [ebind (ack_blob id) _ ?s0] => destruct (ack_blob_sent id s0) as (ack & ab & w2 & Ha & Hab & Hid & Hfs & Hclk2) end.
    erewrite ebind_step by exact Ha.
    match goal with |- context [drain_blobs fuel privB ?s0] =>
      destruct (IH bs' fuel (n - 1) d' s0) as (s' & d'' & acks & frames & Hd & Hw & Hf & Hids & Hch & Hlg) end; try done.
    + cbn [s_world] in *. rewrite Hclk2, Hclk. cbn [length s_world s1] in *. lia.
    + cbn [length] in *. lia.
    + cbn [s_events]. rewrite length_app. cbn [length] in *. lia.
    + unfold accepts in *. cbn [s_world] in *. by rewrite Hfs.
    + cbn [length] in *. lia.
    + exists s', d'', (ack :: acks), (ab :: frames). split_and!; [exact Hd| |by constructor| |exact Hch|].
      * rewrite Hw. cbn [s_wire]. by rewrite <- app_assoc.
      * change (removelast (m :: m' :: msgs')) with (m :: removelast (m' :: msgs')).
        rewrite omap_cons. unfold blob_id_of at 1. rewrite Hm. cbn [map]. by rewrite Hids, Hid.
      * rewrite Hlg, Hlog, <- app_assoc. done.
Qed.

(** What the server sends to a client that left [length xs] messages unread. *)
Definition backlog (observed : rstring) (xs : list sealed) (items : list ws_item) : Prop :=
  ∃ auth msgs ab bs rest, stc_payload auth = SM.AuthOk observed ∧ rmp_to_vec auth = Ok ab ∧
    Forall2 carries msgs xs ∧ Forall2 (λ m b, rmp_to_vec m = Ok b) msgs bs ∧
    items = map WsBinary (ab :: bs) ++ rest.

(** The handshake stores the whole backlog, acks all but its last message, and
    waits for room in the event channel. *)
Lemma handshake_blocks K observed xs port ov n d s :
  backlog observed xs (s_in s) → Forall sealed_by_A xs → Forall (storable K) xs → xs ≠ [] →
  (w_clock (s_world s) + 2 + 2 * length xs ≤ K)%nat →
  (length (s_events s) + S (length xs) = S EVENT_CAPACITY)%nat →
  accepts EB privA skA n d (s_world s) → Z.of_nat (length xs) ≤ n ≤ two64 →
  ∃ s' d' auth_frame acks frames,
    server_initial_handshake (x25519_pub keys) (ed25519_signing keys) privB port ov s = (Ok Blocked, s') ∧
    s_wire s' = s_wire s ++ auth_frame :: frames ∧ Forall2 (λ m b, rmp_to_vec m = Ok b) acks frames ∧
    S (length acks) = length xs ∧ Forall (λ a, ∃ id, cts_payload a = CM.AckBlob id) acks ∧
    w_fs (s_world s') !! chat_path idA = Some (NDb d') ∧
    log_messages key d' = log_messages key d ++ map received xs.
Proof.
  intros (auth & msgs & ab & bs & rest & Hauth & Hab & Hc & Henc & Hin) Hseal Hst Hne HK Hcap Hacc Hn.
  unfold server_initial_handshake. erewrite sbind_step by (apply with_world_step; reflexivity).
  unfold generate_authenticate_message. erewrite ebind_step by (apply smap_err_step, with_world_step; reflexivity).
  match goal with |- context [send_wrapped ?m] => destruct (Hser m) as [mb Hmb] end.
  erewrite ebind_step by (apply send_wrapped_ok; [apply Hws|exact Hmb]).
  erewrite abind_ready by (eapply receive_next; [exact Hab|exact Hin]). rewrite Hauth.
  erewrite ebind_step by reflexivity. do 2 erewrite sbind_step by reflexivity.
  unfold sbind at 1, events_stuck. match goal with |- context [s_events ?s0] =>
    change (s_events s0) with (s_events s ++ [SE.Authenticated observed]); set (s1 := s0) end.
  rewrite length_app. cbn [length]. assert (Hpos : xs ≠ [] → (1 ≤ length xs)%nat) by (destruct xs; [done|simpl; lia]). specialize (Hpos Hne).
  destruct (Nat.ltb_spec EVENT_CAPACITY (length (s_events s) + 1)); [lia|].
  unfold sbind at 1, sget. unfold abind at 1, ebind at 1.
  assert (Hin1 : s_in s1 = map WsBinary bs ++ rest) by reflexivity.
  destruct (drain_fills K msgs xs bs rest (S (length (s_in s1))) n d s1)
    as (s' & d' & acks & frames & Hd & Hw & Hf & Hidl & Hch & Hlg); try done.
  - change (w_clock (s_world s1)) with (S (S (w_clock (s_world s)))). lia.
  - rewrite Hin1, length_app, length_map. apply Forall2_length in Hc, Henc. lia.
  - change (s_events s1) with (s_events s ++ [SE.Authenticated observed]). rewrite length_app. cbn [length]. lia.
  - rewrite Hd. exists s', d', mb, acks, frames. split_and!; [reflexivity| |done| | |exact Hch|exact Hlg].
    + rewrite Hw. change (s_wire s1) with (s_wire s ++ [mb]). by rewrite <- app_assoc.
    + apply (f_equal length) in Hidl. rewrite !length_map in Hidl. rewrite Hidl. by apply carried_ids.
    + apply (Forall_map cts_payload (λ p, ∃ id, p = CM.AckBlob id)). rewrite Hidl. apply Forall_map, Forall_true. eauto.
Qed.

Lemma on_srv_core_step {A} (m : St Srv A) a s' o :
  m (c_srv (o_core o)) = (a, s') →
  on_core (on_srv m) o = (a, mkOrch (mkCore s' (c_intents (o_core o)) (c_sessions (o_core o)) (c_connecting (o_core o))
    (c_app (o_core o)) (c_out (o_core o)) (c_texts (o_core o)) (c_relayed (o_core o)) (c_spawned (o_core o)) (c_uses (o_core o)))
    (o_server o) (o_backoff o) (o_sleeps o) (o_dialed o) (o_stun o)).
Proof. intros Hm. unfold on_core, on_srv. by rewrite Hm. Qed.

(** The same, from the top of a pass of [orchestrate]. *)
Lemma connect_blocks K observed xs rd port n d o :
  (∀ url config, ∃ items, rd_connect rd url config = Ok items ∧ backlog observed xs items) →
  Forall sealed_by_A xs → Forall (storable K) xs → xs ≠ [] → (S (length xs) = S EVENT_CAPACITY)%nat →
  (w_clock (s_world (c_srv (o_core o))) + 3 + 2 * length xs ≤ K)%nat →
  accepts EB privA skA n d (s_world (c_srv (o_core o))) → Z.of_nat (length xs) ≤ n ≤ two64 →
  ∃ o' d' auth_frame acks frames, connect_phase keys port rd o = (Ok Blocked, o') ∧
    c_app (o_core o') = c_app (o_core o) ∧ c_out (o_core o') = c_out (o_core o) ∧
    o_sleeps o' = o_sleeps o ∧ o_dialed o' = o_dialed o ++ [o_server o] ∧
    s_wire (c_srv (o_core o')) = s_wire (c_srv (o_core o)) ++ auth_frame :: frames ∧
    Forall2 (λ m b, rmp_to_vec m = Ok b) acks frames ∧ S (length acks) = length xs ∧
    Forall (λ a, ∃ id, cts_payload a = CM.AckBlob id) acks ∧
    w_fs (s_world (c_srv (o_core o'))) !! chat_path idA = Some (NDb d') ∧
    log_messages key d' = log_messages key d ++ map received xs.
Proof.
  intros Hrd Hseal Hst Hne Hlen HK Hacc Hn. unfold connect_phase, sbind at 1, sget.
  erewrite sbind_step by (apply on_srv_core_step; reflexivity). unfold sbind at 1, on_socket at 1.
  cbn [o_core c_srv s_world]. match goal with |- context [stun_discover ?a ?b ?c ?e ?n0] =>
    pose proof (stun_discover_fs a b c e n0) as [Hfs Hclk]; destruct (stun_discover a b c e n0) as [ov net] end.
  cbn [snd n_world] in Hfs, Hclk. erewrite sbind_step by reflexivity.
  destruct (Hrd (ws_url (o_server o)) (mkWebSocketConfig (Some (256 * 1024)) (Some (256 * 1024)))) as (items & Hcon & Hback).
  destruct (handshake_blocks K observed xs port ov n d (mkSrv (n_world net) (s_peers (c_srv (o_core o)))
    (s_address (c_srv (o_core o))) [] items (s_sends (c_srv (o_core o))) (s_wire (c_srv (o_core o)))))
    as (s' & d' & af & acks & frames & Hh & Hw & Hrest); [done..| |done| |done|].
  { cbn [s_world]. rewrite Hclk. lia. }
  { unfold accepts in *. cbn [s_world]. by rewrite Hfs. }
  erewrite on_srv_core_step.
  2:{ unfold run_client. erewrite ebind_step by (unfold sret, connect_to_server; by rewrite Hcon).
      erewrite sbind_step by reflexivity. unfold abind at 1. erewrite ebind_step by exact Hh. reflexivity. }
  cbn [s_wire] in Hw. destruct Hrest as (? & ? & ? & ? & ?). eexists _, d', af, acks, frames. split; [reflexivity|].
  cbn [o_core c_app c_out c_srv o_sleeps o_dialed o_server]. by split_and!.
Qed.

(** C20: A hundred unread messages lock the client out: when the server holds
    exactly 100 offline messages for a client, all from one peer it knows, not
    expired and small enough to be stored on a disk without faults, its first pass through
    [orchestrate] never ends, whatever comes later: all 100 messages are
    stored, only 99 of them are acknowledged (the last one will be delivered,
    and stored, a second time), the application is told nothing, not even that
    it is connected, and no command, retry or server event is ever handled,
    because [run_client] waits for room in the event channel that only
    [orchestrate] would read. *)
Theorem backlog_deadlock K observed xs rd rounds port n d o :
  (∀ url config, ∃ items, rd_connect rd url config = Ok items ∧ backlog observed xs items) →
  Forall sealed_by_A xs → Forall (storable K) xs → length xs = 100%nat →
  (w_clock (s_world (c_srv (o_core o))) + 203 ≤ K)%nat →
  accepts EB privA skA n d (s_world (c_srv (o_core o))) → 100 ≤ n ≤ two64 →
  ∃ o' d' auth_frame acks frames, orchestrate keys port (rd :: rounds) o = (Running, o') ∧
    c_app (o_core o') = c_app (o_core o) ∧ c_out (o_core o') = c_out (o_core o) ∧
    o_sleeps o' = o_sleeps o ∧ o_dialed o' = o_dialed o ++ [o_server o] ∧
    s_wire (c_srv (o_core o')) = s_wire (c_srv (o_core o)) ++ auth_frame :: frames ∧
    Forall2 (λ m b, rmp_to_vec m = Ok b) acks frames ∧ length acks = 99%nat ∧
    Forall (λ a, ∃ id, cts_payload a = CM.AckBlob id) acks ∧
    w_fs (s_world (c_srv (o_core o'))) !! chat_path idA = Some (NDb d') ∧
    log_messages key d' = log_messages key d ++ map received xs.
Proof.
  intros Hrd Hseal Hst Hlen HK Hacc Hn.
  destruct (connect_blocks K observed xs rd port n d o) as (o' & d' & af & acks & frames & Hc & Happ & Hout & Hsl & Hd & Hrest);
    [done|done|done|by intros ->|by rewrite Hlen|rewrite Hlen; lia|done|by rewrite Hlen|].
  exists o', d', af, acks, frames. cbn [orchestrate]. unfold orchestrate_round, sbind. rewrite Hc.
  rewrite Hlen in Hrest. destruct Hrest as (? & ? & [= ?] & ? & ? & ?). by split_and!.
Qed.
End EventChannel.

Module EventChannelWitness.
#[local] Existing Instances toy_prims toy_env list_sled.
#[local] Existing Instances ChatDbWitness.toy_rmp_message ServerWitness.toy_rmp_blob ServerWitness.toy_server
  ServerWitness.toy_rmp_stc ServerWitness.toy_rmp_cts ClientFilesWitness.toy_client CoreWitness.toy_core
  OrchestrateWitness.toy_rmp_stun OrchestrateWitness.toy_rmp_reply.
#[local] Existing Instances toy_sig_laws toy_dh_laws toy_key_laws toy_aead_laws toy_kdf_laws
  ChatDbWitness.toy_rmp_message_laws ServerWitness.toy_rmp_blob_laws ServerWitness.toy_rmp_stc_laws list_sled_laws
  KeyFileWitness.toy_quiet.
Import ServerWitness.

Definition pending_of (blob : bytes) (i : Z) : ServerToClient :=
  mkServerToClient (SM.PendingBlob (display_int i) blob 7) 7.
(** A hundred unread messages, and the round that delivers them. *)
Definition auth_ok : ServerToClient := mkServerToClient (SM.AuthOk (str "1.2.3.4:5")) 3.
Definition stream (blob : bytes) : list ws_item :=
  map WsBinary (enc (Codec := stc_codec) auth_ok
    :: map (λ i, enc (Codec := stc_codec) (pending_of blob i)) (seqZ 0 100)) ++ [].
Definition flooded (blob : bytes) : round := mkRound OrchestrateWitness.stun (λ _ _, Ok (stream blob)) [].
Definition hello (blob : bytes) : sealed := mkSealed (str "hello") 1000000 blob.

Lemma toy_clock_near k : blob_expired (clock k) 1000000 = false.
Proof.
  assert (Hall : forallb (λ m, negb (blob_expired (1000000 + m) 1000000)) (seqZ 0 100) = true)
    by (vm_compute; reflexivity).
  rewrite forallb_forall in Hall. apply negb_true_iff, (Hall (Z.of_nat k mod 100)).
  apply list_elem_of_In, elem_of_seqZ. pose proof (Z.mod_pos_bound (Z.of_nat k) 100). lia.
Qed.

Lemma backlog_deadlock_witness :
  ∃ m w' blob key o' d', gen_offline = (Ok m, w') ∧ cts_payload m = CM.SendBlob (generate_peer_hash viewB) blob ∧
    orchestrate ChatDbWitness.me 4000 [flooded blob; flooded blob] OrchestrateWitness.start0 = (Running, o') ∧
    c_app (o_core o') = [] ∧ w_fs (s_world (c_srv (o_core o'))) !! chat_path ChatDbWitness.id = Some (NDb d') ∧
    length (log_messages key d') = 100%nat.
Proof.
  destruct gen_offline_ok as (m & w' & Hgen).
  destruct (offline_envelope toy_env aliceX bobX aliceS (verifying_key bobS) (str "hello") CryptoWitness.w0 m w' Hgen)
    as (blob & _ & _ & _ & _ & Hm & _).
  destruct (@load_storage_key_total toy_prims toy_kdf_laws (public_of aliceX) bobX) as [key Hkey].
  assert (Hws : ∀ n, @ws_fault toy_server n = None) by done.
  assert (Hser : ∀ c : ClientToServer, ∃ b, rmp_to_vec c = Ok b) by (intros c; by eexists).
  destruct (backlog_deadlock toy_env aliceX aliceS (verifying_key bobS) ChatDbWitness.me key Hkey Hws Hser 300
    (str "1.2.3.4:5") (replicate 100 (hello blob)) (flooded blob) [flooded blob] 4000 100 db_empty OrchestrateWitness.start0)
    as (o' & d' & _ & _ & _ & Hrun & Happ & _ & _ & _ & _ & _ & _ & _ & Hch & Hlog).
  - intros url config. exists (stream blob). split; [reflexivity|].
    eexists auth_ok, (map (pending_of blob) (seqZ 0 100)), _, (map (λ i, enc (Codec := stc_codec) (pending_of blob i)) (seqZ 0 100)), [].
    split; [reflexivity|]. split; [reflexivity|]. split_and!.
    + change (replicate 100 (hello blob)) with (map (λ _ : Z, hello blob) (seqZ 0 100)).
      apply Forall2_fmap_2, Forall_Forall2_diag, Forall_true. intros i. by eexists _, _.
    + apply Forall2_fmap_2, Forall_Forall2_diag, Forall_true. done.
    + reflexivity.
  - apply Forall_replicate. exists CryptoWitness.w0, m, w'. split; [exact Hgen|split; [exact Hm|reflexivity]].
  - apply Forall_replicate. split; [intros k _; apply toy_clock_near|].
    exists (enc (Codec := ChatDbWitness.message_codec) (from_parts (str "hello") Peer 1000000)).
    split; [reflexivity|vm_compute; reflexivity].
  - apply length_replicate.
  - vm_compute. lia.
  - split; [exact ChatDbWitness.w1_peer|split; [vm_compute; reflexivity|split; [exact ChatDbWitness.w1_clear|]]].
    apply (@log_room_empty list_sled list_sled_laws).
  - split; [lia|vm_compute; discriminate].
  - exists m, w', blob, key, o', d'. split_and!; [exact Hgen|exact Hm|exact Hrun|exact Happ|exact Hch|].
    rewrite Hlog, length_app, length_map, length_replicate. reflexivity.
Defined.
End EventChannelWitness.
