(* ===== verification/Layout.v ===== *)
(** * The layout of ~/.sechat

    The store as a typed tree: which paths on the way to ~/.sechat and below it
    hold regular files, which hold a database, and that the rest are
    directories; every node there hangs below a directory.  Every operation of
    the program keeps the typing and what lies elsewhere on the disk, whatever
    system calls fail, which gives the path conditions that the theorems on
    single operations ask for. *)

From Stdlib Require Import Strings.Byte.
From S2P Require Import Prelude Bytes Text Primitives Instances World Crypto KeyFile PeerStore ChatDb Wire Handshake ServerProto ServerClient ClientFiles ClientCore Orchestrate.

Inductive slot := SDir | SFile | SDb.
#[export] Instance slot_eq : EqDecision slot.
Proof. solve_decision. Defined.

Definition node_slot `{Sled} (n : node) : slot :=
  match n with NDir => SDir | NFile _ => SFile | NDb _ => SDb end.

Section Layout.
Context `{Prim : Primitives} `{EnvI : !Env} `{SledI : Sled}.

(** What the path below ~/.sechat holds. *)
Definition inner_slot (p : path) : slot :=
  match p with
  | [x] => if decide (x ∈ [str "identity.key"; str "identity.pub"; str "server"; str "aliases"]) then SFile else SDir
  | [d; _; x] =>
      if decide (d = str "peers")
      then if decide (x = str "peer.pub") then SFile else if decide (x = str "chat.db") then SDb else SDir
      else SDir
  | _ => SDir
  end.

Definition path_slot (p : path) : slot :=
  if decide (take (length sechat_dir) p = sechat_dir) then inner_slot (drop (length sechat_dir) p) else SDir.

(** The paths the program works with: on the way to ~/.sechat, and below it. *)
Definition own (p : path) : Prop := p `prefix_of` sechat_dir ∨ sechat_dir `prefix_of` p.

Definition layout_ok (fs : gmap path node) : Prop :=
  ∀ p n, own p → fs !! p = Some n → node_slot n = path_slot p ∧ is_dir_node fs (parent p) = true.

(** Nothing appears, disappears or changes elsewhere; a database stays one. *)
Definition foreign_kept (fs fs' : gmap path node) : Prop :=
  ∀ p, ¬ own p → match fs !! p with
                 | Some (NDb _) => ∃ d, fs' !! p = Some (NDb d)
                 | n => fs' !! p = n
                 end.

Definition lays (fs fs' : gmap path node) : Prop := layout_ok fs → layout_ok fs' ∧ foreign_kept fs fs'.

Lemma foreign_kept_refl fs : foreign_kept fs fs.
Proof. intros p _. destruct (fs !! p) as [[]|]; by eauto. Qed.

Lemma foreign_kept_trans fs1 fs2 fs3 : foreign_kept fs1 fs2 → foreign_kept fs2 fs3 → foreign_kept fs1 fs3.
Proof.
  intros H12 H23 p Hp. specialize (H12 p Hp). specialize (H23 p Hp).
  destruct (fs1 !! p) as [[| |d]|]; [..|destruct H12 as [d' H12]|]; rewrite H12 in H23; done.
Qed.

Lemma lays_refl fs : lays fs fs.
Proof. intros Hl. split; [done|apply foreign_kept_refl]. Qed.

Lemma lays_trans fs1 fs2 fs3 : lays fs1 fs2 → lays fs2 fs3 → lays fs1 fs3.
Proof.
  intros H12 H23 H1. destruct (H12 H1) as [H2 F2]. destruct (H23 H2) as [H3 F3].
  split; [done|by eapply foreign_kept_trans].
Qed.

Lemma foreign_insert fs p n : own p → foreign_kept fs (<[p := n]> fs).
Proof. intros Hp q Hq. rewrite lookup_insert_ne by (by intros ->). by apply foreign_kept_refl. Qed.

(** ** Paths *)

Lemma slot_inner q : path_slot (sechat_dir ++ q) = inner_slot q.
Proof. unfold path_slot. by rewrite take_app_length, drop_app_length, decide_True. Qed.

Lemma slot_above p : (length p < length sechat_dir)%nat → path_slot p = SDir.
Proof.
  intros Hl. unfold path_slot. rewrite decide_False; [done|]. intros H. apply (f_equal length) in H.
  rewrite length_take in H. lia.
Qed.

Lemma slot_own p : path_slot p ≠ SDir → own p.
Proof.
  unfold path_slot. case_decide as Hp; [|done]. intros _. right. rewrite <- Hp. apply prefix_take.
Qed.

Lemma own_take k q : own (take k (sechat_dir ++ q)).
Proof.
  destruct (decide (k ≤ length sechat_dir)%nat).
  - left. rewrite take_app_le by done. apply prefix_take.
  - right. rewrite take_app_ge by lia. by eexists.
Qed.

(** Everything on the way to a directory of the layout is a directory. *)
Definition dir_way (p : path) : Prop := ∀ k, path_slot (take k p) = SDir ∧ own (take k p).

Lemma dir_way_below q : (∀ k, inner_slot (take k q) = SDir) → dir_way (sechat_dir ++ q).
Proof.
  intros Hq k. split; [|apply own_take]. destruct (decide (k < length sechat_dir)%nat) as [Hk|Hk].
  - apply slot_above. rewrite length_take, length_app. lia.
  - rewrite take_app_ge by lia. rewrite slot_inner. apply Hq.
Qed.

Lemma dir_way_sechat : dir_way sechat_dir.
Proof. rewrite <- (app_nil_r sechat_dir). apply dir_way_below. by intros []. Qed.

Lemma dir_way_peers : dir_way peers_dir.
Proof. apply dir_way_below. intros [|[|k]]; done. Qed.

Lemma dir_way_peer id : dir_way (peer_dir id).
Proof. unfold peer_dir, peers_dir. rewrite <- app_assoc. apply dir_way_below. intros [|[|[|k]]]; done. Qed.

Lemma chat_slot id : path_slot (chat_path id) = SDb.
Proof. unfold chat_path, peer_dir, peers_dir. rewrite <- !app_assoc. rewrite slot_inner. reflexivity. Qed.
Lemma peer_pub_slot id : path_slot (peer_pub_path id) = SFile.
Proof. unfold peer_pub_path, peer_dir, peers_dir. rewrite <- !app_assoc. rewrite slot_inner. reflexivity. Qed.
Lemma file_slot x : x ∈ [str "identity.key"; str "identity.pub"; str "server"; str "aliases"] →
  path_slot (sechat_dir ++ [x]) = SFile.
Proof. intros Hx. rewrite slot_inner. cbn. by rewrite decide_True. Qed.

(** ** The nodes *)

Lemma slot_not_dir fs p : layout_ok fs → path_slot p = SFile → not_a_dir fs p.
Proof.
  intros Hl Hp. unfold not_a_dir. destruct (fs !! p) as [n|] eqn:E; [|done].
  apply Hl in E as [Hs _]; [|apply slot_own; by rewrite Hp]. rewrite Hp in Hs. by destruct n.
Qed.

Lemma is_dir_insert_dir fs p q n :
  node_slot n ≠ SFile → is_dir_node fs q = true → is_dir_node (<[p := n]> fs) q = true.
Proof.
  destruct q as [|x q]; [done|]. unfold is_dir_node. rewrite lookup_insert. case_decide; [|done]. by destruct n.
Qed.

(** Put a directory or a database under a directory. *)
Lemma layout_insert_dir fs p n :
  layout_ok fs → node_slot n ≠ SFile → node_slot n = path_slot p → is_dir_node fs (parent p) = true →
  layout_ok (<[p := n]> fs).
Proof.
  intros Hl Hn Hs Hp q m Ho. rewrite lookup_insert. case_decide as Hpq.
  - intros [= ->]. subst q. split; [done|]. by apply is_dir_insert_dir.
  - intros Hq. destruct (Hl _ _ Ho Hq). split; [done|]. by apply is_dir_insert_dir.
Qed.

(** Put a file where none, or another file, is. *)
Lemma layout_insert_file fs p d :
  layout_ok fs → path_slot p = SFile → is_dir_node fs (parent p) = true → layout_ok (<[p := NFile d]> fs).
Proof.
  intros Hl Hs Hp. pose proof (slot_not_dir fs p Hl Hs) as Hnd.
  assert (Hne : ∀ q, is_dir_node fs q = true → q ≠ [] → p ≠ q).
  { intros q Hq Hq0 ->. unfold not_a_dir, is_dir_node in *. destruct q; [done|]. destruct (fs !! _) as [[]|]; done. }
  assert (Hdir : ∀ q, is_dir_node fs q = true → is_dir_node (<[p := NFile d]> fs) q = true).
  { intros q Hq. destruct q as [|x q]; [done|]. apply is_dir_insert_file; [done|]. by apply Hne. }
  intros q m Ho. rewrite lookup_insert. case_decide as Hpq.
  - intros [= <-]. subst q. split; [done|]. by apply Hdir.
  - intros Hq. destruct (Hl _ _ Ho Hq). split; [done|]. by apply Hdir.
Qed.

Lemma layout_mkdirs base rest fs :
  layout_ok fs → is_dir_node fs base = true →
  (∀ k, path_slot (base ++ take k rest) = SDir ∧ own (base ++ take k rest)) →
  layout_ok (mkdirs base rest fs).2 ∧ foreign_kept fs (mkdirs base rest fs).2.
Proof.
  revert base fs. induction rest as [|x rest IH]; intros base fs Hl Hb Hs; [by apply lays_refl|]. simpl.
  assert (Hs' : ∀ k, path_slot ((base ++ [x]) ++ take k rest) = SDir ∧ own ((base ++ [x]) ++ take k rest)).
  { intros k. rewrite <- app_assoc. apply (Hs (S k)). }
  assert (Hx : path_slot (base ++ [x]) = SDir ∧ own (base ++ [x])) by (apply (Hs 1%nat)). destruct Hx as [Hx Hown].
  assert (Hnn : ∀ fs', is_dir_node fs' (base ++ [x]) = match fs' !! (base ++ [x]) with Some NDir | Some (NDb _) => true | _ => false end)
    by (intros fs'; unfold is_dir_node; destruct (base ++ [x]) eqn:E; [by apply app_nil in E as []|done]).
  destruct (fs !! (base ++ [x])) as [[| |]|] eqn:E; [|by apply lays_refl|..].
  - apply IH; [done| |done]. by rewrite Hnn, E.
  - apply IH; [done| |done]. by rewrite Hnn, E.
  - destruct (IH (base ++ [x]) (<[base ++ [x] := NDir]> fs)) as [H1 H2]; [|by rewrite Hnn, lookup_insert_eq|done|].
    + apply layout_insert_dir; [done|done|done|]. by rewrite parent_snoc.
    + split; [done|]. eapply foreign_kept_trans; [|exact H2]. by apply foreign_insert.
Qed.

Lemma foreign_remove p fs : sechat_dir `prefix_of` p → foreign_kept fs (remove_tree p fs).
Proof.
  intros Hp q Hq. rewrite lookup_remove_tree_out; [by apply foreign_kept_refl|].
  intros Hpq. apply Hq. right. by etrans.
Qed.

Lemma layout_remove p fs : layout_ok fs → layout_ok (remove_tree p fs).
Proof.
  intros Hl q n Ho Hq. apply map_lookup_filter_Some in Hq as [Hq Hnp]. simpl in Hnp. destruct (Hl _ _ Ho Hq) as [Hs Hd].
  split; [done|]. unfold is_dir_node in *. destruct (parent q) as [|x r] eqn:E; [done|].
  rewrite lookup_remove_tree_out; [done|]. intros Hpre. apply Hnp. etrans; [exact Hpre|]. rewrite <- E.
  unfold parent. apply prefix_take.
Qed.

(** ** System calls *)

Definition lay (w w' : World) : Prop := lays (w_fs w) (w_fs w').
#[export] Instance lay_preorder : PreOrder lay.
Proof. split; [intros w; apply lays_refl|]. intros w1 w2 w3. apply lays_trans. Qed.

Lemma syscall_lay {A} (op : gmap path node → result A ErrorKind * gmap path node) :
  (∀ fs, lays fs (op fs).2) → respects lay (syscall op).
Proof.
  intros Hop w. unfold syscall. destruct (io_fault _); [apply lays_refl|]. specialize (Hop (w_fs w)). by destruct (op (w_fs w)).
Qed.

(** What only reads keeps the layout. *)
Lemma reads_lay {A} (m : St World A) : respects same_fs m → respects lay m.
Proof. intros Hm w. unfold same_fs in Hm. unfold lay. rewrite Hm. apply lays_refl. Qed.

Lemma create_dir_all_lay p : dir_way p → respects lay (create_dir_all p).
Proof. intros Hp. apply syscall_lay. intros fs Hl. by apply layout_mkdirs. Qed.

(** A file is put at a path of the layout. *)
Lemma put_file_lay fs p d : path_slot p = SFile → is_dir_node fs (parent p) = true → lays fs (<[p := NFile d]> fs).
Proof.
  intros Hp Hd Hl. split; [by apply layout_insert_file|]. apply foreign_insert, slot_own. by rewrite Hp.
Qed.

Lemma open_truncate_lay p : path_slot p = SFile → respects lay (open_truncate p).
Proof.
  intros Hp. apply syscall_lay. intros fs. destruct (is_dir_node fs (parent p)) eqn:Hd; [|apply lays_refl]. cbn [negb].
  intros Hl. pose proof (slot_not_dir fs p Hl Hp) as Hn. unfold not_a_dir in Hn.
  destruct (fs !! p) as [[]|]; cbn [fst snd]; try done; by apply put_file_lay.
Qed.

Lemma write_all_lay p data : path_slot p = SFile → respects lay (write_all p data).
Proof.
  intros Hp. assert (Ha : ∀ fs d, lays fs (append_data p d fs)).
  { intros fs d Hl. unfold append_data. destruct (fs !! p) as [[|old|]|] eqn:E; try (by apply lays_refl).
    destruct (Hl p _ (slot_own p ltac:(by rewrite Hp)) E) as [Hs Hd]. by apply put_file_lay. }
  intros w. unfold write_all. destruct (io_fault _); apply Ha.
Qed.

Lemma fs_write_lay p data : path_slot p = SFile → respects lay (fs_write p data).
Proof. intros Hp. unfold fs_write. repeat respects_step; [by apply open_truncate_lay|by apply write_all_lay]. Qed.

Lemma remove_dir_all_lay p : sechat_dir `prefix_of` p → respects lay (remove_dir_all p).
Proof.
  intros Hp. apply syscall_lay. intros fs. destruct (fs !! p) as [[]|]; try apply lays_refl; intros Hl;
    (split; [by apply layout_remove|by apply foreign_remove]).
Qed.

Lemma sled_open_lay p : path_slot p = SDb → dir_way (parent p) → respects lay (sled_open p).
Proof.
  intros Hp Hway. assert (Ho : own p) by (apply slot_own; by rewrite Hp). apply syscall_lay. intros fs.
  destruct (fs !! p) as [[]|] eqn:E; try apply lays_refl; intros Hl.
  - destruct (Hl _ _ Ho E) as [Hs _]. by rewrite Hp in Hs.
  - pose proof (layout_mkdirs [] (parent p) fs Hl eq_refl Hway) as [Hm Hk].
    destruct (mkdirs [] (parent p) fs) as [[[]|] fs'] eqn:Hmk; [|done]. cbn [snd] in *. split.
    + apply layout_insert_dir; [done|done|done|]. by apply mkdirs_target in Hmk.
    + eapply foreign_kept_trans; [exact Hk|by apply foreign_insert].
Qed.

(** A database is updated in place, wherever it is. *)
Lemma db_op_lay {A} p (f : Db → A * Db) : respects lay (db_op p f).
Proof.
  apply syscall_lay. intros fs. destruct (fs !! p) as [[| |d]|] eqn:E; try apply lays_refl. destruct (f d) as [a d'].
  cbn [snd]. intros Hl. split.
  - intros q m Ho. rewrite lookup_insert. case_decide as Hpq.
    + intros [= <-]. subst q. destruct (Hl _ _ Ho E). split; [done|by apply is_dir_insert_dir].
    + intros Hq. destruct (Hl _ _ Ho Hq). split; [done|by apply is_dir_insert_dir].
  - intros q _. rewrite lookup_insert. case_decide as Hpq; [subst q; rewrite E; by eexists|].
    destruct (fs !! q) as [[]|]; by eauto.
Qed.

Lemma utc_now_lay : respects lay utc_now.
Proof. intros w. apply lays_refl. Qed.
Lemma draw_lay {A} (f : nat → A) : respects lay (draw f).
Proof. intros w. apply lays_refl. Qed.
Lemma flush_lay : respects lay flush.
Proof. apply syscall_lay. intros fs. apply lays_refl. Qed.
Lemma open_read_lay p : respects lay (open_read p).
Proof. apply syscall_lay. intros fs. destruct (fs !! p); apply lays_refl. Qed.
Lemma read_exact_lay p n : respects lay (read_exact p n).
Proof. apply syscall_lay. intros fs. destruct (fs !! p) as [[]|]; try case_match; apply lays_refl. Qed.
Lemma read_to_string_lay p : respects lay (read_to_string p).
Proof. apply syscall_lay. intros fs. destruct (fs !! p) as [[]|]; try destruct (from_utf8 _); apply lays_refl. Qed.
Lemma read_dir_lay p : respects lay (read_dir p).
Proof. apply syscall_lay. intros fs. case_match; apply lays_refl. Qed.
Lemma dir_entry_lay p x : respects lay (dir_entry p x).
Proof. apply syscall_lay. intros fs. apply lays_refl. Qed.
Lemma path_exists_lay p : respects lay (path_exists p).
Proof. intros w. unfold path_exists, syscall. destruct (io_fault _); apply lays_refl. Qed.
Lemma path_is_dir_lay p : respects lay (path_is_dir p).
Proof. intros w. unfold path_is_dir, syscall. destruct (io_fault _); apply lays_refl. Qed.
Lemma item_ok_lay : respects lay item_ok.
Proof. intros w. unfold item_ok, syscall. destruct (io_fault _); apply lays_refl. Qed.

Lemma peer_dir_inside id : sechat_dir `prefix_of` peer_dir id.
Proof. unfold peer_dir, peers_dir. rewrite <- app_assoc. by eexists. Qed.
Lemma chat_inside id : sechat_dir `prefix_of` chat_path id.
Proof. unfold chat_path. apply prefix_app_r, peer_dir_inside. Qed.
End Layout.

Create HintDb layout.
#[export] Hint Resolve utc_now_lay draw_lay flush_lay open_read_lay read_exact_lay read_to_string_lay read_dir_lay
  dir_entry_lay path_exists_lay path_is_dir_lay item_ok_lay create_dir_all_lay open_truncate_lay write_all_lay
  fs_write_lay remove_dir_all_lay sled_open_lay db_op_lay dir_way_sechat dir_way_peers dir_way_peer chat_slot
  peer_pub_slot peer_dir_inside chat_inside : layout.

(** Follow an operation down to its system calls. *)
Ltac lay := repeat respects_step; eauto with layout; try (intros ?; exact (lays_refl _)).

Section Operations.
Context `{Prim : Primitives} `{EnvI : !Env} `{SledI : Sled} `{SrvEnv : ServerEnv} `{CliEnv : ClientEnv}.
Context `{CorEnv : CoreEnv} `{MsgRmp : !Rmp Message} `{BlobRmp : !Rmp BlobPayload}.
Context `{StcRmp : !Rmp ServerToClient} `{CtsRmp : !Rmp ClientToServer}.
Context `{StunRmp : !Rmp StunPing} `{ReplyRmp : !Rmp StunReply}.

Lemma store_file_lay p d : path_slot p = SFile → respects lay (store_file p d).
Proof. intros Hp. unfold store_file, boxed. lay. Qed.

Lemma create_identity_lay pw : respects lay (create_identity pw).
Proof.
  unfold create_identity, generate_x25519, generate_ed25519, encrypt_keyfile, boxed. lay;
    apply store_file_lay, file_slot; rewrite ?elem_of_cons; auto.
Qed.

Lemma unlock_lay pw : respects lay (unlock pw).
Proof. unfold unlock, read_keyfile, read_file_to_buffer. lay. Qed.

Lemma load_peer_data_lay id : respects lay (load_peer_data id).
Proof. unfold load_peer_data, read_file_to_buffer. lay. Qed.
Lemma load_peers_lay : respects lay load_peers.
Proof. unfold load_peers. lay. Qed.
Lemma initialize_peer_lay p v k : respects lay (initialize_peer p v k).
Proof. unfold initialize_peer. lay. Qed.
Lemma remove_if_exists_lay p : sechat_dir `prefix_of` p → respects lay (remove_if_exists p).
Proof. intros Hp. unfold remove_if_exists. lay. Qed.

Lemma chat_parent_way id : dir_way (parent (chat_path id)).
Proof. unfold chat_path. rewrite parent_snoc. apply dir_way_peer. Qed.
#[local] Hint Resolve chat_parent_way : layout.

Lemma load_peer_chat_file_lay id : respects lay (load_peer_chat_file id).
Proof. unfold load_peer_chat_file. lay. Qed.
Lemma encrypt_stored_lay m k : respects lay (encrypt_message_stored m k).
Proof. unfold encrypt_message_stored. lay. Qed.
Lemma insert_message_lay m k db : respects lay (insert_message_stored m k db).
Proof. unfold insert_message_stored, encrypt_message_stored, find_counter. lay. Qed.
Lemma persist_message_lay ks p id t a ts : respects lay (persist_message ks p id t a ts).
Proof. unfold persist_message. lay; [apply load_peer_chat_file_lay|apply insert_message_lay]. Qed.
Lemma scan_items_lay k items : respects lay (scan_items k items).
Proof. induction items as [|[kk v] items IH]; cbn [scan_items]; lay. Qed.
Lemma history_lay ks id : respects lay (history ks id).
Proof. unfold history, load_peer_chat_messages. lay; [apply load_peer_data_lay|apply scan_items_lay]. Qed.

Lemma save_server_lay a : respects lay (save_server a).
Proof. unfold save_server. lay. apply fs_write_lay, file_slot. rewrite !elem_of_cons. auto. Qed.
Lemma load_aliases_lay : respects lay load_aliases.
Proof. unfold load_aliases. lay. Qed.
Lemma set_alias_lay id n : respects lay (set_alias id n).
Proof. unfold set_alias. lay; [apply load_aliases_lay|]. apply fs_write_lay, file_slot. rewrite !elem_of_cons. auto. Qed.
Lemma remove_alias_lay id : respects lay (remove_alias id).
Proof. unfold remove_alias. lay; [apply load_aliases_lay|]. apply fs_write_lay, file_slot. rewrite !elem_of_cons. auto. Qed.

(** ** The server connection, the core and the reconnect loop *)

Definition lay_srv (s s' : Srv) : Prop := lay (s_world s) (s_world s').
#[export] Instance lay_srv_preorder : PreOrder lay_srv.
Proof. split; [intros ?; apply lays_refl|]. intros ???. apply lays_trans. Qed.
Lemma with_world_lay {A} (m : St World A) : respects lay m → respects lay_srv (with_world m).
Proof. intros Hm s. rewrite with_world_eq. apply Hm. Qed.

Definition lay_core (c c' : Core) : Prop := lay_srv (c_srv c) (c_srv c').
#[export] Instance lay_core_preorder : PreOrder lay_core.
Proof. split; [intros ?; apply lays_refl|]. intros ???. apply lays_trans. Qed.
Lemma on_srv_lay {A} (m : St Srv A) : respects lay_srv m → respects lay_core (on_srv m).
Proof. intros Hm c. unfold on_srv. specialize (Hm (c_srv c)). by destruct (m (c_srv c)). Qed.
Lemma on_disk_lay {A} (m : St World A) : respects lay m → respects lay_core (on_disk m).
Proof. intros Hm. by apply on_srv_lay, with_world_lay. Qed.

Definition lay_orch (o o' : Orch) : Prop := lay_core (o_core o) (o_core o').
#[export] Instance lay_orch_preorder : PreOrder lay_orch.
Proof. split; [intros ?; apply lays_refl|]. intros ???. apply lays_trans. Qed.
Lemma on_core_lay {A} (m : St Core A) : respects lay_core m → respects lay_orch (on_core m).
Proof. intros Hm o. rewrite on_core_eq. apply Hm. Qed.

Lemma cts_new_lay m t : respects lay (client_to_server_new m t).
Proof. unfold client_to_server_new. lay. Qed.
End Operations.

#[export] Hint Resolve load_peer_data_lay load_peers_lay initialize_peer_lay remove_if_exists_lay load_peer_chat_file_lay
  insert_message_lay persist_message_lay history_lay save_server_lay load_aliases_lay set_alias_lay remove_alias_lay
  encrypt_stored_lay with_world_lay on_srv_lay on_disk_lay on_core_lay cts_new_lay : layout.

Section Programs.
Context `{Prim : Primitives} `{EnvI : !Env} `{SledI : Sled} `{SrvEnv : ServerEnv} `{CliEnv : ClientEnv}.
Context `{CorEnv : CoreEnv} `{MsgRmp : !Rmp Message} `{BlobRmp : !Rmp BlobPayload}.
Context `{StcRmp : !Rmp ServerToClient} `{CtsRmp : !Rmp ClientToServer}.
Context `{StunRmp : !Rmp StunPing} `{ReplyRmp : !Rmp StunReply}.

Lemma process_blob_lay blob priv : respects lay_srv (process_blob blob priv).
Proof.
  unfold process_blob, handle_blob, purge_peer_chat. lay.
Qed.

Lemma handle_message_lay m priv : respects lay_srv (handle_message m priv).
Proof.
  unfold handle_message, append_online_peer, remove_online_peer, get_or_set_my_address, respond. lay; apply process_blob_lay.
Qed.

Lemma send_wrapped_lay m : respects lay_srv (send_wrapped m).
Proof. unfold send_wrapped, ws_send. repeat respects_step. intros s. destruct (ws_fault _); apply lays_refl. Qed.

Lemma drain_blobs_lay fuel priv : respects lay_srv (drain_blobs fuel priv).
Proof.
  induction fuel as [|fuel IH]; cbn [drain_blobs]; unfold abind, receive_message, ack_blob; lay;
    first [apply process_blob_lay | apply send_wrapped_lay].
Qed.

Lemma run_client_lay f pub sk priv a port ov : respects lay_srv (run_client f pub sk priv a port ov).
Proof.
  unfold run_client, server_initial_handshake, abind, generate_authenticate_message, receive_message, get_or_set_my_address. lay;
    first [apply send_wrapped_lay | apply drain_blobs_lay].
Qed.

Lemma load_online_lay : respects lay_srv load_online_peers.
Proof. unfold load_online_peers. lay. Qed.

Lemma server_send_lay m : respects lay_core (server_send m).
Proof. unfold server_send, use. lay. Qed.
Lemma outbound_send_lay n t : respects lay_core (outbound_send n t).
Proof. unfold outbound_send, use. lay. Qed.
Lemma instant_now_lay : respects lay_core instant_now.
Proof. unfold instant_now, use. lay. Qed.
#[local] Hint Resolve load_online_lay server_send_lay outbound_send_lay instant_now_lay : layout.

Lemma add_peer_lay keys x v : respects lay_core (add_peer keys x v).
Proof. unfold add_peer. lay. Qed.

Lemma contacts_lay : respects lay_core contacts.
Proof. unfold contacts. lay. Qed.

Lemma tell_peers_lay ps gen : respects lay_core (tell_peers ps gen).
Proof. unfold tell_peers. lay. Qed.

Lemma drive_retries_lay keys : respects lay_core (drive_retries keys).
Proof. unfold drive_retries, drive_one, send_punch_request, generate_p2p_request. lay. Qed.

Lemma generate_blob_lay P msg : respects lay (generate_blob P msg).
Proof. unfold generate_blob, encrypt_blob, generate_x25519. lay. Qed.

#[local] Hint Resolve generate_blob_lay tell_peers_lay : layout.
Lemma generate_purge_lay P pub sk : respects lay (generate_purge_message P pub sk).
Proof. unfold generate_purge_message. lay. Qed.
Lemma generate_offline_lay P pub priv t sk : respects lay (generate_offline_message P pub priv t sk).
Proof. unfold generate_offline_message. lay. Qed.
Lemma my_address_lay a : respects lay_srv (get_or_set_my_address a).
Proof. unfold get_or_set_my_address. lay. Qed.
#[local] Hint Resolve generate_purge_lay generate_offline_lay my_address_lay : layout.

Lemma handle_command_lay cmd keys : respects lay_core (handle_command cmd keys).
Proof. unfold handle_command, peer_is_online, delete_peer, purge_peer_chat. lay. Qed.

Lemma handle_server_event_lay ev : respects lay_core (handle_server_event ev).
Proof. unfold handle_server_event. lay. Qed.

Lemma orchestrate_step_lay keys ev : respects lay_core (orchestrate_step keys ev).
Proof.
  unfold orchestrate_step. lay;
    first [apply drive_retries_lay | apply handle_server_event_lay | apply handle_command_lay].
Qed.

Lemma connect_phase_lay keys port rd : respects lay_orch (connect_phase keys port rd).
Proof.
  unfold connect_phase. lay.
  - intros o. unfold on_socket, lay_orch, lay_core, lay_srv, lay.
    match goal with |- context [stun_discover ?a ?b ?c ?d ?n] => pose proof (stun_discover_fs a b c d n) as [Hfs _];
      destruct (stun_discover a b c d n) as [ov net] end. cbn in *. rewrite Hfs. apply lays_refl.
  - apply on_core_lay, on_srv_lay, run_client_lay.
Qed.

Lemma select_loop_lay keys evs : respects lay_orch (select_loop keys evs).
Proof. induction evs as [|ev evs IH]; cbn [select_loop]; lay. apply on_core_lay, orchestrate_step_lay. Qed.

Lemma orchestrate_lay keys port rounds : respects lay_orch (orchestrate keys port rounds).
Proof.
  induction rounds as [|rd rounds IH]; cbn [orchestrate]; unfold orchestrate_round; lay;
    first [apply connect_phase_lay | apply select_loop_lay].
Qed.

(** The path conditions that single operations ask for. *)
Definition paths_clear (fs : gmap path node) : Prop :=
  not_a_dir fs (sechat_dir ++ [str "identity.key"]) ∧ not_a_dir fs (sechat_dir ++ [str "identity.pub"]) ∧
  not_a_dir fs server_config_path ∧ not_a_dir fs aliases_path ∧ clear_path fs peers_dir ∧
  ∀ id, clear_path fs (peer_dir id) ∧ not_a_dir fs (peer_pub_path id) ∧ (∃ d, log_at fs (chat_path id) d).

Lemma layout_paths fs : layout_ok fs → paths_clear fs.
Proof.
  intros Hl. assert (Hway : ∀ p, dir_way p → clear_path fs p).
  { intros p Hp k d Hk. destruct (Hp k) as [Hs Ho]. apply Hl in Hk as [Hn _]; [|done]. by rewrite Hs in Hn. }
  assert (Hfile : ∀ x, x ∈ [str "identity.key"; str "identity.pub"; str "server"; str "aliases"] → not_a_dir fs (sechat_dir ++ [x]))
    by (intros x Hx; by apply slot_not_dir, file_slot).
  unfold paths_clear. split_and!; try (apply Hfile; rewrite !elem_of_cons; tauto).
  - apply Hway, dir_way_peers.
  - intros id. split_and!; [apply Hway, dir_way_peer|by apply slot_not_dir, peer_pub_slot|].
    unfold log_at. destruct (fs !! chat_path id) as [n|] eqn:E; [|by eexists]. apply Hl in E as [Hs _]; [|right; apply chat_inside].
    rewrite chat_slot in Hs. destruct n; [done..|]. by eexists.
Qed.

(** C25: The store is well typed: starting from a layout in which, on the way to
    ~/.sechat and below it, the identity, server, alias and peer files are
    regular files, chat.db is a database, all else is a directory, and every
    node hangs below a directory (an empty home has it), every operation that writes to the disk keeps it, and keeps every file
    and directory elsewhere on the disk, whatever system calls fail, writes to
    a file also half-way: creating an identity, adding a peer, storing and reading
    messages, setting and removing aliases, handling any server message, and
    every run of the reconnect loop with all its commands and events; and in
    such a store the paths are as the operations need them. *)
Theorem store_typed :
  layout_ok ∅ ∧
  (∀ pw, respects lay (create_identity pw)) ∧
  (∀ keys x v, respects lay_core (add_peer keys x v)) ∧
  (∀ keys P id t a ts, respects lay (persist_message keys P id t a ts)) ∧
  (∀ keys id, respects lay (history keys id)) ∧
  (∀ id n, respects lay (set_alias id n)) ∧ (∀ id, respects lay (remove_alias id)) ∧
  (∀ m priv, respects lay_srv (handle_message m priv)) ∧
  (∀ keys port rounds, respects lay_orch (orchestrate keys port rounds)) ∧
  ∀ fs, layout_ok fs → paths_clear fs.
Proof.
  split_and!; intros; auto using create_identity_lay, add_peer_lay, persist_message_lay, history_lay, set_alias_lay,
    remove_alias_lay, handle_message_lay, orchestrate_lay, layout_paths. intros p n _. by rewrite lookup_empty.
Qed.
End Programs.
