(* ===== verification/Handle.v ===== *)
(** * The client handle

    [Client] of src/crates/client/src/lib.rs, through which a front-end talks
    to the core: most requests are commands put into the channel that
    [orchestrate] reads ([f_queue] holds them in order), the others read or
    write the disk themselves. *)

From Stdlib Require Import Strings.Byte.
From S2P Require Import Prelude Bytes Text Primitives World Crypto KeyFile PeerStore ChatDb ServerProto ServerClient ClientFiles ClientCore.

Section Handle.
Context `{Prim : Primitives} `{EnvI : !Env} `{SledI : Sled} `{SrvEnv : ServerEnv} `{CliEnv : ClientEnv}.
Context `{CorEnv : CoreEnv} `{MsgRmp : !Rmp Message} `{BlobRmp : !Rmp BlobPayload}.

Record Client := mkClient {
  cli_keys : Keys;
  cli_my_id : hash;
  cli_my_fingerprint : rstring
}.

(** The state a front-end shares with the core, and the commands it queued. *)
Record Front := mkFront { f_core : Core; f_queue : list Command }.

Definition at_core {A} (m : St Core A) : St Front A :=
  λ f, let '(a, c) := m (f_core f) in (a, mkFront c (f_queue f)).
(** [let _ = self.cmd_tx.send(command)] *)
Definition queue (command : Command) : St Front unit :=
  smodify (λ f, mkFront (f_core f) (f_queue f ++ [command])).

Definition my_id (self : Client) : hash := cli_my_id self.
Definition my_fingerprint (self : Client) : rstring := cli_my_fingerprint self.
Definition my_x25519 (self : Client) : KeyType := pk_bytes (x25519_pub (cli_keys self)).
Definition my_verifying (self : Client) : KeyType := vk_bytes (ed25519_verifying (cli_keys self)).
Definition my_keys_hex (self : Client) : rstring * rstring :=
  (hex_encode (arr_data (my_x25519 self)), hex_encode (arr_data (my_verifying self))).

Definition client_send_message (peer : hash) (text : rstring) : St Front unit := queue (Cmd.Send peer text).
Definition client_connect_peer (peer : hash) : St Front unit := queue (Cmd.Connect peer).
Definition client_set_server (addr : rstring) : St Front unit := queue (Cmd.SetServer addr).
Definition client_purge (peer : hash) : St Front unit := queue (Cmd.Purge peer).
Definition client_remove_peer (peer : hash) : St Front unit := queue (Cmd.RemovePeer peer).
Definition client_shutdown : St Front unit := queue Cmd.Shutdown.

Definition client_add_peer (self : Client) (x25519 verifying : KeyType) : St Front (result hash rstring) :=
  let! (r, announce) := at_core (add_peer (cli_keys self) x25519 verifying) in
  if announce : bool then let! _ := queue Cmd.AnnounceNow in sret r else sret r.
Definition client_contacts : St Front (list Contact) := at_core contacts.
Definition client_resolve_peer (query : rstring) : St Front (option hash) := at_core (resolve_peer query).
Definition client_set_alias (id : hash) (name : rstring) : St Front (result unit rstring) :=
  at_core (on_disk (set_alias id name)).
Definition client_history (self : Client) (peer : hash) : St Front (result (list ChatLine) rstring) :=
  at_core (on_disk (history (cli_keys self) peer)).

(** [Client::start]; [bound] is the outcome of binding the UDP socket. *)
Definition client_start (bound : result unit rstring) (keys : Keys) : result Client rstring :=
  let my_id := identity_hash (x25519_pub keys) (ed25519_verifying keys) in
  match bound with
  | Ok _ => Ok (mkClient keys my_id (fingerprint my_id))
  | Err e => Err (str "failed to bind p2p udp socket: " ++ e)
  end.

(** ** Lemmas *)

Lemma at_core_eq {A} (m : St Core A) f : at_core m f = ((m (f_core f)).1, mkFront (m (f_core f)).2 (f_queue f)).
Proof. unfold at_core. by destruct (m (f_core f)). Qed.

Lemma at_core_queue {A} (m : St Core A) f : f_queue (at_core m f).2 = f_queue f.
Proof. by rewrite at_core_eq. Qed.
End Handle.
