(* ===== verification/Cli.v ===== *)
(** * The terminal front-end

    src/crates/client/src/bin/sechat-cli.rs: unlocking or creating the
    identity, the printing of events, and the command lines.  What is printed
    is recorded line by line. *)

From Stdlib Require Import Strings.Byte.
From S2P Require Import Prelude Bytes Text Primitives Instances World Crypto KeyFile PeerStore ChatDb ServerProto ServerClient ClientFiles ClientCore Handle.

(** Command words have no space; comparing two of them computes. *)
Ltac no_space := refine (bool_decide_unpack _ _); vm_compute; exact I.
Ltac words :=
  repeat match goal with |- context [bool_decide (Some (str ?a) = Some (str ?b))] =>
    let v := eval vm_compute in (bool_decide (Some (str a) = Some (str b))) in
    change (bool_decide (Some (str a) = Some (str b))) with v end.

Section Cli.
Context `{Prim : Primitives} `{EnvI : !Env} `{SledI : Sled} `{SrvEnv : ServerEnv} `{CliEnv : ClientEnv}.
Context `{CorEnv : CoreEnv} `{MsgRmp : !Rmp Message} `{BlobRmp : !Rmp BlobPayload}.

Record Term := mkTerm { tm_front : Front; tm_out : list rstring }.

Definition via {A} (m : St Front A) : St Term A :=
  λ t, let '(a, f) := m (tm_front t) in (a, mkTerm f (tm_out t)).
Definition via_disk {A} (m : St World A) : St Term A := via (at_core (on_disk m)).
Definition println (s : rstring) : St Term unit := smodify (λ t, mkTerm (tm_front t) (tm_out t ++ [s])).
Definition println_all (l : list rstring) : St Term unit := smodify (λ t, mkTerm (tm_front t) (tm_out t ++ l)).

(** Characters of the messages that are not ASCII. *)
Definition dash : rstring := [Char 0x2014 stt].
Definition ellipsis : rstring := [Char 0x2026 stt].
Definition green : rstring := [Char 0x1F7E2 stt].
Definition white : rstring := [Char 0x26AA stt].

(** ** Starting up *)

(** [print!] and [println!] both append an entry. *)
Definition print_prompt : St Term unit := println (str "> ").

(** [rpassword::prompt_password]: what the user answers to a prompt. *)
Definition read_password (prompt_password : rstring → result rstring rstring) (prompt : rstring) :
    St Term (result rstring rstring) := sret (prompt_password prompt).

(** [flushed] is the outcome of [flush], [line] of [read_line]. *)
Definition prompt_line (prompt : rstring) (flushed : result unit rstring) (line : result rstring rstring) :
    St Term (result rstring rstring) :=
  let! _ := println prompt in
  sret (let* _ := flushed in let* s := line in Ok (trim s)).

(** The identity; [None] is a panic of [unlock]. *)
Definition cli_login (prompt_password : rstring → result rstring rstring) : St Term (option (result Keys rstring)) :=
  let! found := via_disk identity_exists in
  if found : bool then
    let! password := read_password prompt_password (str "password: ") in
    match password with
    | Err e => sret (Some (Err e))
    | Ok password => via_disk (unlock password)
    end
  else
    let! _ := println (str "no identity found " ++ dash ++ str " creating a new one") in
    let! password := read_password prompt_password (str "new password: ") in
    match password with
    | Err e => sret (Some (Err e))
    | Ok password =>
        let! confirm := read_password prompt_password (str "confirm password: ") in
        match confirm with
        | Err e => sret (Some (Err e))
        | Ok confirm =>
            if bool_decide (password = confirm)
            then let! r := via_disk (create_identity password) in sret (Some r)
            else sret (Some (Err (str "passwords do not match")))
        end
    end.

(** The server address, prompted for and saved when there is none. *)
Definition cli_server (flushed : result unit rstring) (line : result rstring rstring) : St Term (result rstring rstring) :=
  let! s := via_disk resolve_server in
  match s with
  | Some s => sret (Ok s)
  | None =>
      let? s := prompt_line (str "server address (host:port): ") flushed line in
      let? _ := via_disk (save_server s) in
      sret (Ok s)
  end.

(** ** Events *)

Definition cli_event (self : Client) (ev : AppEvent) : St Term unit :=
  match ev with
  | AE.Connected observed_address => println (str "[connected] observed as " ++ observed_address)
  | AE.PeerOnline _ | AE.PeerOffline _ => sret tt
  | AE.MessageArrived peer _ =>
      let! r := via (client_history self peer) in
      match r with
      | Ok lines =>
          match last lines with
          | Some l =>
              let who := if cl_from_me l then str "you" else fingerprint peer in
              println (str "[msg] " ++ who ++ str ": " ++ cl_text l)
          | None => sret tt
          end
      | Err _ => sret tt
      end
  | AE.HolePunchDenied peer reason => println (str "[denied] " ++ fingerprint peer ++ str ": " ++ reason)
  | AE.SessionUp peer direct =>
      println (str "[session] " ++ fingerprint peer ++ str " connected ("
               ++ (if direct then str "direct" else str "relay") ++ str ")")
  | AE.SessionDown peer => println (str "[session] " ++ fingerprint peer ++ str " ended")
  | AE.ConnectRetrying peer attempt delay_secs =>
      println (str "[retry] " ++ fingerprint peer ++ str " attempt " ++ display_int attempt ++ str " (next in "
               ++ display_int delay_secs ++ str "s)")
  | AE.ConnectGaveUp peer =>
      println (str "[gave up] " ++ fingerprint peer ++ str " " ++ dash ++ str " will retry when it comes online")
  | AE.Disconnected => println (str "[disconnected]")
  | AE.Error e => println (str "[error] " ++ e)
  end.

(** ** Command lines *)

Definition parse32 (hex_str : rstring) : option KeyType :=
  b ← to_option (hex_decode hex_str); try_into 32 b.

Definition find_peer (query : rstring) : St Term (option hash) := via (client_resolve_peer query).

Definition print_help : St Term unit := println_all [
  str "Available commands:";
  str "  peers                           list known contacts + online status";
  str "  mykeys                          print your two public keys to share with peers";
  str "  server [host:port]              show, or change + persist, the relay address";
  str "  add <x25519_hex> <verif_hex>    trust a peer by their two 32-byte keys";
  str "  alias <peer> <name>             set a local name for a peer";
  str "  connect <peer>                  ask the relay to broker a P2P hole-punch";
  str "  msg <peer> <text>               send a message (P2P if live, else offline)";
  str "  history <peer>                  print the stored conversation";
  str "  purge <peer>                    delete the conversation (both sides)";
  str "  remove <peer>                   remove the peer entirely (keys + chat + alias)";
  str "  (<peer> = alias, alias prefix, or fingerprint prefix)";
  str "  help, ?                         show this help message";
  str "  quit, exit                      exit the application" ].

Definition contact_row (c : Contact) : rstring :=
  str "  " ++ (if ct_online c then green else white) ++ str " " ++ contact_label c ++ str " ("
  ++ ct_fingerprint c ++ str ") " ++ default [] (ct_address c).

(** [match find_peer(&cli, fp) { Some(id) => .., None => no such peer }] *)
Definition with_peer (fp : rstring) (k : hash → St Term unit) : St Term unit :=
  let! r := find_peer fp in
  match r with Some id => k id | None => println (str "no such peer") end.

(** The body of the read loop for one line; [false] ends the program. *)
Definition cli_line (self : Client) (input : rstring) : St Term bool :=
  let line := trim input in
  let parts := splitn 3 space_char line in
  let cmd (w : String.string) := bool_decide (head parts = Some (str w)) in
  let arg1 := parts !! 1%nat in
  let arg2 := parts !! 2%nat in
  if cmd "peers" then
    let! cs := via client_contacts in
    let! _ := println_all (map contact_row cs) in sret true
  else if cmd "alias" then
    let! _ := match arg1, arg2 with
      | Some p, Some name =>
          with_peer p (λ id,
            let! r := via (client_set_alias id name) in
            match r with
            | Ok _ => println (str "alias set: " ++ name)
            | Err e => println (str "alias failed: " ++ e)
            end)
      | _, _ => println (str "usage: alias <peer> <name>")
      end in sret true
  else if cmd "mykeys" then
    let '(x, v) := my_keys_hex self in
    let! _ := println_all [str "share these two keys with your peer so they can add you:";
                str "  x25519:   " ++ x; str "  verifying:" ++ v] in sret true
  else if cmd "server" then
    let! _ := match arg1 with
      | None =>
          let! cur := via_disk resolve_server in
          println (str "current server: " ++ default (str "(unset)") cur)
      | Some addr =>
          let! _ := via (client_set_server addr) in
          println (str "switching to " ++ addr ++ str " " ++ ellipsis)
      end in sret true
  else if cmd "add" then
    let! _ := match arg1, arg2 with
      | Some x, Some v =>
          match parse32 x, parse32 v with
          | Some x, Some v =>
              let! r := via (client_add_peer self x v) in
              match r with
              | Ok id => println (str "added " ++ fingerprint id)
              | Err e => println (str "add failed: " ++ e)
              end
          | _, _ => println (str "both keys must be 32-byte hex")
          end
      | _, _ => println (str "usage: add <x25519_hex> <verif_hex>")
      end in sret true
  else if cmd "connect" then
    let! _ := match arg1 with
      | Some fp => with_peer fp (λ id, via (client_connect_peer id))
      | None => println (str "usage: connect <fingerprint>")
      end in sret true
  else if cmd "msg" then
    let! _ := match arg1, arg2 with
      | Some fp, Some text => with_peer fp (λ id, via (client_send_message id text))
      | _, _ => println (str "usage: msg <fingerprint> <text>")
      end in sret true
  else if cmd "purge" then
    let! _ := match arg1 with
      | Some fp => with_peer fp (λ id,
          let! _ := via (client_purge id) in println (str "purged conversation with " ++ fingerprint id))
      | None => println (str "usage: purge <peer>")
      end in sret true
  else if cmd "remove" then
    let! _ := match arg1 with
      | Some fp => with_peer fp (λ id,
          let! _ := via (client_remove_peer id) in println (str "removed peer " ++ fingerprint id))
      | None => println (str "usage: remove <peer>")
      end in sret true
  else if cmd "history" then
    let! _ := match arg1 with
      | Some fp => with_peer fp (λ id,
          let! r := via (client_history self id) in
          match r with
          | Ok lines => println_all (map (λ l, str "  " ++ (if cl_from_me l then str "you" else str "peer")
                          ++ str ": " ++ cl_text l) lines)
          | Err e => println (str "history failed: " ++ e)
          end)
      | None => println (str "usage: history <fingerprint>")
      end in sret true
  else if cmd "help" || cmd "?" then let! _ := print_help in sret true
  else if cmd "quit" || cmd "exit" then let! _ := via client_shutdown in sret false
  else
    let! _ := match head parts with
      | Some (_ :: _) as other =>
          println (str "unknown command: " ++ default [] other ++ str " (try `help`)")
      | _ => sret tt
      end in sret true.

(** The read loop: a read error ends it, and so does the end of the input. *)
Fixpoint cli_loop (self : Client) (inputs : list (result (option rstring) rstring)) :
    St Term (option (result unit rstring)) :=
  match inputs with
  | [] => sret None
  | Err e :: _ => sret (Some (Err e))
  | Ok None :: _ => sret (Some (Ok tt))
  | Ok (Some line) :: inputs' =>
      let! more := cli_line self line in
      if more : bool then let! _ := print_prompt in cli_loop self inputs' else sret (Some (Ok tt))
  end.

(** [main] up to the prompt: the handle and the address; [None] is a panic of
    [unlock].  [bound] is the outcome of binding the UDP socket. *)
Definition cli_startup (prompt_password : rstring → result rstring rstring) (flushed : result unit rstring)
    (line : result rstring rstring) (bound : result unit rstring) : St Term (option (result (Client * rstring) rstring)) :=
  let! keys := cli_login prompt_password in
  match keys with
  | None => sret None
  | Some (Err e) => sret (Some (Err e))
  | Some (Ok keys) =>
      let! server := cli_server flushed line in
      match server with
      | Err e => sret (Some (Err e))
      | Ok server =>
          match client_start bound keys with
          | Err e => sret (Some (Err e))
          | Ok cli =>
              let! _ := println (str "identity " ++ my_fingerprint cli ++ str " " ++ dash
                          ++ str " connecting to " ++ server) in
              sret (Some (Ok (cli, server)))
          end
      end
  end.

(** [main], with the two spawned tasks left out (they are in [Process.v]):
    [None] is a panic of [unlock], or a loop that waits. *)
Definition cli_main (prompt_password : rstring → result rstring rstring) (flushed : result unit rstring)
    (line : result rstring rstring) (bound : result unit rstring)
    (inputs : list (result (option rstring) rstring)) : St Term (option (result unit rstring)) :=
  let! started := cli_startup prompt_password flushed line bound in
  match started with
  | None => sret None
  | Some (Err e) => sret (Some (Err e))
  | Some (Ok (cli, _)) => let! _ := print_prompt in cli_loop cli inputs
  end.

(** ** Lemmas *)

Lemma via_eq {A} (m : St Front A) t : via m t = ((m (tm_front t)).1, mkTerm (m (tm_front t)).2 (tm_out t)).
Proof. unfold via. by destruct (m (tm_front t)). Qed.

(** The words of a line that starts with a word of letters. *)
Lemma splitn_word (w r : rstring) n :
  space_char ∉ w → splitn (S (S n)) space_char (w ++ space_char :: r) = w :: splitn (S n) space_char r.
Proof. intros Hw. cbn [splitn]. by rewrite split_once_app. Qed.

Lemma splitn_last (w : rstring) n : space_char ∉ w → splitn (S n) space_char w = [w].
Proof.
  intros Hw. destruct n; [done|]. cbn [splitn]. by rewrite (proj2 (split_once_None _ _) Hw).
Qed.

Lemma with_peer_run fp k t :
  let r := resolve_peer fp (f_core (tm_front t)) in
  with_peer fp k t =
    match r.1 with Some id => k id | None => println (str "no such peer") end
      (mkTerm (mkFront r.2 (f_queue (tm_front t))) (tm_out t)).
Proof.
  unfold with_peer, find_peer, sbind, client_resolve_peer. rewrite via_eq, at_core_eq. cbn. by destruct (resolve_peer _ _).1.
Qed.

(** What a user can ask of a peer, as the line says it and as the core gets it. *)
Inductive request :=
| RConnect (q : rstring)
| RMsg (q text : rstring)
| RPurge (q : rstring)
| RRemove (q : rstring).

Definition rq_peer (r : request) : rstring :=
  match r with RConnect q | RMsg q _ | RPurge q | RRemove q => q end.
Definition render (r : request) : rstring :=
  match r with
  | RConnect q => str "connect" ++ space_char :: q
  | RMsg q text => str "msg" ++ space_char :: q ++ space_char :: text
  | RPurge q => str "purge" ++ space_char :: q
  | RRemove q => str "remove" ++ space_char :: q
  end.
Definition command_of (r : request) (id : hash) : Command :=
  match r with
  | RConnect _ => Cmd.Connect id
  | RMsg _ text => Cmd.Send id text
  | RPurge _ => Cmd.Purge id
  | RRemove _ => Cmd.RemovePeer id
  end.

(** The line of a request looks the peer up and queues its command. *)
Lemma cli_line_request self r input t :
  trim input = render r → space_char ∉ rq_peer r →
  ∃ k, (∀ id t', f_queue (tm_front (k id t').2) = f_queue (tm_front t') ++ [command_of r id]) ∧
    cli_line self input t = (let! _ := with_peer (rq_peer r) k in sret true) t.
Proof.
  intros Htrim Hq. unfold cli_line. rewrite Htrim.
  destruct r as [q|q text|q|q]; cbn [render rq_peer command_of] in *;
    rewrite splitn_word by no_space; rewrite ?splitn_word by done; rewrite ?(splitn_last q) by done;
    cbn [head lookup list_lookup splitn]; words; cbn [orb]; eexists; (split; [|reflexivity]);
    intros id t'; unfold sbind, client_connect_peer, client_send_message, client_purge, client_remove_peer;
    by rewrite via_eq.
Qed.
End Cli.

Section CliTheorems.
Context `{Prim : Primitives} `{EnvI : !Env} `{SledI : Sled} `{SrvEnv : ServerEnv} `{CliEnv : ClientEnv}.
Context `{CorEnv : CoreEnv} `{MsgRmp : !Rmp Message} `{BlobRmp : !Rmp BlobPayload}.

(** A command line does what it says: a line that, trimmed, reads
    "connect", "msg", "purge" or "remove" with a peer name that has no space
    (and for "msg" any text, spaces included) queues exactly the corresponding
    command for the peer the name resolves to, with the text unchanged; when no
    peer matches, nothing is queued and the user is told. *)
Theorem cli_line_queues self r input t :
  trim input = render r → space_char ∉ rq_peer r →
  match (resolve_peer (rq_peer r) (f_core (tm_front t))).1 with
  | Some id => (cli_line self input t).1 = true ∧
      f_queue (tm_front (cli_line self input t).2) = f_queue (tm_front t) ++ [command_of r id]
  | None => (cli_line self input t).1 = true ∧
      f_queue (tm_front (cli_line self input t).2) = f_queue (tm_front t) ∧
      tm_out (cli_line self input t).2 = tm_out t ++ [str "no such peer"]
  end.
Proof.
  intros Htrim Hq. destruct (cli_line_request self r input t Htrim Hq) as (k & Hk & ->).
  unfold sbind. rewrite with_peer_run.
  destruct (resolve_peer (rq_peer r) (f_core (tm_front t))).1 as [id|]; [|done].
  specialize (Hk id (mkTerm (mkFront (resolve_peer (rq_peer r) (f_core (tm_front t))).2 (f_queue (tm_front t))) (tm_out t))).
  destruct (k id _) as [u t']. by split.
Qed.

Abbreviation disk t := (s_world (c_srv (f_core (tm_front t)))).

Lemma via_disk_eq {A} (m : St World A) t :
  (via_disk m t).1 = (m (disk t)).1 ∧ disk (via_disk m t).2 = (m (disk t)).2.
Proof.
  unfold via_disk, on_disk, on_srv. rewrite via_eq, at_core_eq, with_world_eq. done.
Qed.

Lemma unlock_reads password : respects same_fs (unlock password).
Proof.
  unfold unlock, read_keyfile, read_file_to_buffer. repeat respects_step; apply syscall_reads; intros fs; split_match.
Qed.

(** Logging in never damages an identity: when identity.key is there (and
    the check for it does not fail), or when the new password is not confirmed,
    the whole file system is as before, under any later fault. *)
Theorem login_keeps_identity (prompt_password : rstring → result rstring rstring) t :
  (is_Some (w_fs (disk t) !! (sechat_dir ++ [str "identity.key"])) ∧ io_fault (w_io (disk t)) = None) ∨
    prompt_password (str "new password: ") ≠ prompt_password (str "confirm password: ") →
  w_fs (disk (cli_login prompt_password t).2) = w_fs (disk t).
Proof.
  intros H. unfold cli_login, read_password, sbind. destruct (via_disk_eq identity_exists t) as [Hr Hw].
  destruct (via_disk identity_exists t) as [found t1]. cbn [fst snd] in Hr, Hw.
  assert (Hfs : w_fs (disk t1) = w_fs (disk t)).
  { rewrite Hw. unfold identity_exists, path_exists, syscall. by destruct (io_fault _). }
  destruct found.
  - cbn [sret]. destruct (prompt_password (str "password: ")) as [password|e]; [|done]. rewrite <- Hfs.
    destruct (via_disk_eq (unlock password) t1) as [_ ->]. apply unlock_reads.
  - destruct H as [[Hk Hio]|Hne].
    { exfalso. unfold identity_exists, path_exists, syscall in Hr. rewrite Hio in Hr. cbn in Hr.
      by rewrite bool_decide_eq_true_2 in Hr. }
    cbn [sret println smodify].
    destruct (prompt_password (str "new password: ")) as [p|e]; [|done].
    destruct (prompt_password (str "confirm password: ")) as [q|e]; [|done].
    rewrite bool_decide_eq_false_2 by congruence. done.
Qed.
End CliTheorems.

Module CliWitness.
#[local] Existing Instances toy_prims toy_env list_sled.
#[local] Existing Instances ChatDbWitness.toy_rmp_message ServerWitness.toy_rmp_blob ServerWitness.toy_server
  ClientFilesWitness.toy_client CoreWitness.toy_core.

Definition self : Client := mkClient ChatDbWitness.me ChatDbWitness.id (str "me").
Definition term (w : World) : Term := mkTerm (mkFront (mkCore (ServerWitness.srv w []) ∅ ∅ ∅ [] [] [] [] [] 0) []) [].
Definition talking : Term := term ChatDbWitness.w1.
(** The first letters of the one contact's fingerprint. *)
Definition nick : rstring := take 2 (fingerprint ChatDbWitness.id).
Definition input : rstring := str "  msg " ++ nick ++ str "  hello, how are you? ".

Lemma cli_line_queues_witness :
  f_queue (tm_front (cli_line self input talking).2) = [Cmd.Send ChatDbWitness.id (str " hello, how are you?")].
Proof.
  assert (Hid : (resolve_peer nick (f_core (tm_front talking))).1 = Some ChatDbWitness.id).
  { assert (Hd : arr_data <$> (resolve_peer nick (f_core (tm_front talking))).1 = Some (arr_data ChatDbWitness.id))
      by (vm_compute; reflexivity).
    destruct (resolve_peer nick (f_core (tm_front talking))).1 as [id|]; [|discriminate].
    injection Hd as Hd. f_equal. apply arr_ext, Hd. }
  pose proof (cli_line_queues self (RMsg nick (str " hello, how are you?")) input talking) as H.
  cbn [rq_peer command_of] in H. rewrite Hid in H. apply H.
  - vm_compute. reflexivity.
  - refine (bool_decide_unpack _ _). vm_compute. exact I.
Defined.

(** A world with an identity file; the wrong password is typed. *)
Definition locked : Term := term (mkWorld {[ sechat_dir ++ [str "identity.key"] := NFile (replicate 124 x00) ]} 0 0 0).
Lemma login_keeps_identity_witness :
  w_fs (s_world (c_srv (f_core (tm_front (cli_login (λ _, Ok (str "x")) locked).2)))) =
  {[ sechat_dir ++ [str "identity.key"] := NFile (replicate 124 x00) ]}.
Proof.
  apply (login_keeps_identity (λ _, Ok (str "x")) locked). left. split.
  - exists (NFile (replicate 124 x00)). apply lookup_singleton_eq.
  - reflexivity.
Defined.
End CliWitness.
