(* ===== verification/Process.v ===== *)
(** * The terminal program as a process

    The three tasks of [main] in src/crates/client/src/bin/sechat-cli.rs (the
    read loop, the task that prints events, the task that waits for
    [client::shutdown_signal]) next to everything [Client::start] spawned (the
    machine of [System.v]), over one command channel and one core.  The process
    is over when the read loop returns or the signal task calls
    [std::process::exit]. *)

From Stdlib Require Import Strings.Byte.
From S2P Require Import Prelude Bytes Text Primitives Instances World Crypto KeyFile PeerStore ChatDb Wire Handshake Session.
From S2P Require Import ServerProto ServerClient Tasks ClientFiles ClientCore Connect Conversation Orchestrate System Handle Cli.

Local Open Scope Z_scope.

(** ** Signals *)

Inductive platform := Unix | Windows | OtherOs.
Inductive os_signal := CtrlC | Terminate | CtrlBreak.
#[global] Instance os_signal_eq : EqDecision os_signal.
Proof. solve_decision. Defined.

(** A future that resolves with the first signal it listens to: the signals
    that come after it, or [None] while it waits. *)
Fixpoint first_of (wanted : os_signal → bool) (sigs : list os_signal) : option (list os_signal) :=
  match sigs with
  | [] => None
  | s :: sigs' => if wanted s then Some sigs' else first_of wanted sigs'
  end.

(** [let _ = tokio::signal::ctrl_c().await]: when the handler cannot be
    installed the error is dropped and the future is ready at once. *)
Definition ctrl_c (installed : bool) (sigs : list os_signal) : option (list os_signal) :=
  if installed then first_of (λ s, bool_decide (s = CtrlC)) sigs else Some sigs.
(** [tokio::select!] between [ctrl_c] and another signal. *)
Definition ctrl_c_or (other : os_signal) (installed : bool) (sigs : list os_signal) : option (list os_signal) :=
  if installed then first_of (λ s, bool_decide (s = CtrlC ∨ s = other)) sigs else Some sigs.

(** [installed]: the Ctrl-C handler; [second]: the one of the platform's other
    signal. *)
Definition shutdown_signal (os : platform) (installed second : bool) (sigs : list os_signal) : option (list os_signal) :=
  match os with
  | Unix => if second then ctrl_c_or Terminate installed sigs else ctrl_c installed sigs
  | Windows => if second then ctrl_c_or CtrlBreak installed sigs else ctrl_c installed sigs
  | OtherOs => ctrl_c installed sigs
  end.

(** The signals that a process with its handlers in place reacts to. *)
Definition listens (os : platform) (second : bool) (s : os_signal) : bool :=
  match s, os with
  | CtrlC, _ => true
  | Terminate, Unix | CtrlBreak, Windows => second
  | _, _ => false
  end.

Lemma first_of_None wanted sigs : first_of wanted sigs = None ↔ Forall (λ s, wanted s = false) sigs.
Proof.
  induction sigs as [|s sigs IH]; cbn; [done|]. rewrite Forall_cons. destruct (wanted s); [|by rewrite IH; tauto].
  split; [done|by intros []].
Qed.

Lemma shutdown_signal_waits os second sigs :
  shutdown_signal os true second sigs = None ↔ Forall (λ s, listens os second s = false) sigs.
Proof.
  assert (Hext : ∀ f g : os_signal → bool, (∀ s, f s = g s) →
    first_of f sigs = None ↔ Forall (λ s, g s = false) sigs).
  { intros f g Hfg. rewrite first_of_None. by setoid_rewrite Hfg. }
  unfold shutdown_signal, ctrl_c, ctrl_c_or. destruct os, second; apply Hext; by intros [].
Qed.

(** ** The process *)

Create HintDb stop.

#[global] Instance command_eq : EqDecision Command.
Proof. solve_decision. Defined.

Section Process.
Context `{Prim : Primitives} `{EnvI : !Env} `{SledI : Sled} `{SrvEnv : ServerEnv} `{CliEnv : ClientEnv}.
Context `{CorEnv : CoreEnv} `{MsgRmp : !Rmp Message} `{BlobRmp : !Rmp BlobPayload}.
Context `{StcRmp : !Rmp ServerToClient} `{CtsRmp : !Rmp ClientToServer}.
Context `{StunRmp : !Rmp StunPing} `{ReplyRmp : !Rmp StunReply}.
Context `{PmRmp : !Rmp PeerMessage} `{PingRmp : !Rmp Ping}.
Context (self : Client) (udp_port : Z) (eph_priv : nat → StaticSecret) (net : nat → Net).
Context (os : platform) (installed second : bool).

(** Where the read loop and the signal task are. *)
Inductive main_state := Reading | Quitting.
Inductive sig_state := Listening | Leaving.
Inductive exit_status := Main (r : result unit rstring) | Signalled.

(** The client, the commands put into the channel and how many of them
    [orchestrate] took, what was printed, the events printed, the signals. *)
Record Proc := mkProc {
  p_sys : Sys;
  p_cmds : list Command;
  p_taken : nat;
  p_out : list rstring;
  p_printed : nat;
  p_sigs : list os_signal;
  p_main : main_state;
  p_sig : sig_state;
  p_exit : option exit_status
}.

(** A task of the front-end acts on the terminal, the channel and the core. *)
Definition at_terminal {A} (m : St Term A) (p : Proc) : A * Proc :=
  let '(a, t) := m (mkTerm (mkFront (core_of (p_sys p)) (p_cmds p)) (p_out p)) in
  (a, mkProc (put_core (f_core (tm_front t)) (p_sys p)) (f_queue (tm_front t)) (p_taken p) (tm_out t) (p_printed p)
        (p_sigs p) (p_main p) (p_sig p) (p_exit p)).
Definition set_main (m : main_state) (p : Proc) : Proc :=
  mkProc (p_sys p) (p_cmds p) (p_taken p) (p_out p) (p_printed p) (p_sigs p) m (p_sig p) (p_exit p).
Definition set_sig (s : sig_state) (p : Proc) : Proc :=
  mkProc (p_sys p) (p_cmds p) (p_taken p) (p_out p) (p_printed p) (p_sigs p) (p_main p) s (p_exit p).
Definition exit_with (e : exit_status) (p : Proc) : Proc :=
  mkProc (p_sys p) (p_cmds p) (p_taken p) (p_out p) (p_printed p) (p_sigs p) (p_main p) (p_sig p) (Some e).

Inductive plabel :=
| Input (r : result (option rstring) rstring)   (* [lines.next_line().await] *)
| QuitSlept                                     (* the 300 ms after [quit] *)
| PrintEvent                                    (* [events.recv().await] *)
| Raise (s : os_signal)
| SigReady                                      (* [shutdown_signal().await] returns *)
| SigSlept                                      (* the 300 ms after it *)
| CoreStep (l : slabel).

(** The signal task once [shutdown_signal] is ready. *)
Definition signal_task : St Term unit :=
  let! _ := println (Char 10 stt :: str "shutting down" ++ ellipsis) in
  via client_shutdown.

(** The client's own tasks; a command comes out of the channel, which is not
    closed while the read loop holds its handle. *)
Definition core_step (l : slabel) (p : Proc) : option Proc :=
  let run taken :=
    y ← sys_step (cli_keys self) udp_port eph_priv net l (p_sys p);
    Some (mkProc y (p_cmds p) taken (p_out p) (p_printed p) (p_sigs p) (p_main p) (p_sig p) (p_exit p)) in
  match l with
  | Branch (CmdEv None) => None
  | Branch (CmdEv (Some c)) =>
      match p_cmds p !! p_taken p with
      | Some c' => if decide (c' = c) then run (S (p_taken p)) else None
      | None => None
      end
  | _ => run (p_taken p)
  end.

Definition pstep (l : plabel) (p : Proc) : option Proc :=
  match p_exit p with
  | Some _ => None
  | None =>
      match l with
      | Input r =>
          match p_main p with
          | Quitting => None
          | Reading =>
              match r with
              | Err e => Some (exit_with (Main (Err e)) p)
              | Ok None => Some (exit_with (Main (Ok tt)) p)
              | Ok (Some line) =>
                  let '(more, p') := at_terminal (cli_line self line) p in
                  Some (if more : bool then (at_terminal print_prompt p').2 else set_main Quitting p')
              end
          end
      | QuitSlept => match p_main p with Quitting => Some (exit_with (Main (Ok tt)) p) | Reading => None end
      | PrintEvent =>
          match c_app (core_of (p_sys p)) !! p_printed p with
          | Some ev =>
              let p' := (at_terminal (cli_event self ev) p).2 in
              Some (mkProc (p_sys p') (p_cmds p') (p_taken p') (p_out p') (S (p_printed p)) (p_sigs p') (p_main p') (p_sig p') (p_exit p'))
          | None => None
          end
      | Raise s =>
          Some (mkProc (p_sys p) (p_cmds p) (p_taken p) (p_out p) (p_printed p) (p_sigs p ++ [s]) (p_main p) (p_sig p) (p_exit p))
      | SigReady =>
          match p_sig p, shutdown_signal os installed second (p_sigs p) with
          | Listening, Some _ => Some (set_sig Leaving (at_terminal signal_task p).2)
          | _, _ => None
          end
      | SigSlept => match p_sig p with Leaving => Some (exit_with Signalled p) | Listening => None end
      | CoreStep l => core_step l p
      end
  end.

Fixpoint prun (ls : list plabel) (p : Proc) : option Proc :=
  match ls with [] => Some p | l :: ls' => p' ← pstep l p; prun ls' p' end.

Lemma prun_app ls1 ls2 p : prun (ls1 ++ ls2) p = p1 ← prun ls1 p; prun ls2 p1.
Proof. revert p. induction ls1 as [|l ls1 IH]; intros p; cbn; [done|]. destruct (pstep l p); cbn; [apply IH|done]. Qed.

(** After [cli_startup]: what was printed so far, and the first prompt. *)
Definition proc_start (s : Srv) (server_address : rstring) (printed : list rstring) : Proc :=
  (at_terminal print_prompt (mkProc (sys_start s server_address) [] 0 printed 0 [] Reading Listening None)).2.

(** ** Lemmas *)

(** Commands may be added to the channel, but not [Shutdown]. *)
Definition no_stop (t t' : Term) : Prop :=
  ∃ cmds, f_queue (tm_front t') = f_queue (tm_front t) ++ cmds ∧ Cmd.Shutdown ∉ cmds.

#[local] Instance no_stop_preorder : PreOrder no_stop.
Proof.
  split.
  - intros t. exists []. rewrite app_nil_r. split; [done|apply not_elem_of_nil].
  - intros t1 t2 t3 (c1 & E1 & N1) (c2 & E2 & N2). exists (c1 ++ c2). rewrite E2, E1, app_assoc. split; [done|].
    by rewrite not_elem_of_app.
Qed.

Lemma quiet_no_stop {A} (m : St Term A) : (∀ t, f_queue (tm_front (m t).2) = f_queue (tm_front t)) → respects no_stop m.
Proof. intros Hm t. exists []. rewrite Hm, app_nil_r. split; [done|apply not_elem_of_nil]. Qed.

Lemma println_no_stop s : respects no_stop (println s).
Proof. by apply quiet_no_stop. Qed.
Lemma println_all_no_stop l : respects no_stop (println_all l).
Proof. by apply quiet_no_stop. Qed.
Lemma at_core_no_stop {A} (m : St Core A) : respects no_stop (via (at_core m)).
Proof. apply quiet_no_stop. intros t. by rewrite via_eq, at_core_eq. Qed.
Lemma queue_no_stop c : c ≠ Cmd.Shutdown → respects no_stop (via (queue c)).
Proof. intros Hc t. exists [c]. rewrite via_eq. split; [done|]. by rewrite list_elem_of_singleton. Qed.
Lemma add_peer_no_stop x v : respects no_stop (via (client_add_peer self x v)).
Proof.
  intros t. unfold client_add_peer. rewrite via_eq. unfold sbind. rewrite at_core_eq. destruct (add_peer _ _ _ _) as [[r []] c]; cbn.
  - exists [Cmd.AnnounceNow]. split; [done|]. by rewrite list_elem_of_singleton.
  - exists []. rewrite app_nil_r. split; [done|apply not_elem_of_nil].
Qed.
Hint Resolve println_no_stop println_all_no_stop at_core_no_stop add_peer_no_stop : stop.
Hint Extern 1 (respects no_stop (via _)) => apply queue_no_stop; discriminate : stop.

Ltac no_stop := repeat first [progress auto with stop | respects_step].

Lemma with_peer_no_stop fp (k : hash → St Term unit) : (∀ id, respects no_stop (k id)) → respects no_stop (with_peer fp k).
Proof. intros Hk. unfold with_peer, find_peer, client_resolve_peer. no_stop. Qed.

Lemma cli_event_no_stop ev : respects no_stop (cli_event self ev).
Proof. unfold cli_event, client_history. no_stop. Qed.

(** A line that asks to leave. *)
Definition leaves (input : rstring) : bool :=
  let cmd (w : String.string) := bool_decide (head (splitn 3 space_char (trim input)) = Some (str w)) in
  cmd "quit" || cmd "exit".

Lemma cli_line_leaves input t :
  leaves input = true →
  cli_line self input t =
    (false, mkTerm (mkFront (f_core (tm_front t)) (f_queue (tm_front t) ++ [Cmd.Shutdown])) (tm_out t)).
Proof.
  unfold leaves, cli_line. intros H. apply orb_true_iff in H as [H|H]; apply bool_decide_eq_true in H; rewrite H;
    words; cbn [orb]; unfold sbind; by rewrite via_eq.
Qed.

Lemma cli_line_stays input :
  leaves input = false → respects no_stop (cli_line self input) ∧ ∀ t, (cli_line self input t).1 = true.
Proof.
  unfold leaves, cli_line. intros H. apply orb_false_iff in H as [Hq He]. rewrite Hq, He. cbn [orb]. split.
  - unfold client_contacts, client_set_alias, client_set_server, client_connect_peer, client_send_message, client_purge,
      client_remove_peer, client_history, via_disk, print_help. repeat (no_stop; try (apply with_peer_no_stop; intros ?)).
  - repeat match goal with |- context [if bool_decide ?P then _ else _] => destruct (bool_decide P) end;
      intros t; unfold sbind; cbn [orb]; try match goal with |- context [if bool_decide ?P || bool_decide ?Q then _ else _] =>
        destruct (bool_decide P || bool_decide Q) end; by repeat (case_match; simplify_eq/=).
Qed.

(** A front-end task leaves the loop where it is. *)
Lemma at_terminal_eq {A} (m : St Term A) p :
  let r := m (mkTerm (mkFront (core_of (p_sys p)) (p_cmds p)) (p_out p)) in
  at_terminal m p = (r.1, mkProc (put_core (f_core (tm_front r.2)) (p_sys p)) (f_queue (tm_front r.2)) (p_taken p)
    (tm_out r.2) (p_printed p) (p_sigs p) (p_main p) (p_sig p) (p_exit p)).
Proof. unfold at_terminal. by destruct (m _). Qed.

Lemma first_of_app wanted sigs s : is_Some (first_of wanted sigs) → is_Some (first_of wanted (sigs ++ [s])).
Proof. induction sigs as [|s0 sigs IH]; cbn; [by intros []|]. destruct (wanted s0); [by eexists|done]. Qed.

Lemma shutdown_signal_app sigs s :
  is_Some (shutdown_signal os installed second sigs) → is_Some (shutdown_signal os installed second (sigs ++ [s])).
Proof.
  unfold shutdown_signal, ctrl_c, ctrl_c_or. destruct os, second, installed; (by apply first_of_app) || by eexists.
Qed.

(** The loop returns only for [Shutdown] and for a closed channel. *)
Lemma orchestrate_returns keys ev c :
  (orchestrate_step keys ev c).1 = Return → ev = CmdEv None ∨ ev = CmdEv (Some Cmd.Shutdown).
Proof.
  destruct ev as [|[e|]|[cmd|]]; [|destruct e| |destruct cmd|by left]; cbn [orchestrate_step]; unfold sbind;
    repeat (case_match; simplify_eq/=); by (done || right).
Qed.

Lemma select_returns keys ev o :
  (select_loop keys [ev] o).1 = Returned → ev = CmdEv None ∨ ev = CmdEv (Some Cmd.Shutdown).
Proof.
  cbn [select_loop]. unfold sbind. rewrite on_core_eq. intros H. apply (orchestrate_returns keys ev (o_core o)).
  destruct (orchestrate_step keys ev (o_core o)) as [[|srv|] c]; cbn [fst snd] in *; [done| |done].
  revert H. repeat (case_match; simplify_eq/=); done.
Qed.

Lemma sys_step_stops l y y' :
  sys_step (cli_keys self) udp_port eph_priv net l y = Some y' → y_mode y' = Stopped →
  y_mode y = Stopped ∨ l = Branch (CmdEv None) ∨ l = Branch (CmdEv (Some Cmd.Shutdown)).
Proof.
  destruct l as [rd|ev|l|t|j ev]; cbn [sys_step].
  - destruct (y_mode y); try done. destruct (connect_phase _ _ _ _) as [[[| | |]|e] o]; by intros [= <-].
  - destruct (y_mode y) eqn:Hm; try done. destruct (select_loop _ [ev] _) as [st o] eqn:Hs. intros [= <-].
    rewrite (proj2 (hand_over_orch _ _)). cbn [y_mode put_orch]. destruct st; try done. intros _. right.
    destruct (select_returns (cli_keys self) ev (y_orch y)) as [->| ->]; [by rewrite Hs|by left|by right].
  - destruct (task_label l); [|done]. destruct (cstep _ _ _ l _); [|done]. intros [= <-] Hm. by left.
  - destruct (y_tasks y !! t) as [[a ph]|]; [|done]. destruct ph; try done. destruct (cstep _ _ _ _ _); [|done].
    intros [= <-] Hm. by left.
  - destruct (y_pumps y !! j) as [a|]; [|done]. destruct (pump _ _ _ _ _) as [ended c]. intros [= <-] Hm. by left.
Qed.

(** Who asked the program to stop is who put [Shutdown] into the channel. *)
Record asked (p : Proc) : Prop := {
  asked_cmds : Cmd.Shutdown ∈ p_cmds p ↔ p_main p = Quitting ∨ p_sig p = Leaving;
  asked_mode : y_mode (p_sys p) = Stopped → Cmd.Shutdown ∈ p_cmds p;
  asked_sig : p_sig p = Leaving → is_Some (shutdown_signal os installed second (p_sigs p));
  asked_exit : p_exit p = Some Signalled → p_sig p = Leaving
}.

Lemma asked_terminal {A} (m : St Term A) p : respects no_stop m → asked p → asked (at_terminal m p).2.
Proof.
  intros Hm [Hc Ho Hs He]. rewrite at_terminal_eq. destruct (Hm (mkTerm (mkFront (core_of (p_sys p)) (p_cmds p)) (p_out p)))
    as (cmds & Eq & Hn). cbn [snd]. cbn [tm_front f_queue] in Eq. split; cbn; rewrite ?Eq, ?elem_of_app; [tauto|tauto|done|done].
Qed.

Lemma asked_core l p p' : core_step l p = Some p' → asked p → asked p'.
Proof.
  intros Hstep [Hc Ho Hs He].
  assert (H : ∃ y taken, sys_step (cli_keys self) udp_port eph_priv net l (p_sys p) = Some y ∧
    p' = mkProc y (p_cmds p) taken (p_out p) (p_printed p) (p_sigs p) (p_main p) (p_sig p) (p_exit p) ∧
    l ≠ Branch (CmdEv None) ∧ (l = Branch (CmdEv (Some Cmd.Shutdown)) → Cmd.Shutdown ∈ p_cmds p)).
  { unfold core_step in Hstep.
    assert (Hrun : ∀ taken, (y ← sys_step (cli_keys self) udp_port eph_priv net l (p_sys p);
      Some (mkProc y (p_cmds p) taken (p_out p) (p_printed p) (p_sigs p) (p_main p) (p_sig p) (p_exit p))) = Some p' →
      ∃ y, sys_step (cli_keys self) udp_port eph_priv net l (p_sys p) = Some y ∧
        p' = mkProc y (p_cmds p) taken (p_out p) (p_printed p) (p_sigs p) (p_main p) (p_sig p) (p_exit p)).
    { intros taken Ht. destruct (sys_step _ _ _ _ l (p_sys p)); cbn in Ht; simplify_eq; eauto. }
    destruct l as [rd|[|e|[c|]]|l|t|j ev]; try done;
      [..|destruct (p_cmds p !! p_taken p) as [c'|] eqn:Hl; [|done]; destruct (decide (c' = c)) as [->|]; [|done]| | |];
      destruct (Hrun _ Hstep) as (y & Hy & ->); eexists y, _; (split_and!; [done|done|done|]); try done.
    intros [= ->]. by eapply list_elem_of_lookup_2. }
  destruct H as (y & taken & Hy & -> & Hnone & Hshut). split; cbn; [done| |done|done].
  intros Hm. destruct (sys_step_stops _ _ _ Hy Hm) as [?|[?|?]]; [by apply Ho|done|by apply Hshut].
Qed.

Lemma signal_task_eq t :
  (signal_task t).2 = mkTerm (mkFront (f_core (tm_front t)) (f_queue (tm_front t) ++ [Cmd.Shutdown]))
    (tm_out t ++ [Char 10 stt :: str "shutting down" ++ ellipsis]).
Proof. unfold signal_task, sbind, client_shutdown, println, smodify. by rewrite via_eq. Qed.

Lemma asked_step l p p' : pstep l p = Some p' → asked p → asked p'.
Proof.
  unfold pstep. destruct (p_exit p) eqn:Hex; [done|]. intros Hstep Ha. destruct l as [r| | |sg| | |l].
  - destruct (p_main p) eqn:Hm; [|done].
    destruct r as [[line|]|e]; [|by injection Hstep as <-; destruct Ha as [? ? ? ?]; split; cbn..].
    rewrite (surjective_pairing (at_terminal (cli_line self line) p)) in Hstep. apply (inj Some) in Hstep as <-.
    destruct (leaves line) eqn:Hl.
    + rewrite at_terminal_eq, cli_line_leaves by done. destruct Ha as [Hc Ho Hs He]. cbn [fst snd]. split; cbn; [|set_solver|done|congruence].
      set_solver.
    + destruct (cli_line_stays line Hl) as [Hns Htrue].
      assert (Hmore : (at_terminal (cli_line self line) p).1 = true) by (rewrite at_terminal_eq; apply Htrue).
      rewrite Hmore. apply asked_terminal; [apply println_no_stop|by apply asked_terminal].
  - destruct (p_main p) eqn:Hm; [done|]. injection Hstep as <-. by destruct Ha as [? ? ? ?]; split.
  - destruct (c_app _ !! p_printed p) as [ev|]; [|done]. injection Hstep as <-.
    destruct (asked_terminal (cli_event self ev) p (cli_event_no_stop ev) Ha) as [? ? ? ?]. by split.
  - injection Hstep as <-. destruct Ha as [Hc Ho Hs He]. split; cbn; [done|done| |done]. intros Hl. by apply shutdown_signal_app, Hs.
  - destruct (p_sig p) eqn:Hsig; [|done]. destruct (shutdown_signal os installed second (p_sigs p)) eqn:Hready; [|done].
    apply (inj Some) in Hstep as <-. rewrite at_terminal_eq. cbn [snd]. rewrite signal_task_eq. destruct Ha as [Hc Ho Hs He].
    split; cbn; [set_solver|set_solver|by eexists|done].
  - destruct (p_sig p) eqn:Hsig; [done|]. injection Hstep as <-. by destruct Ha as [? ? ? ?]; split.
  - by eapply asked_core.
Qed.

Lemma asked_run ls p p' : prun ls p = Some p' → asked p → asked p'.
Proof.
  revert p. induction ls as [|l ls IH]; intros p; cbn [prun]; [by intros [= <-]|].
  destruct (pstep l p) as [p1|] eqn:Hl; cbn [mbind option_bind]; [|done]. intros Hrun Ha. eapply IH; [done|]. by eapply asked_step.
Qed.

Lemma asked_start s server_address printed : asked (proc_start s server_address printed).
Proof. apply asked_terminal; [apply println_no_stop|]. split; cbn; [|done..]. split; [set_solver|by intros []]. Qed.

(** The schedule shows a line that leaves, or a signal listened to. *)
Definition raised (ls : list plabel) : list os_signal :=
  omap (λ l, match l with Raise s => Some s | _ => None end) ls.
Definition line_asks (ls : list plabel) : Prop := ∃ line, Input (Ok (Some line)) ∈ ls ∧ leaves line = true.
Definition signal_asks (ls : list plabel) : Prop := ∃ s, s ∈ raised ls ∧ listens os second s = true.

(** The read loop stops only for such a line; no signal is invented. *)
Lemma pstep_history l p p' :
  pstep l p = Some p' →
  (p_main p' = Quitting → p_main p = Quitting ∨ line_asks [l]) ∧ p_sigs p' = p_sigs p ++ raised [l].
Proof.
  unfold pstep. destruct (p_exit p); [done|]. intros Hstep. destruct l as [r| | |sg| | |l]; cbn [raised omap list_omap].
  - destruct (p_main p) eqn:Hm; [|done]. destruct r as [[line|]|e]; [|injection Hstep as <-; cbn; by rewrite app_nil_r, Hm..].
    rewrite (surjective_pairing (at_terminal (cli_line self line) p)) in Hstep. apply (inj Some) in Hstep as <-.
    destruct (leaves line) eqn:Hl.
    + split; [|by rewrite !at_terminal_eq, app_nil_r; case_match]. right. exists line. split; [by left|done].
    + assert (Hmore : (at_terminal (cli_line self line) p).1 = true) by (rewrite at_terminal_eq; by apply cli_line_stays).
      rewrite Hmore, !at_terminal_eq, app_nil_r. cbn. by rewrite Hm.
  - destruct (p_main p) eqn:Hm; [done|]. injection Hstep as <-. cbn. rewrite app_nil_r. by split; [left|].
  - destruct (c_app _ !! p_printed p) as [ev|]; [|done]. apply (inj Some) in Hstep as <-. rewrite !at_terminal_eq. cbn.
    rewrite app_nil_r. by split; [left|].
  - injection Hstep as <-. by split; [left|].
  - destruct (p_sig p); [|done]. destruct (shutdown_signal _ _ _ _); [|done]. apply (inj Some) in Hstep as <-.
    rewrite !at_terminal_eq. cbn. rewrite app_nil_r. by split; [left|].
  - destruct (p_sig p); [done|]. injection Hstep as <-. cbn. rewrite app_nil_r. by split; [left|].
  - rewrite app_nil_r. unfold core_step in Hstep. revert Hstep.
    repeat case_match; try done; (destruct (sys_step _ _ _ _ _ _); cbn; [|done]); intros [= <-]; by split; [left|].
Qed.

Lemma prun_history ls p p' :
  prun ls p = Some p' →
  (p_main p' = Quitting → p_main p = Quitting ∨ line_asks ls) ∧ p_sigs p' = p_sigs p ++ raised ls.
Proof.
  revert p. induction ls as [|l ls IH]; intros p; cbn [prun].
  { intros [= <-]. rewrite app_nil_r. by split; [left|]. }
  destruct (pstep l p) as [p1|] eqn:Hl; cbn [mbind option_bind]; [|done]. intros Hrun.
  destruct (pstep_history l p p1 Hl) as [H1 S1]. destruct (IH p1 Hrun) as [H2 S2].
  split; [|rewrite S2, S1, <- app_assoc; f_equal; exact (eq_sym (omap_app _ [l] ls))].
  intros Hq. destruct (H2 Hq) as [Hq1|(line & Hin & Hl1)]; [|right; exists line; split; [by right|done]].
  destruct (H1 Hq1) as [|(line & Hin%list_elem_of_singleton & Hl1)]; [by left|]. right. exists line. rewrite Hin. split; [left|done].
Qed.

Lemma leaving_signal ls :
  installed = true → is_Some (shutdown_signal os installed second (raised ls)) → signal_asks ls.
Proof.
  intros -> Hs. destruct (decide (Forall (λ s, listens os second s = false) (raised ls))) as [Hf|Hf].
  { rewrite (proj2 (shutdown_signal_waits _ _ _) Hf) in Hs. by destruct Hs. }
  apply not_Forall_Exists in Hf; [|apply _]. apply Exists_exists in Hf as (sg & Hin & Hl). exists sg. split; [done|].
  by apply not_false_iff_true.
Qed.

(** C17: The client's loop is stopped only when it is asked to be, by a line or
    a signal (the process also ends with its input).  In every interleaving of
    the read loop, the printing of events, the signal task and everything the
    client spawned: when [Shutdown] is in the command channel, when the
    reconnect loop has returned, or when the process has exited from the signal
    task, then a line [quit] or [exit] was read or a signal arrived that the
    platform listens to (and only the latter for an exit by signal), given that
    the Ctrl-C handler could be installed. *)
Theorem stops_only_when_asked ls s server_address printed p :
  installed = true → prun ls (proc_start s server_address printed) = Some p →
  (Cmd.Shutdown ∈ p_cmds p ∨ y_mode (p_sys p) = Stopped → line_asks ls ∨ signal_asks ls) ∧
  (p_exit p = Some Signalled → signal_asks ls).
Proof.
  intros Hi Hrun. destruct (prun_history _ _ _ Hrun) as [Hm Hsig].
  destruct (asked_run _ _ _ Hrun (asked_start s server_address printed)) as [Hc Ho Hs He].
  change (p_sigs p = raised ls) in Hsig. rewrite Hsig in Hs.
  assert (Hleave : p_sig p = Leaving → signal_asks ls) by (intros; by apply leaving_signal, Hs).
  assert (Hcmd : Cmd.Shutdown ∈ p_cmds p → line_asks ls ∨ signal_asks ls).
  { intros [Hq|Hl]%Hc; [|by right; apply Hleave]. destruct (Hm Hq); [done|by left]. }
  split; [|by intros ?%He%Hleave]. intros [?|?%Ho]; by apply Hcmd.
Qed.

(** C38: The end of the input is no farewell: when the terminal closes (or
    Ctrl-D is typed) before a [quit] or a signal, the read loop returns and the
    process is over at once.  [Shutdown] was never put into the channel, so the
    reconnect loop never ran its shutdown: no peer was told, and the sessions
    are still in the map. *)
Theorem end_of_input_skips_shutdown ls s server_address printed p :
  prun ls (proc_start s server_address printed) = Some p →
  p_exit p = None → p_main p = Reading → p_sig p = Listening →
  ∃ p', pstep (Input (Ok None)) p = Some p' ∧ p_exit p' = Some (Main (Ok tt)) ∧ (∀ l, pstep l p' = None) ∧
    (Cmd.Shutdown ∉ p_cmds p') ∧ y_mode (p_sys p') ≠ Stopped ∧ p_sys p' = p_sys p.
Proof.
  intros Hrun Hex Hm Hsig. destruct (asked_run _ _ _ Hrun (asked_start s server_address printed)) as [Hc Ho _ _].
  assert (Hn : Cmd.Shutdown ∉ p_cmds p) by (rewrite Hc, Hm, Hsig; by intros []).
  exists (exit_with (Main (Ok tt)) p). unfold pstep at 1. rewrite Hex, Hm. split_and!; try done. by intros ?%Ho.
Qed.

(** A way to ask, its labels, whether it is heard, and how the process ends. *)
Inductive stop_request := ByLine (line : rstring) | BySignal (s : os_signal).
Definition ask (r : stop_request) : list plabel :=
  match r with ByLine line => [Input (Ok (Some line))] | BySignal s => [Raise s; SigReady] end.
Definition heard (r : stop_request) : bool :=
  match r with ByLine line => leaves line | BySignal s => listens os second s end.
Definition slept (r : stop_request) : plabel := match r with ByLine _ => QuitSlept | BySignal _ => SigSlept end.
Definition ends (r : stop_request) : exit_status :=
  match r with ByLine _ => Main (Ok tt) | BySignal _ => Signalled end.

Lemma listens_ready sigs s : listens os second s = true → is_Some (shutdown_signal os installed second (sigs ++ [s])).
Proof.
  intros Hl. destruct installed; [|unfold shutdown_signal, ctrl_c, ctrl_c_or; destruct os, second; by eexists].
  apply not_eq_None_Some. rewrite shutdown_signal_waits, Forall_app, Forall_singleton. rewrite Hl. by intros [].
Qed.

Lemma put_core_same y : put_core (core_of y) y = y.
Proof. by destruct y as [m [] tasks pumps inbox fresh]. Qed.

(** Asking leaves the client as it was, with [Shutdown] in the channel. *)
Lemma ask_queues r p :
  heard r = true → p_exit p = None → p_main p = Reading → p_sig p = Listening →
  ∃ p1, prun (ask r) p = Some p1 ∧ p_sys p1 = p_sys p ∧ p_cmds p1 = p_cmds p ++ [Cmd.Shutdown] ∧ p_taken p1 = p_taken p ∧
    p_exit p1 = None ∧ match r with ByLine _ => p_main p1 = Quitting | BySignal _ => p_sig p1 = Leaving end.
Proof.
  intros Hh Hex Hm Hs. destruct r as [line|sg]; cbn [ask heard prun] in *.
  - unfold pstep. rewrite Hex, Hm. rewrite at_terminal_eq, cli_line_leaves by done. cbn [fst snd mbind option_bind].
    eexists. split; [reflexivity|]. cbn. by rewrite put_core_same.
  - set (p0 := mkProc (p_sys p) (p_cmds p) (p_taken p) (p_out p) (p_printed p) (p_sigs p ++ [sg]) (p_main p) (p_sig p) None).
    assert (Hr : pstep (Raise sg) p = Some p0) by (unfold pstep; by rewrite Hex).
    rewrite Hr. cbn [mbind option_bind]. unfold pstep. cbn [p0 p_exit p_sig p_sigs]. rewrite Hs.
    destruct (listens_ready (p_sigs p) sg Hh) as [rest ->]. rewrite at_terminal_eq, signal_task_eq. cbn [fst snd mbind option_bind].
    eexists. split; [reflexivity|]. cbn. by rewrite put_core_same.
Qed.

(** C18: Asked in time, the user can go offline everywhere before the process
    ends.  When the reconnect loop is in its [select!] with no other command
    waiting and a [quit] line or a listened-to signal comes, then the loop
    taking its command within the 300 ms leads to an exit with success, all
    sessions given up, and, for every known peer in the order of the list, an
    [Unannounce] with the presence token for that peer queued for the
    connection's writer (every send into that channel succeeds, by hypothesis).
    And the queueing reaches the server: from any state of the connection's
    tasks in which the writer runs, sends on the socket succeed and messages
    serialise, steps of the writer alone, between the client's sends, put the
    frames of what was queued before and then of exactly these [Unannounce]
    messages on the wire, in order.  Nothing makes the process wait for the
    writer: the exit follows 300 ms after the command, whether or not it ran. *)
Theorem asked_goes_offline `{!KdfLaws} r ps p :
  let o := y_orch (p_sys p) in
  let w := s_world (c_srv (o_core o)) in
  heard r = true → p_exit p = None → p_main p = Reading → p_sig p = Listening →
  y_mode (p_sys p) = Selecting → p_taken p = length (p_cmds p) →
  (∀ n, server_ok n = true) → (load_peers (utc_now w).2).1 = Ok ps →
  ∃ p', prun (ask r ++ [CoreStep (Branch (CmdEv (Some Cmd.Shutdown))); slept r]) p = Some p' ∧
    p_exit p' = Some (ends r) ∧ y_mode (p_sys p') = Stopped ∧ c_sessions (core_of (p_sys p')) = ∅ ∧
    ∃ msgs, c_out (core_of (p_sys p')) = c_out (o_core o) ++ msgs ∧
      Forall2 (λ peer m, ∃ token, presence_token (x25519_priv (cli_keys self)) (peer_public peer) (clock (w_clock w)) = Ok token ∧
        cts_payload m = CM.Unannounce token) ps msgs ∧
      ∀ link, (∀ n, ws_fault n = None) → (∀ m : ClientToServer, ∃ b, rmp_to_vec m = Ok b) →
        wr_done link = false → k_client link = true →
        ∃ l link' bs, trun (x25519_priv (cli_keys self)) l link = Some link' ∧ forallb writing l = true ∧
          omap client_sent l = msgs ∧ Forall2 (λ m b, rmp_to_vec m = Ok b) msgs bs ∧
          s_wire (k_srv link') = s_wire (k_srv link) ++ frames (k_out link) ++ bs.
Proof.
  intros o w Hh Hex Hm Hs Hmode Htaken Hok Hps.
  destruct (ask_queues r p Hh Hex Hm Hs) as (p1 & R1 & S1 & C1 & T1 & E1 & Hwho).
  pose proof (shutdown_unannounces (cli_keys self) ps [] o Hok Hps) as Hoff.
  destruct (select_loop (cli_keys self) [CmdEv (Some Cmd.Shutdown)] o) as [st o'] eqn:Hsel.
  destruct Hoff as (-> & Hses & msgs & Hout & Hall).
  set (y := hand_over (core_of (p_sys p1)) (put_orch Stopped o' (p_sys p1))).
  destruct (hand_over_orch (core_of (p_sys p1)) (put_orch Stopped o' (p_sys p1))) as [Ho Hmo]. fold y in Ho, Hmo.
  set (p2 := mkProc y (p_cmds p1) (S (p_taken p1)) (p_out p1) (p_printed p1) (p_sigs p1) (p_main p1) (p_sig p1) None).
  assert (Hstep : pstep (CoreStep (Branch (CmdEv (Some Cmd.Shutdown)))) p1 = Some p2).
  { unfold pstep, core_step. rewrite E1, C1, T1, Htaken, list_lookup_middle by done. rewrite decide_True by done.
    cbn [sys_step]. rewrite S1, Hmode. fold o. rewrite Hsel. unfold p2, y. by rewrite ?C1, ?T1, ?S1, ?Htaken, ?E1. }
  assert (Hend : pstep (slept r) p2 = Some (exit_with (ends r) p2)).
  { destruct r; cbn [slept ends]; unfold pstep, p2; cbn; by rewrite Hwho. }
  exists (exit_with (ends r) p2). rewrite prun_app, R1. cbn [mbind option_bind prun].
  rewrite Hstep. cbn [mbind option_bind]. rewrite Hend. cbn [mbind option_bind]. split_and!; [done..| |].
  - unfold core_of. cbn. by rewrite Ho.
  - exists msgs. unfold core_of. cbn. rewrite Ho. split_and!; [done..|]. intros link Hws Hser Hw Hcl.
    by apply client_messages_written.
Qed.
End Process.

Module ProcessWitness.
#[local] Existing Instances toy_prims toy_env list_sled.
#[local] Existing Instances ChatDbWitness.toy_rmp_message ServerWitness.toy_rmp_blob ServerWitness.toy_server
  ServerWitness.toy_rmp_stc ServerWitness.toy_rmp_cts ClientFilesWitness.toy_client CoreWitness.toy_core
  OrchestrateWitness.toy_rmp_stun OrchestrateWitness.toy_rmp_reply WireWitness.toy_rmp_pm WireWitness.toy_rmp_ping.
#[local] Existing Instance toy_kdf_laws.
Import SystemWitness.

Definition self : Client := mkClient me (identity_hash (x25519_pub me) (ed25519_verifying me)) (str "me").
Definition srv0 : Srv := ServerWitness.srv ChatDbWitness.w1 [].
Definition begin : Proc := proc_start srv0 OrchestrateWitness.home [].
Abbreviation go ls p := (prun self 4000 eph net Unix true true ls p).

(** Alice's session comes up and is printed; then the input ends. *)
Definition talk : list plabel := map CoreStep schedule ++ [PrintEvent; Input (Ok (Some (str "peers")))].
Definition talking : Proc := default begin (go talk begin).
Lemma talking_runs : go talk begin = Some talking.
Proof. apply ran. vm_compute. reflexivity. Qed.

Lemma end_of_input_skips_shutdown_witness :
  ∃ p', pstep self 4000 eph net Unix true true (Input (Ok None)) talking = Some p' ∧
    p_exit p' = Some (Main (Ok tt)) ∧ size (c_sessions (core_of (p_sys p'))) = 1%nat.
Proof.
  destruct (end_of_input_skips_shutdown self 4000 eph net Unix true true talk srv0 OrchestrateWitness.home [] talking talking_runs)
    as (p' & Hs & He & _ & _ & _ & Hy); [vm_compute; reflexivity..|].
  exists p'. split; [exact Hs|split; [exact He|]]. rewrite Hy. vm_compute. reflexivity.
Defined.

(** A SIGTERM in the middle of the conversation. *)
Definition killed : list plabel :=
  talk ++ [Raise CtrlBreak; Raise Terminate; SigReady; Input (Ok (Some (str "peers")));
           CoreStep (Branch (CmdEv (Some Cmd.Shutdown))); SigSlept].
Definition dead : Proc := default begin (go killed begin).
Lemma dead_runs : go killed begin = Some dead.
Proof. apply ran. vm_compute. reflexivity. Qed.

Lemma stops_only_when_asked_witness :
  p_exit dead = Some Signalled ∧ signal_asks Unix true killed.
Proof.
  assert (He : p_exit dead = Some Signalled) by (vm_compute; reflexivity). split; [exact He|].
  destruct (stops_only_when_asked self 4000 eph net Unix true true killed srv0 OrchestrateWitness.home [] dead eq_refl dead_runs)
    as [_ H]. exact (H He).
Defined.

Lemma asked_goes_offline_witness :
  ∃ p' ps msgs, go (ask (BySignal Terminate) ++ [CoreStep (Branch (CmdEv (Some Cmd.Shutdown))); SigSlept]) talking = Some p' ∧
    p_exit p' = Some Signalled ∧ length ps = 1%nat ∧ c_sessions (core_of (p_sys p')) = ∅ ∧
    c_out (core_of (p_sys p')) = c_out (core_of (p_sys talking)) ++ msgs ∧ length msgs = length (ps : list PeerPublic) ∧
    ∃ l link' bs, trun (x25519_priv me) l (conn_start srv0) = Some link' ∧ omap client_sent l = msgs ∧
      Forall2 (λ m b, rmp_to_vec m = Ok b) msgs bs ∧ s_wire (k_srv link') = bs.
Proof.
  set (w := s_world (c_srv (o_core (y_orch (p_sys talking))))).
  assert (Hb : match (load_peers (utc_now w).2).1 with Ok ps => length ps | Err _ => 0%nat end = 1%nat)
    by (vm_compute; reflexivity).
  destruct (load_peers (utc_now w).2).1 as [ps|e] eqn:Hps; [|discriminate].
  assert (Hok : ∀ n, server_ok n = true) by reflexivity.
  destruct (asked_goes_offline self 4000 eph net Unix true true (BySignal Terminate) ps talking)
    as (p' & Hrun & He & _ & Hs & msgs & Hout & Hall & Hwire); [vm_compute; reflexivity..|exact Hok|exact Hps|].
  exists p', ps, msgs. split; [exact Hrun|]. split; [exact He|]. split; [exact Hb|]. split; [exact Hs|].
  split; [exact Hout|]. split; [symmetry; exact (Forall2_length _ _ _ Hall)|].
  destruct (Hwire (conn_start srv0)) as (l & link' & bs & Hl & _ & Hm & Hf & Hw); [reflexivity|by eexists|reflexivity|reflexivity|].
  exists l, link', bs. split; [exact Hl|]. split; [exact Hm|]. split; [exact Hf|exact Hw].
Defined.
End ProcessWitness.
