(* ===== verification/Gui.v ===== *)
(** * The graphical front-end: state and updates

    [App] of src/crates/gui/src/main.rs: its state, [boot], [update] and the
    operations it calls; its views are in [GuiView].  A task that [update]
    hands back to the runtime is a value; window ids are numbers, fresh for
    each window; the events of the core wait in [g_inbox]. *)

From Stdlib Require Import Strings.Byte.
From S2P Require Import Prelude Bytes Text Primitives Instances World Crypto KeyFile PeerStore ChatDb ServerProto ServerClient ClientFiles ClientCore Handle.

Section Gui.
Context `{Prim : Primitives} `{EnvI : !Env} `{SledI : Sled} `{SrvEnv : ServerEnv} `{CliEnv : ClientEnv}.
Context `{CorEnv : CoreEnv} `{MsgRmp : !Rmp Message} `{BlobRmp : !Rmp BlobPayload}.

Definition DEFAULT_SERVER : rstring := str "localhost:3000".
Definition KEY_LEN : nat := 32.

Inductive RailTab := RailContacts | RailChat.

Inductive Screen :=
| Unlock (password server : rstring) (error : option rstring)
| MainScreen.

(** [Message] of the gui. [Started] carries the client and whether the shared
    cell still holds the event receiver. *)
Inductive GuiMessage :=
| PasswordChanged (new_password : rstring)
| ServerChanged (new_server : rstring)
| SubmitPassword
| Started (r : result (Client * bool) rstring)
| Tick
| SelectPeer (id : hash)
| DraftChanged (d : rstring)
| SendDraft
| AddPeerX25519Changed (value : rstring)
| AddPeerVerifyingChanged (value : rstring)
| AddPeer
| ServerFieldChanged (value : rstring)
| ChangeServer
| OpenSettings
| ToggleTheme
| AliasChanged (value : rstring)
| SetAlias
| PurgeSelected
| RemoveSelected
| SelectRail (tab : RailTab)
| WindowClose (id : nat)
| DoExit
| Ignored.

Record App := mkApp {
  main_id : nat;
  settings_id : option nat;
  dark : bool;
  screen : Screen;
  has_identity : bool;
  a_client : option Client;
  rx : option unit;
  a_contacts : list Contact;
  selected : option hash;
  a_history : list ChatLine;
  draft : rstring;
  status : rstring;
  add_x25519 : rstring;
  add_verifying : rstring;
  server_field : rstring;
  my_keys : option (rstring * rstring);
  unread : gmap hash nat;
  alias_input : rstring;
  rail_tab : RailTab
}.

Definition with_settings_id (v : option nat) (a : App) : App :=
  mkApp (main_id a) v (dark a) (screen a) (has_identity a) (a_client a) (rx a) (a_contacts a) (selected
    a) (a_history a) (draft a) (status a) (add_x25519 a) (add_verifying a) (server_field a) (my_keys a)
    (unread a) (alias_input a) (rail_tab a).
Definition with_dark (v : bool) (a : App) : App :=
  mkApp (main_id a) (settings_id a) v (screen a) (has_identity a) (a_client a) (rx a) (a_contacts a)
    (selected a) (a_history a) (draft a) (status a) (add_x25519 a) (add_verifying a) (server_field a)
    (my_keys a) (unread a) (alias_input a) (rail_tab a).
Definition with_screen (v : Screen) (a : App) : App :=
  mkApp (main_id a) (settings_id a) (dark a) v (has_identity a) (a_client a) (rx a) (a_contacts a)
    (selected a) (a_history a) (draft a) (status a) (add_x25519 a) (add_verifying a) (server_field a)
    (my_keys a) (unread a) (alias_input a) (rail_tab a).
Definition with_a_client (v : option Client) (a : App) : App :=
  mkApp (main_id a) (settings_id a) (dark a) (screen a) (has_identity a) v (rx a) (a_contacts a)
    (selected a) (a_history a) (draft a) (status a) (add_x25519 a) (add_verifying a) (server_field a)
    (my_keys a) (unread a) (alias_input a) (rail_tab a).
Definition with_rx (v : option unit) (a : App) : App :=
  mkApp (main_id a) (settings_id a) (dark a) (screen a) (has_identity a) (a_client a) v (a_contacts a)
    (selected a) (a_history a) (draft a) (status a) (add_x25519 a) (add_verifying a) (server_field a)
    (my_keys a) (unread a) (alias_input a) (rail_tab a).
Definition with_a_contacts (v : list Contact) (a : App) : App :=
  mkApp (main_id a) (settings_id a) (dark a) (screen a) (has_identity a) (a_client a) (rx a) v (selected
    a) (a_history a) (draft a) (status a) (add_x25519 a) (add_verifying a) (server_field a) (my_keys a)
    (unread a) (alias_input a) (rail_tab a).
Definition with_selected (v : option hash) (a : App) : App :=
  mkApp (main_id a) (settings_id a) (dark a) (screen a) (has_identity a) (a_client a) (rx a) (a_contacts
    a) v (a_history a) (draft a) (status a) (add_x25519 a) (add_verifying a) (server_field a) (my_keys a)
    (unread a) (alias_input a) (rail_tab a).
Definition with_a_history (v : list ChatLine) (a : App) : App :=
  mkApp (main_id a) (settings_id a) (dark a) (screen a) (has_identity a) (a_client a) (rx a) (a_contacts
    a) (selected a) v (draft a) (status a) (add_x25519 a) (add_verifying a) (server_field a) (my_keys a)
    (unread a) (alias_input a) (rail_tab a).
Definition with_draft (v : rstring) (a : App) : App :=
  mkApp (main_id a) (settings_id a) (dark a) (screen a) (has_identity a) (a_client a) (rx a) (a_contacts
    a) (selected a) (a_history a) v (status a) (add_x25519 a) (add_verifying a) (server_field a) (my_keys
    a) (unread a) (alias_input a) (rail_tab a).
Definition with_status (v : rstring) (a : App) : App :=
  mkApp (main_id a) (settings_id a) (dark a) (screen a) (has_identity a) (a_client a) (rx a) (a_contacts
    a) (selected a) (a_history a) (draft a) v (add_x25519 a) (add_verifying a) (server_field a) (my_keys
    a) (unread a) (alias_input a) (rail_tab a).
Definition with_add_x25519 (v : rstring) (a : App) : App :=
  mkApp (main_id a) (settings_id a) (dark a) (screen a) (has_identity a) (a_client a) (rx a) (a_contacts
    a) (selected a) (a_history a) (draft a) (status a) v (add_verifying a) (server_field a) (my_keys a)
    (unread a) (alias_input a) (rail_tab a).
Definition with_add_verifying (v : rstring) (a : App) : App :=
  mkApp (main_id a) (settings_id a) (dark a) (screen a) (has_identity a) (a_client a) (rx a) (a_contacts
    a) (selected a) (a_history a) (draft a) (status a) (add_x25519 a) v (server_field a) (my_keys a)
    (unread a) (alias_input a) (rail_tab a).
Definition with_server_field (v : rstring) (a : App) : App :=
  mkApp (main_id a) (settings_id a) (dark a) (screen a) (has_identity a) (a_client a) (rx a) (a_contacts
    a) (selected a) (a_history a) (draft a) (status a) (add_x25519 a) (add_verifying a) v (my_keys a)
    (unread a) (alias_input a) (rail_tab a).
Definition with_my_keys (v : option (rstring * rstring)) (a : App) : App :=
  mkApp (main_id a) (settings_id a) (dark a) (screen a) (has_identity a) (a_client a) (rx a) (a_contacts
    a) (selected a) (a_history a) (draft a) (status a) (add_x25519 a) (add_verifying a) (server_field a)
    v (unread a) (alias_input a) (rail_tab a).
Definition with_unread (v : gmap hash nat) (a : App) : App :=
  mkApp (main_id a) (settings_id a) (dark a) (screen a) (has_identity a) (a_client a) (rx a) (a_contacts
    a) (selected a) (a_history a) (draft a) (status a) (add_x25519 a) (add_verifying a) (server_field a)
    (my_keys a) v (alias_input a) (rail_tab a).
Definition with_alias_input (v : rstring) (a : App) : App :=
  mkApp (main_id a) (settings_id a) (dark a) (screen a) (has_identity a) (a_client a) (rx a) (a_contacts
    a) (selected a) (a_history a) (draft a) (status a) (add_x25519 a) (add_verifying a) (server_field a)
    (my_keys a) (unread a) v (rail_tab a).
Definition with_rail_tab (v : RailTab) (a : App) : App :=
  mkApp (main_id a) (settings_id a) (dark a) (screen a) (has_identity a) (a_client a) (rx a) (a_contacts
    a) (selected a) (a_history a) (draft a) (status a) (add_x25519 a) (add_verifying a) (server_field a)
    (my_keys a) (unread a) (alias_input a) v.

(** The application, what it shares with the core, the events that wait for
    it, and the next window id. *)
Record Gui := mkGui { g_app : App; g_front : Front; g_inbox : list AppEvent; g_next : nat }.

Definition of_front {A} (m : St Front A) : St Gui A :=
  λ g, let '(a, f) := m (g_front g) in (a, mkGui (g_app g) f (g_inbox g) (g_next g)).
Definition of_disk {A} (m : St World A) : St Gui A := of_front (at_core (on_disk m)).
Definition set (f : App → App) : St Gui unit :=
  smodify (λ g, mkGui (f (g_app g)) (g_front g) (g_inbox g) (g_next g)).
Definition get : St Gui App := λ g, (g_app g, g).
(** [window::open] *)
Definition window_open : St Gui nat := λ g, (g_next g, mkGui (g_app g) (g_front g) (g_inbox g) (S (g_next g))).

(** What the runtime is asked to do. *)
Inductive Task :=
| TaskNone
| TaskOpen (id : nat)
| TaskClose (id : nat)
| TaskStart (keys : Keys) (server : rstring)
| TaskExitLater
| TaskExit.

Definition dot : rstring := [Char 0xB7 stt].
Definition dots : rstring := [Char 0x2026 stt].

(** ** The operations behind [update] *)

Definition refresh_contacts : St Gui unit :=
  let! a := get in
  match a_client a with
  | Some _ => let! cs := of_front client_contacts in set (with_a_contacts cs)
  | None => sret tt
  end.

Definition reload_history (peer : hash) : St Gui unit :=
  let! a := get in
  match a_client a with
  | Some client =>
      let! r := of_front (client_history client peer) in
      match r with
      | Ok history => set (with_a_history history)
      | Err e => set (with_status (str "Failed to load history: " ++ e))
      end
  | None => sret tt
  end.

Definition apply_event (event : AppEvent) : St Gui unit :=
  match event with
  | AE.Connected observed_address =>
      set (with_status (str "Connected " ++ dot ++ str " seen as " ++ observed_address))
  | AE.PeerOnline _ | AE.PeerOffline _ => refresh_contacts
  | AE.MessageArrived peer from_me =>
      let! a := get in
      if bool_decide (selected a = Some peer) then reload_history peer
      else if negb from_me then set (with_unread (<[peer := S (default 0%nat (unread a !! peer))]> (unread a)))
      else sret tt
  | AE.HolePunchDenied peer reason =>
      set (with_status (str "Hole punch denied by " ++ fingerprint peer ++ str ": " ++ reason))
  | AE.SessionUp peer direct =>
      set (with_status (str "Connected to " ++ fingerprint peer ++ str " ("
        ++ (if direct then str "direct P2P" else str "relay") ++ str ")"))
  | AE.SessionDown _ => sret tt
  | AE.ConnectRetrying peer attempt delay_secs =>
      set (with_status (str "Connecting to " ++ fingerprint peer ++ dots ++ str " (attempt " ++ display_int attempt
        ++ str ", next in " ++ display_int delay_secs ++ str "s)"))
  | AE.ConnectGaveUp peer =>
      set (with_status (str "Could not reach " ++ fingerprint peer ++ str "; will retry when it comes online"))
  | AE.Disconnected => set (with_status (str "Disconnected from server"))
  | AE.Error e => set (with_status (str "Error: " ++ e))
  end.

Definition take_events : St Gui (list AppEvent) :=
  λ g, match rx (g_app g) with
       | Some _ => (g_inbox g, mkGui (g_app g) (g_front g) [] (g_next g))
       | None => ([], g)
       end.
Definition drain_events : St Gui unit :=
  let! events := take_events in sfor events apply_event.

Definition select_peer (id : hash) : St Gui unit :=
  let! _ := set (with_selected (Some id)) in
  let! a := get in
  let! _ := set (with_unread (delete id (unread a))) in
  let! _ := set (with_alias_input
    (default [] (c ← List.find (λ c, bool_decide (ct_id c = id)) (a_contacts a); ct_alias c))) in
  let! _ := match a_client a with
            | Some _ => of_front (client_connect_peer id)
            | None => sret tt
            end in
  reload_history id.

Definition gui_set_alias : St Gui unit :=
  let! a := get in
  match a_client a, selected a with
  | Some _, Some peer =>
      let! r := of_front (client_set_alias peer (alias_input a)) in
      match r with
      | Ok _ =>
          let! _ := set (with_status (str "Alias set to '" ++ trim (alias_input a) ++ str "'")) in
          refresh_contacts
      | Err e => set (with_status (str "Alias failed: " ++ e))
      end
  | _, _ => set (with_status (str "Select a peer first"))
  end.

Definition send_draft : St Gui unit :=
  let! a := get in
  let content := trim (draft a) in
  if is_empty content then sret tt
  else match a_client a, selected a with
       | Some _, Some peer =>
           let! _ := of_front (client_send_message peer content) in set (with_draft [])
       | _, _ => sret tt
       end.

Definition parse_key_hex (input label : rstring) : result KeyType rstring :=
  match hex_decode (trim input) with
  | Err e => Err (str "Invalid " ++ label ++ str " key hex: " ++ e)
  | Ok b =>
      match try_into 32 b with
      | Some k => Ok k
      | None => Err (label ++ str " key must be " ++ display_int (Z.of_nat KEY_LEN) ++ str " bytes, got "
                  ++ display_int (Z.of_nat (length b)) ++ str " bytes")
      end
  end.

Definition gui_add_peer : St Gui unit :=
  let! a := get in
  match parse_key_hex (add_x25519 a) (str "x25519") with
  | Err e => set (with_status e)
  | Ok x25519 =>
      match parse_key_hex (add_verifying a) (str "verifying") with
      | Err e => set (with_status e)
      | Ok verifying =>
          match a_client a with
          | None => set (with_status (str "Client not started yet"))
          | Some client =>
              let! r := of_front (client_add_peer client x25519 verifying) in
              match r with
              | Ok id =>
                  let! _ := set (with_status (str "Added peer " ++ fingerprint id)) in
                  let! _ := set (with_add_x25519 []) in
                  let! _ := set (with_add_verifying []) in
                  refresh_contacts
              | Err e => set (with_status (str "Failed to add peer: " ++ e))
              end
          end
      end
  end.

Definition change_server : St Gui unit :=
  let! a := get in
  let addr := trim (server_field a) in
  if is_empty addr then set (with_status (str "Server address must not be empty"))
  else match a_client a with
       | None => set (with_status (str "Client not started yet"))
       | Some _ =>
           let! _ := of_front (client_set_server addr) in
           let! _ := set (with_server_field addr) in
           set (with_status (str "Reconnecting to " ++ addr ++ dots))
       end.

(** [None] is a panic of [unlock]. *)
Definition submit_password : St Gui (option Task) :=
  let! a := get in
  match screen a with
  | MainScreen => sret (Some TaskNone)
  | Unlock password server error =>
      let fail e := let! _ := set (with_screen (Unlock password server (Some e))) in sret (Some TaskNone) in
      if is_empty password then fail (str "Password must not be empty")
      else
        let addr := if is_empty (trim server) then DEFAULT_SERVER else trim server in
        let! keys_result := if has_identity a then of_disk (unlock password)
                            else let! r := of_disk (create_identity password) in sret (Some r) in
        match keys_result with
        | None => sret None
        | Some (Err e) => fail e
        | Some (Ok keys) =>
            let! _ := set (with_screen (Unlock password server None)) in
            let! saved := of_disk (save_server addr) in
            match saved with
            | Err e => fail (str "Failed to save server address: " ++ e)
            | Ok _ =>
                let! _ := set (with_server_field addr) in
                sret (Some (TaskStart keys addr))
            end
        end
  end.

Definition on_started (r : result (Client * bool) rstring) : St Gui unit :=
  match r with
  | Ok (client, held) =>
      let! _ := set (with_rx (if held : bool then Some tt else None)) in
      let! cs := of_front client_contacts in
      let! _ := set (with_a_contacts cs) in
      let! _ := set (with_my_keys (Some (my_keys_hex client))) in
      let! _ := set (with_status (str "Connecting to server" ++ dots)) in
      let! _ := set (with_a_client (Some client)) in
      set (with_screen MainScreen)
  | Err e =>
      let message := str "Failed to start client: " ++ e in
      let! a := get in
      match screen a with
      | Unlock password server _ => set (with_screen (Unlock password server (Some message)))
      | MainScreen => set (with_status message)
      end
  end.

(** A handler that asks nothing of the runtime. *)
Definition quietly (m : St Gui unit) : St Gui (option Task) := let! _ := m in sret (Some TaskNone).

Definition update (message : GuiMessage) : St Gui (option Task) :=
  match message with
  | PasswordChanged new_password => quietly (
      let! a := get in
      match screen a with
      | Unlock _ server error => set (with_screen (Unlock new_password server error))
      | MainScreen => sret tt
      end)
  | ServerChanged new_server => quietly (
      let! a := get in
      match screen a with
      | Unlock password _ error => set (with_screen (Unlock password new_server error))
      | MainScreen => sret tt
      end)
  | SubmitPassword => submit_password
  | Started r => quietly (on_started r)
  | Tick => quietly drain_events
  | SelectPeer id => quietly (let! _ := select_peer id in set (with_rail_tab RailChat))
  | DraftChanged d => quietly (set (with_draft d))
  | SendDraft => quietly send_draft
  | AddPeerX25519Changed value => quietly (set (with_add_x25519 value))
  | AddPeerVerifyingChanged value => quietly (set (with_add_verifying value))
  | AddPeer => quietly gui_add_peer
  | ServerFieldChanged value => quietly (set (with_server_field value))
  | ChangeServer => quietly change_server
  | OpenSettings =>
      let! a := get in
      match settings_id a with
      | Some _ => sret (Some TaskNone)
      | None =>
          let! id := window_open in
          let! _ := set (with_settings_id (Some id)) in
          sret (Some (TaskOpen id))
      end
  | ToggleTheme => quietly (let! a := get in set (with_dark (negb (dark a))))
  | AliasChanged value => quietly (set (with_alias_input value))
  | SetAlias => quietly gui_set_alias
  | PurgeSelected => quietly (
      let! a := get in
      match a_client a, selected a with
      | Some _, Some peer =>
          let! _ := of_front (client_purge peer) in
          let! _ := set (with_a_history []) in
          set (with_status (str "Conversation purged"))
      | _, _ => sret tt
      end)
  | RemoveSelected => quietly (
      let! a := get in
      match a_client a, selected a with
      | Some _, Some peer =>
          let! _ := of_front (client_remove_peer peer) in
          let! _ := set (with_selected None) in
          let! _ := set (with_a_history []) in
          let! _ := set (with_unread (delete peer (unread a))) in
          let! _ := set (with_status (str "Removed " ++ fingerprint peer)) in
          refresh_contacts
      | _, _ => sret tt
      end)
  | SelectRail tab => quietly (set (with_rail_tab tab))
  | WindowClose id =>
      let! a := get in
      if bool_decide (Some id = settings_id a) then
        let! _ := set (with_settings_id None) in sret (Some (TaskClose id))
      else
        let! _ := match a_client a with
                  | Some _ => of_front client_shutdown
                  | None => sret tt
                  end in
        sret (Some TaskExitLater)
  | DoExit => sret (Some TaskExit)
  | Ignored => sret (Some TaskNone)
  end.

(** [App::boot] in a given environment; the main window is the first. *)
Definition boot : St Front (Gui * Task) :=
  let! server := at_core (on_disk resolve_server) in
  let! found := at_core (on_disk identity_exists) in
  let! front := sget in
  let app := mkApp 0 None true (Unlock [] (default DEFAULT_SERVER server) None) found None None [] None [] []
    (str "Not connected") [] [] [] None ∅ [] RailContacts in
  sret (mkGui app front [] 1, TaskOpen 0).

(** [App::title], [App::subscription] (whether it ticks) and [App::peer_label] *)
Definition title (a : App) (window : nat) : rstring :=
  if bool_decide (Some window = settings_id a)
  then str "SeChat " ++ [Char 0x2014 stt] ++ str " Settings" else str "SeChat".
Definition subscription (a : App) : bool := match rx a with Some _ => true | None => false end.
Definition peer_label (a : App) (id : hash) : rstring :=
  match List.find (λ c, bool_decide (ct_id c = id)) (a_contacts a) with
  | Some contact => contact_label contact
  | None => fingerprint id
  end.

(** ** Lemmas *)

Lemma of_front_eq {A} (m : St Front A) g :
  of_front m g = ((m (g_front g)).1, mkGui (g_app g) (m (g_front g)).2 (g_inbox g) (g_next g)).
Proof. unfold of_front. by destruct (m (g_front g)). Qed.

(** The invariant of the application. *)
Record gui_inv (g : Gui) : Prop := {
  inv_screen : screen (g_app g) = MainScreen ↔ is_Some (a_client (g_app g));
  inv_rx : is_Some (rx (g_app g)) → is_Some (a_client (g_app g));
  inv_keys : my_keys (g_app g) = my_keys_hex <$> a_client (g_app g);
  inv_unread : ∀ p, selected (g_app g) = Some p → unread (g_app g) !! p = None;
  inv_counts : ∀ p n, unread (g_app g) !! p = Some n → (0 < n)%nat;
  inv_sends : ∀ p text, Cmd.Send p text ∈ f_queue (g_front g) → trim text = text ∧ text ≠ [];
  inv_windows : (main_id (g_app g) < g_next g)%nat ∧
    ∀ i, settings_id (g_app g) = Some i → (i < g_next g)%nat ∧ i ≠ main_id (g_app g)
}.

Definition keeps (g g' : Gui) : Prop := gui_inv g → gui_inv g'.
#[export] Instance keeps_preorder : PreOrder keeps.
Proof. split; unfold keeps; [by intros ?|]. intros g1 g2 g3 H1 H2 H. by apply H2, H1. Qed.

(** A command that may be queued. *)
Definition cmd_ok (c : Command) : Prop :=
  match c with Cmd.Send _ text => trim text = text ∧ text ≠ [] | _ => True end.

Lemma of_front_keeps {A} (m : St Front A) :
  (∀ f, ∃ cmds, f_queue (m f).2 = f_queue f ++ cmds ∧ Forall cmd_ok cmds) → respects keeps (of_front m).
Proof.
  intros Hm g [Hs Hr Hk Hu Hc Hq Hw]. rewrite of_front_eq. destruct (Hm (g_front g)) as (cmds & Hcmds & Hok).
  constructor; try done. cbn. intros p text. rewrite Hcmds. intros [Hin|Hin]%elem_of_app; [by eapply Hq|].
  rewrite Forall_forall in Hok. by apply (Hok _ Hin).
Qed.

Lemma at_core_keeps {A} (m : St Core A) : respects keeps (of_front (at_core m)).
Proof. apply of_front_keeps. intros f. exists []. rewrite at_core_queue, app_nil_r. done. Qed.

Lemma queue_keeps c : cmd_ok c → respects keeps (of_front (queue c)).
Proof. intros Hc. apply of_front_keeps. intros f. exists [c]. split; [done|by constructor]. Qed.

(** Fields the invariant does not mention. *)
Definition cosmetic (f : App → App) : Prop := ∀ a,
  screen (f a) = screen a ∧ a_client (f a) = a_client a ∧ rx (f a) = rx a ∧ my_keys (f a) = my_keys a ∧
  selected (f a) = selected a ∧ unread (f a) = unread a ∧ main_id (f a) = main_id a ∧ settings_id (f a) = settings_id a.

Lemma set_keeps f : cosmetic f → respects keeps (set f).
Proof.
  intros Hf g [Hs Hr Hk Hu Hc Hq Hw]. destruct (Hf (g_app g)) as (E1 & E2 & E3 & E4 & E5 & E6 & E7 & E8).
  constructor; cbn; rewrite ?E1, ?E2, ?E3, ?E4, ?E5, ?E6, ?E7, ?E8; done.
Qed.

Lemma unlock_screen_keeps password server error password' server' error' g :
  screen (g_app g) = Unlock password server error → keeps g (set (with_screen (Unlock password' server' error')) g).2.
Proof.
  intros E [Hs Hr Hk Hu Hc Hq Hw]. constructor; try done. cbn. split; [done|]. intros H%Hs. congruence.
Qed.

(** Deleting counters, and counting for a peer that is not selected. *)
Lemma drop_unread_keeps p g : keeps g (set (with_unread (delete p (unread (g_app g)))) g).2.
Proof.
  intros [Hs Hr Hk Hu Hc Hq Hw]. constructor; try done; cbn.
  - intros q Hsel. apply lookup_delete_None. right. by apply Hu.
  - intros q n [_ Hn]%lookup_delete_Some. by apply (Hc q).
Qed.

Lemma count_unread_keeps p n g :
  selected (g_app g) ≠ Some p → keeps g (set (with_unread (<[p := S n]> (unread (g_app g)))) g).2.
Proof.
  intros Hne [Hs Hr Hk Hu Hc Hq Hw]. constructor; try done; cbn.
  - intros q Hsel. rewrite lookup_insert_ne; [by apply Hu|congruence].
  - intros q k [[_ <-]|[_ Hn]]%lookup_insert_Some; [lia|by apply (Hc q)].
Qed.

(** Steps of a computation that keep the invariant whatever state they see. *)
Ltac keep := repeat first
  [ respects_step
  | match goal with
    | |- respects keeps get => by intros ?
    | |- respects keeps (set _) => apply set_keeps; by intros ?
    | |- respects keeps (of_front (at_core _)) => apply at_core_keeps
    | |- respects keeps (of_front (queue _)) => apply queue_keeps; done
    end ].

Lemma refresh_contacts_keeps : respects keeps refresh_contacts.
Proof. unfold refresh_contacts, client_contacts. keep. Qed.

Lemma reload_history_keeps peer : respects keeps (reload_history peer).
Proof. unfold reload_history, client_history. keep. Qed.

Lemma apply_event_keeps event : respects keeps (apply_event event).
Proof.
  destruct event; cbn [apply_event]; try (keep; apply refresh_contacts_keeps).
  intros g. unfold sbind, get. case_bool_decide as Hsel; [apply reload_history_keeps|].
  destruct from_me; [reflexivity|]. by apply count_unread_keeps.
Qed.

Lemma drain_events_keeps : respects keeps drain_events.
Proof.
  unfold drain_events. respects_step.
  - intros g [Hs Hr Hk Hu Hc Hq Hw]. unfold take_events. destruct (rx (g_app g)) eqn:E; constructor; cbn; rewrite ?E; assumption || by rewrite E in Hr.
  - match goal with |- context [sfor ?l _] => induction l as [|e events IH] end; cbn [sfor]; [keep|].
    respects_step; [apply apply_event_keeps|exact IH].
Qed.

(** Selecting a peer clears its counter. *)
Lemma selected_keeps id g :
  keeps g (mkGui (with_unread (delete id (unread (g_app g))) (with_selected (Some id) (g_app g))) (g_front g)
    (g_inbox g) (g_next g)).
Proof.
  intros [Hs Hr Hk Hu Hc Hq Hw]. constructor; try done; cbn.
  - intros q [= <-]. apply lookup_delete_eq.
  - intros q n [_ Hn]%lookup_delete_Some. by apply (Hc q).
Qed.

Lemma select_peer_keeps id : respects keeps (select_peer id).
Proof.
  intros g Hg. unfold select_peer. unfold sbind at 1 2 3, set at 1 2, smodify, get.
  apply (selected_keeps id) in Hg. revert Hg. cbn [g_app a_contacts a_client unread with_selected g_front g_inbox g_next].
  match goal with |- gui_inv ?g1 → gui_inv (?m ?g2).2 => change (keeps g1 (m g1).2); generalize g1 end.
  change (respects keeps (let! _ := set (with_alias_input (default []
    (c ← List.find (λ c, bool_decide (ct_id c = id)) (a_contacts (g_app g)); ct_alias c))) in
    let! _ := match a_client (g_app g) with Some _ => of_front (client_connect_peer id) | None => sret tt end in
    reload_history id)).
  unfold client_connect_peer. keep. apply reload_history_keeps.
Qed.

Lemma on_started_keeps r : respects keeps (on_started r).
Proof.
  destruct r as [[client held]|e]; cbn [on_started].
  - intros g Hg. unfold sbind at 1, set at 1, smodify. unfold client_contacts, sbind at 1. rewrite of_front_eq, at_core_eq.
    destruct Hg as [Hs Hr Hk Hu Hc Hq Hw]. unfold sbind, set, smodify. constructor; try done; cbn.
  - intros g. unfold sbind, get. destruct (screen (g_app g)) eqn:E; [by eapply unlock_screen_keeps|].
    apply (set_keeps (with_status _)). by intros ?.
Qed.

(** Work below the application leaves it alone. *)
Definition below {A} (m : St Gui A) : Prop := respects keeps m ∧ ∀ g, g_app (m g).2 = g_app g.

Lemma of_disk_below {A} (m : St World A) : below (of_disk m).
Proof. split; [apply at_core_keeps|]. intros g. unfold of_disk. by rewrite of_front_eq. Qed.

Lemma submit_password_keeps : respects keeps submit_password.
Proof.
  intros g Hg. unfold submit_password, sbind at 1, get. destruct (screen (g_app g)) as [password server error|] eqn:E; [|done].
  assert (Hscreen : ∀ error' (g' : Gui), gui_inv g' → (∃ e, screen (g_app g') = Unlock password server e) →
    gui_inv (set (with_screen (Unlock password server error')) g').2).
  { intros error' g' Hg' [e He]. by apply (unlock_screen_keeps _ _ _ _ _ _ _ He). }
  destruct (is_empty password); [by apply Hscreen; [|eexists]|].
  set (login := if has_identity (g_app g) then _ else _).
  assert (Hlogin : below login).
  { unfold login. destruct (has_identity (g_app g)); [apply of_disk_below|]. split.
    - keep. apply of_disk_below.
    - intros g'. unfold sbind. pose proof (proj2 (of_disk_below (create_identity password)) g') as H.
      by destruct (of_disk _ g'). }
  destruct Hlogin as [Hk Ha]. specialize (Hk g Hg). specialize (Ha g). unfold sbind at 1.
  destruct (login g) as [[[keys|e]|] g1]; cbn in Hk, Ha; [|apply Hscreen; [done|rewrite Ha; by eexists]|done].
  unfold sbind at 1. pose proof (Hscreen None g1 Hk) as Hg2. rewrite Ha in Hg2. specialize (Hg2 (ex_intro _ _ E)).
  destruct (set _ g1) as [u g2] eqn:Eset. cbn [snd] in Hg2. unfold sbind at 1.
  set (addr := if is_empty (trim server) then _ else _).
  pose proof (of_disk_below (save_server addr)) as [Hk3 Ha3]. specialize (Hk3 g2 Hg2). specialize (Ha3 g2).
  destruct (of_disk (save_server addr) g2) as [[v|e] g3]; cbn [snd] in Hk3, Ha3.
  - apply (set_keeps (with_server_field addr)); [by intros ?|done].
  - apply Hscreen; [done|]. rewrite Ha3. injection Eset as _ <-. by eexists.
Qed.

Lemma client_add_peer_keeps client x v : respects keeps (of_front (client_add_peer client x v)).
Proof.
  apply of_front_keeps. intros f. unfold client_add_peer, sbind. rewrite at_core_eq.
  destruct (add_peer _ _ _ _) as [[r []] c]; cbn; [exists [Cmd.AnnounceNow]|exists []; by rewrite app_nil_r].
  split; [done|by repeat constructor].
Qed.

Lemma send_draft_keeps : respects keeps send_draft.
Proof.
  intros g. unfold send_draft, sbind at 1, get. destruct (trim (draft (g_app g))) as [|c text] eqn:E; [reflexivity|].
  cbn [is_empty]. destruct (a_client (g_app g)), (selected (g_app g)) as [p|]; try reflexivity.
  generalize g. change (respects keeps (let! _ := of_front (client_send_message p (c :: text)) in set (with_draft []))).
  keep. apply queue_keeps. split; [rewrite <- E; apply trim_idemp|done].
Qed.

(** Removing the selected peer: the selection goes first. *)
Lemma deselect_keeps p g :
  keeps g (mkGui (with_unread (delete p (unread (g_app g))) (with_a_history [] (with_selected None (g_app g))))
    (g_front g) (g_inbox g) (g_next g)).
Proof.
  intros [Hs Hr Hk Hu Hc Hq Hw]. constructor; try done; cbn. intros q n [_ Hn]%lookup_delete_Some. by apply (Hc q).
Qed.

Lemma remove_selected_keeps : respects keeps (update RemoveSelected).
Proof.
  intros g Hg. cbn [update]. unfold quietly, sbind at 1. unfold sbind at 1, get.
  destruct (a_client (g_app g)), (selected (g_app g)) as [p|]; try done.
  assert (H : respects keeps (let! _ := set (with_status (str "Removed " ++ fingerprint p)) in refresh_contacts))
    by (keep; apply refresh_contacts_keeps).
  unfold client_remove_peer, sbind at 1. rewrite of_front_eq.
  pose proof (queue_keeps (Cmd.RemovePeer p) I g Hg) as Hg1. rewrite of_front_eq in Hg1. cbn [snd] in Hg1.
  unfold sbind at 1 2 3, set at 1 2 3, smodify.
  specialize (H _ (deselect_keeps p _ Hg1)).
  match goal with |- gui_inv (let '(_, _) := ?x in _).2 => change (gui_inv x.2) in H; by destruct x end.
Qed.

Lemma open_settings_keeps : respects keeps (update OpenSettings).
Proof.
  intros g Hg. cbn [update]. unfold sbind at 1, get. destruct (settings_id (g_app g)) eqn:E; [done|].
  unfold sbind, window_open, set, smodify, sret. destruct Hg as [Hs Hr Hk Hu Hc Hq Hw].
  constructor; try done. cbn. split; [lia|]. intros i [= <-]. lia.
Qed.

Lemma window_close_keeps id : respects keeps (update (WindowClose id)).
Proof.
  intros g. cbn [update]. unfold sbind at 1, get. case_bool_decide.
  - intros [Hs Hr Hk Hu Hc Hq Hw]. constructor; try done. cbn. split; [lia|done].
  - assert (H' : respects keeps (let! _ := match a_client (g_app g) with
      | Some _ => of_front client_shutdown | None => sret tt end in sret (Some TaskExitLater)))
      by (unfold client_shutdown; keep).
    apply H'.
Qed.

Lemma update_keeps m : respects keeps (update m).
Proof.
  destruct m;
    first [ apply submit_password_keeps | apply remove_selected_keeps | apply open_settings_keeps
          | apply window_close_keeps | idtac ];
    cbn [update]; unfold quietly; try respects_step; try by intros ?.
  all: try (keep; first [apply refresh_contacts_keeps | apply select_peer_keeps | apply on_started_keeps
                        | apply drain_events_keeps | apply send_draft_keeps]).
  - intros g. unfold sbind, get. destruct (screen (g_app g)) eqn:E; [by eapply unlock_screen_keeps|reflexivity].
  - intros g. unfold sbind, get. destruct (screen (g_app g)) eqn:E; [by eapply unlock_screen_keeps|reflexivity].
  - unfold gui_add_peer. keep; first [apply client_add_peer_keeps | apply refresh_contacts_keeps].
  - unfold change_server, client_set_server. keep.
  - unfold gui_set_alias, client_set_alias. keep; apply refresh_contacts_keeps.
  - unfold client_purge. keep.
Qed.

Lemma boot_inv f : f_queue f = [] → gui_inv (boot f).1.1.
Proof.
  intros Hf. unfold boot, sbind. rewrite !at_core_eq. constructor; cbn.
  - split; [done|by intros []].
  - by intros [].
  - done.
  - done.
  - by intros ??.
  - intros ??. by rewrite Hf, elem_of_nil.
  - split; [lia|done].
Qed.

(** The gui handles a message, or the core moves: it changes the shared state
    and sends events. *)
Inductive gui_step : Gui → Gui → Prop :=
| step_update m g : gui_step g (update m g).2
| step_core g c events :
    gui_step g (mkGui (g_app g) (mkFront c (f_queue (g_front g))) (g_inbox g ++ events) (g_next g)).

(** Operations that do not touch the selection or the counters. *)
Definition same_marks (g g' : Gui) : Prop :=
  selected (g_app g') = selected (g_app g) ∧ unread (g_app g') = unread (g_app g) ∧ g_inbox g' = g_inbox g ∧
  f_queue (g_front g') = f_queue (g_front g).
#[export] Instance same_marks_preorder : PreOrder same_marks.
Proof. split; [done|]. unfold same_marks. intros ??? (?&?&?&?) (?&?&?&?). split_and!; congruence. Qed.

Lemma set_same f : (∀ a, selected (f a) = selected a ∧ unread (f a) = unread a) → respects same_marks (set f).
Proof. intros Hf g. destruct (Hf (g_app g)) as [H1 H2]. unfold same_marks. cbn. by rewrite H1, H2. Qed.

Lemma at_core_same {A} (m : St Core A) : respects same_marks (of_front (at_core m)).
Proof. intros g. unfold same_marks. rewrite of_front_eq, at_core_eq. done. Qed.

Lemma refresh_contacts_same : respects same_marks refresh_contacts.
Proof. unfold refresh_contacts, client_contacts. repeat respects_step; [done|apply at_core_same|by apply set_same]. Qed.

Lemma reload_history_same peer : respects same_marks (reload_history peer).
Proof.
  unfold reload_history, client_history.
  repeat respects_step; first [by intros ? | apply at_core_same | by apply set_same].
Qed.

(** Messages from a peer. *)
Definition arrival (p : hash) (e : AppEvent) : bool :=
  match e with AE.MessageArrived q from_me => bool_decide (q = p) && negb from_me | _ => false end.
Definition arrivals (p : hash) (events : list AppEvent) : nat := length (filter (arrival p) events).
Definition unread_of (g : Gui) (p : hash) : nat := default 0%nat (unread (g_app g) !! p).

(** One event counts for its sender unless the sender is selected. *)
Lemma apply_event_counts e g :
  let g' := (apply_event e g).2 in
  selected (g_app g') = selected (g_app g) ∧ g_inbox g' = g_inbox g ∧
  ∀ p, unread_of g' p = (unread_of g p +
    if arrival p e && negb (bool_decide (selected (g_app g) = Some p)) then 1 else 0)%nat.
Proof.
  assert (Hq : ∀ m : St Gui unit, respects same_marks m → let g' := (m g).2 in
    selected (g_app g') = selected (g_app g) ∧ g_inbox g' = g_inbox g ∧ ∀ p, unread_of g' p = unread_of g p).
  { intros m Hm. destruct (Hm g) as (H1 & H2 & H3 & _). unfold unread_of. by rewrite H1, H2, H3. }
  assert (Hz : ∀ n, (n + 0)%nat = n) by lia.
  destruct e as [| | |peer from_me| | | | | | |]; cbn [apply_event arrival andb]; cbn zeta; try setoid_rewrite Hz;
    try (apply Hq; by apply set_same); try (apply Hq, refresh_contacts_same); try done.
  unfold sbind, get. case_bool_decide as Hs.
  - destruct (Hq (reload_history peer) (reload_history_same peer)) as (H1 & H2 & H3). split_and!; [done..|].
    intros p. rewrite H3. case_bool_decide as Hp; [subst p|by cbn; lia].
    rewrite bool_decide_eq_true_2 by done. destruct from_me; cbn; lia.
  - destruct from_me; cbn [negb].
    + split_and!; [done..|]. intros p. by rewrite andb_false_r, Hz.
    + split_and!; [done..|]. intros p. unfold unread_of. cbn. case_bool_decide as Hp.
      * subst p. rewrite lookup_insert_eq, bool_decide_eq_false_2 by done. cbn. lia.
      * rewrite lookup_insert_ne by done. cbn. lia.
Qed.

Lemma apply_events_count events g :
  let g' := (sfor events apply_event g).2 in
  selected (g_app g') = selected (g_app g) ∧ g_inbox g' = g_inbox g ∧
  ∀ p, unread_of g' p = (unread_of g p +
    if bool_decide (selected (g_app g) = Some p) then 0 else arrivals p events)%nat.
Proof.
  revert g. induction events as [|e events IH]; intros g; cbn zeta.
  - split_and!; [done..|]. intros p. cbn. case_bool_decide; lia.
  - cbn [sfor]. unfold sbind. pose proof (apply_event_counts e g) as (H1 & H2 & H3).
    destruct (apply_event e g) as [u g1]. cbn [snd] in H1, H2, H3.
    destruct (IH g1) as (I1 & I2 & I3). rewrite I1, I2, H1, H2. split_and!; [done..|].
    intros p. rewrite I3, H3, H1. unfold arrivals. rewrite filter_cons.
    case_bool_decide; cbn [negb andb]; rewrite ?andb_false_r, ?andb_true_r; [lia|].
    case_decide as Hd; destruct (arrival p e); try done; cbn; lia.
Qed.

(** Looking at the contacts changes no file and sends no event. *)
Definition looks (c c' : Core) : Prop := w_fs (s_world (c_srv c')) = w_fs (s_world (c_srv c)) ∧ c_app c' = c_app c.
#[export] Instance looks_preorder : PreOrder looks.
Proof. split; [done|]. unfold looks. intros ??? [] []. split; congruence. Qed.

Lemma on_disk_looks {A} (m : St World A) : respects same_fs m → respects looks (on_disk m).
Proof. intros Hm c. unfold on_disk, on_srv, looks. rewrite with_world_eq. cbn. by rewrite Hm. Qed.

Lemma contacts_looks : respects looks contacts.
Proof.
  unfold contacts. repeat respects_step.
  - apply on_disk_looks. unfold load_peers, read_dir, dir_entry, open_read, read_exact.
    repeat respects_step; apply syscall_reads; by (intros fs; split_match).
  - intros c. unfold on_srv, load_online_peers, looks. unfold sbind. rewrite with_world_eq. done.
  - apply on_disk_looks. unfold load_aliases, read_to_string. repeat respects_step.
    apply syscall_reads. intros fs. split_match.
Qed.
End Gui.

Section GuiTheorems.
Context `{Prim : Primitives} `{EnvI : !Env} `{SledI : Sled} `{SrvEnv : ServerEnv} `{CliEnv : ClientEnv}.
Context `{CorEnv : CoreEnv} `{MsgRmp : !Rmp Message} `{BlobRmp : !Rmp BlobPayload}.

(** C34: The state of the window stays consistent: from boot, under any sequence
    of messages and any moves of the core, the main screen shows exactly when a
    client runs, events are only polled from a running client, the keys shown
    are that client's, the selected peer never has an unread mark, marks are
    positive, no blank or untrimmed text is ever handed to the core, and the
    settings window is never the main one. *)
Theorem gui_invariant f g :
  f_queue f = [] → rtc gui_step (boot f).1.1 g → gui_inv g.
Proof.
  intros Hf Hr. pose proof (boot_inv f Hf) as H0. revert H0. induction Hr as [|g1 g2 g3 Hs _ IH]; [done|]. intros Hg. apply IH.
  destruct Hs as [m g|g c events]; [by apply update_keeps|].
  destruct Hg as [Hs Hr Hk Hu Hc Hq Hw]. by constructor.
Qed.

(** Unread marks count messages: a tick of a running client consumes every
    waiting event, and the mark of each peer grows by exactly the number of
    messages from it among them, except for the selected peer, whose mark does
    not change; the selection stays. *)
Theorem unread_counts g :
  is_Some (rx (g_app g)) →
  ∃ g', update Tick g = (Some TaskNone, g') ∧ g_inbox g' = [] ∧ selected (g_app g') = selected (g_app g) ∧
  ∀ p, unread_of g' p = (unread_of g p +
    if bool_decide (selected (g_app g) = Some p) then 0 else arrivals p (g_inbox g))%nat.
Proof.
  intros [[] Hrx]. cbn [update]. unfold quietly, drain_events, sbind, take_events. rewrite Hrx.
  pose proof (apply_events_count (g_inbox g) (mkGui (g_app g) (g_front g) [] (g_next g))) as (H1 & H2 & H3).
  destruct (sfor _ _ _) as [u g']. by exists g'.
Qed.

(** Selecting a peer shows its conversation when it can be read, clears its
    mark and asks the core to connect; when the history cannot be read, the
    lines of the peer selected before stay on the screen under the new name. *)
Theorem select_peer_shows g client id :
  a_client (g_app g) = Some client →
  ∃ g', update (SelectPeer id) g = (Some TaskNone, g') ∧ selected (g_app g') = Some id ∧
    unread (g_app g') = delete id (unread (g_app g)) ∧
    f_queue (g_front g') = f_queue (g_front g) ++ [Cmd.Connect id] ∧
    a_history (g_app g') =
      match (history (cli_keys client) id (s_world (c_srv (f_core (g_front g))))).1 with
      | Ok lines => lines
      | Err _ => a_history (g_app g)
      end.
Proof.
  intros Hc. cbn [update]. unfold quietly, select_peer, sbind, get, set, smodify. cbn [g_app a_client with_selected].
  rewrite Hc. unfold reload_history, client_connect_peer, queue, smodify, sbind, get. rewrite of_front_eq.
  cbn [g_app a_client with_alias_input with_unread with_selected]. rewrite Hc.
  unfold client_history. rewrite of_front_eq, at_core_eq. unfold on_disk, on_srv. rewrite with_world_eq. cbn [fst snd f_core g_front].
  destruct (history _ _ _).1 as [lines|e]; eexists; (split; [reflexivity|done]).
Qed.

(** A removed peer stays in the list: [RemoveSelected] reads the contacts
    again before the core has handled the removal, the core then deletes the
    peer without sending any event, and the next tick leaves the list as it is;
    so a peer that was listed still is, although its files are gone. *)
Theorem removed_peer_stays_listed `{!Quiet, !HexLaws, !ClientEnvLaws} g client peer :
  let fs := w_fs (s_world (c_srv (f_core (g_front g)))) in
  a_client (g_app g) = Some client → selected (g_app g) = Some peer → g_inbox g = [] →
  peer ∈ map ct_id (contacts (f_core (g_front g))).1 →
  (∀ f, fs !! peer_dir peer ≠ Some (NFile f)) → is_dir_node fs sechat_dir = true →
  not_a_dir fs aliases_path → aliases_wf (alias_file fs) →
  ∃ g1 c2 g3, update RemoveSelected g = (Some TaskNone, g1) ∧
    f_queue (g_front g1) = f_queue (g_front g) ++ [Cmd.RemovePeer peer] ∧
    handle_command (Cmd.RemovePeer peer) (cli_keys client) (f_core (g_front g1)) = (tt, c2) ∧
    is_ok (load_peer_data peer (s_world (c_srv c2))).1 = false ∧
    c_app c2 = c_app (f_core (g_front g)) ∧
    update Tick (mkGui (g_app g1) (mkFront c2 (f_queue (g_front g1))) (g_inbox g1) (g_next g1)) = (Some TaskNone, g3) ∧
    peer ∈ map ct_id (a_contacts (g_app g3)).
Proof.
  intros fs Hc Hsel Hin Hlisted Hfile Hdir Hnd Hwf.
  destruct (contacts_looks (f_core (g_front g))) as [Hfs Happ].
  destruct (contacts (f_core (g_front g))) as [cs c1] eqn:Hcs. cbn [fst snd] in Hlisted, Hfs, Happ.
  destruct (remove_peer_quiet (cli_keys client) peer c1) as (c2 & Hrun & _ & _ & Ha & _ & Hgone & _);
    [rewrite ?Hfs; done..|].
  assert (Hup : ∃ g1, update RemoveSelected g = (Some TaskNone, g1) ∧ f_core (g_front g1) = c1 ∧
    f_queue (g_front g1) = f_queue (g_front g) ++ [Cmd.RemovePeer peer] ∧ a_contacts (g_app g1) = cs ∧ g_inbox g1 = []).
  { cbn [update]. unfold quietly, client_remove_peer, queue, smodify, sbind, get, set, smodify. rewrite Hc, Hsel, of_front_eq.
    unfold refresh_contacts, sbind, get, client_contacts. cbn. rewrite Hc, of_front_eq, at_core_eq. cbn. rewrite Hcs. eauto 10. }
  destruct Hup as (g1 & Hg1 & Hc1 & Hq & Hcs1 & Hin1).
  exists g1, c2, (mkGui (g_app g1) (mkFront c2 (f_queue (g_front g1))) [] (g_next g1)). rewrite Hc1. split_and!; [done|done|done|done|congruence| |].
  - cbn [update]. unfold quietly, drain_events, sbind, take_events. cbn [g_app g_inbox]. rewrite Hin1.
    destruct (rx (g_app g1)); reflexivity.
  - cbn. by rewrite Hcs1.
Qed.
End GuiTheorems.

Module GuiWitness.
#[local] Existing Instances toy_prims toy_env list_sled.
#[local] Existing Instances ChatDbWitness.toy_rmp_message ServerWitness.toy_rmp_blob ServerWitness.toy_server
  ClientFilesWitness.toy_client CoreWitness.toy_core.

Definition alice : hash := ChatDbWitness.id.
Definition self : Client := mkClient ChatDbWitness.me alice (str "me").
Definition front : Front := mkFront CoreWitness.home [].
Definition booted : Gui := (boot front).1.1.
Definition running : Gui := (update (Started (Ok (self, true))) booted).2.
Definition mail : list AppEvent :=
  [AE.MessageArrived alice false; AE.Disconnected; AE.MessageArrived alice true; AE.MessageArrived alice false].
Definition waiting : Gui :=
  mkGui (g_app running) (mkFront (f_core (g_front running)) (f_queue (g_front running))) (g_inbox running ++ mail)
    (g_next running).

Lemma gui_invariant_witness : gui_inv (update Tick waiting).2 ∧ unread_of (update Tick waiting).2 alice = 2%nat.
Proof.
  split; [|vm_compute; reflexivity].
  apply (gui_invariant front (update Tick waiting).2); [reflexivity|].
  eapply rtc_l; [apply (step_update (Started (Ok (self, true))))|].
  eapply rtc_l; [apply (step_core _ (f_core (g_front running)) mail)|].
  eapply rtc_l; [apply (step_update Tick)|]. apply rtc_refl.
Defined.

Lemma unread_counts_witness :
  ∃ g', update Tick waiting = (Some TaskNone, g') ∧ g_inbox g' = [] ∧ unread_of g' alice = 2%nat.
Proof.
  destruct (unread_counts waiting) as (g' & Hu & Hi & _ & Hn); [exists tt; reflexivity|].
  exists g'. split; [exact Hu|split; [exact Hi|]]. rewrite Hn. vm_compute. reflexivity.
Defined.

Lemma select_peer_shows_witness :
  ∃ g', update (SelectPeer alice) running = (Some TaskNone, g') ∧ selected (g_app g') = Some alice ∧
    f_queue (g_front g') = [Cmd.Connect alice] ∧ a_history (g_app g') = [].
Proof.
  destruct (select_peer_shows running self alice eq_refl) as (g' & Hu & Hs & _ & Hq & Hh).
  exists g'. split; [exact Hu|split; [exact Hs|split; [exact Hq|]]]. rewrite Hh. vm_compute. reflexivity.
Defined.

(** Alice is selected. *)
Definition chosen : Gui :=
  mkGui (with_selected (Some alice) (g_app running)) (g_front running) [] (g_next running).

Lemma removed_peer_stays_listed_witness :
  ∃ g1 c2 g3, update RemoveSelected chosen = (Some TaskNone, g1) ∧
    handle_command (Cmd.RemovePeer alice) ChatDbWitness.me (f_core (g_front g1)) = (tt, c2) ∧
    is_ok (load_peer_data alice (s_world (c_srv c2))).1 = false ∧
    update Tick (mkGui (g_app g1) (mkFront c2 (f_queue (g_front g1))) (g_inbox g1) (g_next g1)) = (Some TaskNone, g3) ∧
    alice ∈ map ct_id (a_contacts (g_app g3)).
Proof.
  destruct (@removed_peer_stays_listed toy_prims toy_env list_sled _ _ _ _ KeyFileWitness.toy_quiet
    toy_hex_laws ClientFilesWitness.toy_client_laws chosen self alice) as (g1 & c2 & g3 & H1 & _ & H2 & H3 & _ & H4 & H5).
  - reflexivity.
  - reflexivity.
  - reflexivity.
  - assert (Hd : map (arr_data ∘ ct_id) (contacts (f_core (g_front chosen))).1 = [arr_data alice]) by (vm_compute; reflexivity).
    destruct (contacts _).1 as [|ct [|]]; [discriminate| |discriminate]. injection Hd as Hd.
    apply list_elem_of_singleton. symmetry. apply arr_ext, Hd.
  - intros f Hf. apply (f_equal (λ o, match o with Some NDir => true | _ => false end)) in Hf.
    vm_compute in Hf. discriminate.
  - vm_compute. reflexivity.
  - vm_compute. exact I.
  - assert (He : alias_file (w_fs (s_world (c_srv (f_core (g_front chosen))))) = ∅) by (vm_compute; reflexivity).
    rewrite He. apply map_Forall_empty.
  - exists g1, c2, g3. split; [exact H1|split; [exact H2|split; [exact H3|split; [exact H4|exact H5]]]].
Defined.
End GuiWitness.
