(* ===== verification/GuiView.v ===== *)
(** * The graphical front-end: views

    [App::view] of src/crates/gui/src/main.rs and every view function and
    helper below it, as trees of widgets: what text is shown, which widgets
    take input, which message each of them sends, and in which style they are
    drawn.  Geometry (padding, spacing, lengths, alignment, scroll state) is
    left out; sizes and radii, whole numbers in the source, are integers.  The
    theme and its palette are iced's: parameters. *)

From Stdlib Require Import Strings.Byte.
From S2P Require Import Prelude Bytes Text Primitives Instances World Crypto KeyFile PeerStore ChatDb ServerProto ServerClient ClientFiles ClientCore Layout Handle Gui.

Local Open Scope Z_scope.

(** [iced::Theme], its colours and its built-in button styles. *)
Class Iced := {
  Theme : Type;
  Color : Type;
  TokyoNight : Theme;
  Light : Theme;
  palette_primary : Theme → Color;
  palette_danger : Theme → Color;
  background_base_color : Theme → Color;
  background_base_text : Theme → Color;
  background_weak_color : Theme → Color;
  background_weakest_color : Theme → Color;
  background_strong_color : Theme → Color;
  primary_strong_color : Theme → Color;
  primary_strong_text : Theme → Color;
  success_strong_color : Theme → Color
}.

Inductive button_style := BtnPrimary | BtnSecondary | BtnDanger | BtnText.

Definition CARD_RADIUS : Z := 12.

Section Views.
Context `{IcedI : Iced}.

Record Border := mkBorder { b_color : Color; b_width : Z; b_radius : Z }.
(** [container::Style]; [None] is the default. *)
Record ContainerStyle := mkStyle {
  cs_background : option Color;
  cs_text_color : option Color;
  cs_border : option Border
}.
Definition default_style : ContainerStyle := mkStyle None None None.

(** ** Styles *)

Definition shell_style (theme : Theme) : ContainerStyle := mkStyle (Some (background_base_color theme)) None None.
Definition rail_style (theme : Theme) : ContainerStyle :=
  mkStyle (Some (background_weak_color theme)) None (Some (mkBorder (background_strong_color theme) 1 0)).
Definition card_style (theme : Theme) : ContainerStyle :=
  mkStyle (Some (background_weak_color theme)) None (Some (mkBorder (background_strong_color theme) 1 CARD_RADIUS)).
Definition inset_style (theme : Theme) : ContainerStyle :=
  mkStyle (Some (background_weakest_color theme)) None (Some (mkBorder (background_strong_color theme) 1 (CARD_RADIUS - 2))).
(** The status dot, the unread pill and the message bubble. *)
Definition dot_style (online : bool) (theme : Theme) : ContainerStyle :=
  let color := if online then success_strong_color theme else background_strong_color theme in
  mkStyle (Some color) None (Some (mkBorder color 0 5)).
Definition badge_style (theme : Theme) : ContainerStyle :=
  mkStyle (Some (primary_strong_color theme)) (Some (primary_strong_text theme)) (Some (mkBorder (primary_strong_color theme) 0 8)).
Definition bubble_style (from_me : bool) (theme : Theme) : ContainerStyle :=
  if from_me
  then mkStyle (Some (primary_strong_color theme)) (Some (primary_strong_text theme))
         (Some (mkBorder (primary_strong_color theme) 1 CARD_RADIUS))
  else mkStyle (Some (background_weak_color theme)) (Some (background_base_text theme))
         (Some (mkBorder (background_strong_color theme) 1 CARD_RADIUS)).

Context `{Prim : Primitives}.

(** ** Widgets *)

#[warnings="-register-all"]
Inductive element :=
| Txt (content : rstring) (size : Z) (color : option (Theme → Color))
| TextInput (placeholder value : rstring) (secure : bool) (on_input : rstring → GuiMessage)
    (on_submit : option GuiMessage)
| Button (content : element) (on_press : option GuiMessage) (style : button_style)
| Column (children : list element)
| Row (children : list element)
| Container (content : element) (style : Theme → ContainerStyle)
| Scrollable (content : element)
| Space.

(** The text a widget shows, in reading order; what is typed into a field is
    not part of it. *)
Fixpoint texts (e : element) : list rstring :=
  match e with
  | Txt content _ _ => [content]
  | TextInput _ _ _ _ _ | Space => []
  | Button c _ _ | Container c _ | Scrollable c => texts c
  | Column l | Row l => List.flat_map texts l
  end.

(** The messages a widget can send: a press, a submit, or any text typed. *)
Fixpoint offers (m : GuiMessage) (e : element) : Prop :=
  match e with
  | Txt _ _ _ | Space => False
  | TextInput _ _ _ on_input on_submit => (∃ s, on_input s = m) ∨ on_submit = Some m
  | Button c on_press _ => on_press = Some m ∨ offers m c
  | Container c _ | Scrollable c => offers m c
  | Column l | Row l => List.fold_right (λ x acc, offers m x ∨ acc) False l
  end.

(** ** Helpers *)

Definition plain (content : rstring) (size : Z) : element := Txt content size None.
Definition accent_text (label : rstring) (size : Z) : element := Txt label size (Some palette_primary).
(** [str::to_uppercase]; the labels are ASCII literals. *)
Definition upper_char (c : char) : char :=
  if (97 <=? code c) && (code c <=? 122) then default c (to_char (code c - 32)) else c.
Definition to_uppercase (s : rstring) : rstring := map upper_char s.
(** [chars().map(..).collect::<Vec<_>>().join(sep)] *)
Definition thin_space : char := Char 0x2009 stt.
Fixpoint join_chars (sep : char) (s : rstring) : rstring :=
  match s with
  | [] => []
  | [c] => [c]
  | c :: s' => c :: sep :: join_chars sep s'
  end.
Definition spaced_upper (label : rstring) : rstring := join_chars thin_space (to_uppercase label).

Definition section_header (label : rstring) : element := Txt (spaced_upper label) 13 (Some primary_strong_color).
Definition muted_text (label : rstring) : element := Txt label 13 (Some background_strong_color).
Definition danger_text (label : rstring) : element := Txt label 14 (Some palette_danger).

Definition section (title : rstring) (body : element) : element :=
  Container (Column [section_header title; body]) card_style.
Definition card (content : element) : element := Container content card_style.

Definition icon_button (glyph caption : rstring) (active : bool) (on_press : option GuiMessage) : element :=
  Button (Column [plain glyph 20; plain (to_uppercase caption) 8]) on_press (if active then BtnPrimary else BtnText).

Definition unread_badge (count : nat) : element :=
  Container (plain (display_int (Z.of_nat count)) 12) badge_style.

(** [contact_row] of the gui *)
Definition gui_contact_row (contact : Contact) (unread : nat) (selected : bool) : element :=
  let dot := Container (plain [] 1) (dot_style (ct_online contact)) in
  let row := [dot; plain (contact_label contact) 14; Space] in
  let row := if (0 <? unread)%nat then row ++ [unread_badge unread] else row in
  Button (Row row) (Some (SelectPeer (ct_id contact))) (if selected then BtnPrimary else BtnText).

Definition message_bubble (line : ChatLine) : element :=
  let bubble := Container (plain (cl_text line) 14) (bubble_style (cl_from_me line)) in
  if cl_from_me line then Row [Space; bubble] else Row [bubble; Space].

(** ** The views *)

Context `{EnvI : !Env}.

Definition middle_dot : rstring := [Char 0xB7 stt].
Definition em_dash : rstring := [Char 0x2014 stt].

Definition unlock_view (self : App) (password server : rstring) (error : option rstring) : element :=
  let '(label, action) :=
    if has_identity self then (str "Enter your password to unlock your identity", str "Unlock")
    else (str "Choose a password to create a new identity", str "Create identity") in
  let input := TextInput (str "Password") password true PasswordChanged (Some SubmitPassword) in
  let server_input := TextInput (str "Server address") server false ServerChanged (Some SubmitPassword) in
  let submit := Button (plain action 15) (Some SubmitPassword) BtnPrimary in
  let content :=
    [accent_text (str "SeChat") 36;
     muted_text (str "SECURE " ++ middle_dot ++ str " PEER-TO-PEER " ++ middle_dot ++ str " ENCRYPTED");
     Space; section_header (str "Unlock"); plain label 14; input;
     section_header (str "Relay server"); server_input; Space; submit] in
  let content := match error with Some error => content ++ [danger_text error] | None => content end in
  let panel := Container (Column content) card_style in
  Container panel shell_style.

Definition add_peer_area (self : App) : element :=
  let x25519_input := TextInput (str "x25519 public key (hex)") (add_x25519 self) false AddPeerX25519Changed None in
  let verifying_input := TextInput (str "ed25519 verifying key (hex)") (add_verifying self) false AddPeerVerifyingChanged None in
  let add_button := Button (plain (str "Add peer") 14) (Some AddPeer) BtnPrimary in
  Container (Column [section_header (str "Add a peer"); x25519_input; verifying_input; add_button]) inset_style.

Definition contacts_panel (self : App) : element :=
  let list := if decide (a_contacts self = []) then [muted_text (str "No contacts yet " ++ em_dash ++ str " add a peer below.")]
              else [] in
  let list := list ++ map (λ contact,
    let n := default 0%nat (unread self !! ct_id contact) in
    let chosen := bool_decide (selected self = Some (ct_id contact)) in
    gui_contact_row contact n chosen) (a_contacts self) in
  Column [section_header (str "Contacts"); Scrollable (Column list); add_peer_area self].

Definition chat_panel (self : App) : element :=
  match selected self with
  | None => Container (muted_text (str "Select a contact to start chatting.")) (λ _, default_style)
  | Some peer =>
      let peer_name := peer_label self peer in
      let messages := Column (map message_bubble (a_history self)) in
      let conversation := Scrollable messages in
      let draft_input := TextInput (str "Type a message" ++ dots) (draft self) false DraftChanged (Some SendDraft) in
      let send_button := Button (plain (str "Send") 14) (Some SendDraft) BtnPrimary in
      let compose := Container (Row [draft_input; send_button]) inset_style in
      let header := Row [Column [section_header (str "Chat"); Txt peer_name 18 (Some palette_primary)];
                         Button (plain (str "Purge") 13) (Some PurgeSelected) BtnSecondary;
                         Button (plain (str "Remove") 13) (Some RemoveSelected) BtnDanger] in
      Column [header; conversation; compose]
  end.

Definition tab_is (tab : RailTab) (self : App) : bool :=
  match tab, rail_tab self with RailContacts, RailContacts | RailChat, RailChat => true | _, _ => false end.

Definition icon_rail (self : App) : element :=
  Container (Column
    [accent_text [Char 0x1F512 stt] 22; Space;
     icon_button [Char 0x1F465 stt] (str "Contacts") (tab_is RailContacts self) (Some (SelectRail RailContacts));
     icon_button [Char 0x2709 stt] (str "Chat") (tab_is RailChat self) (Some (SelectRail RailChat));
     Space;
     icon_button [Char 0x2699 stt] (str "Settings") false (Some OpenSettings);
     icon_button [Char 0x23FB stt] (str "Quit") false (Some (WindowClose (main_id self)))]) rail_style.

Definition header_bar (self : App) : element :=
  let me := match a_client self with
            | Some c => str "you " ++ middle_dot ++ str " " ++ my_fingerprint c
            | None => []
            end in
  let title := match rail_tab self with RailContacts => str "Contacts" | RailChat => str "Chat" end in
  Container (Row
    [accent_text (str "SeChat") 22; Column [section_header title; muted_text me]; Space;
     Button (plain ([Char 0x2699 stt] ++ str "  " ++ to_uppercase (str "Settings")) 13) (Some OpenSettings) BtnSecondary])
    card_style.

Definition status_bar (self : App) : element :=
  Container (Row [accent_text [Char 0x2022 stt] 14; plain (status self) 13]) inset_style.

Definition workspace (self : App) (content : element) : element :=
  Column [header_bar self; content; status_bar self].

Definition main_view (self : App) : element :=
  let content := match rail_tab self with
                 | RailContacts => card (contacts_panel self)
                 | RailChat => card (chat_panel self)
                 end in
  Container (Row [icon_rail self; workspace self content]) shell_style.

(** The settings window *)

Definition server_area (self : App) : element :=
  Row [TextInput (str "host:port") (server_field self) false ServerFieldChanged (Some ChangeServer);
       Button (plain (str "Change") 14) (Some ChangeServer) BtnSecondary].

Definition alias_area (self : App) : element :=
  Row [TextInput (str "name for the selected peer") (alias_input self) false AliasChanged (Some SetAlias);
       Button (plain (str "Save") 14) (Some SetAlias) BtnSecondary].

Definition my_keys_area (self : App) : element :=
  match my_keys self with
  | None => plain (str "Unlock your identity to see your keys.") 13
  | Some (x25519_hex, verifying_hex) =>
      let fingerprint := match a_client self with Some c => my_fingerprint c | None => [] end in
      let key_row label value := Column [plain label 12; TextInput [] value false (λ _, Ignored) None] in
      Column [plain (str "Fingerprint: " ++ fingerprint) 13;
              plain (str "Share both keys so a peer can add you:") 12;
              key_row (str "x25519") x25519_hex;
              key_row (str "ed25519 verifying") verifying_hex]
  end.

(** [client::data_dir]: the path as it is displayed. *)
Definition data_dir : rstring := path_string sechat_dir.

Definition settings_view (self : App) : element :=
  let theme_btn := Button (plain (if dark self then [Char 0x2600 stt] ++ str " Switch to light"
                                  else [Char 0x1F319 stt] ++ str " Switch to dark") 14) (Some ToggleTheme) BtnSecondary in
  let sections := Column
    [accent_text (str "Settings") 26; muted_text (str "CONTROL PANEL"); Space;
     section (str "Appearance") theme_btn; section (str "Relay server") (server_area self);
     section (str "Peer alias") (alias_area self); section (str "Your keys") (my_keys_area self);
     section (str "Storage") (muted_text (str "Data dir: " ++ data_dir))] in
  Container (Scrollable sections) shell_style.

Definition view (self : App) (window : nat) : element :=
  if bool_decide (Some window = settings_id self) then settings_view self
  else match screen self with
       | Unlock password server error => unlock_view self password server error
       | MainScreen => main_view self
       end.

(** [App::theme] *)
Definition theme (self : App) (window : nat) : Theme := if dark self then TokyoNight else Light.
End Views.

Section ViewLemmas.
Context `{IcedI : Iced} `{Prim : Primitives} `{EnvI : !Env} `{SledI : Sled} `{SrvEnv : ServerEnv} `{CliEnv : ClientEnv}.
Context `{CorEnv : CoreEnv} `{MsgRmp : !Rmp Message} `{BlobRmp : !Rmp BlobPayload}.

Lemma offers_app m (l k : list element) :
  List.fold_right (λ x acc, offers m x ∨ acc) False (l ++ k) ↔
  List.fold_right (λ x acc, offers m x ∨ acc) False l ∨ List.fold_right (λ x acc, offers m x ∨ acc) False k.
Proof. induction l as [|x l IH]; cbn; [tauto|]. rewrite IH. tauto. Qed.

Lemma offers_map {A} m (f : A → element) l :
  List.fold_right (λ x acc, offers m x ∨ acc) False (map f l) ↔ ∃ x, x ∈ l ∧ offers m (f x).
Proof.
  induction l as [|x l IH]; cbn; [split; [done|by intros (? & []%elem_of_nil & _)]|]. rewrite IH. split.
  - intros [H|(y & Hy & H)]; [exists x|exists y]; rewrite elem_of_cons; auto.
  - intros (y & [->|Hy]%elem_of_cons & H); eauto.
Qed.

(** What each window offers. *)
Definition unlock_message (m : GuiMessage) : Prop :=
  match m with PasswordChanged _ | ServerChanged _ | SubmitPassword => True | _ => False end.
Definition main_message (a : App) (m : GuiMessage) : Prop :=
  match m with
  | SelectPeer id => id ∈ map ct_id (a_contacts a)
  | DraftChanged _ | SendDraft | PurgeSelected | RemoveSelected => is_Some (selected a)
  | AddPeerX25519Changed _ | AddPeerVerifyingChanged _ | AddPeer | OpenSettings | SelectRail _ => True
  | WindowClose id => id = main_id a
  | _ => False
  end.
Definition settings_message (m : GuiMessage) : Prop :=
  match m with
  | ToggleTheme | ServerFieldChanged _ | ChangeServer | AliasChanged _ | SetAlias | Ignored => True
  | _ => False
  end.

(** Follow the widgets down to the message they send. *)
Ltac offered_case :=
  cbn in *; repeat match goal with
  | H : _ ∨ _ |- _ => destruct H as [H|H]
  | H : ∃ _, _ |- _ => destruct H as [? H]
  | H : Some _ = Some _ |- _ => injection H as H
  | H : None = Some _ |- _ => discriminate H
  | H : False |- _ => destruct H
  end; subst; cbn; eauto.

Lemma unlock_offers m a password server error : offers m (unlock_view a password server error) → unlock_message m.
Proof. unfold unlock_view. destruct (has_identity a), error; intros H; offered_case. Qed.

Lemma contact_row_offers m c n b : offers m (gui_contact_row c n b) → m = SelectPeer (ct_id c).
Proof. unfold gui_contact_row. destruct (0 <? n)%nat; intros H; offered_case; done. Qed.

Lemma contacts_offers m a : offers m (contacts_panel a) → main_message a m.
Proof.
  unfold contacts_panel, add_peer_area. intros H. cbn [offers List.fold_right section_header] in H.
  destruct H as [[]|[H|H]]; [|offered_case]. apply offers_app in H as [H|H].
  - case_decide; offered_case.
  - apply offers_map in H as (c & Hc & H). apply contact_row_offers in H as ->. cbn. by apply list_elem_of_fmap_2.
Qed.

Lemma bubble_offers m line : ¬ offers m (message_bubble line).
Proof. unfold message_bubble. destruct (cl_from_me line); cbn; tauto. Qed.

Lemma chat_offers m a : offers m (chat_panel a) → main_message a m.
Proof.
  unfold chat_panel. destruct (selected a) as [p|] eqn:Hs; [|intros []]. cbn [offers List.fold_right].
  intros H. assert (Hsel : is_Some (selected a)) by (by rewrite Hs).
  destruct H as [H|[H|H]]; [offered_case| |offered_case]. apply offers_map in H as (line & _ & H).
  by apply bubble_offers in H.
Qed.

Lemma main_offers m a : offers m (main_view a) → main_message a m.
Proof.
  unfold main_view, workspace, icon_rail, icon_button, header_bar, status_bar, card.
  cbn [offers List.fold_right accent_text section_header muted_text plain]. intros H.
  destruct H as [H|[H|[]]]; [offered_case|]. destruct H as [H|[H|H]]; [offered_case| |offered_case].
  destruct (rail_tab a); [by apply contacts_offers|by apply chat_offers].
Qed.

Lemma settings_offers m a : offers m (settings_view a) → settings_message m.
Proof.
  unfold settings_view, my_keys_area. intros H. destruct (my_keys a) as [[]|]; offered_case.
Qed.

(** ** Runs driven by what is on the screen *)

(** A message reaches [update] because an open window offers it, a window is
    asked to close, the subscription ticks, or a task of the runtime ended. *)
Inductive shown (a : App) : GuiMessage → Prop :=
| shown_main m : offers m (view a (main_id a)) → shown a m
| shown_settings w m : settings_id a = Some w → offers m (view a w) → shown a m
| shown_close w : w = main_id a ∨ settings_id a = Some w → shown a (WindowClose w)
| shown_tick : subscription a = true → shown a Tick
| shown_started r : shown a (Started r)
| shown_exit : shown a DoExit
| shown_opened : shown a Ignored.

Inductive view_step : Gui → Gui → Prop :=
| vstep_update m g : shown (g_app g) m → view_step g (update m g).2
| vstep_core g c events :
    view_step g (mkGui (g_app g) (mkFront c (f_queue (g_front g))) (g_inbox g ++ events) (g_next g)).

(** Before the client runs there is no settings window, no selection and no
    contact. *)
Definition view_inv (g : Gui) : Prop :=
  gui_inv g ∧ (a_client (g_app g) = None →
    settings_id (g_app g) = None ∧ selected (g_app g) = None ∧ a_contacts (g_app g) = []).

(** A running client stays. *)
Definition client_stays (g g' : Gui) : Prop := is_Some (a_client (g_app g)) → is_Some (a_client (g_app g')).
#[local] Instance client_stays_preorder : PreOrder client_stays.
Proof. split; [by intros ??|]. unfold client_stays. eauto. Qed.

Lemma of_front_stays {A} (m : St Front A) : respects client_stays (of_front m).
Proof. intros g. rewrite of_front_eq. by intros ?. Qed.
Lemma set_stays f : (∀ a, a_client (f a) = a_client a ∨ is_Some (a_client (f a))) → respects client_stays (set f).
Proof. intros Hf g Hc. cbn. by destruct (Hf (g_app g)) as [->|]. Qed.

Lemma update_stays m : respects client_stays (update m).
Proof.
  destruct m; cbn [update]; unfold quietly, submit_password, on_started, drain_events, select_peer, send_draft, gui_add_peer,
    change_server, gui_set_alias, refresh_contacts, reload_history, of_disk;
    repeat (first [ respects_step
      | match goal with
        | |- respects client_stays get => by intros ??
        | |- respects client_stays window_open => by intros ??
        | |- respects client_stays (of_front _) => apply of_front_stays
        | |- respects client_stays (set _) => apply set_stays; intros ?; by (left + (right; eexists))
        | |- respects client_stays take_events => intros g ?; unfold take_events; by destruct (rx (g_app g))
        | |- respects client_stays (apply_event ?e) => destruct e; cbn [apply_event]; unfold refresh_contacts, reload_history
        end ]).
Qed.

(** What the unlock screen can do. *)
Definition same_start (g g' : Gui) : Prop :=
  settings_id (g_app g') = settings_id (g_app g) ∧ selected (g_app g') = selected (g_app g) ∧
  a_contacts (g_app g') = a_contacts (g_app g).
#[local] Instance same_start_preorder : PreOrder same_start.
Proof. split; [done|]. unfold same_start. intros ??? (?&?&?) (?&?&?). split_and!; congruence. Qed.

Lemma unlock_same_start m : unlock_message m → respects same_start (update m).
Proof.
  assert (Hf : ∀ A (f : St Front A), respects same_start (of_front f)) by (intros A f g; by rewrite of_front_eq).
  destruct m; try done; intros _; cbn [update]; unfold quietly, submit_password, of_disk;
    repeat (first [ respects_step | apply Hf | by intros ? ]).
Qed.

Lemma view_step_inv g g' : view_inv g → view_step g g' → view_inv g'.
Proof.
  intros [Hg Hn] Hs. destruct Hs as [m g Hm|g c events].
  2: { split; [|done]. by destruct Hg; constructor. }
  split; [by apply update_keeps|]. intros Hc'.
  assert (Hc : a_client (g_app g) = None).
  { destruct (a_client (g_app g)) eqn:E; [|done].
    destruct (update_stays m g) as [x Hx]; [rewrite E; by eexists|]. congruence. }
  destruct (Hn Hc) as (H1 & H2 & H3).
  assert (Hsame : same_start g (update m g).2 → settings_id (g_app (update m g).2) = None ∧
    selected (g_app (update m g).2) = None ∧ a_contacts (g_app (update m g).2) = []).
  { intros (-> & -> & ->). done. }
  destruct Hm as [m Hm|w m Hw Hm|w Hw| |r| |].
  - apply Hsame, unlock_same_start. unfold view in Hm. rewrite H1 in Hm. rewrite bool_decide_eq_false_2 in Hm by done.
    destruct (screen (g_app g)) eqn:E; [by eapply unlock_offers|]. apply Hg in E as [? ?]. congruence.
  - congruence.
  - apply Hsame. cbn [update]. unfold sbind, get. rewrite H1, Hc. by rewrite bool_decide_eq_false_2.
  - unfold subscription in *. destruct (rx (g_app g)) eqn:E; [|done]. destruct (inv_rx g Hg) as [? ?]; [by rewrite E|]. congruence.
  - apply Hsame. destruct r as [[client held]|e].
    + exfalso. revert Hc'. cbn [update on_started]. unfold quietly, sbind, set, smodify. rewrite of_front_eq. done.
    + cbn [update on_started]. unfold quietly, sbind, get. destruct (screen (g_app g)); done.
  - by apply Hsame.
  - by apply Hsame.
Qed.

(** ** Submitting the password *)

Definition gui_world (g : Gui) : World := s_world (c_srv (f_core (g_front g))).

Lemma of_disk_step {A} (m : St World A) g r w :
  m (gui_world g) = (r, w) →
  ∃ g', of_disk m g = (r, g') ∧ g_app g' = g_app g ∧ gui_world g' = w ∧ g_next g' = g_next g.
Proof.
  intros Hm. unfold of_disk, on_disk, of_front, at_core, on_srv. erewrite with_world_step by exact Hm. by eexists.
Qed.

(** The address the unlock screen settles on. *)
Definition chosen_server (server : rstring) : rstring := if is_empty (trim server) then DEFAULT_SERVER else trim server.

(** Submitting on a first start: a new identity is made and the client starts. *)
Lemma submit_creates `{!Quiet, !ArgonLaws, !AeadLaws, !KeyLaws} password server error g :
  screen (g_app g) = Unlock password server error → has_identity (g_app g) = false → password ≠ [] →
  Z.of_nat (length (as_bytes password)) < 2 ^ 32 → layout_ok (w_fs (gui_world g)) →
  let keys := next_keys (w_rng (gui_world g)) in
  ∃ g', update SubmitPassword g = (Some (TaskStart keys (chosen_server server)), g') ∧
    screen (g_app g') = Unlock password server None ∧ has_identity (g_app g') = false ∧
    main_id (g_app g') = main_id (g_app g) ∧ settings_id (g_app g') = settings_id (g_app g) ∧
    layout_ok (w_fs (gui_world g')) ∧ w_rng (gui_world g') = (4 + w_rng (gui_world g))%nat ∧
    ∀ w, w_fs w = w_fs (gui_world g') → (unlock password w).1 = Some (Ok keys).
Proof.
  intros Hscr Hid Hpw Hlen Hlay keys. destruct (layout_paths _ Hlay) as (Hk & Hp & _ & _ & Hpeers & _).
  destruct (create_identity_quiet password (gui_world g) Hlen) as (w1 & Hcreate & Hrng & Hfiles & Hunlock); [by constructor|].
  destruct (create_identity_lay password (gui_world g) Hlay) as [Hlay1 _]. rewrite Hcreate in Hlay1. cbn [snd] in Hlay1.
  destruct (layout_paths _ Hlay1) as (_ & _ & Hsrv & _ & Hpeers1 & _).
  destruct (save_server_quiet (chosen_server server) w1) as (w2 & Hsave & _ & Hrng2 & Hkeep);
    [by apply (clear_path_prefix _ _ [str "peers"])|done|].
  destruct (save_server_lay (chosen_server server) w1 Hlay1) as [Hlay2 _]. rewrite Hsave in Hlay2. cbn [snd] in Hlay2.
  destruct (of_disk_step (create_identity password) g _ _ Hcreate) as (g1 & Hg1 & Ha1 & Hw1 & Hn1).
  set (g2 := mkGui (with_screen (Unlock password server None) (g_app g1)) (g_front g1) (g_inbox g1) (g_next g1)).
  destruct (of_disk_step (save_server (chosen_server server)) g2 _ _ ltac:(change (gui_world g2) with (gui_world g1); rewrite Hw1; exact Hsave))
    as (g3 & Hg3 & Ha3 & Hw3 & Hn3).
  exists (mkGui (with_server_field (chosen_server server) (g_app g3)) (g_front g3) (g_inbox g3) (g_next g3)). split_and!.
  - cbn [update]. unfold submit_password, sbind at 1, get. rewrite Hscr, Hid. destruct password as [|ch password]; [done|].
    cbn [is_empty]. unfold sbind at 1. unfold sbind at 1. rewrite Hg1. unfold sret at 1.
    unfold sbind at 1, set at 1, smodify. fold (chosen_server server). fold g2.
    unfold sbind at 1. rewrite Hg3. reflexivity.
  - cbn. by rewrite Ha3.
  - cbn. rewrite Ha3. cbn. by rewrite Ha1.
  - cbn. rewrite Ha3. cbn. by rewrite Ha1.
  - cbn. rewrite Ha3. cbn. by rewrite Ha1.
  - change (layout_ok (w_fs (gui_world g3))). by rewrite Hw3.
  - change (w_rng (gui_world g3) = (4 + w_rng (gui_world g))%nat). by rewrite Hw3, Hrng2.
  - intros w Hw. change (w_fs w = w_fs (gui_world g3)) in Hw. apply Hunlock. intros x Hx. rewrite Hw, Hw3.
    apply Hkeep; [|by apply Hfiles]. unfold server_config_path. apply snoc_ne. destruct Hx as [->| ->]; str_ne.
Qed.

(** Whichever client reports that it started takes over the window. *)
Lemma started_takes_over client g :
  ∃ g', update (Started (Ok (client, true))) g = (Some TaskNone, g') ∧ screen (g_app g') = MainScreen ∧
    a_client (g_app g') = Some client ∧ my_keys (g_app g') = Some (my_keys_hex client) ∧
    w_fs (gui_world g') = w_fs (gui_world g).
Proof.
  cbn [update on_started]. unfold quietly, client_contacts, sbind, set, smodify. rewrite of_front_eq, at_core_eq. cbn.
  eexists. split; [reflexivity|]. split_and!; [done..|]. apply (contacts_looks (f_core (g_front g))).
Qed.

Lemma unlock_offers_submit a w password server error :
  Some w ≠ settings_id a → screen a = Unlock password server error → offers SubmitPassword (view a w).
Proof.
  intros Hw Hs. unfold view. rewrite bool_decide_eq_false_2 by done. rewrite Hs. unfold unlock_view.
  destruct (has_identity a), error; cbn; tauto.
Qed.

Lemma main_offers_open a w : settings_id a = None → screen a = MainScreen → offers OpenSettings (view a w).
Proof.
  intros Hw Hs. unfold view. rewrite Hw, bool_decide_eq_false_2 by done. rewrite Hs. unfold main_view, icon_rail, icon_button.
  cbn. tauto.
Qed.
End ViewLemmas.

Section ViewTheorems.
Context `{IcedI : Iced} `{Prim : Primitives} `{EnvI : !Env} `{SledI : Sled} `{SrvEnv : ServerEnv} `{CliEnv : ClientEnv}.
Context `{CorEnv : CoreEnv} `{MsgRmp : !Rmp Message} `{BlobRmp : !Rmp BlobPayload}.

(** The handlers that are guarded by a running client, or by a selection. *)
Definition needs_client (m : GuiMessage) : bool :=
  match m with
  | Tick | SelectPeer _ | SendDraft | AddPeer | ChangeServer | SetAlias | PurgeSelected | RemoveSelected | OpenSettings => true
  | _ => false
  end.
Definition needs_selection (m : GuiMessage) : bool :=
  match m with SendDraft | PurgeSelected | RemoveSelected => true | _ => false end.

(** C33: The screen only offers what can be done: in every run of the gui that is
    driven by what its windows show, a message whose handler needs a running
    client can only arrive when there is one, sending, purging and removing only
    when a peer is selected, and only listed contacts can be selected; so the
    branches of [update] for a missing client are never taken. *)
Theorem screen_offers_ready f g m :
  f_queue f = [] → rtc view_step (boot f).1.1 g → shown (g_app g) m →
  (needs_client m = true → is_Some (a_client (g_app g))) ∧
  (needs_selection m = true → is_Some (selected (g_app g))) ∧
  (∀ id, m = SelectPeer id → id ∈ map ct_id (a_contacts (g_app g))).
Proof.
  intros Hf Hr Hm. assert (Hinv : view_inv g).
  { assert (H0 : view_inv (boot f).1.1).
    { split; [by apply boot_inv|]. unfold boot, sbind. by rewrite !at_core_eq. }
    clear Hm. induction Hr as [|g1 g2 g3 Hs _ IH]; [done|]. by apply IH, (view_step_inv g1). }
  destruct Hinv as [Hg Hn].
  assert (Hset : is_Some (settings_id (g_app g)) → is_Some (a_client (g_app g))).
  { intros [w Hw]. destruct (a_client (g_app g)); [by eexists|]. destruct (Hn eq_refl). congruence. }
  assert (Hsm : ∀ m, is_Some (settings_id (g_app g)) → settings_message m →
    (needs_client m = true → is_Some (a_client (g_app g))) ∧ (needs_selection m = true → is_Some (selected (g_app g))) ∧
    (∀ id, m = SelectPeer id → id ∈ map ct_id (a_contacts (g_app g)))).
  { intros [] Hs Hsm; try done; split_and!; auto; done. }
  destruct Hm as [m Hm|w m Hw Hm|w Hw|Ht|r| |]; try done.
  - unfold view in Hm. case_bool_decide as Hb; [apply Hsm; [by rewrite <- Hb|by eapply settings_offers]|].
    destruct (screen (g_app g)) eqn:E.
    + apply unlock_offers in Hm. by destruct m.
    + apply main_offers in Hm. apply Hg in E. destruct m; try done; by split_and!; [..|intros ? [= <-]].
  - apply Hsm; [by rewrite Hw|]. unfold view in Hm. rewrite bool_decide_eq_true_2 in Hm by done. by eapply settings_offers.
  - split_and!; [|done..]. intros _. apply (inv_rx g Hg). unfold subscription in Ht. destruct (rx (g_app g)); [by eexists|done].
Qed.

(** C39: Submitting twice on a first start replaces the identity: nothing records
    that the identity now exists, and the unlock screen goes on offering the
    submit button while the client starts.  A second press makes a new identity
    from fresh keys, overwrites the files of the first and starts a second
    client.  Both clients report [Started], and the one handled last takes over
    the window: when that is the first, the user chats under the first keys,
    and shows them to others, while the files on the disk unlock to the second,
    which are different.  (The file system has no faults and is laid out as the
    program leaves it, the password is shorter than 2^32 bytes, and the random
    generator does not repeat the secret.) *)
Theorem second_submit_replaces_identity `{!Quiet, !ArgonLaws, !AeadLaws, !KeyLaws} password server error g :
  gui_inv g → screen (g_app g) = Unlock password server error → has_identity (g_app g) = false → password ≠ [] →
  Z.of_nat (length (as_bytes password)) < 2 ^ 32 → layout_ok (w_fs (gui_world g)) →
  let n := w_rng (gui_world g) in
  let keys1 := next_keys n in
  let keys2 := next_keys (4 + n) in
  rng_secret n ≠ rng_secret (4 + n) →
  ∃ client1 client2 g1 g2 g3 g4,
    client_start (Ok tt) keys1 = Ok client1 ∧ client_start (Ok tt) keys2 = Ok client2 ∧
    update SubmitPassword g = (Some (TaskStart keys1 (chosen_server server)), g1) ∧
    (unlock password (gui_world g1)).1 = Some (Ok keys1) ∧
    shown (g_app g1) SubmitPassword ∧
    update SubmitPassword g1 = (Some (TaskStart keys2 (chosen_server server)), g2) ∧
    update (Started (Ok (client2, true))) g2 = (Some TaskNone, g3) ∧
    update (Started (Ok (client1, true))) g3 = (Some TaskNone, g4) ∧
    screen (g_app g4) = MainScreen ∧ a_client (g_app g4) = Some client1 ∧ cli_keys client1 = keys1 ∧
    my_keys (g_app g4) = Some (my_keys_hex client1) ∧
    (unlock password (gui_world g4)).1 = Some (Ok keys2) ∧ keys1 ≠ keys2.
Proof.
  intros Hg Hscr Hid Hpw Hlen Hlay n keys1 keys2 Hrand.
  destruct (submit_creates password server error g Hscr Hid Hpw Hlen Hlay) as
    (g1 & Hup1 & Hscr1 & Hid1 & Hmain & Hset & Hlay1 & Hrng & Hu1).
  destruct (submit_creates password server None g1 Hscr1 Hid1 Hpw Hlen Hlay1) as (g2 & Hup2 & _ & _ & _ & _ & _ & _ & Hu2).
  rewrite Hrng in Hup2, Hu2. eexists _, _, g1, g2.
  destruct (started_takes_over (mkClient keys2 (identity_hash (x25519_pub keys2) (ed25519_verifying keys2))
    (fingerprint (identity_hash (x25519_pub keys2) (ed25519_verifying keys2)))) g2) as (g3 & Hup3 & _ & _ & _ & Hfs3).
  destruct (started_takes_over (mkClient keys1 (identity_hash (x25519_pub keys1) (ed25519_verifying keys1))
    (fingerprint (identity_hash (x25519_pub keys1) (ed25519_verifying keys1)))) g3) as (g4 & Hup4 & Hs4 & Hc4 & Hk4 & Hfs4).
  exists g3, g4. split_and!; [reflexivity|reflexivity|exact Hup1|by apply Hu1| |exact Hup2|exact Hup3|exact Hup4|done|done|done|done| |].
  - apply shown_main. eapply unlock_offers_submit; [|exact Hscr1]. rewrite Hmain, Hset. intros Hw.
    destruct (inv_windows g Hg) as [_ Hi]. symmetry in Hw. by destruct (Hi _ Hw).
  - apply Hu2. by rewrite Hfs4, Hfs3.
  - intros Heq. by apply (f_equal x25519_priv) in Heq.
Qed.
End ViewTheorems.

Module ViewWitness.
#[local] Existing Instances toy_prims toy_env list_sled.
#[local] Existing Instances ChatDbWitness.toy_rmp_message ServerWitness.toy_rmp_blob ServerWitness.toy_server
  ClientFilesWitness.toy_client CoreWitness.toy_core.
Definition toy_iced : Iced :=
  Build_Iced bool Z true false (λ _, 1) (λ _, 2) (λ _, 3) (λ _, 4) (λ _, 5) (λ _, 6) (λ _, 7) (λ _, 8) (λ _, 9) (λ _, 10).
#[local] Existing Instances toy_iced KeyFileWitness.toy_quiet toy_argon_laws toy_aead_laws toy_key_laws.

Lemma screen_offers_ready_witness :
  shown (g_app GuiWitness.running) OpenSettings ∧ is_Some (a_client (g_app GuiWitness.running)).
Proof.
  assert (Hs : shown (g_app GuiWitness.running) OpenSettings).
  { apply shown_main, main_offers_open; vm_compute; reflexivity. }
  split; [exact Hs|].
  destruct (screen_offers_ready GuiWitness.front GuiWitness.running OpenSettings) as [H _].
  - reflexivity.
  - eapply rtc_l; [apply (vstep_update (Started (Ok (GuiWitness.self, true)))), shown_started|apply rtc_refl].
  - exact Hs.
  - apply H. reflexivity.
Defined.

(** A first start: an empty home, a password typed. *)
Definition fresh_front : Front :=
  mkFront (mkCore (ServerWitness.srv KeyFileWitness.w0 []) ∅ ∅ ∅ [] [] [] [] [] 0) [].
Definition typed : Gui := (update (PasswordChanged (str "pw")) (boot fresh_front).1.1).2.

Lemma typed_inv : gui_inv typed.
Proof. apply update_keeps, boot_inv. reflexivity. Qed.

Lemma second_submit_replaces_identity_witness :
  ∃ k1 k2 client g4, a_client (g_app g4) = Some client ∧ cli_keys client = k1 ∧
    (unlock (str "pw") (gui_world g4)).1 = Some (Ok k2) ∧ k1 ≠ k2.
Proof.
  destruct (second_submit_replaces_identity (str "pw") DEFAULT_SERVER None typed typed_inv)
    as (client1 & client2 & g1 & g2 & g3 & g4 & _ & _ & _ & _ & _ & _ & _ & _ & _ & Hc & Hk & _ & Hu & Hne).
  - reflexivity.
  - vm_compute. reflexivity.
  - discriminate.
  - vm_compute. reflexivity.
  - replace (w_fs (gui_world typed)) with (∅ : gmap path node) by reflexivity. intros p n _. rewrite lookup_empty. discriminate.
  - intros Heq. apply (f_equal (λ k : array 32, List.hd Byte.x00 (arr_data k))) in Heq. vm_compute in Heq. discriminate.
  - eexists _, _, client1, g4. split; [exact Hc|split; [exact Hk|split; [exact Hu|exact Hne]]].
Defined.
End ViewWitness.
