(* ===== verification/Conformance.v ===== *)
(** * The unit tests of the crates, run on the model

    Each [#[test]] of src/crates/crypto/src/lib.rs, src/crates/p2p/src/lib.rs
    and src/crates/client/src/lib.rs is translated to a definition under its
    own name: the list of its assertions for a pure test, and for the others
    what the run yields ([None] is a failed [unwrap]).  The theorems say that
    they pass: the pure tests by evaluation, the tests over random keys for
    every key, clock and cipher that satisfies the laws.

    Two tests assert that random draws differ, which no law gives.
    [relay_handshake_derives_fresh_matching_keys] is proved to pass when the
    draws of its two runs derive different keys;
    [blob_envelope_rejects_wrong_key], whose assertion is the strength of the
    cipher itself, is only run on the concrete instance. *)

From Stdlib Require Import Strings.Byte.
From S2P Require Import Prelude Bytes Text Primitives Instances World Crypto KeyFile PeerStore ChatDb Wire Handshake.
From S2P Require Import Session ServerProto ServerClient ClientFiles ClientCore Connect.

Local Open Scope Z_scope.

Definition all_pass (assertions : list bool) : Prop := Forall (λ b, b = true) assertions.

(** ** client: name resolution and the STUN address *)

Definition fill (b : byte) : hash := pad_array 32 (replicate 32 b).
(** The test's [contact] helper. *)
Definition test_contact (id : byte) (fp : String.string) (alias : option String.string) : Contact :=
  mkContact (fill id) (str fp) false None (str <$> alias).
Definition resolves (cs : list Contact) (query : String.string) (want : option byte) : bool :=
  bool_decide (resolve_query cs (str query) = fill <$> want).

Definition resolve_by_exact_alias : list bool :=
  [resolves [test_contact x01 "aaaa" (Some "alice"%string); test_contact x02 "bbbb" (Some "bob"%string)] "bob" (Some x02)].
Definition resolve_by_alias_prefix : list bool :=
  [resolves [test_contact x01 "aaaa" (Some "alice"%string)] "al" (Some x01)].
Definition resolve_by_fingerprint_prefix : list bool :=
  [resolves [test_contact x07 "deadbeef" None] "dead" (Some x07)].
Definition resolve_prefers_exact_alias_over_fingerprint : list bool :=
  [resolves [test_contact x01 "cafe1234" None; test_contact x02 "ffff" (Some "cafe"%string)] "cafe" (Some x02)].
Definition resolve_empty_or_unknown_is_none : list bool :=
  let cs := [test_contact x01 "aaaa" (Some "alice"%string)] in [resolves cs "" None; resolves cs "zzz" None].

Definition stun_default_swaps_relay_prefix : list bool :=
  let check a b := bool_decide (default_stun_addr (str a) = str b) in
  [check "relay.dhmztr.com" "stun.dhmztr.com:3478"; check "relay.dhmztr.com:3000" "stun.dhmztr.com:3478";
   check "localhost:3000" "localhost:3478"; check "example.com" "example.com:3478"]%string.

(** ** client: the retry ladder *)

#[global] Instance retry_action_eq : EqDecision RetryAction.
Proof. solve_decision. Defined.

(** The test's [intent] helper, at the instant [now] (milliseconds). *)
Definition test_intent (now attempts backoff : Z) (online : bool) (due_in : option Z) : ConnectIntent :=
  mkIntent attempts backoff (match due_in with Some s => now + 1000 * s | None => now end) online.
Definition acts (i : ConnectIntent) (has_session : bool) (now : Z) (want : RetryAction) : bool :=
  bool_decide (next_retry_action i has_session now = want).

(** The intent is built at [t0], the decision taken at [t1]. *)
Definition retry_first_attempt_fires_when_due_and_online (t0 t1 : Z) : list bool :=
  [acts (test_intent t0 0 1 true None) false t1 Punch].
Definition retry_waits_when_offline (t0 t1 : Z) : list bool :=
  [acts (test_intent t0 0 1 false None) false t1 Wait].
Definition retry_waits_when_not_yet_due (t0 t1 : Z) : list bool :=
  [acts (test_intent t0 1 2 true (Some 10)) false t1 Wait].
Definition retry_done_when_session_live (t0 t1 : Z) : list bool :=
  [acts (test_intent t0 3 8 true None) true t1 Done].
Definition retry_gives_up_at_max_attempts (t0 t1 : Z) : list bool :=
  [acts (test_intent t0 MAX_CONNECT_ATTEMPTS 30 true None) false t1 GiveUp].
Definition retry_parked_past_max_waits (t0 t1 : Z) : list bool :=
  [acts (test_intent t0 (MAX_CONNECT_ATTEMPTS + 1) 30 true None) false t1 Wait].
Definition backoff_doubles_and_caps : list bool :=
  [bump_backoff 1 =? 2; bump_backoff 2 =? 4; bump_backoff 16 =? Z.min 32 RETRY_BACKOFF_CAP_SECS;
   bump_backoff RETRY_BACKOFF_CAP_SECS =? RETRY_BACKOFF_CAP_SECS].
Definition rearm_resets_ladder (t0 t1 t2 : Z) : list bool :=
  let i := rearm (test_intent t0 (MAX_CONNECT_ATTEMPTS + 1) 30 true (Some 100)) t1 in
  [in_attempts i =? 0; in_backoff i =? 1; acts i false t2 Punch].

(** ** client: the reservation *)

(** Whether task [t] runs on after [Reserve]. *)
Definition reserved `{Prim : Primitives} (t : nat) (k : Conn) : bool :=
  match t_phase <$> k_tasks k !! t with Some Punching => true | _ => false end.

Section Reservation.
Context `{Prim : Primitives} `{EnvI : !Env} `{SledI : Sled} `{PmRmp : !Rmp PeerMessage} `{PingRmp : !Rmp Ping}.
Context (keys : Keys) (eph_priv : nat → StaticSecret) (net : nat → Net) (a : target).

(** Two tasks reserve one peer; the first one's guard is dropped. *)
Definition connecting_reservation_dedupes_and_clears_on_drop : option (list bool) :=
  let peer := target_id a in
  k ← crun keys eph_priv net [Spawn a; Spawn a; ReadLive 0; ReadLive 1; Reserve 0; Reserve 1] conn0;
  let dropped := end_task 0 peer k in
  Some [reserved 0 k; negb (reserved 1 k); bool_decide (peer ∈ k_connecting k);
        negb (bool_decide (peer ∈ k_connecting dropped))].

Lemma conn_runs : connecting_reservation_dedupes_and_clears_on_drop = Some [true; true; true; true].
Proof.
  unfold connecting_reservation_dedupes_and_clears_on_drop, reserved.
  repeat (cbn [crun cstep mbind option_bind conn0 k_tasks k_sessions k_connecting k_pumps k_inbox k_fresh set_phase
    end_task t_phase t_target orb bool_decide fmap option_fmap option_map]; simplify_map_eq;
    first [rewrite bool_decide_eq_false_2 by (set_solver || by intros [])
          |rewrite bool_decide_eq_true_2 by set_solver|idtac]).
  done.
Qed.
End Reservation.

(** ** p2p: pure tests *)

Definition am_i_first_is_deterministic_and_asymmetric : list bool :=
  let hi := fill x09 in let lo := fill x01 in [am_i_first hi lo; negb (am_i_first lo hi)].

Definition frame_freshness_window : list bool :=
  let now := 1000000 in
  [frame_is_fresh now now; frame_is_fresh (now - MAX_FRAME_AGE_SECS) now;
   frame_is_fresh (now + MAX_FRAME_AGE_SECS) now; negb (frame_is_fresh (now - MAX_FRAME_AGE_SECS - 1) now);
   negb (frame_is_fresh (now + MAX_FRAME_AGE_SECS + 1) now)].

(** ** crypto *)

Section CryptoTests.
Context `{Prim : Primitives} `{EnvI : !Env} `{SledI : Sled} `{MsgRmp : !Rmp Message}.

Definition test_encryption_chat : St World (option bool) :=
  let! (private, public) := generate_x25519 in
  sret match derive_session_key private public with
       | Err _ => None
       | Ok sessionkey =>
           encrypted_data ← encrypt_message_for_chat (str "Hi") sessionkey 0;
           match decrypt_message_from_chat encrypted_data sessionkey 0 with
           | Some (Ok decrypted_data) => Some (bool_decide (decrypted_data = str "Hi"))
           | _ => None
           end
       end.

#[global] Instance author_eq : EqDecision Author.
Proof. solve_decision. Defined.
#[global] Instance message_eq : EqDecision Message.
Proof. solve_decision. Defined.

Definition test_encryption_storage : St World (option bool) :=
  let! (private, public) := generate_x25519 in
  match load_storage_key public private with
  | Err _ => sret None
  | Ok storagekey =>
      let! msg := message_new (str "Hi") You in
      let! encrypted_data := encrypt_message_stored msg storagekey in
      sret match encrypted_data with
           | Err _ => None
           | Ok encrypted_data =>
               match decrypt_message_stored encrypted_data storagekey with
               | Err _ => None
               | Ok decrypted_data =>
                   match rmp_from_slice decrypted_data with
                   | Err _ => None
                   | Ok final_item => Some (bool_decide (msg = final_item))
                   end
               end
           end
  end.

Definition blob_envelope_roundtrip : St World (option bool) :=
  let! (recipient_priv, recipient_pub) := generate_x25519 in
  let payload := label "an offline blob payload" in
  let! envelope := encrypt_blob recipient_pub payload in
  sret match envelope with
       | Err _ => None
       | Ok envelope =>
           match decrypt_blob envelope recipient_priv with
           | Err _ => None
           | Ok recovered => Some (bool_decide (recovered = payload))
           end
       end.

Definition blob_envelope_rejects_wrong_key : St World (option bool) :=
  let! (_, recipient_pub) := generate_x25519 in
  let! (other_priv, _) := generate_x25519 in
  let! envelope := encrypt_blob recipient_pub (label "secret") in
  sret match envelope with
       | Err _ => None
       | Ok envelope => Some (match decrypt_blob envelope other_priv with Err _ => true | Ok _ => false end)
       end.
End CryptoTests.

(** ** p2p: tests over sockets and channels *)

Section P2pTests.
Context `{Prim : Primitives} `{EnvI : !Env} `{SledI : Sled}.
Context `{PmRmp : !Rmp PeerMessage} `{StunRmp : !Rmp StunPing} `{ReplyRmp : !Rmp StunReply}.

(** [ident()]: the keys and the [PeerPublic] of an identity. *)
Record Ident := mkIdent { x_priv : StaticSecret; x_pub : PublicKey; signing : SigningKey; peerpub : PeerPublic }.
Definition ident : St World Ident :=
  let! (x_priv, x_pub) := generate_x25519 in
  let! signing := generate_ed25519 in
  sret (mkIdent x_priv x_pub signing (mkPeerPublic x_pub (verifying_key signing))).

(** The server task answers every datagram with one reply. *)
Definition stun_discover_returns_observed (server : SocketAddr) (server_addr : rstring) : St Net (option rstring) :=
  let reply := mkStunReply (str "203.0.113.7:41000") in
  let! id := on_world ident in
  match rmp_to_vec reply with
  | Err _ => sret None
  | Ok b => stun_discover server_addr (pk_bytes (x_pub id)) (signing id) (λ _, (true, Some (b, server)))
  end.

(** Both sessions share the static relay key; what A's session puts into its
    relay channel is what B's session reads.  The texts B is told. *)
Definition relay_session_roundtrip (text : rstring) (wB : World) : St World (option (list rstring)) :=
  let! a := ident in
  let! b := ident in
  λ w, (key_a ← relay_session_key (peer_public (peerpub b)) (x_priv a);
        key_b ← relay_session_key (peer_public (peerpub a)) (x_priv b);
        let a_first := am_i_first (pk_bytes (x_pub a)) (pk_bytes (x_pub b)) in
        sess_a ← start_session Relay key_a (x_pub a) (signing a) (peerpub b) a_first;
        sess_b ← start_session Relay key_b (x_pub b) (signing b) (peerpub a) (negb a_first);
        let out := (sh_writer (tr := Relay) sess_a [Outgoing (Some text) true] (mkNet w [])).2 in
        let got := (sh_reader (tr := Relay) sess_b (map (λ f, ReadOk f.2 true) (n_sent out)) (reader0 wB)).2 in
        Some (event_texts (r_events got)), w).

(** Two handshakes over UDP, each reading what the other sent first, then a
    text each way over the sessions they open: the texts A and B are told. *)
Definition hello (me : Ident) (eph : StaticSecret) (peer : Ident) (addr : SocketAddr) (w : World) : list bytes :=
  map snd (n_sent (initial_handshake (x_pub me) eph (pk_bytes (public_of eph)) (peerpub peer) (signing me) addr true
    [] (mkNet w [])).2).
Definition shake (me : Ident) (eph : StaticSecret) (peer : Ident) (addr : SocketAddr) (inbox : list bytes) (w : World) :
    option KeyType :=
  match (initial_handshake (x_pub me) eph (pk_bytes (public_of eph)) (peerpub peer) (signing me) addr true
           (map (λ f, Received (Some (f, addr))) inbox) (mkNet w [])).1 with
  | Some (Ok key) => Some key
  | _ => None
  end.
Definition told {ta : Transport} (remote : SocketAddr) (sender : SessionHandle ta) (receiver : SessionHandle (Direct remote))
    (text : rstring) (w : World) : list rstring :=
  let out := (sh_writer sender [Outgoing (Some text) true] (mkNet w [])).2 in
  event_texts (r_events (sh_reader receiver (map (λ f, ReadOk (f.2, remote) true) (n_sent out)) (reader0 w)).2).

Definition handshake_and_session_roundtrip (addr_a addr_b : SocketAddr) (text_a text_b : rstring) :
    St World (option (bool * list rstring * list rstring)) :=
  let! a := ident in
  let! b := ident in
  let! (a_eph_priv, _) := generate_x25519 in
  let! (b_eph_priv, _) := generate_x25519 in
  λ w, (key_a ← shake a a_eph_priv b addr_b (hello b b_eph_priv a addr_a w) w;
        key_b ← shake b b_eph_priv a addr_a (hello a a_eph_priv b addr_b w) w;
        let a_first := am_i_first (pk_bytes (x_pub a)) (pk_bytes (x_pub b)) in
        sess_a ← start_session (Direct addr_b) key_a (x_pub a) (signing a) (peerpub b) a_first;
        sess_b ← start_session (Direct addr_a) key_b (x_pub b) (signing b) (peerpub a) (negb a_first);
        Some (bool_decide (key_a = key_b), told addr_a sess_a sess_b text_a w, told addr_b sess_b sess_a text_b w), w).

(** Two relay handshakes over crossed channels: each reads what the other's
    sends put into its channel. *)
Definition relay_hello (me : Ident) (eph : StaticSecret) (peer : Ident) (w : World) : list bytes :=
  map snd (n_sent (relay_handshake (x_pub me) eph (pk_bytes (public_of eph)) (peerpub peer) (signing me)
    [] (mkNet w [])).2).
Definition relay_shake (me : Ident) (eph : StaticSecret) (peer : Ident) (inbox : list bytes) (w : World) : option KeyType :=
  match (relay_handshake (x_pub me) eph (pk_bytes (public_of eph)) (peerpub peer) (signing me)
           (map (λ f, RelayReceived (Some f)) inbox) (mkNet w [])).1 with
  | Some (Ok key) => Some key
  | _ => None
  end.
Definition one_run : St World (option KeyType) :=
  let! a := ident in
  let! b := ident in
  let! (a_eph_priv, _) := generate_x25519 in
  let! (b_eph_priv, _) := generate_x25519 in
  λ w, (ka ← relay_shake a a_eph_priv b (relay_hello b b_eph_priv a w) w;
        kb ← relay_shake b b_eph_priv a (relay_hello a a_eph_priv b w) w;
        if decide (ka = kb) then Some ka else None, w).
Definition relay_handshake_derives_fresh_matching_keys : St World (option bool) :=
  let! k1 := one_run in
  let! k2 := one_run in
  sret (k1 ← k1; k2 ← k2; Some (negb (bool_decide (k1 = k2)))).
End P2pTests.

(** ** They pass *)

Lemma all_pass_eval l : forallb (λ b : bool, b) l = true → all_pass l.
Proof. unfold all_pass. rewrite forallb_forall, Forall_forall. intros H b Hb. by apply H, list_elem_of_In. Qed.

(** The pure tests of the client and p2p crates pass, the retry tests at any
    two instants less than ten seconds apart. *)
Theorem pure_tests_pass t0 t1 t2 :
  t0 ≤ t1 → t1 < t0 + 10000 → t1 ≤ t2 →
  all_pass (resolve_by_exact_alias ++ resolve_by_alias_prefix ++ resolve_by_fingerprint_prefix ++
    resolve_prefers_exact_alias_over_fingerprint ++ resolve_empty_or_unknown_is_none ++
    stun_default_swaps_relay_prefix ++ backoff_doubles_and_caps ++
    am_i_first_is_deterministic_and_asymmetric ++ frame_freshness_window) ∧
  all_pass (retry_first_attempt_fires_when_due_and_online t0 t1 ++ retry_waits_when_offline t0 t1 ++
    retry_waits_when_not_yet_due t0 t1 ++ retry_done_when_session_live t0 t1 ++
    retry_gives_up_at_max_attempts t0 t1 ++ retry_parked_past_max_waits t0 t1 ++ rearm_resets_ladder t0 t1 t2).
Proof.
  intros H1 H2 H3. split; [apply all_pass_eval; vm_compute; reflexivity|].
  unfold all_pass, retry_first_attempt_fires_when_due_and_online, retry_waits_when_not_yet_due, rearm_resets_ladder, acts.
  cbn [app]. unfold next_retry_action, test_intent, rearm, MAX_CONNECT_ATTEMPTS. cbn.
  destruct (Z.ltb_spec t1 t0); [lia|]. destruct (Z.ltb_spec t1 (t0 + 1000 * 10)); [|lia].
  destruct (Z.ltb_spec t2 t1); [lia|]. by repeat constructor.
Qed.

Section TestsPass.
Context `{Prim : Primitives} `{EnvI : !Env} `{SledI : Sled} `{MsgRmp : !Rmp Message}.
Context `{PmRmp : !Rmp PeerMessage} `{StunRmp : !Rmp StunPing} `{ReplyRmp : !Rmp StunReply}.
Context `{!KeyLaws, !DhLaws, !KdfLaws, !AeadLaws, !SigLaws, !RmpLaws Message, !RmpLaws PeerMessage, !RmpLaws StunReply}.

(** The tests of the crypto crate pass whatever keys, nonces and timestamps
    are drawn. *)
Theorem crypto_tests_pass (w : World) :
  (∀ m : Message, msg_text m = str "Hi" → ∃ b, rmp_to_vec m = Ok b ∧ Z.of_nat (length b) < 2 ^ 36) →
  (test_encryption_chat w).1 = Some true ∧ (test_encryption_storage w).1 = Some true ∧
  (blob_envelope_roundtrip w).1 = Some true.
Proof.
  intros Hser. split_and!.
  - unfold test_encryption_chat, derive_session_key, generate_x25519, draw, sbind, sret. cbn [fst].
    destruct (derive_shared_total (rng_secret (w_rng w)) (public_of (rng_secret (w_rng w))) (label "session")) as [k ->].
    cbn [ok_or]. destruct (encrypt_total (str "Hi") k 0) as (ct & Hct & _); [done|]. rewrite Hct. cbn [mbind option_bind].
    rewrite (decrypt_encrypted _ _ _ _ Hct). by rewrite bool_decide_eq_true_2.
  - unfold test_encryption_storage, generate_x25519, draw, message_new, utc_now. unfold sbind at 1 2. cbn [sret].
    destruct (load_storage_key_total (public_of (rng_secret (w_rng w))) (rng_secret (w_rng w))) as [k ->].
    unfold sbind at 1 2. cbn [sret]. unfold sbind at 1.
    match goal with |- context [encrypt_message_stored ?m k ?w1] =>
      destruct (Hser m eq_refl) as (b & Hb & Hl); destruct (encrypt_stored_quiet m k b w1 Hb Hl) as (data & He & _) end.
    rewrite He. cbn [sret fst].
    destruct (encrypt_stored_opens _ _ _ _ _ He) as (b' & Hb' & ->).
    rewrite (rmp_roundtrip _ _ Hb'). by rewrite bool_decide_eq_true_2.
  - unfold blob_envelope_roundtrip, generate_x25519, draw. unfold sbind at 1 2. cbn [sret]. unfold sbind at 1.
    match goal with |- context [encrypt_blob ?p ?m ?w1] => destruct (encrypt_blob p m w1) as [[blob|e] w2] eqn:He end.
    + cbn [sret fst]. rewrite (encrypt_blob_opens _ _ _ _ _ He). by rewrite bool_decide_eq_true_2.
    + exfalso. revert He. unfold encrypt_blob, sbind, ebind, draw, sret. cbn [w_rng].
      match goal with |- context [derive_shared ?a ?p ?l] => destruct (derive_shared_total a p l) as [key ->] end.
      cbn [ok_or]. match goal with |- context [aead_encrypt ?a ?n ?p] => destruct (aead_total a n p) as [ct ->] end; done.
Qed.

(** Discovery returns what the server observed. *)
Theorem stun_test_passes server server_addr (n : Net) :
  (∀ p : StunPing, ∃ b, rmp_to_vec p = Ok b) →
  (∃ b, rmp_to_vec (mkStunReply (str "203.0.113.7:41000")) = Ok b ∧ (length b ≤ 512)%nat) →
  (stun_discover_returns_observed server server_addr n).1 = Some (str "203.0.113.7:41000").
Proof.
  intros Hping (b & Hb & Hl). unfold stun_discover_returns_observed, on_world, ident, generate_x25519, generate_ed25519, draw.
  unfold sbind, sret. rewrite Hb. unfold stun_discover, sbind, on_world, utc_now. edestruct Hping as [p ->].
  cbn [seq stun_loop]. unfold emit, sbind. cbn [negb]. unfold recv_buf. rewrite take_ge by done.
  by rewrite (rmp_roundtrip _ _ Hb).
Qed.

(** A text sent over a relay session arrives. *)
Theorem relay_session_test_passes text (w wB : World) :
  (∀ m : PeerMessage, ∃ b, rmp_to_vec m = Ok b) →
  (∀ i j, frame_is_fresh (clock i) (clock j) = true) →
  Z.of_nat (length (as_bytes text)) < 2 ^ 36 →
  pk_bytes (x_pub (ident w).1) ≠ pk_bytes (x_pub (ident (ident w).2).1) →
  (relay_session_roundtrip text wB w).1 = Some [text].
Proof.
  intros Hser Hclk Hl Hne. unfold relay_session_roundtrip, sbind at 1 2.
  assert (Hid : ∀ w0, x_pub (ident w0).1 = public_of (x_priv (ident w0).1) ∧
    peerpub (ident w0).1 = mkPeerPublic (x_pub (ident w0).1) (verifying_key (signing (ident w0).1))) by done.
  destruct (Hid w) as [Ha1 Ha2]. destruct (Hid (ident w).2) as [Hb1 Hb2].
  destruct (ident w) as [a w1]. cbn [fst snd] in *. destruct (ident w1) as [b w2]. cbn [fst snd] in *.
  rewrite Ha2, Hb2. cbn [peer_public]. unfold relay_session_key.
  destruct (derive_shared_total (x_priv a) (x_pub b) (label "relay-session")) as [k Hk].
  assert (Hk' : derive_shared (x_priv b) (x_pub a) (label "relay-session") = Some k).
  { rewrite Ha1, <- derive_shared_comm, <- Hb1. exact Hk. }
  rewrite Hk, Hk'. cbn [mbind option_bind].
  set (evs := [Outgoing (Some text) true]).
  destruct (session_pair_delivers EnvI EnvI k (x_pub a) (x_pub b) (signing a) (signing b) Relay Relay Hne evs w2
    (map (λ f, ReadOk f.2 true) (n_sent (match start_session Relay k (x_pub a) (signing a)
       (mkPeerPublic (x_pub b) (verifying_key (signing b))) (am_i_first (pk_bytes (x_pub a)) (pk_bytes (x_pub b))) with
       | Some s => (sh_writer s evs (mkNet w2 [])).2 | None => mkNet w2 [] end))) wB Hser (λ m _, Hclk _ _))
    as (sA & sB & nA & HA & HB & Hw & Hrd); [done|by repeat constructor|].
  rewrite HA. rewrite <- am_i_first_asym by done. rewrite HB. cbn [mbind option_bind].
  rewrite HA, Hw in Hrd. destruct Hrd as (rB & Hr & _ & Ht); [done|]. rewrite Hw. cbn [snd].
  f_equal. cbn [snd] in Hr. change (sh_reader sB (map (λ f, ReadOk f.2 true) (n_sent nA)) (reader0 wB) = (Waiting, rB)) in Hr.
  by rewrite Hr.
Qed.

Lemma hello_sent me eph peer addr w :
  (∀ m : PeerMessage, ∃ b, rmp_to_vec m = Ok b) →
  ∃ f, hello me eph peer addr w = [f] ∧
    rmp_to_vec (make_message (clock (w_clock w)) (Init (pk_bytes (public_of eph))) (x_pub me) (signing me)) = Ok f.
Proof.
  intros Hser. unfold hello, initial_handshake, send_peer_message, peer_message_new, utc_now, emit, sbind, on_world, sret.
  cbn [n_world n_sent]. edestruct Hser as [f Hf]. rewrite Hf. by exists f.
Qed.

Lemma shake_agrees me eph peer addr w e k f :
  peerpub peer = mkPeerPublic (x_pub peer) (verifying_key (signing peer)) →
  rmp_to_vec (make_message (clock (w_clock w)) (Init e) (x_pub peer) (signing peer)) = Ok f → (length f ≤ 1024)%nat →
  (∀ i j, frame_is_fresh (clock i) (clock j) = true) → session_from eph e = Ok k →
  shake me eph peer addr [f] w = Some k.
Proof.
  intros Hp Hf Hl Hclk Hk. unfold shake. cbn [map]. rewrite Hp.
  rewrite (initial_handshake_accepts (x_pub me) eph (pk_bytes (public_of eph)) (x_pub peer) (signing peer)
    (clock (w_clock w)) e f [] [] addr addr (signing me) true (mkNet w [])) by (done || constructor).
  by rewrite Hk.
Qed.

(** The frames of a handshake and of a short text fit the receive buffers. *)
Definition frames_fit : Prop :=
  (∀ ts e pub sk b, rmp_to_vec (make_message ts (Init e) pub sk) = Ok b → (length b ≤ 1024)%nat) ∧
  (∀ ts c ct pub sk b, (length ct ≤ 64)%nat → rmp_to_vec (make_message ts (ChatMessage c ct) pub sk) = Ok b →
     (length b ≤ 2048)%nat).

#[local] Arguments recv_buf : simpl never.
Lemma told_text ta remote ka pub sk rest rest' text w :
  (∀ m : PeerMessage, ∃ b, rmp_to_vec m = Ok b) → frames_fit →
  (∀ i j, frame_is_fresh (clock i) (clock j) = true) → (length (as_bytes text) ≤ 48)%nat →
  told remote (mkSession ta rest (session_writer ka pub sk ta))
    (mkSession (Direct remote) (session_reader ka (pk_bytes pub) (verifying_key sk) (Direct remote)) rest') text w = [text].
Proof.
  intros Hser [_ Hfit] Hclk Hl. set (evs := [Outgoing (Some text) true]).
  destruct (session_writer_ok ka pub sk Hser ta evs (mkNet w [])) as (fs & n' & Hw & Hsn & Hf); [done|repeat constructor; lia|].
  unfold told. cbn [sh_writer sh_reader]. fold evs. rewrite Hw, session_reader_view. cbn [snd n_sent map app view] in *.
  assert (Hv : direct_view remote (map (λ f, ReadOk (f.2, remote) true) (n_sent n')) = map (λ b, ReadOk b true) fs).
  { rewrite <- Hsn. inv Hf. match goal with H : ok_frames _ _ _ _ _ [] _ |- _ => inv H end.
    destruct (n_sent n') as [|[to f] [|]]; simplify_eq/=. rewrite decide_False by naive_solver.
    destruct (encrypt_total text ka (as_u64 (0 + 1))) as (ct' & He & Hlen); [lia|]. simplify_eq.
    unfold recv_buf. rewrite take_ge; [done|]. eapply Hfit; [|done]. lia. }
  rewrite Hv.
  destruct (relay_reader_all EnvI EnvI ka pub sk (w_clock w) 0 evs fs (reader0 w) (λ m _, Hclk _ _) Hf) as (s' & new & -> & Hev & _ & Ht); [cbn; lia|].
  cbn [snd]. by rewrite Hev.
Qed.

(** The round trip of the p2p crate passes: both handshakes give one key and
    each side is told the other's text. *)
Theorem handshake_test_passes addr_a addr_b text_a text_b (w : World) :
  (∀ m : PeerMessage, ∃ b, rmp_to_vec m = Ok b) → frames_fit →
  (∀ i j, frame_is_fresh (clock i) (clock j) = true) →
  (length (as_bytes text_a) ≤ 48)%nat → (length (as_bytes text_b) ≤ 48)%nat →
  pk_bytes (x_pub (ident w).1) ≠ pk_bytes (x_pub (ident (ident w).2).1) →
  (handshake_and_session_roundtrip addr_a addr_b text_a text_b w).1 = Some (true, [text_a], [text_b]).
Proof.
  intros Hser Hfit Hclk Hla Hlb Hne. unfold handshake_and_session_roundtrip, sbind.
  assert (Hid : ∀ w0, peerpub (ident w0).1 = mkPeerPublic (x_pub (ident w0).1) (verifying_key (signing (ident w0).1))) by done.
  pose proof (Hid w) as Ha. pose proof (Hid (ident w).2) as Hb.
  destruct (ident w) as [a w1]. cbn [fst snd] in *. destruct (ident w1) as [b w2]. cbn [fst snd] in *.
  destruct (generate_x25519 w2) as [[ea pa] w3]. destruct (generate_x25519 w3) as [[eb pb] w4].
  destruct (session_from_agree ea eb) as (k & HkA & HkB).
  destruct (hello_sent b eb a addr_a w4 Hser) as (fb & -> & Hfb). destruct (hello_sent a ea b addr_b w4 Hser) as (fa & -> & Hfa).
  rewrite (shake_agrees a ea b addr_b w4 _ k fb Hb Hfb (proj1 Hfit _ _ _ _ _ Hfb) Hclk HkA).
  rewrite (shake_agrees b eb a addr_a w4 _ k fa Ha Hfa (proj1 Hfit _ _ _ _ _ Hfa) Hclk HkB).
  cbn [mbind option_bind]. rewrite Ha, Hb. rewrite <- am_i_first_asym by done.
  destruct (open_pair EnvI EnvI k (x_pub a) (x_pub b) (signing a) (signing b) (Direct addr_b) (Direct addr_a) Hne)
    as (ka & kb & -> & ->).
  cbn [mbind option_bind fst]. rewrite !told_text by done. by rewrite bool_decide_eq_true_2.
Qed.

Lemma relay_hello_sent me eph peer w :
  (∀ m : PeerMessage, ∃ b, rmp_to_vec m = Ok b) →
  ∃ f, relay_hello me eph peer w = [f] ∧
    rmp_to_vec (make_message (clock (w_clock w)) (Init (pk_bytes (public_of eph))) (x_pub me) (signing me)) = Ok f.
Proof.
  intros Hser. unfold relay_hello, relay_handshake, send_init, frame, peer_message_new, utc_now, emit, sbind, on_world, sret.
  cbn [n_world n_sent]. edestruct Hser as [f Hf]. rewrite Hf. by exists f.
Qed.

Lemma relay_shake_agrees me eph peer w e k f :
  peerpub peer = mkPeerPublic (x_pub peer) (verifying_key (signing peer)) →
  rmp_to_vec (make_message (clock (w_clock w)) (Init e) (x_pub peer) (signing peer)) = Ok f →
  (∀ i j, frame_is_fresh (clock i) (clock j) = true) → session_from eph e = Ok k →
  relay_shake me eph peer [f] w = Some k.
Proof.
  intros Hp Hf Hclk Hk. unfold relay_shake. cbn [map]. rewrite Hp.
  rewrite (relay_handshake_accepts (x_pub me) eph (pk_bytes (public_of eph)) (x_pub peer) (signing peer)
    (clock (w_clock w)) e f [] [] (signing me) (mkNet w [])) by (done || constructor).
  by rewrite Hk.
Qed.

(** The two ephemeral secrets a run starting at [w] draws, and the key they give. *)
Definition run_secrets (w : World) : StaticSecret * StaticSecret :=
  let w2 := (ident (ident w).2).2 in ((generate_x25519 w2).1.1, (generate_x25519 (generate_x25519 w2).2).1.1).
Definition run_key (w : World) : result KeyType P2PError :=
  session_from (run_secrets w).1 (pk_bytes (public_of (run_secrets w).2)).

Lemma one_run_key w :
  (∀ m : PeerMessage, ∃ b, rmp_to_vec m = Ok b) →
  (∀ i j, frame_is_fresh (clock i) (clock j) = true) →
  ∃ k, run_key w = Ok k ∧ (one_run w).1 = Some k.
Proof.
  intros Hser Hclk. unfold run_key, run_secrets, one_run, sbind.
  assert (Hid : ∀ w0, peerpub (ident w0).1 = mkPeerPublic (x_pub (ident w0).1) (verifying_key (signing (ident w0).1))) by done.
  pose proof (Hid w) as Ha. pose proof (Hid (ident w).2) as Hb.
  destruct (ident w) as [a w1]. cbn [fst snd] in *. destruct (ident w1) as [b w2]. cbn [fst snd] in *.
  destruct (generate_x25519 w2) as [[ea pa] w3]. cbn [fst snd]. destruct (generate_x25519 w3) as [[eb pb] w4]. cbn [fst snd].
  destruct (session_from_agree ea eb) as (k & HkA & HkB). exists k. split; [done|].
  destruct (relay_hello_sent b eb a w4 Hser) as (fb & -> & Hfb). destruct (relay_hello_sent a ea b w4 Hser) as (fa & -> & Hfa).
  rewrite (relay_shake_agrees a ea b w4 _ k fb Hb Hfb Hclk HkA), (relay_shake_agrees b eb a w4 _ k fa Ha Hfa Hclk HkB).
  cbn. by rewrite decide_True.
Qed.

(** Both relay handshakes of a run give one key, and the keys of the two runs
    differ whenever their fresh secrets derive different keys. *)
Theorem relay_handshake_test_passes (w : World) :
  (∀ m : PeerMessage, ∃ b, rmp_to_vec m = Ok b) →
  (∀ i j, frame_is_fresh (clock i) (clock j) = true) →
  run_key w ≠ run_key (one_run w).2 →
  (relay_handshake_derives_fresh_matching_keys w).1 = Some true.
Proof.
  intros Hser Hclk Hne. unfold relay_handshake_derives_fresh_matching_keys, sbind.
  destruct (one_run_key w Hser Hclk) as (k1 & Hk1 & R1). destruct (one_run_key (one_run w).2 Hser Hclk) as (k2 & Hk2 & R2).
  destruct (one_run w) as [r1 w1]. cbn [fst snd] in *. destruct (one_run w1) as [r2 w2]. cbn [fst snd sret] in *. subst.
  cbn. rewrite bool_decide_eq_false_2; [done|]. intros ->. by rewrite Hk1, Hk2 in Hne.
Qed.
End TestsPass.

(** The round trips, run on the concrete instance. *)
Module ConformanceWitness.
#[local] Existing Instances toy_prims toy_env list_sled WireWitness.toy_rmp_pm ChatDbWitness.toy_rmp_message.
Definition w0 : World := mkWorld ∅ 0 0 0.

Example handshake_test_runs :
  (handshake_and_session_roundtrip HandshakeWitness.here HandshakeWitness.there (str "hi from A") (str "hi from B") w0).1 =
  Some (true, [str "hi from A"], [str "hi from B"]).
Proof. vm_compute. reflexivity. Qed.

Example relay_session_test_runs : (relay_session_roundtrip (str "hi via relay") w0 w0).1 = Some [str "hi via relay"].
Proof. vm_compute. reflexivity. Qed.

Example crypto_tests_run :
  ((test_encryption_chat w0).1, (test_encryption_storage w0).1, (blob_envelope_roundtrip w0).1) =
  (Some true, Some true, Some true).
Proof. vm_compute. reflexivity. Qed.

Example wrong_key_test_runs : (blob_envelope_rejects_wrong_key w0).1 = Some true.
Proof. vm_compute. reflexivity. Qed.

Example relay_handshake_test_runs : (relay_handshake_derives_fresh_matching_keys (mkWorld ∅ 0 1 0)).1 = Some true.
Proof. vm_compute. reflexivity. Qed.
End ConformanceWitness.
